(** * Secure chat: end-to-end protocol core and signaling relay

    A shallow embedding of the TypeScript sources:
    - [lib/db.ts]: the in-memory store behind the Prisma-like [db] object
      (JavaScript [Map]s, iterated in insertion order);
    - [app/api/signal/route.ts]: the signaling mailbox ([GET] / [POST]);
    - [app/api/delete/route.ts] and [app/api/messages/route.ts]: storage and
      relay of delete events;
    - [lib/delete-message.ts] and [components/chat-room.tsx]: client-side
      handling of delete events;
    - [hooks/use-crypto.ts] and [components/security-settings.tsx]: message
      cipher, signatures, key storage and key reset;
    - [app/api/messages/route.ts]: pages of messages and sending, with the
      handlers of [components/chat-room.tsx] that send, decrypt and delete;
    - [lib/crypto-utils.ts]: the cipher and signature helpers outside React;
    - [lib/auth.ts] and [app/api/auth/session/route.ts]: tokens, sessions,
      magic links and logout.

    Dates are milliseconds since the epoch ([Z]), except the timestamp of a
    delete event, which the client chooses and which can be the Invalid
    Date ([Date]); JavaScript strings used as identifiers are [string]s,
    compared with [===] ([String.eqb]).  The number of arguments that the
    engine accepts in one call is a parameter ([Engine]). *)

From Stdlib Require Import ZArith List String Ascii Bool Lia Permutation Sorted.
From Stdlib Require Import DecimalString DecimalZ.
Import ListNotations.
Local Open Scope string_scope.
Local Open Scope list_scope.

(** ** JavaScript helpers *)

(** Truthiness of a string: only the empty string is falsy. *)
Definition truthy (s : string) : bool := negb (String.eqb s "").

(** [x || null] where [x] is a possibly missing string. *)
Definition or_null (x : option string) : option string :=
  match x with
  | Some s => if truthy s then Some s else None
  | None => None
  end.

(** [a === b] on [string | null]. *)
Definition opt_eqb (a b : option string) : bool :=
  match a, b with
  | Some x, Some y => String.eqb x y
  | None, None => true
  | _, _ => false
  end.

(** Outcome of a route handler: a JSON body with status 200, or an error
    status with its message. *)
Inductive Response (A : Type) : Type :=
| Ok (body : A)
| Err (status : Z) (error : string).
Arguments Ok {A} body.
Arguments Err {A} status error.

(** ** [Map<string, V>]: insertion-ordered, one entry per key *)
Module JsMap.
Section Defs.
Context {V : Type}.

Definition t := list (string * V).

Fixpoint get (m : t) (k : string) : option V :=
  match m with
  | [] => None
  | (k', v) :: m' => if String.eqb k' k then Some v else get m' k
  end.

Definition has (m : t) (k : string) : bool :=
  match get m k with Some _ => true | None => false end.

(** [set] keeps the position of an existing key and appends a new one. *)
Fixpoint set (m : t) (k : string) (v : V) : t :=
  match m with
  | [] => [(k, v)]
  | (k', v') :: m' =>
      if String.eqb k' k then (k', v) :: m' else (k', v') :: set m' k v
  end.

Definition delete (m : t) (k : string) : t :=
  filter (fun kv => negb (String.eqb (fst kv) k)) m.

Definition keys (m : t) : list string := map fst m.
Definition values (m : t) : list V := map snd m.
End Defs.
Arguments t V : clear implicits.
End JsMap.

(** ** [lib/db.ts]: records and storage *)

Record ChatMember := mkChatMember {
  cm_id : string;
  cm_chatId : string;
  cm_userId : string;
  cm_role : string;
  cm_joinedAt : Z
}.

Record Message := mkMessage {
  msg_id : string;
  msg_chatId : string;
  msg_senderId : string;
  msg_ciphertext : string;
  msg_iv : string;
  msg_contentType : string;
  msg_createdAt : Z
}.

(** A [Date] made from a value that a client chooses: its time value, or the
    Invalid Date, whose time value is [NaN].  (The dates that the server
    makes itself, from [new Date()] and [Date.now()], are always valid and
    are written as their time value.) *)
Inductive Date :=
| date (time : Z)
| Invalid_Date.

(** [d.getTime()]: [None] for [NaN]. *)
Definition getTime (d : Date) : option Z :=
  match d with
  | date t => Some t
  | Invalid_Date => None
  end.

(** [a <= b] on dates: a comparison with [NaN] is false. *)
Definition date_le (a b : Date) : bool :=
  match getTime a, getTime b with
  | Some x, Some y => (x <=? y)%Z
  | _, _ => false
  end.

(** [a.getTime() - b.getTime()]: [None] for [NaN]. *)
Definition time_difference (a b : Date) : option Z :=
  match getTime a, getTime b with
  | Some x, Some y => Some (x - y)%Z
  | _, _ => None
  end.

Record DeleteEvent := mkDeleteEvent {
  de_id : string;
  de_messageId : string;
  de_chatId : string;
  de_senderId : string;
  de_signature : string;
  de_timestamp : Date;
  de_createdAt : Z;
  de_delivered : bool
}.

Record SignalEvent := mkSignalEvent {
  se_id : string;
  se_chatId : string;
  se_fromUserId : string;
  se_toUserId : option string;
  se_type : string;
  se_payload : string;
  se_createdAt : Z;
  se_consumed : bool;
  se_expiresAt : Z
}.

Record User := mkUser {
  usr_id : string;
  usr_email : string;
  usr_publicKey : option string
}.

Record Storage := mkStorage {
  users : JsMap.t User;
  chatMembers : JsMap.t ChatMember;
  messages : JsMap.t Message;
  deleteEvents : JsMap.t DeleteEvent;
  signalEvents : JsMap.t SignalEvent
}.

Definition with_signalEvents (st : Storage) (s : JsMap.t SignalEvent) : Storage :=
  mkStorage (users st) (chatMembers st) (messages st) (deleteEvents st) s.
Definition with_deleteEvents (st : Storage) (d : JsMap.t DeleteEvent) : Storage :=
  mkStorage (users st) (chatMembers st) (messages st) d (signalEvents st).
Definition with_messages (st : Storage) (m : JsMap.t Message) : Storage :=
  mkStorage (users st) (chatMembers st) m (deleteEvents st) (signalEvents st).

(** [Array.prototype.sort] with comparator [a.key - b.key]: a stable sort,
    written as insertion from the right so that equal keys keep their order. *)
Section StableSort.
Context {A : Type} (key : A -> Z).

Fixpoint insert_by (x : A) (l : list A) : list A :=
  match l with
  | [] => [x]
  | y :: l' => if (key x <=? key y)%Z then x :: y :: l' else y :: insert_by x l'
  end.

Definition sort_by (l : list A) : list A := fold_right insert_by [] l.
End StableSort.

(** [Array.prototype.sort] with a comparator that may return [NaN] ([None]),
    which the sort takes as [+0].  A comparator with such results is not
    consistent, and ECMAScript then leaves the order to the engine: the
    order that [sort_with] gives in that case is that of the same insertion
    sort, one of the orders an engine may give, and what is proved below
    about the order is stated for arrays on which the comparator returns
    numbers only. *)
Section Sort.
Context {A : Type} (comparefn : A -> A -> option Z).

Definition sort_compare (x y : A) : Z :=
  match comparefn x y with
  | Some v => v
  | None => 0%Z
  end.

Fixpoint insert_with (x : A) (l : list A) : list A :=
  match l with
  | [] => [x]
  | y :: l' =>
      if (sort_compare x y <=? 0)%Z then x :: y :: l' else y :: insert_with x l'
  end.

Definition sort_with (l : list A) : list A := fold_right insert_with [] l.
End Sort.

Module Db.

(** [db.chatMember.findUnique({ where: { chatId_userId } })] *)
Definition chatMember_findUnique (st : Storage) (chatId userId : string)
  : option ChatMember :=
  find (fun m => String.eqb (cm_chatId m) chatId && String.eqb (cm_userId m) userId)
       (JsMap.values (chatMembers st)).

(** [db.signalEvent.findMany] with
    [where: { chatId, toUserId, consumed, expiresAt: { gt } }] and
    [orderBy: { createdAt: "asc" }]. *)
Definition signal_matches (chatId toUserId : string) (consumed : bool) (gt : Z)
           (e : SignalEvent) : bool :=
  String.eqb (se_chatId e) chatId
  && opt_eqb (se_toUserId e) (Some toUserId)
  && Bool.eqb (se_consumed e) consumed
  && negb (se_expiresAt e <=? gt)%Z.

Definition signalEvent_findMany (st : Storage) (chatId toUserId : string)
           (consumed : bool) (gt : Z) : list SignalEvent :=
  sort_by se_createdAt
    (filter (signal_matches chatId toUserId consumed gt)
            (JsMap.values (signalEvents st))).

(** [db.signalEvent.create({ data })]: [id] comes from [generateId()],
    [createdAt] from [new Date()]. *)
Definition signalEvent_create (st : Storage) (id : string) (createdAt : Z)
           (chatId fromUserId : string) (toUserId : option string)
           (type payload : string) (expiresAt : Z) (consumed : bool)
  : SignalEvent * Storage :=
  let event := mkSignalEvent id chatId fromUserId toUserId type payload
                             createdAt consumed expiresAt in
  (event, with_signalEvents st (JsMap.set (signalEvents st) id event)).

Definition set_consumed (e : SignalEvent) (c : bool) : SignalEvent :=
  mkSignalEvent (se_id e) (se_chatId e) (se_fromUserId e) (se_toUserId e)
                (se_type e) (se_payload e) (se_createdAt e) c (se_expiresAt e).

(** [db.signalEvent.updateMany({ where: { id: { in } }, data: { consumed } })] *)
Definition signalEvent_updateMany (st : Storage) (ids : list string) (consumed : bool)
  : Storage :=
  with_signalEvents st
    (fold_left
       (fun m id =>
          match JsMap.get m id with
          | Some event => JsMap.set m id (set_consumed event consumed)
          | None => m
          end)
       ids (signalEvents st)).

(** [db.signalEvent.deleteMany({ where: { expiresAt: { lt } } })] *)
Definition signalEvent_deleteMany (st : Storage) (lt : Z) : Storage :=
  with_signalEvents st
    (fold_left
       (fun m kv =>
          if (se_expiresAt (snd kv) <? lt)%Z then JsMap.delete m (fst kv) else m)
       (signalEvents st) (signalEvents st)).

(** [db.message.findUnique({ where: { id } })] *)
Definition message_findUnique (st : Storage) (id : string) : option Message :=
  JsMap.get (messages st) id.

(** [db.message.update({ where: { id }, data: { ciphertext, iv, contentType } })] *)
Definition message_update (st : Storage) (id : string)
           (ciphertext iv contentType : string) : option Message * Storage :=
  match JsMap.get (messages st) id with
  | None => (None, st)
  | Some message =>
      let updated := mkMessage (msg_id message) (msg_chatId message)
                               (msg_senderId message) ciphertext iv contentType
                               (msg_createdAt message) in
      (Some updated, with_messages st (JsMap.set (messages st) id updated))
  end.

(** [db.deleteEvent.create({ data })] *)
Definition deleteEvent_create (st : Storage) (id : string) (createdAt : Z)
           (messageId chatId senderId signature : string) (timestamp : Date)
           (delivered : bool) : DeleteEvent * Storage :=
  let event := mkDeleteEvent id messageId chatId senderId signature timestamp
                             createdAt delivered in
  (event, with_deleteEvents st (JsMap.set (deleteEvents st) id event)).

(** [db.deleteEvent.findMany({ where: { chatId, delivered?, timestamp?: { gt } },
    orderBy? })]: a row is left out when [e.timestamp <= where.timestamp.gt],
    which is false for a row whose timestamp is the Invalid Date; the
    comparator of the sort is [a.timestamp.getTime() - b.timestamp.getTime()]. *)
Definition delete_matches (chatId : string) (delivered : option bool) (gt : option Z)
           (e : DeleteEvent) : bool :=
  String.eqb (de_chatId e) chatId
  && match delivered with
     | Some d => Bool.eqb (de_delivered e) d
     | None => true
     end
  && match gt with
     | Some t => negb (date_le (de_timestamp e) (date t))
     | None => true
     end.

Definition deleteEvent_findMany (st : Storage) (chatId : string)
           (delivered : option bool) (gt : option Z) (orderAsc : bool)
  : list DeleteEvent :=
  let events := filter (delete_matches chatId delivered gt)
                       (JsMap.values (deleteEvents st)) in
  if orderAsc
  then sort_with (fun a b => time_difference (de_timestamp a) (de_timestamp b)) events
  else events.

Definition set_delivered (e : DeleteEvent) (d : bool) : DeleteEvent :=
  mkDeleteEvent (de_id e) (de_messageId e) (de_chatId e) (de_senderId e)
                (de_signature e) (de_timestamp e) (de_createdAt e) d.

(** [db.deleteEvent.updateMany({ where: { id: { in } }, data: { delivered } })] *)
Definition deleteEvent_updateMany (st : Storage) (ids : list string) (delivered : bool)
  : Storage :=
  with_deleteEvents st
    (fold_left
       (fun m id =>
          match JsMap.get m id with
          | Some event => JsMap.set m id (set_delivered event delivered)
          | None => m
          end)
       ids (deleteEvents st)).

End Db.

(** ** [app/api/signal/route.ts] *)
Module Signal.

Definition SIGNAL_TTL_MS : Z := 30 * 1000.

(** The authenticated principal: the user id of a verified bearer token if
    there is one, the session's user id otherwise. *)
Record Auth := mkAuth {
  bearer : option string;
  session : option string
}.

Definition authenticate (a : Auth) : option string :=
  match or_null (bearer a) with
  | Some u => Some u
  | None => or_null (session a)
  end.

Record SignalDTO := mkSignalDTO {
  dto_type : string;
  dto_payload : string;
  dto_fromUserId : string;
  dto_toUserId : option string;
  dto_chatId : string
}.

Definition to_dto (s : SignalEvent) : SignalDTO :=
  mkSignalDTO (se_type s) (se_payload s) (se_fromUserId s) (se_toUserId s)
              (se_chatId s).

(** Lines 49-68 of [GET]: the rows selected for [userId], and the store
    once they are marked consumed.  [now] is the [new Date()] of the query. *)
Definition fetch_signals (st : Storage) (chatId userId : string) (now : Z)
  : list SignalEvent * Storage :=
  let signals := Db.signalEvent_findMany st chatId userId false now in
  let st' :=
    if (0 <? List.length signals)%nat
    then Db.signalEvent_updateMany st (map se_id signals) true
    else st in
  (signals, st').

Definition GET (st : Storage) (a : Auth) (chatIdParam : option string) (now : Z)
  : Response (list SignalDTO) * Storage :=
  match authenticate a with
  | None => (Err 401 "Unauthorized", st)
  | Some userId =>
      match or_null chatIdParam with
      | None => (Err 400 "Chat ID required", st)
      | Some chatId =>
          match Db.chatMember_findUnique st chatId userId with
          | None => (Err 403 "Access denied", st)
          | Some _ =>
              let '(signals, st') := fetch_signals st chatId userId now in
              (Ok (map to_dto signals), st')
          end
      end
  end.

(** The JSON body of a [POST]. *)
Record PostBody := mkPostBody {
  pb_type : string;
  pb_payload : string;
  pb_toUserId : option string;
  pb_chatId : string
}.

Definition validTypes : list string := ["offer"; "answer"; "ice-candidate"].

(** What the handler reads from its environment while it runs: the clock at
    [Date.now() + SIGNAL_TTL_MS], the id and creation time chosen by
    [db.signalEvent.create], and the clock at the cleanup query. *)
Record PostEnv := mkPostEnv {
  env_now : Z;
  env_id : string;
  env_createdAt : Z;
  env_cleanup_now : Z
}.

(** [body = None] stands for a request whose body is not JSON or is the JSON
    [null]: [request.json()] throws on the first, the destructuring of the
    result on the second, and both land in the handler's [catch].  Every
    other JSON value can be destructured; a field it does not have is the
    empty string of the record, [toUserId] is [None]. *)
Definition POST (st : Storage) (a : Auth) (body : option PostBody) (env : PostEnv)
  : Response string * Storage :=
  match authenticate a with
  | None => (Err 401 "Unauthorized", st)
  | Some userId =>
      match body with
      | None => (Err 500 "Failed to send signal", st)
      | Some b =>
          if negb (truthy (pb_type b)) || negb (truthy (pb_payload b))
             || negb (truthy (pb_chatId b))
          then (Err 400 "Type, payload, and chatId are required", st)
          else if negb (existsb (String.eqb (pb_type b)) validTypes)
          then (Err 400 "Invalid signal type", st)
          else
            match Db.chatMember_findUnique st (pb_chatId b) userId with
            | None => (Err 403 "Access denied", st)
            | Some _ =>
                let target_ok :=
                  match or_null (pb_toUserId b) with
                  | Some toUserId =>
                      match Db.chatMember_findUnique st (pb_chatId b) toUserId with
                      | Some _ => true
                      | None => false
                      end
                  | None => true
                  end in
                if negb target_ok then (Err 400 "Target user not in chat", st)
                else
                  let '(signal, st1) :=
                    Db.signalEvent_create st (env_id env) (env_createdAt env)
                      (pb_chatId b) userId (or_null (pb_toUserId b))
                      (pb_type b) (pb_payload b)
                      (env_now env + SIGNAL_TTL_MS)%Z false in
                  let st2 := Db.signalEvent_deleteMany st1 (env_cleanup_now env) in
                  (Ok (se_id signal), st2)
            end
      end
  end.

End Signal.


(** ** Sessions ([lib/auth.ts], [getSession]) *)

(** A session row joined with its user ([include: { user: true }]); the user
    is [undefined] when the row's [userId] has no entry in the user table. *)
Record Session := mkSession {
  sess_id : string;
  sess_user : option string
}.

(** ** [app/api/delete/route.ts] *)
Module Delete.

(** The JSON body of a [POST]; a missing string field is the empty string.
    [pb_timestamp] is [None] when [timestamp] is missing or falsy ([null],
    [false], [0], the empty string), so that the handler takes [Date.now()];
    for every other value it is the date that [new Date(timestamp)] makes of
    it: a valid date for a number within 8.64e15 of zero and for a string
    that is a date, the Invalid Date for a number beyond that and for a
    string that is no date. *)
Record PostBody := mkPostBody {
  pb_messageId : string;
  pb_chatId : string;
  pb_signature : string;
  pb_timestamp : option Date
}.

(** Clock and id read by the handler: [Date.now()] for a missing timestamp,
    then [generateId()] and [new Date()] inside [db.deleteEvent.create]. *)
Record PostEnv := mkPostEnv {
  env_now : Z;
  env_id : string;
  env_createdAt : Z
}.

(** [new Date(timestamp || Date.now())] *)
Definition timestamp_or_now (t : option Date) (now : Z) : Date :=
  match t with
  | Some d => d
  | None => date now
  end.

(** The delete event as the responses show it. *)
Record DeleteEventDTO := mkDeleteEventDTO {
  dto_id : string;
  dto_messageId : string;
  dto_chatId : string;
  dto_senderId : string;
  dto_signature : string;
  dto_timestamp : Date
}.

Definition to_dto (e : DeleteEvent) : DeleteEventDTO :=
  mkDeleteEventDTO (de_id e) (de_messageId e) (de_chatId e) (de_senderId e)
                   (de_signature e) (de_timestamp e).

(** [body = None] stands for a request whose JSON cannot be parsed; reading
    [session.user!.id] of a session without user throws.  Both land in the
    handler's [catch]. *)
Definition POST (st : Storage) (session : option Session) (body : option PostBody)
           (env : PostEnv) : Response DeleteEventDTO * Storage :=
  let failed := (Err 500 "Failed to delete message", st) in
  match session with
  | None => (Err 401 "Unauthorized", st)
  | Some sess =>
      match body with
      | None => failed
      | Some b =>
          if negb (truthy (pb_messageId b)) || negb (truthy (pb_chatId b))
             || negb (truthy (pb_signature b))
          then (Err 400 "Message ID, chat ID, and signature are required", st)
          else
            match sess_user sess with
            | None => failed
            | Some userId =>
                match Db.chatMember_findUnique st (pb_chatId b) userId with
                | None => (Err 403 "Access denied", st)
                | Some _ =>
                    match Db.message_findUnique st (pb_messageId b) with
                    | None => (Err 404 "Message not found", st)
                    | Some message =>
                        if negb (String.eqb (msg_senderId message) userId)
                        then (Err 403 "Can only delete your own messages", st)
                        else
                          let '(deleteEvent, st1) :=
                            Db.deleteEvent_create st (env_id env) (env_createdAt env)
                              (pb_messageId b) (pb_chatId b) userId (pb_signature b)
                              (timestamp_or_now (pb_timestamp b) (env_now env))
                              false in
                          let '(_, st2) :=
                            Db.message_update st1 (pb_messageId b) "" "" "deleted" in
                          (Ok (to_dto deleteEvent), st2)
                    end
                end
            end
      end
  end.

(** A delete event of the [GET] response, with the sender's published key. *)
Record DeleteEventWithKey := mkDeleteEventWithKey {
  dk_event : DeleteEventDTO;
  dk_senderPublicKey : option string
}.

Definition with_sender_key (st : Storage) (e : DeleteEvent) : DeleteEventWithKey :=
  mkDeleteEventWithKey (to_dto e)
    match JsMap.get (users st) (de_senderId e) with
    | Some u => usr_publicKey u
    | None => None
    end.

(** [GET /api/delete?chatId=..&since=..]: [since] is the date parsed from the
    query parameter; [None] when the parameter is absent, empty, or not a date
    (every comparison with an invalid date is false, so nothing is filtered). *)
Definition GET (st : Storage) (session : option Session)
           (chatIdParam : option string) (since : option Z)
  : Response (list DeleteEventWithKey) :=
  match session with
  | None => Err 401 "Unauthorized"
  | Some sess =>
      match or_null chatIdParam with
      | None => Err 400 "Chat ID required"
      | Some chatId =>
          match sess_user sess with
          | None => Err 500 "Failed to fetch delete events"
          | Some userId =>
              match Db.chatMember_findUnique st chatId userId with
              | None => Err 403 "Access denied"
              | Some _ =>
                  Ok (map (with_sender_key st)
                          (Db.deleteEvent_findMany st chatId None since true))
              end
          end
      end
  end.

End Delete.

(** ** [app/api/messages/route.ts], [GET]: the relay of delete events

    The page of messages in the same response comes from a read-only query
    and is left out; [deleteEvents] is the other field of the body. *)
Module Messages.

Definition fetch_deleteEvents (st : Storage) (chatId : string)
  : list DeleteEvent * Storage :=
  let deleteEvents := Db.deleteEvent_findMany st chatId (Some false) None false in
  let st' :=
    if (0 <? List.length deleteEvents)%nat
    then Db.deleteEvent_updateMany st (map de_id deleteEvents) true
    else st in
  (deleteEvents, st').

Definition GET (st : Storage) (session : option Session) (chatIdParam : option string)
  : Response (list DeleteEvent) * Storage :=
  match session with
  | None => (Err 401 "Unauthorized", st)
  | Some sess =>
      match or_null chatIdParam with
      | None => (Err 400 "Chat ID required", st)
      | Some chatId =>
          match sess_user sess with
          | None => (Err 500 "Failed to fetch messages", st)
          | Some userId =>
              match Db.chatMember_findUnique st chatId userId with
              | None => (Err 403 "Access denied", st)
              | Some _ =>
                  let '(deleteEvents, st') := fetch_deleteEvents st chatId in
                  (Ok deleteEvents, st')
              end
          end
      end
  end.

End Messages.


(** ** Strings, bytes and the platform's text codecs

    A JavaScript string is its sequence of UTF-16 code units, a [Uint8Array]
    its sequence of bytes. *)
Definition jsstring := list Z.
Definition Uint8Array := list Z.

Definition is_code_unit (c : Z) : Prop := (0 <= c < 65536)%Z.
Definition is_byte (b : Z) : Prop := (0 <= b < 256)%Z.

(** The code units of an identifier of the server model. *)
Definition code_units (s : string) : jsstring :=
  map (fun c => Z.of_N (N_of_ascii c)) (list_ascii_of_string s).

Module Text.
Local Open Scope Z_scope.

Definition is_high_surrogate (c : Z) : bool := (0xD800 <=? c) && (c <=? 0xDBFF).
Definition is_low_surrogate (c : Z) : bool := (0xDC00 <=? c) && (c <=? 0xDFFF).

(** Conversion to a [USVString], as done on the argument of
    [TextEncoder.encode]: surrogate pairs give one scalar value, a surrogate
    without partner gives U+FFFD. *)
Fixpoint scalar_values (s : jsstring) : list Z :=
  match s with
  | [] => []
  | c :: rest =>
      if is_high_surrogate c then
        match rest with
        | d :: rest' =>
            if is_low_surrogate d
            then (0x10000 + (c - 0xD800) * 0x400 + (d - 0xDC00)) :: scalar_values rest'
            else 0xFFFD :: scalar_values rest
        | [] => [0xFFFD]
        end
      else if is_low_surrogate c then 0xFFFD :: scalar_values rest
      else c :: scalar_values rest
  end.

(** UTF-8 encoding of one scalar value. *)
Definition utf8_encode_one (cp : Z) : Uint8Array :=
  if cp <? 0x80 then [cp]
  else if cp <? 0x800 then [0xC0 + cp / 64; 0x80 + cp mod 64]
  else if cp <? 0x10000 then
    [0xE0 + cp / 4096; 0x80 + (cp / 64) mod 64; 0x80 + cp mod 64]
  else
    [0xF0 + cp / 262144; 0x80 + (cp / 4096) mod 64; 0x80 + (cp / 64) mod 64;
     0x80 + cp mod 64].

(** [new TextEncoder().encode(s)] *)
Definition encode (s : jsstring) : Uint8Array :=
  flat_map utf8_encode_one (scalar_values s).

(** The UTF-8 decoder of the Encoding standard.  A lead byte either is a
    scalar value by itself, or opens a sequence with the bits it carries, the
    number of continuation bytes still needed and the range allowed for the
    next byte, or is an error. *)
Inductive Lead :=
| Emit (cp : Z)
| More (cp : Z) (needed : nat) (lower upper : Z)
| Invalid.

Definition utf8_lead (b : Z) : Lead :=
  if b <=? 0x7F then Emit b
  else if (0xC2 <=? b) && (b <=? 0xDF) then More (b mod 32) 1 0x80 0xBF
  else if (0xE0 <=? b) && (b <=? 0xEF) then
    More (b mod 16) 2 (if b =? 0xE0 then 0xA0 else 0x80)
                      (if b =? 0xED then 0x9F else 0xBF)
  else if (0xF0 <=? b) && (b <=? 0xF4) then
    More (b mod 8) 3 (if b =? 0xF0 then 0x90 else 0x80)
                     (if b =? 0xF4 then 0x8F else 0xBF)
  else Invalid.

(** The decoder's loop; [pending] is the state inside a multi-byte sequence.
    A byte outside the allowed range ends the sequence with U+FFFD and is
    then read again as a lead byte; so does the end of the input. *)
Fixpoint utf8_decode_from (pending : option (Z * nat * Z * Z)) (bs : Uint8Array)
  : list Z :=
  match bs with
  | [] => match pending with None => [] | Some _ => [0xFFFD] end
  | b :: rest =>
      let as_lead :=
        match utf8_lead b with
        | Emit cp => cp :: utf8_decode_from None rest
        | More cp needed lower upper =>
            utf8_decode_from (Some (cp, needed, lower, upper)) rest
        | Invalid => 0xFFFD :: utf8_decode_from None rest
        end in
      match pending with
      | None => as_lead
      | Some (cp, needed, lower, upper) =>
          if (lower <=? b) && (b <=? upper) then
            let cp' := cp * 64 + b mod 64 in
            match needed with
            | S (S n) => utf8_decode_from (Some (cp', S n, 0x80, 0xBF)) rest
            | _ => cp' :: utf8_decode_from None rest
            end
          else 0xFFFD :: as_lead
      end
  end.

Definition utf8_decode (bs : Uint8Array) : list Z := utf8_decode_from None bs.

(** UTF-16 code units of a scalar value. *)
Definition utf16_encode_one (cp : Z) : jsstring :=
  if cp <? 0x10000 then [cp]
  else [0xD800 + (cp - 0x10000) / 0x400; 0xDC00 + (cp - 0x10000) mod 0x400].

(** A decoder made by [new TextDecoder()] has [ignoreBOM = false]: a leading
    U+FEFF is a byte order mark and is not part of the output. *)
Definition strip_bom (cps : list Z) : list Z :=
  match cps with
  | cp :: rest => if cp =? 0xFEFF then rest else cps
  | [] => []
  end.

(** [new TextDecoder().decode(bytes)] *)
Definition decode (bs : Uint8Array) : jsstring :=
  flat_map utf16_encode_one (strip_bom (utf8_decode bs)).

(** [String.prototype.isWellFormed]: code units in range, every surrogate
    paired. *)
Fixpoint well_formed (s : jsstring) : bool :=
  match s with
  | [] => true
  | c :: rest =>
      (0 <=? c) && (c <? 65536) &&
      if is_high_surrogate c then
        match rest with
        | d :: rest' => is_low_surrogate d && well_formed rest'
        | [] => false
        end
      else negb (is_low_surrogate c) && well_formed rest
  end.

End Text.


(** ** Exceptions and rejected promises

    The exceptions of the platform, and the [RangeError] of the engine. *)
Inductive Exception :=
  InvalidCharacterError | OperationError | DataError | UnknownError | RangeError.

Inductive result (A : Type) : Type :=
| Return (a : A)
| Throw (e : Exception).
Arguments Return {A} a.
Arguments Throw {A} e.

Definition bind {A B} (r : result A) (k : A -> result B) : result B :=
  match r with
  | Return a => k a
  | Throw e => Throw e
  end.

Notation "x <- r ;; k" := (bind r (fun x => k))
  (at level 61, r at next level, right associativity).

(** ** The engine

    ECMAScript puts no limit on the number of arguments of a call; every
    engine has one, and a call that passes more throws a [RangeError]
    (JavaScriptCore accepts 65536 arguments, the limits of V8 and
    SpiderMonkey are some hundred thousand).  [max_arguments] is the
    largest number of arguments the engine accepts. *)
Class Engine := {
  max_arguments : Z
}.

(** ** [btoa], [atob] and the conversions around them *)
Module Base64.
Local Open Scope Z_scope.

(** [String.fromCharCode(c1, ..., cn)]: one code unit per argument, for a
    call whose arguments the engine accepts. *)
Definition fromCharCode (l : list Z) : jsstring := map (fun c => c mod 65536) l.

(** [String.fromCharCode(...bytes)] on an array of any length: the spread
    makes every element an argument of the one call, which throws when
    they are more than the engine accepts. *)
Definition fromCharCode_spread {Eng : Engine} (bytes : list Z) : result jsstring :=
  if Z.of_nat (List.length bytes) <=? max_arguments
  then Return (fromCharCode bytes)
  else Throw RangeError.

(** [Uint8Array.from(binary, c => c.charCodeAt(0))] on a string without
    surrogates, as [atob] returns them: one element per code unit, stored
    modulo 256. *)
Definition charCodes (s : jsstring) : Uint8Array := map (fun c => c mod 256) s.

Definition b64_char (i : Z) : Z :=
  if i <? 26 then 65 + i
  else if i <? 52 then 97 + (i - 26)
  else if i <? 62 then 48 + (i - 52)
  else if i =? 62 then 43
  else 47.

Definition b64_index (c : Z) : option Z :=
  if (65 <=? c) && (c <=? 90) then Some (c - 65)
  else if (97 <=? c) && (c <=? 122) then Some (c - 97 + 26)
  else if (48 <=? c) && (c <=? 57) then Some (c - 48 + 52)
  else if c =? 43 then Some 62
  else if c =? 47 then Some 63
  else None.

(** The 6-bit groups of a byte sequence; the last group is filled with zero
    bits. *)
Fixpoint sextets (bs : list Z) : list Z :=
  match bs with
  | [] => []
  | [x] => [x / 4; (x mod 4) * 16]
  | [x; y] => [x / 4; (x mod 4) * 16 + y / 16; (y mod 16) * 4]
  | x :: y :: z :: rest =>
      x / 4 :: (x mod 4) * 16 + y / 16 :: (y mod 16) * 4 + z / 64 :: z mod 64
      :: sextets rest
  end.

Definition padding (n : nat) : list Z :=
  match (n mod 3)%nat with
  | 1%nat => [61; 61]
  | 2%nat => [61]
  | _ => []
  end.

(** [btoa(s)]: throws when a code unit is above 0xFF. *)
Definition btoa (s : jsstring) : result jsstring :=
  if forallb (fun c => (0 <=? c) && (c <=? 255)) s
  then Return (map b64_char (sextets s) ++ padding (List.length s))
  else Throw InvalidCharacterError.

Definition is_ascii_whitespace (c : Z) : bool :=
  (c =? 9) || (c =? 10) || (c =? 12) || (c =? 13) || (c =? 32).

(** When the length is a multiple of four, one or two [=] at the end are
    removed. *)
Definition strip_padding (d : list Z) : list Z :=
  if (List.length d mod 4 =? 0)%nat then
    match rev d with
    | a :: b :: r =>
        if a =? 61 then (if b =? 61 then rev r else rev (b :: r)) else d
    | [a] => if a =? 61 then [] else d
    | [] => d
    end
  else d.

Fixpoint indices (d : list Z) : option (list Z) :=
  match d with
  | [] => Some []
  | c :: rest =>
      match b64_index c, indices rest with
      | Some i, Some l => Some (i :: l)
      | _, _ => None
      end
  end.

(** Bytes of a sequence of 6-bit groups; the bits left over at the end are
    dropped. *)
Fixpoint unsextets (l : list Z) : list Z :=
  match l with
  | a :: b :: c :: d :: rest =>
      a * 4 + b / 16 :: (b mod 16) * 16 + c / 4 :: (c mod 4) * 64 + d
      :: unsextets rest
  | [a; b; c] => [a * 4 + b / 16; (b mod 16) * 16 + c / 4]
  | [a; b] => [a * 4 + b / 16]
  | _ => []
  end.

(** [atob(s)]: the forgiving base64 decoding of the HTML standard. *)
Definition atob (s : jsstring) : result jsstring :=
  let d := strip_padding (filter (fun c => negb (is_ascii_whitespace c)) s) in
  if (List.length d mod 4 =? 1)%nat then Throw InvalidCharacterError
  else
    match indices d with
    | Some l => Return (unsextets l)
    | None => Throw InvalidCharacterError
    end.

End Base64.


(** ** The platform's cryptography

    [crypto.subtle] is not part of the repository.  Its algorithms are taken
    as an interface: AES-GCM with the key's default tag length, ECDSA over
    P-256 with SHA-256 (which draws a fresh secret number for every
    signature), and the import and export of a public key in SPKI form. *)
Class WebCrypto := {
  AesKey : Type;
  SigningKey : Type;
  VerifyKey : Type;
  (** [crypto.subtle.encrypt({ name: "AES-GCM", iv }, key, data)] *)
  aes_gcm_encrypt : AesKey -> Uint8Array -> Uint8Array -> Uint8Array;
  (** [crypto.subtle.decrypt({ name: "AES-GCM", iv }, key, data)];
      [None] is the [OperationError] of a failed tag check. *)
  aes_gcm_decrypt : AesKey -> Uint8Array -> Uint8Array -> option Uint8Array;
  (** [crypto.subtle.sign({ name: "ECDSA", hash: "SHA-256" }, key, data)];
      the second argument is the secret number drawn for this signature. *)
  ecdsa_sign : SigningKey -> Z -> Uint8Array -> Uint8Array;
  (** [crypto.subtle.verify({ name: "ECDSA", hash: "SHA-256" }, key, signature, data)] *)
  ecdsa_verify : VerifyKey -> Uint8Array -> Uint8Array -> bool;
  (** [crypto.subtle.importKey("spki", keyData, ...)]; [None] is a [DataError]. *)
  import_spki : Uint8Array -> option VerifyKey;
  (** [crypto.subtle.exportKey("spki", key)] *)
  export_spki : VerifyKey -> Uint8Array;
  (** The public key of the pair a private key belongs to. *)
  public_of : SigningKey -> VerifyKey
}.

(** What the algorithms guarantee.  AES-GCM: ciphertexts are byte arrays and
    decryption with the same key and nonce returns the plaintext. *)
Class AeadCorrect (W : WebCrypto) : Prop := {
  encrypt_bytes : forall key iv data,
    Forall is_byte iv -> Forall is_byte data ->
    Forall is_byte (aes_gcm_encrypt key iv data);
  decrypt_encrypt : forall key iv data,
    Forall is_byte iv -> List.length iv = 12%nat -> Forall is_byte data ->
    aes_gcm_decrypt key iv (aes_gcm_encrypt key iv data) = Some data
}.


(** ECDSA: signatures and exported keys are byte arrays, a signature made
    with a private key verifies under the public key of its pair, and an
    exported key can be imported. *)
Class SignatureCorrect (W : WebCrypto) : Prop := {
  sign_bytes : forall sk k data,
    Forall is_byte data -> Forall is_byte (ecdsa_sign sk k data);
  verify_sign : forall sk k data,
    Forall is_byte data ->
    ecdsa_verify (public_of sk) (ecdsa_sign sk k data) data = true;
  export_bytes : forall pk, Forall is_byte (export_spki pk);
  import_export : forall pk, import_spki (export_spki pk) = Some pk
}.

(** The signature scheme taken as ideal (unforgeable, collision-free): a
    signature made for some data with some private key verifies for no other
    data and under no other public key, and what verifies has been made by
    signing. *)
Class SignatureIdeal (W : WebCrypto) : Prop := {
  verify_binds : forall pk sk k data data',
    ecdsa_verify pk (ecdsa_sign sk k data) data' = true ->
    pk = public_of sk /\ data' = data;
  verify_genuine : forall pk signature data,
    ecdsa_verify pk signature data = true ->
    exists sk k, pk = public_of sk /\ signature = ecdsa_sign sk k data
}.

(** [crypto.getRandomValues]: the generator is a source of bytes read at a
    moving position. *)
Record Rng := mkRng {
  rng_source : nat -> Z;
  rng_pos : nat
}.

Definition getRandomValues (rng : Rng) (n : nat) : Uint8Array * Rng :=
  (map (fun i => (rng_source rng (rng_pos rng + i) mod 256)%Z) (seq 0 n),
   mkRng (rng_source rng) (rng_pos rng + n)).

(** ** [hooks/use-crypto.ts]: cipher and signatures *)
Module Crypto.
Section WithPlatform.
Context {W : WebCrypto} {Eng : Engine}.

Record Encrypted := mkEncrypted {
  ciphertext : jsstring;
  iv : jsstring
}.

(** The ciphertext is as long as the message and is spread into the
    arguments of [String.fromCharCode]; the nonce has twelve bytes, a
    signature of ECDSA over P-256 sixty-four and an exported key ninety-one,
    which every engine accepts as arguments: for these the call is written
    without the limit. *)
Definition encryptMessage (plaintext : jsstring) (key : AesKey) (rng : Rng)
  : result Encrypted * Rng :=
  let data := Text.encode plaintext in
  let '(iv, rng') := getRandomValues rng 12 in
  let encrypted := aes_gcm_encrypt key iv data in
  (c <- (binary <- Base64.fromCharCode_spread encrypted ;; Base64.btoa binary) ;;
   i <- Base64.btoa (Base64.fromCharCode iv) ;;
   Return (mkEncrypted c i),
   rng').

Definition decryptMessage (ciphertext iv : jsstring) (key : AesKey)
  : result jsstring :=
  c <- Base64.atob ciphertext ;;
  let encryptedData := Base64.charCodes c in
  i <- Base64.atob iv ;;
  let ivData := Base64.charCodes i in
  match aes_gcm_decrypt key ivData encryptedData with
  | Some decrypted => Return (Text.decode decrypted)
  | None => Throw OperationError
  end.

(** [k] is the number the platform draws for this signature.  The signature
    is spread into [String.fromCharCode]; it has sixty-four bytes. *)
Definition signData (data : jsstring) (privateKey : SigningKey) (k : Z)
  : result jsstring :=
  let dataBuffer := Text.encode data in
  let signature := ecdsa_sign privateKey k dataBuffer in
  Base64.btoa (Base64.fromCharCode signature).

Definition verifySignature (data signature : jsstring) (publicKey : VerifyKey)
  : result bool :=
  let dataBuffer := Text.encode data in
  s <- Base64.atob signature ;;
  let signatureBuffer := Base64.charCodes s in
  Return (ecdsa_verify publicKey signatureBuffer dataBuffer).

Definition importPublicKey (base64Key : jsstring) : result VerifyKey :=
  k <- Base64.atob base64Key ;;
  let keyData := Base64.charCodes k in
  match import_spki keyData with
  | Some key => Return key
  | None => Throw DataError
  end.

End WithPlatform.
End Crypto.


(** ** [JSON.stringify] on the objects the client signs *)
Module Json.
Local Open Scope Z_scope.

Definition hex_digit (d : Z) : Z := if d <? 10 then 48 + d else 97 + (d - 10).

(** [\uXXXX], with lower-case digits. *)
Definition unicode_escape (c : Z) : jsstring :=
  [92; 117; hex_digit (c / 4096); hex_digit ((c / 256) mod 16);
   hex_digit ((c / 16) mod 16); hex_digit (c mod 16)].

(** A code unit that is not a surrogate. *)
Definition escape_unit (c : Z) : jsstring :=
  if c =? 8 then [92; 98]
  else if c =? 9 then [92; 116]
  else if c =? 10 then [92; 110]
  else if c =? 12 then [92; 102]
  else if c =? 13 then [92; 114]
  else if c =? 34 then [92; 34]
  else if c =? 92 then [92; 92]
  else if c <? 32 then unicode_escape c
  else [c].

(** The inside of [QuoteJSONString]: a surrogate pair is copied, a surrogate
    without partner is written as an escape. *)
Fixpoint quote_body (s : jsstring) : jsstring :=
  match s with
  | [] => []
  | c :: rest =>
      if Text.is_high_surrogate c then
        match rest with
        | d :: rest' =>
            if Text.is_low_surrogate d then c :: d :: quote_body rest'
            else unicode_escape c ++ quote_body rest
        | [] => unicode_escape c
        end
      else if Text.is_low_surrogate c then unicode_escape c ++ quote_body rest
      else escape_unit c ++ quote_body rest
  end.

Definition quote (s : jsstring) : jsstring := 34 :: quote_body s ++ [34].

(** [Number::toString] of an integer below 10^21 in absolute value: its
    decimal digits.  Timestamps are such numbers. *)
Definition number (n : Z) : jsstring :=
  code_units (DecimalString.NilZero.string_of_int (Z.to_int n)).

(** One property, [,"name":value], of an object literal. *)
Definition property (name : string) (value : jsstring) : jsstring :=
  34 :: code_units name ++ [34; 58] ++ value.

(** [JSON.stringify] of an object whose properties are given in order. *)
Fixpoint properties (ps : list (string * jsstring)) : jsstring :=
  match ps with
  | [] => []
  | [(name, value)] => property name value
  | (name, value) :: rest => property name value ++ 44 :: properties rest
  end.

Definition object (ps : list (string * jsstring)) : jsstring :=
  123 :: properties ps ++ [125].

End Json.

(** ** [lib/delete-message.ts] *)
Module DeleteMessage.
Section WithPlatform.
Context {W : WebCrypto}.

Record DeleteControlMessage := mkDeleteControlMessage {
  messageId : jsstring;
  chatId : jsstring;
  senderId : jsstring;
  signature : jsstring;
  timestamp : Z
}.

(** The data that is signed and verified:
    [JSON.stringify({ messageId, chatId, senderId, timestamp })]. *)
Definition signed_data (messageId chatId senderId : jsstring) (timestamp : Z)
  : jsstring :=
  Json.object [("messageId", Json.quote messageId);
               ("chatId", Json.quote chatId);
               ("senderId", Json.quote senderId);
               ("timestamp", Json.number timestamp)].

(** [now] is [Date.now()], [k] the number drawn for the signature. *)
Definition createDeleteEvent (messageId chatId senderId : jsstring)
           (signingPrivateKey : SigningKey) (now : Z) (k : Z)
  : result DeleteControlMessage :=
  let timestamp := now in
  let dataToSign := signed_data messageId chatId senderId timestamp in
  signature <- Crypto.signData dataToSign signingPrivateKey k ;;
  Return (mkDeleteControlMessage messageId chatId senderId signature timestamp).

(** The body of the [try] block. *)
Definition verifyDeleteEvent_try (deleteEvent : DeleteControlMessage)
           (senderPublicKeyBase64 : jsstring) : result bool :=
  publicKey <- Crypto.importPublicKey senderPublicKeyBase64 ;;
  let dataToVerify :=
    signed_data (messageId deleteEvent) (chatId deleteEvent)
                (senderId deleteEvent) (timestamp deleteEvent) in
  Crypto.verifySignature dataToVerify (signature deleteEvent) publicKey.

Definition verifyDeleteEvent (deleteEvent : DeleteControlMessage)
           (senderPublicKeyBase64 : jsstring) : bool :=
  match verifyDeleteEvent_try deleteEvent senderPublicKeyBase64 with
  | Return valid => valid
  | Throw _ => false
  end.

(** A delete event as received, with the sender's key; an absent key is
    [None]. *)
Record DeleteEventWithKey := mkDeleteEventWithKey {
  event : DeleteControlMessage;
  senderPublicKey : option jsstring
}.

(** [Map<string, unknown>]: the local message store. *)
Definition LocalStore (V : Type) := list (jsstring * V).

Definition jsstring_eqb (a b : jsstring) : bool :=
  if list_eq_dec Z.eq_dec a b then true else false.

Definition store_has {V} (m : LocalStore V) (k : jsstring) : bool :=
  existsb (fun kv => jsstring_eqb (fst kv) k) m.

Definition store_delete {V} (m : LocalStore V) (k : jsstring) : LocalStore V :=
  filter (fun kv => negb (jsstring_eqb (fst kv) k)) m.

(** One turn of the loop of [processDeleteEvents]; the state is the local
    store and the ids deleted so far, which are also the calls made to
    [onDelete], in order. *)
Definition process_one {V} (state : LocalStore V * list jsstring)
           (e : DeleteEventWithKey) : LocalStore V * list jsstring :=
  let '(localMessageStore, deletedIds) := state in
  match senderPublicKey e with
  | None => state
  | Some key =>
      if jsstring_eqb key [] then state
      else if negb (verifyDeleteEvent (event e) key) then state
      else if store_has localMessageStore (messageId (event e))
      then (store_delete localMessageStore (messageId (event e)),
            deletedIds ++ [messageId (event e)])
      else state
  end.

Definition processDeleteEvents {V} (deleteEvents : list DeleteEventWithKey)
           (localMessageStore : LocalStore V) : LocalStore V * list jsstring :=
  fold_left process_one deleteEvents (localMessageStore, []).

End WithPlatform.
End DeleteMessage.


(** ** [components/chat-room.tsx]: the effect that processes delete events *)
Module ChatRoom.
Section WithPlatform.
Context {W : WebCrypto}.

(** An element of [data.deleteEvents] as the component reads it. *)
Record DeleteEventView := mkDeleteEventView {
  messageId : jsstring;
  senderId : jsstring;
  signature : jsstring;
  senderPublicKey : option jsstring
}.

(** [Set<string>], in insertion order. *)
Definition set_has (s : list jsstring) (x : jsstring) : bool :=
  existsb (DeleteMessage.jsstring_eqb x) s.

Definition set_add (s : list jsstring) (x : jsstring) : list jsstring :=
  if set_has s x then s else s ++ [x].

(** The [try] block: import the key and verify the signature over
    [JSON.stringify({ messageId, senderId })]. *)
Definition verify_view (e : DeleteEventView) (key : jsstring) : result bool :=
  pubKey <- Crypto.importPublicKey key ;;
  let dataToVerify :=
    Json.object [("messageId", Json.quote (messageId e));
                 ("senderId", Json.quote (senderId e))] in
  Crypto.verifySignature dataToVerify (signature e) pubKey.

Definition process_one (newDeleted : list jsstring) (e : DeleteEventView)
  : list jsstring :=
  if set_has newDeleted (messageId e) then newDeleted
  else
    match senderPublicKey e with
    | Some key =>
        if DeleteMessage.jsstring_eqb key [] then set_add newDeleted (messageId e)
        else
          match verify_view e key with
          | Return true => set_add newDeleted (messageId e)
          | Return false => newDeleted
          | Throw _ => newDeleted
          end
    | None => set_add newDeleted (messageId e)
    end.

(** [processDeletes]: the value given to [setDeletedMessageIds]. *)
Definition processDeletes (deletedMessageIds : list jsstring)
           (deleteEvents : list DeleteEventView) : list jsstring :=
  fold_left process_one deleteEvents deletedMessageIds.

End WithPlatform.
End ChatRoom.

(** ** [hooks/use-crypto.ts], [components/security-settings.tsx]: key storage *)
Module KeyStore.
Section WithPlatform.
Context {W : WebCrypto}.

Record StoredKeyPair := mkStoredKeyPair {
  encryptionKey : AesKey;
  signingPublicKey : VerifyKey;
  signingPrivateKey : SigningKey;
  exportedPublicKey : jsstring
}.

(** The object store [cryptoKeys] of the database [SecureChatKeys]: the
    record kept under the id ["primary"], if any. *)
Definition ObjectStore := option StoredKeyPair.

(** The state of the [useCrypto] hook. *)
Record Hook := mkHook {
  isReady : bool;
  hook_encryptionKey : option AesKey;
  hook_signingKeyPair : option (VerifyKey * SigningKey);
  publicKeyExport : option jsstring
}.

(** What the environment decides during a reset: which requests to IndexedDB
    fail, whether key generation fails, and the keys [generateKey] returns. *)
Record Env := mkEnv {
  clear_open_fails : bool;
  clear_fails : bool;
  load_open_fails : bool;
  get_fails : bool;
  generate_fails : bool;
  newEncKey : AesKey;
  newSignPublic : VerifyKey;
  newSignPrivate : SigningKey;
  save_open_fails : bool;
  put_fails : bool
}.

Definition failing (fails : bool) : result unit :=
  if fails then Throw UnknownError else Return tt.

Definition saveKeys (db : ObjectStore) (env : Env) (k : StoredKeyPair)
  : result unit * ObjectStore :=
  if save_open_fails env then (Throw UnknownError, db)
  else if put_fails env then (Throw UnknownError, db)
  else (Return tt, Some k).

Definition loadKeys (db : ObjectStore) (env : Env) : result (option StoredKeyPair) :=
  _ <- failing (load_open_fails env) ;;
  _ <- failing (get_fails env) ;;
  Return db.

Definition loaded (k : StoredKeyPair) : Hook :=
  mkHook true (Some (encryptionKey k))
         (Some (signingPublicKey k, signingPrivateKey k))
         (Some (exportedPublicKey k)).

(** The [try] block of [initializeKeys]: its result, the object store, and
    the state the hook has been given when the block returns or throws. *)
Definition initializeKeys_try (db : ObjectStore) (hook : Hook) (env : Env)
  : result jsstring * ObjectStore * Hook :=
  match loadKeys db env with
  | Throw e => (Throw e, db, hook)
  | Return (Some stored) => (Return (exportedPublicKey stored), db, loaded stored)
  | Return None =>
      if generate_fails env then (Throw OperationError, db, hook)
      else
        let pubKeyExport := export_spki (newSignPublic env) in
        match Base64.btoa (Base64.fromCharCode pubKeyExport) with
        | Throw e => (Throw e, db, hook)
        | Return exportedPubKey =>
            let k := mkStoredKeyPair (newEncKey env) (newSignPublic env)
                                     (newSignPrivate env) exportedPubKey in
            match saveKeys db env k with
            | (Throw e, db') => (Throw e, db', hook)
            | (Return _, db') => (Return exportedPubKey, db', loaded k)
            end
        end
  end.

Definition set_isReady (hook : Hook) (b : bool) : Hook :=
  mkHook b (hook_encryptionKey hook) (hook_signingKeyPair hook) (publicKeyExport hook).

(** [initializeKeys]: [None] is the [null] returned by the [catch]. *)
Definition initializeKeys (db : ObjectStore) (hook : Hook) (env : Env)
  : option jsstring * ObjectStore * Hook :=
  match initializeKeys_try db hook env with
  | (Return exported, db', hook') => (Some exported, db', hook')
  | (Throw _, db', hook') => (None, db', set_isReady hook' false)
  end.

Definition clearKeys (db : ObjectStore) (hook : Hook) (env : Env)
  : result unit * ObjectStore * Hook :=
  if clear_open_fails env then (Throw UnknownError, db, hook)
  else if clear_fails env then (Throw UnknownError, db, hook)
  else (Return tt, None, mkHook false None None None).

(** [handleReset]: [await clearKeys(); await initializeKeys()]. *)
Definition handleReset (db : ObjectStore) (hook : Hook) (env : Env)
  : result (option jsstring) * ObjectStore * Hook :=
  match clearKeys db hook env with
  | (Throw e, db', hook') => (Throw e, db', hook')
  | (Return _, db', hook') =>
      let '(r, db'', hook'') := initializeKeys db' hook' env in
      (Return r, db'', hook'')
  end.

End WithPlatform.
End KeyStore.


(** ** A small platform

    A model of the interface, for closed instances of the statements below:
    keys are single bits or bytes, the cipher prefixes the key and the nonce
    to the data, a signature is the key, the drawn number and the data. *)
Module Reference.
Local Open Scope Z_scope.

Definition bytes_eqb (a b : Uint8Array) : bool :=
  if list_eq_dec Z.eq_dec a b then true else false.

Definition key_byte (k : bool) : Z := if k then 1 else 0.

Definition encrypt (key : Z) (iv data : Uint8Array) : Uint8Array :=
  key mod 256 :: iv ++ data.

Definition decrypt (key : Z) (iv data : Uint8Array) : option Uint8Array :=
  match data with
  | t :: c =>
      if (t =? key mod 256) && bytes_eqb iv (firstn (List.length iv) c)
      then Some (skipn (List.length iv) c)
      else None
  | [] => None
  end.

Definition sign (sk : bool) (k : Z) (data : Uint8Array) : Uint8Array :=
  key_byte sk :: k mod 256 :: data.

Definition verify (pk : bool) (signature data : Uint8Array) : bool :=
  match signature with
  | a :: b :: m => (a =? key_byte pk) && (b =? b mod 256) && bytes_eqb m data
  | _ => false
  end.

Definition import (keyData : Uint8Array) : option bool :=
  match keyData with
  | [b] => if b =? 1 then Some true else if b =? 0 then Some false else None
  | _ => None
  end.

Definition export (pk : bool) : Uint8Array := [key_byte pk].

#[export] Instance platform : WebCrypto := {
  AesKey := Z;
  SigningKey := bool;
  VerifyKey := bool;
  aes_gcm_encrypt := encrypt;
  aes_gcm_decrypt := decrypt;
  ecdsa_sign := sign;
  ecdsa_verify := verify;
  import_spki := import;
  export_spki := export;
  public_of := fun sk => sk
}.

(** An engine that accepts 65536 arguments, as JavaScriptCore does. *)
#[export] Instance engine : Engine := {
  max_arguments := 65536
}.

(** A generator that counts. *)
Definition counting_rng : Rng := mkRng (fun i => Z.of_nat i) 0.

End Reference.


(** ** A small scenario

    Two users, Alice and Bob, share the chat ["chat-1"]; Carol is in no chat.
    Alice has sent the message ["m1"]. *)
Module Scenario.
Local Open Scope Z_scope.

Definition alice : User := mkUser "alice" "alice@example.com" (Some "AQ==").
Definition bob : User := mkUser "bob" "bob@example.com" (Some "AA==").

Definition members : JsMap.t ChatMember :=
  [("member-1", mkChatMember "member-1" "chat-1" "alice" "member" 0);
   ("member-2", mkChatMember "member-2" "chat-1" "bob" "member" 0)].

Definition m1 : Message :=
  mkMessage "m1" "chat-1" "alice" "3q2+7w==" "AAECAwQFBgcICQoL" "text" 1000.

Definition store : Storage :=
  mkStorage [("alice", alice); ("bob", bob)] members [("m1", m1)] [] [].

Definition alice_session : Session := mkSession "s-alice" (Some "alice").
Definition bob_session : Session := mkSession "s-bob" (Some "bob").

Definition as_alice : Signal.Auth := Signal.mkAuth (Some "alice") None.
Definition as_bob : Signal.Auth := Signal.mkAuth None (Some "bob").

(** An offer and an answer addressed to Bob, stored in the reverse order of
    their creation, and a signal that has expired at time 50000. *)
Definition answer : SignalEvent :=
  mkSignalEvent "sig-2" "chat-1" "alice" (Some "bob") "answer" "sdp-2" 2000 false 32000.
Definition offer : SignalEvent :=
  mkSignalEvent "sig-1" "chat-1" "alice" (Some "bob") "offer" "sdp-1" 1000 false 31000.
Definition stale : SignalEvent :=
  mkSignalEvent "sig-0" "chat-1" "alice" (Some "bob") "offer" "sdp-0" 10 false 30010.

Definition signal_store : Storage :=
  with_signalEvents store
    [("sig-2", answer); ("sig-1", offer); ("sig-0", stale)].

(** A signal posted by Alice to nobody in particular. *)
Definition broadcast : Signal.PostBody :=
  Signal.mkPostBody "offer" "sdp-3" None "chat-1".
Definition broadcast_env : Signal.PostEnv :=
  Signal.mkPostEnv 40000 "sig-3" 40001 40002.

(** Delete requests for ["m1"]: one whose signature is not even base64, and
    the environment of the handler. *)
Definition unsigned_request : Delete.PostBody :=
  Delete.mkPostBody "m1" "chat-1" "x" (Some (date 5000)).
Definition delete_env : Delete.PostEnv := Delete.mkPostEnv 5001 "del-1" 5002.

(** Bob's request to delete Alice's message, signed with Bob's key of the
    small platform (the bit [false], exported as ["AA=="]) at time 5000. *)
Definition bob_request : Delete.PostBody :=
  Delete.mkPostBody "m1" "chat-1"
    "AAd7Im1lc3NhZ2VJZCI6Im0xIiwiY2hhdElkIjoiY2hhdC0xIiwic2VuZGVySWQiOiJib2IiLCJ0aW1lc3RhbXAiOjUwMDB9"
    (Some (date 5000)).

(** The store once Alice's delete event for ["m1"] is recorded. *)
Definition delete_store : Storage :=
  with_deleteEvents store
    [("del-1", mkDeleteEvent "del-1" "m1" "chat-1" "alice" "x" (date 5000) 5002 false)].

(** Plaintexts, a key set of the small platform, and environments of a key
    reset: one where nothing fails, one where saving the new keys fails. *)
Definition hello : jsstring := Eval cbv in code_units "hello".
Definition bom_hi : jsstring := [0xFEFF; 104; 105].

Definition old_keys : KeyStore.StoredKeyPair (W := Reference.platform) :=
  KeyStore.mkStoredKeyPair (W := Reference.platform) 7 true true
    (code_units "AQ==").
Definition old_hook : KeyStore.Hook (W := Reference.platform) :=
  KeyStore.loaded old_keys.
Definition reset_env (put_fails : bool) : KeyStore.Env (W := Reference.platform) :=
  KeyStore.mkEnv (W := Reference.platform)
    false false false false false 9 false false false put_fails.

End Scenario.


(** ** [Number.parseInt] without radix, [Array.prototype.slice] and
    [Array.prototype.findIndex]

    A string of the server model holds code units below 256; among these the
    white space that [parseInt] skips is TAB, LF, VT, FF, CR, SP and NBSP.
    The result is [None] for [NaN] and the integer read otherwise.  (The
    Number it stands for is the nearest double; the handlers below compare it
    with an array length and use it as a bound of [slice], which does not
    tell an integer beyond 2^53 from its nearest double.) *)
Module Number.
Local Open Scope Z_scope.

Definition code (c : ascii) : Z := Z.of_N (N_of_ascii c).

Definition is_white_space (c : ascii) : bool :=
  existsb (Z.eqb (code c)) [9; 10; 11; 12; 13; 32; 160].

Fixpoint trim_start (s : string) : string :=
  match s with
  | String c rest => if is_white_space c then trim_start rest else s
  | EmptyString => s
  end.

Definition digit_value (c : ascii) : option Z :=
  let n := code c in
  if (48 <=? n) && (n <=? 57) then Some (n - 48)
  else if (97 <=? n) && (n <=? 122) then Some (n - 87)
  else if (65 <=? n) && (n <=? 90) then Some (n - 55)
  else None.

(** The digits of radix [R] at the start of [s]. *)
Fixpoint leading_digits (R : Z) (s : string) : list Z :=
  match s with
  | String c rest =>
      match digit_value c with
      | Some d => if d <? R then d :: leading_digits R rest else []
      | None => []
      end
  | EmptyString => []
  end.

Definition value (R : Z) (digits : list Z) : Z :=
  fold_left (fun acc d => acc * R + d) digits 0.

Definition parseInt (inputString : string) : option Z :=
  let S1 := trim_start inputString in
  let sign :=
    match S1 with
    | String c _ => if code c =? 45 then -1 else 1
    | EmptyString => 1
    end in
  let S2 :=
    match S1 with
    | String c rest => if (code c =? 43) || (code c =? 45) then rest else S1
    | EmptyString => S1
    end in
  let '(R, S3) :=
    match S2 with
    | String c0 (String c1 rest) =>
        if (code c0 =? 48) && ((code c1 =? 120) || (code c1 =? 88))
        then (16, rest) else (10, S2)
    | _ => (10, S2)
    end in
  match leading_digits R S3 with
  | [] => None
  | digits => Some (sign * value R digits)
  end.

(** An index relative to the end when negative, clamped to the array. *)
Definition relative_index (len i : Z) : Z :=
  if i <? 0 then Z.max (len + i) 0 else Z.min i len.

(** [l.slice(start, end)]; [None] is an omitted [end]. *)
Definition slice {A} (l : list A) (start : Z) (end_ : option Z) : list A :=
  let len := Z.of_nat (List.length l) in
  let k := relative_index len start in
  let final :=
    match end_ with
    | Some e => relative_index len e
    | None => len
    end in
  firstn (Z.to_nat (final - k)) (skipn (Z.to_nat k) l).

(** [l.findIndex(p)]: [-1] when no element satisfies [p]. *)
Fixpoint findIndex {A} (p : A -> bool) (l : list A) : Z :=
  match l with
  | [] => -1
  | x :: rest =>
      if p x then 0
      else let i := findIndex p rest in if i =? -1 then -1 else i + 1
  end.

End Number.

(** ** [app/api/messages/route.ts]: pages of messages, and sending *)
Module MessagesPage.
Local Open Scope Z_scope.

(** A message with the [sender] that [db.message] attaches when the query
    selects it: the sender's row of the user table, if there is one. *)
Record MessageWithSender := mkMessageWithSender {
  mws_message : Message;
  mws_sender : option User
}.

Inductive Order := asc | desc.

(** [skip || 0] *)
Definition or_zero (skip : option Z) : Z :=
  match skip with Some n => n | None => 0 end.

(** [db.message.findMany({ where: { chatId }, orderBy, take, cursor, skip,
    select })].  The comparator of the descending sort is
    [b.createdAt - a.createdAt]; [take] is [None] when it is [undefined] or
    [NaN]; [select_sender] tells whether [select.sender] is set. *)
Definition message_findMany (st : Storage) (chatId : string) (orderBy : option Order)
           (take : option Z) (cursor : option string) (skip : option Z)
           (select_sender : bool) : list MessageWithSender :=
  let messages :=
    filter (fun m => String.eqb (msg_chatId m) chatId) (JsMap.values (messages st)) in
  let messages :=
    match orderBy with
    | Some desc => sort_by (fun m => - msg_createdAt m) messages
    | Some asc => sort_by msg_createdAt messages
    | None => messages
    end in
  let messages :=
    match or_null cursor with
    | Some id =>
        let cursorIndex :=
          Number.findIndex (fun m => String.eqb (msg_id m) id) messages in
        if cursorIndex =? -1 then messages
        else Number.slice messages (cursorIndex + or_zero skip) None
    | None => messages
    end in
  let messages :=
    match take with
    | Some n => if n =? 0 then messages else Number.slice messages 0 (Some n)
    | None => messages
    end in
  map (fun m => mkMessageWithSender m
                  (if select_sender then JsMap.get (users st) (msg_senderId m)
                   else None))
      messages.

(** [nextCursor] in the response: [null], an id, or [undefined] (the
    property is then left out of the JSON). *)
Inductive NextCursor :=
| cursor_null
| cursor_undefined
| cursor_id (id : string).

Record Page := mkPage {
  page_messages : list MessageWithSender;
  page_deleteEvents : list DeleteEvent;
  page_nextCursor : NextCursor
}.

(** [messages.length === limit] *)
Definition length_is {A} (l : list A) (limit : option Z) : bool :=
  match limit with
  | Some n => Z.of_nat (List.length l) =? n
  | None => false
  end.

(** [messages[messages.length - 1]?.id] *)
Definition last_id (l : list MessageWithSender) : NextCursor :=
  match rev l with
  | m :: _ => cursor_id (msg_id (mws_message m))
  | [] => cursor_undefined
  end.

(** [GET /api/messages?chatId=..&cursor=..&limit=..].  In the object the
    handler returns, [messages.reverse()] comes first: it reverses the array
    in place, so the [messages] that [nextCursor] then reads is the reversed
    array. *)
Definition GET (st : Storage) (session : option Session)
           (chatIdParam cursorParam limitParam : option string)
  : Response Page * Storage :=
  match session with
  | None => (Err 401 "Unauthorized", st)
  | Some sess =>
      let limit :=
        Number.parseInt
          match or_null limitParam with Some l => l | None => "50" end in
      match or_null chatIdParam with
      | None => (Err 400 "Chat ID required", st)
      | Some chatId =>
          match sess_user sess with
          | None => (Err 500 "Failed to fetch messages", st)
          | Some userId =>
              match Db.chatMember_findUnique st chatId userId with
              | None => (Err 403 "Access denied", st)
              | Some _ =>
                  let messages :=
                    message_findMany st chatId (Some desc) limit
                      (or_null cursorParam)
                      match or_null cursorParam with
                      | Some _ => Some 1
                      | None => None
                      end
                      true in
                  let '(deleteEvents, st') :=
                    Messages.fetch_deleteEvents st chatId in
                  let messages := rev messages in
                  (Ok (mkPage messages deleteEvents
                         (if length_is messages limit then last_id messages
                          else cursor_null)),
                   st')
              end
          end
      end
  end.

(** The chat table of [lib/db.ts]. *)
Record Chat := mkChat {
  chat_id : string;
  chat_name : option string;
  chat_isGroup : bool;
  chat_createdAt : Z;
  chat_updatedAt : Z
}.

Definition set_updatedAt (c : Chat) (t : Z) : Chat :=
  mkChat (chat_id c) (chat_name c) (chat_isGroup c) (chat_createdAt c) t.

(** [db.message.create({ data, select })]: [id] is [generateId()],
    [createdAt] the [new Date()] of the row, [touched] the [new Date()]
    written to the chat. *)
Definition message_create (st : Storage) (chats : JsMap.t Chat)
           (id : string) (createdAt touched : Z)
           (chatId senderId ciphertext iv contentType : string)
           (select_sender : bool)
  : MessageWithSender * Storage * JsMap.t Chat :=
  let message := mkMessage id chatId senderId ciphertext iv contentType createdAt in
  let st' := with_messages st (JsMap.set (messages st) id message) in
  let chats' :=
    match JsMap.get chats chatId with
    | Some chat => JsMap.set chats (chat_id chat) (set_updatedAt chat touched)
    | None => chats
    end in
  (mkMessageWithSender message
     (if select_sender then JsMap.get (users st') senderId else None),
   st', chats').

(** [db.chat.update({ where: { id }, data: { updatedAt } })]: the row is
    [{ ...chat, ...data, updatedAt: new Date() }], with [now] that date. *)
Definition chat_update (chats : JsMap.t Chat) (id : string) (data_updatedAt : Z)
           (now : Z) : option Chat * JsMap.t Chat :=
  match JsMap.get chats id with
  | None => (None, chats)
  | Some chat =>
      let updated := set_updatedAt (set_updatedAt chat data_updatedAt) now in
      (Some updated, JsMap.set chats id updated)
  end.

(** The JSON body of a [POST]; a missing string field is the empty string,
    a missing [contentType] is [None]. *)
Record PostBody := mkPostBody {
  pb_chatId : string;
  pb_ciphertext : string;
  pb_iv : string;
  pb_contentType : option string
}.

(** What the handler reads while it runs: the id and the two dates of
    [db.message.create], then the date the handler passes to
    [db.chat.update] and the one that call takes itself. *)
Record PostEnv := mkPostEnv {
  env_id : string;
  env_createdAt : Z;
  env_touched : Z;
  env_data_updatedAt : Z;
  env_updated : Z
}.

Definition POST (st : Storage) (chats : JsMap.t Chat) (session : option Session)
           (body : option PostBody) (env : PostEnv)
  : Response MessageWithSender * Storage * JsMap.t Chat :=
  let failed := (Err 500 "Failed to send message", st, chats) in
  match session with
  | None => (Err 401 "Unauthorized", st, chats)
  | Some sess =>
      match body with
      | None => failed
      | Some b =>
          let contentType :=
            match pb_contentType b with Some c => c | None => "text" end in
          if negb (truthy (pb_chatId b)) || negb (truthy (pb_ciphertext b))
             || negb (truthy (pb_iv b))
          then (Err 400 "Chat ID, ciphertext, and IV are required", st, chats)
          else
            match sess_user sess with
            | None => failed
            | Some userId =>
                match Db.chatMember_findUnique st (pb_chatId b) userId with
                | None => (Err 403 "Access denied", st, chats)
                | Some _ =>
                    let '(message, st1, chats1) :=
                      message_create st chats (env_id env) (env_createdAt env)
                        (env_touched env) (pb_chatId b) userId
                        (pb_ciphertext b) (pb_iv b) contentType true in
                    let '(_, chats2) :=
                      chat_update chats1 (pb_chatId b) (env_data_updatedAt env)
                                  (env_updated env) in
                    (Ok message, st1, chats2)
                end
            end
      end
  end.

End MessagesPage.


(** ** [components/chat-room.tsx]: sending, decrypting and deleting *)
Module ChatRoomActions.
Local Open Scope Z_scope.

(** White space and line terminators, the code units [String.prototype.trim]
    removes. *)
Definition is_white_space (c : Z) : bool :=
  existsb (Z.eqb c)
    [0x09; 0x0A; 0x0B; 0x0C; 0x0D; 0x20; 0xA0; 0x1680; 0x2028; 0x2029; 0x202F;
     0x205F; 0x3000; 0xFEFF]
  || ((0x2000 <=? c) && (c <=? 0x200A)).

Fixpoint trim_start (s : jsstring) : jsstring :=
  match s with
  | c :: rest => if is_white_space c then trim_start rest else s
  | [] => []
  end.

Fixpoint trim_end (s : jsstring) : jsstring :=
  match s with
  | c :: rest =>
      match trim_end rest with
      | [] => if is_white_space c then [] else [c]
      | kept => c :: kept
      end
  | [] => []
  end.

(** [s.trim()] *)
Definition trim (s : jsstring) : jsstring := trim_end (trim_start s).

(** Truthiness of a string. *)
Definition nonempty (s : jsstring) : bool :=
  match s with [] => false | _ :: _ => true end.

(** [Map<string, V>.get] and [.set] on the maps the component keeps; [set]
    keeps the place of a key that is present. *)
Fixpoint store_get {V} (m : DeleteMessage.LocalStore V) (k : jsstring) : option V :=
  match m with
  | [] => None
  | (k', v) :: rest =>
      if DeleteMessage.jsstring_eqb k' k then Some v else store_get rest k
  end.

Fixpoint store_set {V} (m : DeleteMessage.LocalStore V) (k : jsstring) (v : V)
  : DeleteMessage.LocalStore V :=
  match m with
  | [] => [(k, v)]
  | (k', v') :: rest =>
      if DeleteMessage.jsstring_eqb k' k then (k', v) :: rest
      else (k', v') :: store_set rest k v
  end.

(** A message of the page as the component reads it. *)
Record ShownMessage := mkShownMessage {
  sm_id : jsstring;
  sm_senderId : jsstring;
  sm_ciphertext : jsstring;
  sm_iv : jsstring;
  sm_contentType : jsstring
}.

(** The body of the request [handleSend] makes. *)
Record SendRequest := mkSendRequest {
  sr_chatId : jsstring;
  sr_ciphertext : jsstring;
  sr_iv : jsstring;
  sr_contentType : jsstring
}.

(** The body of the request [handleDelete] makes. *)
Record DeleteRequest := mkDeleteRequest {
  dr_messageId : jsstring;
  dr_chatId : jsstring;
  dr_signature : jsstring;
  dr_timestamp : Z
}.

Section WithPlatform.
Context {W : WebCrypto} {Eng : Engine}.

Definition unable_to_decrypt : jsstring := code_units "[Unable to decrypt]".

(** One turn of the loop of [decryptAll]. *)
Definition decrypt_one (key : AesKey) (newDecrypted : DeleteMessage.LocalStore jsstring)
           (msg : ShownMessage) : DeleteMessage.LocalStore jsstring :=
  if negb (DeleteMessage.store_has newDecrypted (sm_id msg))
     && nonempty (sm_ciphertext msg) && nonempty (sm_iv msg)
     && negb (DeleteMessage.jsstring_eqb (sm_contentType msg) (code_units "deleted"))
  then
    match Crypto.decryptMessage (sm_ciphertext msg) (sm_iv msg) key with
    | Return plaintext => store_set newDecrypted (sm_id msg) plaintext
    | Throw _ => store_set newDecrypted (sm_id msg) unable_to_decrypt
    end
  else newDecrypted.

(** The effect that decrypts the messages: the value of [decryptedMessages]
    once it has run.  The hook's [decryptMessage] is [null] as long as the
    hook has no encryption key. *)
Definition decryptAll (encryptionKey : option AesKey)
           (decryptedMessages : DeleteMessage.LocalStore jsstring)
           (messages : list ShownMessage) : DeleteMessage.LocalStore jsstring :=
  match encryptionKey, messages with
  | Some key, _ :: _ => fold_left (decrypt_one key) messages decryptedMessages
  | _, _ => decryptedMessages
  end.

(** [handleSend]: the request made, if any, then [inputValue] and
    [isSending] when the handler is done.  [response_ok] tells whether the
    request is answered with a success status (a request that fails
    altogether counts as not answered so). *)
Definition handleSend (chatId inputValue : jsstring) (encryptionKey : option AesKey)
           (isSending : bool) (rng : Rng) (response_ok : SendRequest -> bool)
  : option SendRequest * jsstring * bool * Rng :=
  match encryptionKey with
  | None => (None, inputValue, isSending, rng)
  | Some key =>
      if negb (nonempty (trim inputValue)) || isSending
      then (None, inputValue, isSending, rng)
      else
        match Crypto.encryptMessage (trim inputValue) key rng with
        | (Throw _, rng') => (None, inputValue, false, rng')
        | (Return e, rng') =>
            let request :=
              mkSendRequest chatId (Crypto.ciphertext e) (Crypto.iv e)
                            (code_units "text") in
            if response_ok request then (Some request, [], false, rng')
            else (Some request, inputValue, false, rng')
        end
  end.

(** The data [handleDelete] signs and [processDeletes] verifies. *)
Definition delete_data (messageId senderId : jsstring) : jsstring :=
  Json.object [("messageId", Json.quote messageId);
               ("senderId", Json.quote senderId)].

(** [handleDelete]: the request made, if any, and [deletedMessageIds] when
    the handler is done.  The hook's [signData] is [null] as long as the hook
    has no signing key; [k] is the number drawn for the signature, [now] is
    [Date.now()]. *)
Definition handleDelete (chatId currentUserId messageId : jsstring)
           (signingKey : option SigningKey) (k : Z) (now : Z)
           (deletedMessageIds : list jsstring) (response_ok : DeleteRequest -> bool)
  : option DeleteRequest * list jsstring :=
  match signingKey with
  | None => (None, deletedMessageIds)
  | Some privateKey =>
      match Crypto.signData (delete_data messageId currentUserId) privateKey k with
      | Throw _ => (None, deletedMessageIds)
      | Return signature =>
          let request := mkDeleteRequest messageId chatId signature now in
          if response_ok request
          then (Some request, ChatRoom.set_add deletedMessageIds messageId)
          else (Some request, deletedMessageIds)
      end
  end.

(** What the component reads from a row of [deleteEvents] in the answer of
    [GET /api/messages]: the rows are sent as stored, and a stored row has no
    [senderPublicKey]. *)
Definition view_of_row (e : DeleteEvent) : ChatRoom.DeleteEventView :=
  ChatRoom.mkDeleteEventView (code_units (de_messageId e))
    (code_units (de_senderId e)) (code_units (de_signature e)) None.


End WithPlatform.
End ChatRoomActions.

(** ** [lib/crypto-utils.ts]: the helpers that work outside React *)
Module CryptoUtils.
Local Open Scope Z_scope.

(** [arrayBufferToBase64]: the loop appends one character per byte. *)
Definition arrayBufferToBase64 (buffer : Uint8Array) : result jsstring :=
  let binary :=
    fold_left (fun binary b => binary ++ Base64.fromCharCode [b]) buffer [] in
  Base64.btoa binary.

(** [bytes[i] = v] on a [Uint8Array]: the value is stored modulo 256, an
    index outside the array is ignored. *)
Fixpoint set_index (bytes : Uint8Array) (i : nat) (v : Z) : Uint8Array :=
  match bytes, i with
  | [], _ => []
  | _ :: rest, O => v mod 256 :: rest
  | b :: rest, S j => b :: set_index rest j v
  end.

(** [base64ToArrayBuffer]: the loop fills an array of zeros. *)
Definition base64ToArrayBuffer (base64 : jsstring) : result Uint8Array :=
  binary <- Base64.atob base64 ;;
  let bytes := repeat 0 (List.length binary) in
  Return (fold_left (fun bytes i => set_index bytes i (nth i binary 0))
                    (seq 0 (List.length binary)) bytes).

Section WithPlatform.
Context {W : WebCrypto}.

Definition encryptMessage (message : jsstring) (key : AesKey) (rng : Rng)
  : result Crypto.Encrypted * Rng :=
  let data := Text.encode message in
  let '(iv, rng') := getRandomValues rng 12 in
  let encrypted := aes_gcm_encrypt key iv data in
  (c <- arrayBufferToBase64 encrypted ;;
   i <- arrayBufferToBase64 iv ;;
   Return (Crypto.mkEncrypted c i),
   rng').

Definition decryptMessage (ciphertext iv : jsstring) (key : AesKey)
  : result jsstring :=
  encryptedData <- base64ToArrayBuffer ciphertext ;;
  ivBuffer <- base64ToArrayBuffer iv ;;
  match aes_gcm_decrypt key ivBuffer encryptedData with
  | Some decrypted => Return (Text.decode decrypted)
  | None => Throw OperationError
  end.

Definition signData (data : jsstring) (privateKey : SigningKey) (k : Z)
  : result jsstring :=
  let dataBuffer := Text.encode data in
  let signature := ecdsa_sign privateKey k dataBuffer in
  arrayBufferToBase64 signature.

Definition verifySignature (data signature : jsstring) (publicKey : VerifyKey)
  : result bool :=
  let dataBuffer := Text.encode data in
  signatureBuffer <- base64ToArrayBuffer signature ;;
  Return (ecdsa_verify publicKey signatureBuffer dataBuffer).

End WithPlatform.
End CryptoUtils.


(** ** [lib/auth.ts]: tokens, sessions and magic links

    The session and magic-link tables of [lib/db.ts] are kept beside the user
    table.  [jose] is not part of the repository: [verifyJWT] is taken as a
    function from a token to the payload it carries, [None] when the token is
    refused, and [createJWT] as a function from a payload to a token. *)
Module Auth.
Local Open Scope Z_scope.

Record SessionRow := mkSessionRow {
  sn_id : string;
  sn_userId : string;
  sn_token : string;
  sn_deviceInfo : option string;
  sn_expiresAt : Z;
  sn_createdAt : Z
}.

Record MagicLink := mkMagicLink {
  ml_id : string;
  ml_userId : string;
  ml_token : string;
  ml_used : bool;
  ml_expiresAt : Z;
  ml_createdAt : Z
}.

Record TokenPayload := mkTokenPayload {
  tp_userId : string;
  tp_sessionId : string;
  tp_email : string
}.

Record AuthStorage := mkAuthStorage {
  au_users : JsMap.t User;
  au_sessions : JsMap.t SessionRow;
  au_magicLinks : JsMap.t MagicLink
}.

(** A digit of [Number.prototype.toString(16)]. *)
Definition hex_char (d : Z) : ascii :=
  ascii_of_N (Z.to_N (if d <? 10 then 48 + d else 87 + d)).

(** [byte.toString(16)] for a byte. *)
Definition toString16 (byte : Z) : string :=
  if byte <? 16 then String (hex_char byte) EmptyString
  else String (hex_char (byte / 16)) (String (hex_char (byte mod 16)) EmptyString).

(** [s.padStart(targetLength, c)] with a filler of one character. *)
Definition padStart (targetLength : nat) (c : ascii) (s : string) : string :=
  String.concat EmptyString
    (repeat (String c EmptyString) (targetLength - String.length s)) ++ s.

(** [generateSecureToken(length)] *)
Definition generateSecureToken (length : nat) (rng : Rng) : string * Rng :=
  let '(array, rng') := getRandomValues rng length in
  (String.concat EmptyString
     (map (fun byte => padStart 2 "0"%char (toString16 byte)) array),
   rng').

(** [db.session.findUnique({ where: { id }, include: { user: true } })] *)
Definition session_findUnique (st : AuthStorage) (id : string)
  : option (SessionRow * option User) :=
  match (if truthy id then JsMap.get (au_sessions st) id else None) with
  | None => None
  | Some session => Some (session, JsMap.get (au_users st) (sn_userId session))
  end.

(** [db.session.create({ data })] *)
Definition session_create (st : AuthStorage) (id : string) (createdAt : Z)
           (userId token : string) (deviceInfo : option string) (expiresAt : Z)
  : SessionRow * AuthStorage :=
  let session := mkSessionRow id userId token deviceInfo expiresAt createdAt in
  (session,
   mkAuthStorage (au_users st) (JsMap.set (au_sessions st) id session)
                 (au_magicLinks st)).

(** [db.session.delete({ where: { id } })] *)
Definition session_delete (st : AuthStorage) (id : string) : AuthStorage :=
  mkAuthStorage (au_users st) (JsMap.delete (au_sessions st) id) (au_magicLinks st).

(** [db.magicLink.findUnique({ where: { token }, include: { user: true } })] *)
Definition magicLink_findUnique (st : AuthStorage) (token : string)
  : option (MagicLink * option User) :=
  match find (fun l => String.eqb (ml_token l) token)
             (JsMap.values (au_magicLinks st)) with
  | None => None
  | Some link => Some (link, JsMap.get (au_users st) (ml_userId link))
  end.

Definition set_used (l : MagicLink) (used : bool) : MagicLink :=
  mkMagicLink (ml_id l) (ml_userId l) (ml_token l) used (ml_expiresAt l)
              (ml_createdAt l).

(** [db.magicLink.update({ where: { id }, data: { used } })] *)
Definition magicLink_update (st : AuthStorage) (id : string) (used : bool)
  : option MagicLink * AuthStorage :=
  match JsMap.get (au_magicLinks st) id with
  | None => (None, st)
  | Some link =>
      let updated := set_used link used in
      (Some updated,
       mkAuthStorage (au_users st) (au_sessions st)
                     (JsMap.set (au_magicLinks st) id updated))
  end.

(** What [createSession] reads while it runs: the generator, [Date.now()],
    then the id and the date of [db.session.create]. *)
Record SessionEnv := mkSessionEnv {
  env_rng : Rng;
  env_now : Z;
  env_id : string;
  env_createdAt : Z
}.

Definition THIRTY_DAYS : Z := 30 * 24 * 60 * 60 * 1000.

(** [createSession(userId, deviceInfo)] *)
Definition createSession (st : AuthStorage) (userId : string)
           (deviceInfo : option string) (env : SessionEnv)
  : SessionRow * AuthStorage :=
  let '(token, _) := generateSecureToken 32 (env_rng env) in
  let expiresAt := env_now env + THIRTY_DAYS in
  session_create st (env_id env) (env_createdAt env) userId token
                 (or_null deviceInfo) expiresAt.

(** [invalidateSession(sessionId)] *)
Definition invalidateSession (st : AuthStorage) (sessionId : string) : AuthStorage :=
  session_delete st sessionId.

(** [verifyMagicLink(token)]: the user the link belongs to, or [None] for
    [null] and for a user that is missing. *)
Definition verifyMagicLink (st : AuthStorage) (token : string) (now : Z)
  : option User * AuthStorage :=
  match magicLink_findUnique st token with
  | None => (None, st)
  | Some (magicLink, user) =>
      if ml_used magicLink || (ml_expiresAt magicLink <? now) then (None, st)
      else (user, snd (magicLink_update st (ml_id magicLink) true))
  end.

Section WithJose.
Variable verifyJWT : string -> option TokenPayload.

(** [getSession()]: [cookie] is the value of the cookie [auth_token], [now]
    the [new Date()] the expiry is compared with. *)
Definition getSession (st : AuthStorage) (cookie : option string) (now : Z)
  : option (SessionRow * option User) :=
  match or_null cookie with
  | None => None
  | Some token =>
      match verifyJWT token with
      | None => None
      | Some payload =>
          match session_findUnique st (tp_sessionId payload) with
          | None => None
          | Some (session, user) =>
              if sn_expiresAt session <? now then None else Some (session, user)
          end
      end
  end.

(** [getCurrentUser()] *)
Definition getCurrentUser (st : AuthStorage) (cookie : option string) (now : Z)
  : option User :=
  match getSession st cookie now with
  | Some (_, user) => user
  | None => None
  end.

(** [DELETE /api/auth/session]: the store and the cookie afterwards. *)
Definition logout (st : AuthStorage) (cookie : option string)
  : AuthStorage * option string :=
  (match or_null cookie with
   | Some token =>
       match verifyJWT token with
       | Some payload => invalidateSession st (tp_sessionId payload)
       | None => st
       end
   | None => st
   end,
   None).

(** The session as the routes of [app/api] use it. *)
Definition route_session (s : option (SessionRow * option User)) : option Session :=
  match s with
  | Some (session, user) =>
      Some (mkSession (sn_id session)
                      match user with Some u => Some (usr_id u) | None => None end)
  | None => None
  end.

(** How [app/api/signal/route.ts] authenticates a request: the user id of
    the payload of a bearer token, if the [authorization] header has one
    that verifies, and the id of the session's user. *)
Definition signal_auth (st : AuthStorage) (authHeader cookie : option string)
           (now : Z) : Signal.Auth :=
  Signal.mkAuth
    match authHeader with
    | Some header =>
        if String.prefix "Bearer " header
        then match verifyJWT (String.substring 7 (String.length header - 7) header) with
             | Some payload => Some (tp_userId payload)
             | None => None
             end
        else None
    | None => None
    end
    match getSession st cookie now with
    | Some (_, Some user) => Some (usr_id user)
    | _ => None
    end.

End WithJose.
End Auth.


(** * A longer conversation

    A store with a second chat and a few more messages, a typed message on
    its way to the server, and the tables of [lib/auth.ts] with one session
    and one magic link. *)
Module Conversation.
Local Open Scope Z_scope.
Import Scenario.

Definition carol : User := mkUser "carol" "carol@example.com" None.

Definition members : JsMap.t ChatMember :=
  Scenario.members ++
  [("member-3", mkChatMember "member-3" "chat-2" "alice" "member" 0);
   ("member-4", mkChatMember "member-4" "chat-2" "carol" "member" 0)].

Definition m2 : Message :=
  mkMessage "m2" "chat-1" "bob" "3q2+8A==" "AAECAwQFBgcICQoM" "text" 2000.
Definition m3 : Message :=
  mkMessage "m3" "chat-1" "alice" "3q2+8Q==" "AAECAwQFBgcICQoN" "text" 3000.
Definition m4 : Message :=
  mkMessage "m4" "chat-2" "alice" "3q2+8g==" "AAECAwQFBgcICQoO" "text" 1500.

(** The rows are not stored in the order of their dates. *)
Definition store : Storage :=
  mkStorage [("alice", alice); ("bob", bob); ("carol", carol)] members
            [("m3", m3); ("m1", m1); ("m4", m4); ("m2", m2)] [] [].

Definition chats : JsMap.t MessagesPage.Chat :=
  [("chat-1", MessagesPage.mkChat "chat-1" None false 0 3000);
   ("chat-2", MessagesPage.mkChat "chat-2" (Some "plans") false 0 1500)].

(** Alice types [" hi "]; with the key 7 and a generator that counts, the
    chat room sends this body. *)
Definition typed : jsstring := [32; 104; 105; 32].
Definition sent_body : MessagesPage.PostBody :=
  MessagesPage.mkPostBody "chat-1" "BwABAgMEBQYHCAkKC2hp" "AAECAwQFBgcICQoL"
                          (Some "text").
Definition send_env : MessagesPage.PostEnv :=
  MessagesPage.mkPostEnv "m9" 9000 9001 9002 9003.

(** The ids as the chat room holds them. *)
Definition chat1 : jsstring := code_units "chat-1".
Definition alice_id : jsstring := code_units "alice".
Definition m1_id : jsstring := code_units "m1".

(** A request to delete ["m1"], a message of ["chat-1"], that names
    ["chat-2"]. *)
Definition misfiled_request : Delete.PostBody :=
  Delete.mkPostBody "m1" "chat-2" "x" (Some (date 5000)).

(** A signal for Bob. *)
Definition offer_to_bob : Signal.PostBody :=
  Signal.mkPostBody "offer" "sdp-4" (Some "bob") "chat-1".

(** The tables of [lib/auth.ts]: Alice's session and a magic link for Bob. *)
Definition alice_row : Auth.SessionRow :=
  Auth.mkSessionRow "s-alice" "alice" "00ff" None 90000 1000.
Definition bob_link : Auth.MagicLink :=
  Auth.mkMagicLink "link-1" "bob" "c0ffee" false 8000 2000.
Definition auth_store : Auth.AuthStorage :=
  Auth.mkAuthStorage [("alice", alice); ("bob", bob)]
                     [("s-alice", alice_row)] [("link-1", bob_link)].

(** A verifier that accepts one token. *)
Definition alice_payload : Auth.TokenPayload :=
  Auth.mkTokenPayload "alice" "s-alice" "alice@example.com".
Definition verify_alice (token : string) : option Auth.TokenPayload :=
  if String.eqb token "jwt-alice" then Some alice_payload else None.

End Conversation.

(** * Properties *)

(** ** Facts about [JsMap] *)
Module JsMapFacts.
Section Facts.
Context {V : Type}.
Implicit Types (m : JsMap.t V) (k : string) (v : V).

(** The invariant of a JavaScript [Map]: one entry per key. *)
Definition wf m : Prop := NoDup (JsMap.keys m).

Lemma wf_nil : wf [].
Proof. constructor. Qed.

Lemma get_In m k v : JsMap.get m k = Some v -> In (k, v) m.
Proof.
induction m as [|[k' v'] m IH]; simpl; [discriminate|].
destruct (String.eqb k' k) eqn:E.
- apply String.eqb_eq in E. intros [= ->]. left. now subst.
- intros H. right. auto.
Qed.

Lemma In_get m k v : wf m -> In (k, v) m -> JsMap.get m k = Some v.
Proof.
unfold wf, JsMap.keys.
induction m as [|[k' v'] m IH]; simpl; [tauto|].
intros Hnd [H|H].
- injection H as -> ->. now rewrite String.eqb_refl.
- inversion Hnd as [|? ? Hnotin Hnd']; subst.
  destruct (String.eqb k' k) eqn:E.
  + apply String.eqb_eq in E. subst k'.
    exfalso. apply Hnotin. change k with (fst (k, v)). now apply in_map.
  + auto.
Qed.


Lemma keys_set_known m k v :
  In k (JsMap.keys m) -> JsMap.keys (JsMap.set m k v) = JsMap.keys m.
Proof.
induction m as [|[k' v'] m IH]; simpl; [tauto|].
destruct (String.eqb k' k) eqn:E; simpl; [reflexivity|].
apply String.eqb_neq in E.
intros [H|H]; [congruence|]. now rewrite IH.
Qed.

Lemma keys_set_fresh m k v :
  ~ In k (JsMap.keys m) -> JsMap.keys (JsMap.set m k v) = JsMap.keys m ++ [k].
Proof.
induction m as [|[k' v'] m IH]; simpl; [reflexivity|].
intros H. destruct (String.eqb k' k) eqn:E; simpl.
- apply String.eqb_eq in E. tauto.
- rewrite IH; tauto.
Qed.

Lemma wf_set m k v : wf m -> wf (JsMap.set m k v).
Proof.
unfold wf. intros H.
destruct (in_dec string_dec k (JsMap.keys m)) as [Hin|Hnotin].
- now rewrite keys_set_known.
- rewrite keys_set_fresh by assumption.
  apply NoDup_app; [assumption|repeat constructor; simpl; tauto|].
  simpl. intros x Hx [<-|[]]. contradiction.
Qed.

Lemma In_set m k v kv :
  In kv (JsMap.set m k v) -> In kv m \/ kv = (k, v).
Proof.
induction m as [|[k' v'] m IH]; simpl.
- intros [H|[]]; auto.
- destruct (String.eqb k' k) eqn:E; simpl.
  + apply String.eqb_eq in E. subst k'. intros [H|H]; auto.
  + intros [H|H]; auto. destruct (IH H); auto.
Qed.

Lemma In_set_other m k v k' v' :
  k' <> k -> In (k', v') m -> In (k', v') (JsMap.set m k v).
Proof.
intros Hne. induction m as [|[k0 v0] m IH]; simpl; [tauto|].
destruct (String.eqb k0 k) eqn:E; simpl.
- apply String.eqb_eq in E. subst k0. intros [H|H]; [congruence|auto].
- intros [H|H]; auto.
Qed.

Lemma In_set_same m k v : In (k, v) (JsMap.set m k v).
Proof.
induction m as [|[k0 v0] m IH]; simpl; [auto|].
destruct (String.eqb k0 k) eqn:E; simpl; auto.
apply String.eqb_eq in E. subst. auto.
Qed.

Lemma wf_filter m (p : string * V -> bool) : wf m -> wf (filter p m).
Proof.
unfold wf, JsMap.keys.
induction m as [|kv m IH]; simpl; [auto|].
intros H. inversion H as [|? ? Hnotin Hnd]; subst.
destruct (p kv); simpl; [|auto].
constructor; [|auto].
intros Hin. apply Hnotin. apply in_map_iff in Hin as [kv' [Hk Hin]].
apply filter_In in Hin as [Hin _]. apply in_map_iff. eauto.
Qed.

(** Replacing the value of a key that is present rewrites exactly the
    entries with that key. *)
Lemma set_known m k v (f : V -> V) :
  wf m -> JsMap.get m k = Some v ->
  JsMap.set m k (f v) =
  map (fun kv => if String.eqb (fst kv) k then (fst kv, f (snd kv)) else kv) m.
Proof.
unfold wf, JsMap.keys.
induction m as [|[k' v'] m IH]; simpl; [discriminate|].
intros Hnd. inversion Hnd as [|? ? Hnotin Hnd']; subst.
destruct (String.eqb k' k) eqn:E.
- intros [= ->]. f_equal.
  apply String.eqb_eq in E. subst k'.
  rewrite <- (map_id m) at 1. apply map_ext_in.
  intros [k0 v0] Hin. simpl.
  destruct (String.eqb k0 k) eqn:E0; [|reflexivity].
  apply String.eqb_eq in E0. subst k0.
  exfalso. apply Hnotin. change k with (fst (k, v0)). now apply in_map.
- intros Hget. f_equal. auto.
Qed.

Lemma get_None_map m k (f : V -> V) :
  JsMap.get m k = None ->
  m = map (fun kv => if String.eqb (fst kv) k then (fst kv, f (snd kv)) else kv) m.
Proof.
induction m as [|[k' v'] m IH]; simpl; [reflexivity|].
destruct (String.eqb k' k) eqn:E; [discriminate|].
intros H. f_equal. auto.
Qed.

(** The loop of the [updateMany] methods,
    [ids.forEach(id => { const e = get(id); if (e) set(id, f(e)) })],
    rewrites the listed entries and nothing else. *)
Definition update_in (ids : list string) (f : V -> V) m : JsMap.t V :=
  map (fun kv => if existsb (String.eqb (fst kv)) ids
                 then (fst kv, f (snd kv)) else kv) m.

Lemma keys_update_in ids f m : JsMap.keys (update_in ids f m) = JsMap.keys m.
Proof.
unfold update_in, JsMap.keys. rewrite map_map. apply map_ext.
intros kv. now destruct (existsb _ ids).
Qed.

Lemma updateMany_update_in ids (f : V -> V) m :
  (forall v, f (f v) = f v) ->
  wf m ->
  fold_left
    (fun m id =>
       match JsMap.get m id with
       | Some e => JsMap.set m id (f e)
       | None => m
       end) ids m = update_in ids f m.
Proof.
intros Hf. revert m. induction ids as [|id ids IH]; intros m Hwf; simpl.
- unfold update_in. simpl. now rewrite map_id.
- set (m1 := match JsMap.get m id with
             | Some e => JsMap.set m id (f e)
             | None => m end).
  assert (Hm1 : m1 = update_in [id] f m).
  { unfold m1, update_in. destruct (JsMap.get m id) as [e|] eqn:G.
    - rewrite (set_known m id e f Hwf G).
      apply map_ext. intros kv. simpl. now rewrite orb_false_r.
    - rewrite (get_None_map m id f G) at 1.
      apply map_ext. intros kv. simpl. now rewrite orb_false_r. }
  rewrite IH.
  + rewrite Hm1. unfold update_in. rewrite map_map. apply map_ext.
    intros [k e]. simpl. rewrite orb_false_r.
    destruct (String.eqb k id); simpl; [|reflexivity].
    destruct (existsb (String.eqb k) ids); [now rewrite Hf|reflexivity].
  + unfold wf. rewrite Hm1, keys_update_in. exact Hwf.
Qed.

Lemma existsb_eqb_In k ids : existsb (String.eqb k) ids = true <-> In k ids.
Proof.
rewrite existsb_exists. split.
- intros [x [Hin E]]. apply String.eqb_eq in E. now subst.
- intros H. exists k. split; [assumption|apply String.eqb_refl].
Qed.

Lemma filter_nil {A} (p : A -> bool) l :
  (forall x, In x l -> p x = false) -> filter p l = [].
Proof.
induction l as [|x l IH]; simpl; intros H; [reflexivity|].
rewrite (H x) by now left. apply IH. intros y Hy. apply H. now right.
Qed.

End Facts.
End JsMapFacts.

(** ** Facts about the stable sort *)
Section SortFacts.
Context {A : Type} (key : A -> Z).

Definition key_le (a b : A) : Prop := (key a <= key b)%Z.

Lemma insert_by_perm x l : Permutation (insert_by key x l) (x :: l).
Proof.
induction l as [|y l IH]; simpl; [reflexivity|].
destruct (key x <=? key y)%Z; [reflexivity|].
rewrite IH. apply perm_swap.
Qed.

Lemma sort_by_perm l : Permutation (sort_by key l) l.
Proof.
induction l as [|x l IH]; simpl; [reflexivity|].
rewrite insert_by_perm. now constructor.
Qed.

Lemma In_sort_by l e : In e (sort_by key l) <-> In e l.
Proof.
split; apply Permutation_in; [|symmetry]; apply sort_by_perm.
Qed.

Lemma insert_by_sorted x l :
  StronglySorted key_le l -> StronglySorted key_le (insert_by key x l).
Proof.
induction 1 as [|y l Hs IH Hall]; simpl.
- repeat constructor.
- destruct (key x <=? key y)%Z eqn:E.
  + apply Z.leb_le in E. constructor; [now constructor|].
    constructor; [exact E|].
    eapply Forall_impl; [|exact Hall]. unfold key_le. intros; lia.
  + apply Z.leb_gt in E. constructor; [assumption|].
    eapply Permutation_Forall; [symmetry; apply insert_by_perm|].
    constructor; [unfold key_le; lia|assumption].
Qed.

Lemma sort_by_sorted l : StronglySorted key_le (sort_by key l).
Proof.
induction l; simpl; [constructor|now apply insert_by_sorted].
Qed.

(** Stability: rows with the same key keep their relative order. *)
Lemma insert_by_filter x l (p : A -> bool) :
  (forall a b, p a = true -> p b = true -> key a = key b) ->
  filter p (insert_by key x l) = filter p (x :: l).
Proof.
intros Hp. induction l as [|y l IH]; [reflexivity|].
simpl insert_by. destruct (key x <=? key y)%Z eqn:E; [reflexivity|].
apply Z.leb_gt in E. simpl in *. rewrite IH.
destruct (p x) eqn:Ex, (p y) eqn:Ey; try reflexivity.
specialize (Hp x y Ex Ey). lia.
Qed.

Lemma sort_by_stable l (p : A -> bool) :
  (forall a b, p a = true -> p b = true -> key a = key b) ->
  filter p (sort_by key l) = filter p l.
Proof.
intros Hp. induction l as [|x l IH]; [reflexivity|].
simpl sort_by. rewrite insert_by_filter by assumption.
simpl. now rewrite IH.
Qed.

End SortFacts.

(** The sort with a comparator in general: the result holds the elements of
    the array, and it is the stable sort by a key wherever the comparator is
    the difference of the keys. *)
Section SortWithFacts.
Context {A : Type} (comparefn : A -> A -> option Z).

Lemma insert_with_perm x l : Permutation (insert_with comparefn x l) (x :: l).
Proof.
induction l as [|y l IH]; simpl; [reflexivity|].
destruct (sort_compare comparefn x y <=? 0)%Z; [reflexivity|].
rewrite IH. apply perm_swap.
Qed.

Lemma sort_with_perm l : Permutation (sort_with comparefn l) l.
Proof.
induction l as [|x l IH]; simpl; [reflexivity|].
rewrite insert_with_perm. now constructor.
Qed.

Lemma In_sort_with l e : In e (sort_with comparefn l) <-> In e l.
Proof.
split; apply Permutation_in; [|symmetry]; apply sort_with_perm.
Qed.

Lemma insert_with_by (key : A -> Z) x l :
  (forall y, In y l -> comparefn x y = Some (key x - key y)%Z) ->
  insert_with comparefn x l = insert_by key x l.
Proof.
induction l as [|y l IH]; intros H; [reflexivity|].
simpl. unfold sort_compare. rewrite (H y) by now left.
replace (key x - key y <=? 0)%Z with (key x <=? key y)%Z
  by (destruct (Z.leb_spec (key x) (key y)), (Z.leb_spec (key x - key y) 0); lia).
destruct (key x <=? key y)%Z; [reflexivity|].
f_equal. apply IH. intros z Hz. apply H. now right.
Qed.

Lemma sort_with_by (key : A -> Z) l :
  (forall x y, In x l -> In y l -> comparefn x y = Some (key x - key y)%Z) ->
  sort_with comparefn l = sort_by key l.
Proof.
induction l as [|x l IH]; intros H; [reflexivity|].
simpl. rewrite IH by (intros; apply H; now right).
apply insert_with_by. intros y Hy. apply In_sort_by in Hy.
apply H; [now left|now right].
Qed.

End SortWithFacts.

(** ** The signaling mailbox *)
Module SignalFacts.
Import JsMapFacts.

(** Store invariant: one row per key, and a row's key is its [id]
    ([create] stores every event under [event.id]). *)
Definition keyed (m : JsMap.t SignalEvent) : Prop :=
  Forall (fun kv => fst kv = se_id (snd kv)) m.

Definition store_ok (st : Storage) : Prop :=
  wf (signalEvents st) /\ keyed (signalEvents st).

(** The rows a poll of [userId] in [chatId] at time [now] is entitled to. *)
Definition pending (chatId userId : string) (now : Z) (e : SignalEvent) : Prop :=
  se_chatId e = chatId /\ se_toUserId e = Some userId /\
  se_consumed e = false /\ (now < se_expiresAt e)%Z.

Lemma signal_matches_pending chatId userId now e :
  Db.signal_matches chatId userId false now e = true <-> pending chatId userId now e.
Proof.
unfold Db.signal_matches, pending.
rewrite !andb_true_iff, String.eqb_eq, negb_true_iff, Z.leb_gt.
destruct (se_toUserId e) as [u|]; simpl.
- rewrite String.eqb_eq. destruct (se_consumed e); simpl;
    intuition (try congruence).
- intuition discriminate.
Qed.

(** The effect of [updateMany] on the table: the rows whose key is listed get
    the flag, every other row is left as it is. *)
Definition mark (ids : list string) (c : bool) (m : JsMap.t SignalEvent)
  : JsMap.t SignalEvent :=
  map (fun kv => if existsb (String.eqb (fst kv)) ids
                 then (fst kv, Db.set_consumed (snd kv) c) else kv) m.

Lemma keys_mark ids c m : JsMap.keys (mark ids c m) = JsMap.keys m.
Proof.
unfold mark, JsMap.keys. rewrite map_map. apply map_ext.
intros kv. now destruct (existsb _ ids).
Qed.

Lemma updateMany_mark ids c m :
  wf m ->
  fold_left
    (fun m id =>
       match JsMap.get m id with
       | Some event => JsMap.set m id (Db.set_consumed event c)
       | None => m
       end) ids m = mark ids c m.
Proof.
intros Hwf.
apply (updateMany_update_in ids (fun e => Db.set_consumed e c)); [|exact Hwf].
reflexivity.
Qed.

Lemma updateMany_spec st ids c :
  wf (signalEvents st) ->
  signalEvents (Db.signalEvent_updateMany st ids c) = mark ids c (signalEvents st).
Proof. intros H. unfold Db.signalEvent_updateMany. simpl. now apply updateMany_mark. Qed.

Lemma mark_nil c m : mark [] c m = m.
Proof. unfold mark. simpl. apply map_id. Qed.

(** The table after a fetch. *)
Lemma fetch_signals_store st chatId userId now :
  wf (signalEvents st) ->
  signalEvents (snd (Signal.fetch_signals st chatId userId now)) =
  mark (map se_id (fst (Signal.fetch_signals st chatId userId now))) true
       (signalEvents st).
Proof.
intros Hwf. unfold Signal.fetch_signals. cbn [fst snd].
destruct (Db.signalEvent_findMany st chatId userId false now) as [|e l] eqn:E.
- cbn. now rewrite mark_nil.
- change (0 <? List.length (e :: l))%nat with true. cbv iota.
  now rewrite updateMany_spec.
Qed.

Lemma fetch_signals_other_tables st chatId userId now :
  let st' := snd (Signal.fetch_signals st chatId userId now) in
  users st' = users st /\ chatMembers st' = chatMembers st /\
  messages st' = messages st /\ deleteEvents st' = deleteEvents st.
Proof.
unfold Signal.fetch_signals. simpl.
destruct (0 <? _)%nat; simpl; auto.
Qed.

Lemma In_findMany st chatId userId now e :
  In e (Db.signalEvent_findMany st chatId userId false now) <->
  In e (JsMap.values (signalEvents st)) /\ pending chatId userId now e.
Proof.
unfold Db.signalEvent_findMany.
rewrite In_sort_by, filter_In, signal_matches_pending. reflexivity.
Qed.

Lemma store_ok_mark ids c m : wf m /\ keyed m -> wf (mark ids c m) /\ keyed (mark ids c m).
Proof.
intros [Hwf Hk]. split.
- unfold wf. now rewrite keys_mark.
- unfold keyed, mark. apply Forall_map. eapply Forall_impl; [|exact Hk].
  intros [k e]. simpl. intros ->. now destruct (existsb _ ids).
Qed.


Lemma NoDup_map_filter {A B} (f : A -> B) (p : A -> bool) l :
  NoDup (map f l) -> NoDup (map f (filter p l)).
Proof.
induction l as [|x l IH]; simpl; [auto|].
intros H. inversion H as [|? ? Hnotin Hnd]; subst.
destruct (p x); simpl; [|auto].
constructor; [|auto].
intros Hin. apply Hnotin. apply in_map_iff in Hin as [y [Hy Hin]].
apply filter_In in Hin as [Hin _]. apply in_map_iff. eauto.
Qed.

Lemma store_ok_ids m : wf m -> keyed m -> NoDup (map se_id (JsMap.values m)).
Proof.
unfold wf, keyed, JsMap.keys, JsMap.values. intros Hwf Hk.
rewrite map_map. erewrite map_ext_in; [exact Hwf|].
intros kv Hin. rewrite Forall_forall in Hk. symmetry. now apply Hk.
Qed.

Lemma findMany_ids st chatId userId now :
  store_ok st ->
  NoDup (map se_id (Db.signalEvent_findMany st chatId userId false now)).
Proof.
intros [Hwf Hk]. unfold Db.signalEvent_findMany.
eapply Permutation_NoDup.
- apply Permutation_map. symmetry. apply sort_by_perm.
- apply NoDup_map_filter. now apply store_ok_ids.
Qed.

(** Whatever [updateMany] and [create] write satisfies a property that old
    rows satisfy and that survives setting the flag. *)
Lemma updateMany_Forall (P : string * SignalEvent -> Prop) ids c m :
  (forall k e, P (k, e) -> P (k, Db.set_consumed e c)) ->
  Forall P m ->
  Forall P (fold_left
    (fun m id =>
       match JsMap.get m id with
       | Some event => JsMap.set m id (Db.set_consumed event c)
       | None => m
       end) ids m).
Proof.
intros HP. revert m. induction ids as [|id ids IH]; intros m Hm; simpl; [exact Hm|].
apply IH. destruct (JsMap.get m id) as [e|] eqn:G; [|exact Hm].
apply Forall_forall. intros kv Hin.
apply In_set in Hin as [Hin| ->].
- rewrite Forall_forall in Hm. auto.
- apply HP. rewrite Forall_forall in Hm. apply Hm. now apply get_In.
Qed.

Lemma deleteMany_incl (p : string * SignalEvent -> bool) l (m : JsMap.t SignalEvent) kv :
  In kv (fold_left (fun m kv => if p kv then JsMap.delete m (fst kv) else m) l m) ->
  In kv m.
Proof.
revert m. induction l as [|x l IH]; intros m; simpl; [auto|].
intros H. apply IH in H. destruct (p x); [|exact H].
unfold JsMap.delete in H. now apply filter_In in H.
Qed.

(** What a row that has been handed out looks like from then on. *)
Definition handed_out (ids : list string) (kv : string * SignalEvent) : Prop :=
  fst kv = se_id (snd kv) /\ (In (fst kv) ids -> se_consumed (snd kv) = true).

Lemma handed_out_set_consumed ids k e :
  handed_out ids (k, e) -> handed_out ids (k, Db.set_consumed e true).
Proof. unfold handed_out. simpl. tauto. Qed.

Lemma GET_handed_out ids st a chatIdParam now :
  Forall (handed_out ids) (signalEvents st) ->
  Forall (handed_out ids) (signalEvents (snd (Signal.GET st a chatIdParam now))).
Proof.
intros H. unfold Signal.GET.
destruct (Signal.authenticate a) as [userId|]; [|exact H].
destruct (or_null chatIdParam) as [chatId|]; [|exact H].
destruct (Db.chatMember_findUnique st chatId userId); [|exact H].
unfold Signal.fetch_signals. cbn [snd].
destruct (0 <? _)%nat; [|exact H].
unfold Db.signalEvent_updateMany. cbn [signalEvents with_signalEvents].
apply updateMany_Forall; [|exact H].
intros k e. apply handed_out_set_consumed.
Qed.

Lemma POST_handed_out ids st a body env :
  ~ In (Signal.env_id env) ids ->
  Forall (handed_out ids) (signalEvents st) ->
  Forall (handed_out ids) (signalEvents (snd (Signal.POST st a body env))).
Proof.
intros Hfresh H. unfold Signal.POST.
destruct (Signal.authenticate a) as [userId|]; [|exact H].
destruct body as [b|]; [|exact H].
destruct (_ || _ || _); [exact H|].
destruct (negb (existsb _ _)); [exact H|].
destruct (Db.chatMember_findUnique st (Signal.pb_chatId b) userId); [|exact H].
destruct (negb _); [exact H|].
cbn. apply Forall_forall. intros kv Hin.
apply deleteMany_incl in Hin.
apply In_set in Hin as [Hin| ->].
- rewrite Forall_forall in H. auto.
- split; simpl; [reflexivity|tauto].
Qed.

(** The stores that can follow [st0] through further polls and posts of any
    user, where [generateId] does not give a new signal one of the [ids]. *)
Inductive later (ids : list string) (st0 : Storage) : Storage -> Prop :=
| later_now : later ids st0 st0
| later_GET st a chatIdParam now :
    later ids st0 st -> later ids st0 (snd (Signal.GET st a chatIdParam now))
| later_POST st a body env :
    later ids st0 st -> ~ In (Signal.env_id env) ids ->
    later ids st0 (snd (Signal.POST st a body env)).

Lemma later_handed_out ids st0 st :
  Forall (handed_out ids) (signalEvents st0) -> later ids st0 st ->
  Forall (handed_out ids) (signalEvents st).
Proof.
intros H0. induction 1; auto using GET_handed_out, POST_handed_out.
Qed.

Lemma handed_out_not_fetched ids st chatId userId now e :
  Forall (handed_out ids) (signalEvents st) ->
  In e (fst (Signal.fetch_signals st chatId userId now)) ->
  ~ In (se_id e) ids.
Proof.
intros H Hin Hid. unfold Signal.fetch_signals in Hin. cbn [fst] in Hin.
apply In_findMany in Hin as [Hin Hp].
unfold JsMap.values in Hin. apply in_map_iff in Hin as [[k e'] [He Hin]].
simpl in He. subst e'. rewrite Forall_forall in H.
destruct (H _ Hin) as [Hk Hc]. simpl in *. subst k.
destruct Hp as (_ & _ & Hf & _). rewrite (Hc Hid) in Hf. discriminate.
Qed.

Lemma mark_handed_out ids m :
  keyed m -> Forall (handed_out ids) (mark ids true m).
Proof.
unfold keyed, mark. intros Hk. apply Forall_map.
eapply Forall_impl; [|exact Hk].
intros [k e]. simpl. intros ->.
destruct (existsb (String.eqb (se_id e)) ids) eqn:E; split; simpl; auto.
intros Hin. apply existsb_eqb_In in Hin. congruence.
Qed.


Lemma second_fetch_nil st chatId userId now now' :
  store_ok st -> (now <= now')%Z ->
  Signal.fetch_signals (snd (Signal.fetch_signals st chatId userId now))
                       chatId userId now' =
  ([], snd (Signal.fetch_signals st chatId userId now)).
Proof.
intros [Hwf Hk] Hle.
set (signals := fst (Signal.fetch_signals st chatId userId now)).
set (st' := snd (Signal.fetch_signals st chatId userId now)).
assert (Hst' : signalEvents st' = mark (map se_id signals) true (signalEvents st))
  by now apply fetch_signals_store.
assert (Hnil : Db.signalEvent_findMany st' chatId userId false now' = []).
{ destruct (Db.signalEvent_findMany st' chatId userId false now') as [|e l] eqn:E;
    [reflexivity|exfalso].
  assert (Hin : In e (fst (Signal.fetch_signals st' chatId userId now')))
    by (unfold Signal.fetch_signals; cbn [fst]; rewrite E; now left).
  assert (Hnot : ~ In (se_id e) (map se_id signals)).
  { eapply handed_out_not_fetched; [|exact Hin].
    rewrite Hst'. now apply mark_handed_out. }
  apply Hnot. unfold Signal.fetch_signals in Hin. cbn [fst] in Hin.
  apply In_findMany in Hin as [Hin Hp].
  rewrite Hst' in Hin. unfold JsMap.values, mark in Hin.
  rewrite map_map in Hin. apply in_map_iff in Hin as [[k e0] [He Hin]].
  simpl in He.
  destruct (existsb (String.eqb k) (map se_id signals)) eqn:Ex; simpl in He; subst e.
  - destruct Hp as (_ & _ & Hf & _). discriminate.
  - apply in_map. unfold signals, Signal.fetch_signals. cbn [fst].
    apply In_findMany. split.
    + unfold JsMap.values. apply in_map_iff. exists (k, e0). auto.
    + destruct Hp as (H1 & H2 & H3 & H4). repeat split; auto. lia. }
unfold Signal.fetch_signals at 1. rewrite Hnil. reflexivity.
Qed.

(** C2.  A [GET /api/signal] by a member returns exactly the unconsumed,
    unexpired rows addressed to the caller in that chat, each once, ordered by
    creation time ascending, each with its type, payload, sender, target and
    chat id as stored; the same call sets [consumed] on exactly those
    rows, so that a second poll made at once (or at any later clock reading)
    returns no signal, and no later poll of any user ever returns one of these
    rows again. *)
Theorem fetch_signals_exactly_once st a chatId userId now :
  store_ok st ->
  Signal.authenticate a = Some userId ->
  truthy chatId = true ->
  Db.chatMember_findUnique st chatId userId <> None ->
  exists signals st',
    Signal.GET st a (Some chatId) now =
      (Ok (map (fun e => Signal.mkSignalDTO (se_type e) (se_payload e)
                           (se_fromUserId e) (se_toUserId e) (se_chatId e))
               signals),
       st') /\
    (forall e, In e signals <->
               In e (JsMap.values (signalEvents st)) /\ pending chatId userId now e) /\
    NoDup (map se_id signals) /\
    StronglySorted (key_le se_createdAt) signals /\
    signalEvents st' = mark (map se_id signals) true (signalEvents st) /\
    (forall now', (now <= now')%Z ->
                  Signal.GET st' a (Some chatId) now' = (Ok [], st')) /\
    (forall st'', later (map se_id signals) st' st'' ->
       forall c u t e, In e (fst (Signal.fetch_signals st'' c u t)) ->
                       ~ In (se_id e) (map se_id signals)).
Proof.
intros Hok Hauth Hchat Hmem.
exists (fst (Signal.fetch_signals st chatId userId now)),
       (snd (Signal.fetch_signals st chatId userId now)).
assert (Hmem' : Db.chatMember_findUnique
                  (snd (Signal.fetch_signals st chatId userId now)) chatId userId
                <> None).
{ unfold Db.chatMember_findUnique in *.
  destruct (fetch_signals_other_tables st chatId userId now) as (_ & -> & _). exact Hmem. }
split; [|split; [|split; [|split; [|split; [|split]]]]].
- unfold Signal.GET. rewrite Hauth. cbn [or_null]. rewrite Hchat.
  destruct (Db.chatMember_findUnique st chatId userId); [|congruence].
  now destruct (Signal.fetch_signals st chatId userId now).
- intros e. apply In_findMany.
- apply findMany_ids. exact Hok.
- apply sort_by_sorted.
- apply fetch_signals_store. apply Hok.
- intros now' Hle. unfold Signal.GET. rewrite Hauth. cbn [or_null]. rewrite Hchat.
  destruct (Db.chatMember_findUnique
              (snd (Signal.fetch_signals st chatId userId now)) chatId userId);
    [|congruence].
  now rewrite second_fetch_nil.
- intros st'' Hlater c u t e Hin.
  eapply handed_out_not_fetched; [|exact Hin].
  eapply later_handed_out; [|exact Hlater].
  rewrite fetch_signals_store by apply Hok.
  apply mark_handed_out. apply Hok.
Qed.


(** *** Broadcast signals *)

Lemma fetched_is_addressed st chatId userId now e :
  In e (fst (Signal.fetch_signals st chatId userId now)) ->
  se_toUserId e = Some userId.
Proof.
unfold Signal.fetch_signals. cbn [fst]. intros H.
apply In_findMany in H as [_ H]. apply H.
Qed.

Definition expired (lt : Z) (kv : string * SignalEvent) : bool :=
  (se_expiresAt (snd kv) <? lt)%Z.

Definition sweep (lt : Z) (l m : JsMap.t SignalEvent) : JsMap.t SignalEvent :=
  fold_left (fun m kv => if expired lt kv then JsMap.delete m (fst kv) else m) l m.

Lemma sweep_incl lt l m kv : In kv (sweep lt l m) -> In kv m.
Proof. apply deleteMany_incl. Qed.

Lemma sweep_keeps lt l m k v :
  (forall x, In x l -> expired lt x = true -> fst x <> k) ->
  In (k, v) m -> In (k, v) (sweep lt l m).
Proof.
unfold sweep. revert m. induction l as [|x l IH]; intros m Hl Hin; simpl; [exact Hin|].
apply IH; [intros y Hy; apply Hl; now right|].
destruct (expired lt x) eqn:E; [|exact Hin].
unfold JsMap.delete. apply filter_In. split; [exact Hin|].
simpl. apply negb_true_iff, String.eqb_neq.
intros Heq. symmetry in Heq. revert Heq. apply Hl; [now left|exact E].
Qed.

Lemma sweep_removes lt l m k :
  (exists x, In x l /\ expired lt x = true /\ fst x = k) ->
  forall v, ~ In (k, v) (sweep lt l m).
Proof.
unfold sweep. revert m. induction l as [|x l IH]; intros m [y (Hy & Hexp & Hk)] v;
  [destruct Hy|].
simpl. destruct Hy as [->|Hy].
- rewrite Hexp. intros Hin. apply sweep_incl in Hin.
  unfold JsMap.delete in Hin. apply filter_In in Hin as [_ Hin].
  simpl in Hin. rewrite Hk, String.eqb_refl in Hin. discriminate.
- apply IH. eauto.
Qed.

Lemma wf_sweep lt l m : wf m -> wf (sweep lt l m).
Proof.
unfold sweep. revert m. induction l as [|x l IH]; intros m Hm; simpl; [exact Hm|].
apply IH. destruct (expired lt x); [|exact Hm]. now apply wf_filter.
Qed.

Lemma keyed_sweep lt l m : keyed m -> keyed (sweep lt l m).
Proof.
unfold keyed. rewrite !Forall_forall. intros H kv Hin.
apply H. eapply sweep_incl. exact Hin.
Qed.

Lemma deleteMany_spec st lt :
  signalEvents (Db.signalEvent_deleteMany st lt) =
  sweep lt (signalEvents st) (signalEvents st).
Proof. reflexivity. Qed.

(** The table after a [POST]: untouched when the request is rejected,
    otherwise the new row is stored and the expired rows are swept. *)
Lemma POST_table st a body env :
  signalEvents (snd (Signal.POST st a body env)) = signalEvents st \/
  exists event,
    se_id event = Signal.env_id env /\
    let m := JsMap.set (signalEvents st) (Signal.env_id env) event in
    signalEvents (snd (Signal.POST st a body env)) = sweep (Signal.env_cleanup_now env) m m.
Proof.
unfold Signal.POST.
destruct (Signal.authenticate a) as [userId|]; [|now left].
destruct body as [b|]; [|now left].
destruct (_ || _ || _); [now left|].
destruct (negb (existsb _ _)); [now left|].
destruct (Db.chatMember_findUnique st (Signal.pb_chatId b) userId); [|now left].
destruct (negb _); [now left|].
right. eexists. split; [|reflexivity]. reflexivity.
Qed.

Lemma store_ok_POST st a body env :
  store_ok st -> store_ok (snd (Signal.POST st a body env)).
Proof.
intros [Hwf Hk]. unfold store_ok.
destruct (POST_table st a body env) as [->|[event [Hid ->]]]; [now split|].
split.
- apply wf_sweep. now apply wf_set.
- apply keyed_sweep. unfold keyed. apply Forall_forall. intros kv Hin.
  apply In_set in Hin as [Hin| ->].
  + unfold keyed in Hk. rewrite Forall_forall in Hk. auto.
  + simpl. now rewrite Hid.
Qed.

Lemma GET_table st a chatIdParam now :
  signalEvents (snd (Signal.GET st a chatIdParam now)) = signalEvents st \/
  exists chatId userId,
    signalEvents (snd (Signal.GET st a chatIdParam now)) =
    signalEvents (snd (Signal.fetch_signals st chatId userId now)).
Proof.
unfold Signal.GET.
destruct (Signal.authenticate a) as [userId|]; [|now left].
destruct (or_null chatIdParam) as [chatId|]; [|now left].
destruct (Db.chatMember_findUnique st chatId userId); [|now left].
right. exists chatId, userId.
now destruct (Signal.fetch_signals st chatId userId now).
Qed.

Lemma store_ok_GET st a chatIdParam now :
  store_ok st -> store_ok (snd (Signal.GET st a chatIdParam now)).
Proof.
intros Hok. unfold store_ok.
destruct (GET_table st a chatIdParam now) as [->|[chatId [userId ->]]]; [exact Hok|].
rewrite fetch_signals_store by apply Hok. now apply store_ok_mark.
Qed.

(** A row without addressee is not touched by any poll. *)
Lemma GET_keeps_broadcast st a chatIdParam now k row :
  store_ok st -> se_toUserId row = None ->
  In (k, row) (signalEvents st) ->
  In (k, row) (signalEvents (snd (Signal.GET st a chatIdParam now))).
Proof.
intros Hok Hto Hin.
destruct (GET_table st a chatIdParam now) as [->|[chatId [userId ->]]]; [exact Hin|].
rewrite fetch_signals_store by apply Hok.
unfold mark. apply in_map_iff. exists (k, row). split; [|exact Hin].
cbn [fst snd].
destruct (existsb (String.eqb k) _) eqn:E; [exfalso|reflexivity].
apply existsb_eqb_In in E. apply in_map_iff in E as [e [Hid He]].
assert (Hto' := fetched_is_addressed _ _ _ _ _ He).
unfold Signal.fetch_signals in He. cbn [fst] in He.
apply In_findMany in He as [He _].
unfold JsMap.values in He. apply in_map_iff in He as [[k' e'] [Heq Hin']].
simpl in Heq. subst e'.
destruct Hok as [Hwf Hk]. unfold keyed in Hk. rewrite Forall_forall in Hk.
assert (k' = k) by (specialize (Hk _ Hin'); simpl in Hk; congruence). subst k'.
apply (In_get _ _ _ Hwf) in Hin. apply (In_get _ _ _ Hwf) in Hin'.
congruence.
Qed.

(** A row that has not expired at the cleanup survives a [POST] that draws
    another id. *)
Lemma POST_keeps_unexpired st a body env k row :
  store_ok st ->
  Signal.env_id env <> k ->
  (Signal.env_cleanup_now env <= se_expiresAt row)%Z ->
  In (k, row) (signalEvents st) ->
  In (k, row) (signalEvents (snd (Signal.POST st a body env))).
Proof.
intros [Hwf Hk] Hid Hexp Hin.
destruct (POST_table st a body env) as [->|[event [Heid ->]]]; [exact Hin|].
cbv zeta.
assert (Hin1 : In (k, row) (JsMap.set (signalEvents st) (Signal.env_id env) event))
  by (apply In_set_other; auto).
apply sweep_keeps; [|exact Hin1].
intros [k' e'] Hx Hx' Hkk. simpl in Hkk. subst k'.
assert (Hwf1 := wf_set _ (Signal.env_id env) event Hwf).
apply (In_get _ _ _ Hwf1) in Hx. apply (In_get _ _ _ Hwf1) in Hin1.
assert (e' = row) by congruence. subst e'.
unfold expired in Hx'. simpl in Hx'. apply Z.ltb_lt in Hx'. lia.
Qed.

(** The stores that follow [st0] through polls of any user and through posts
    whose cleanup runs no later than [deadline] and which draw another id
    than [k]. *)
Inductive before_cleanup (k : string) (deadline : Z) (st0 : Storage) : Storage -> Prop :=
| bc_now : before_cleanup k deadline st0 st0
| bc_GET st a chatIdParam now :
    before_cleanup k deadline st0 st ->
    before_cleanup k deadline st0 (snd (Signal.GET st a chatIdParam now))
| bc_POST st a body env :
    before_cleanup k deadline st0 st ->
    Signal.env_id env <> k ->
    (Signal.env_cleanup_now env <= deadline)%Z ->
    before_cleanup k deadline st0 (snd (Signal.POST st a body env)).

Lemma before_cleanup_keeps k row st0 st :
  store_ok st0 -> se_toUserId row = None ->
  In (k, row) (signalEvents st0) ->
  before_cleanup k (se_expiresAt row) st0 st ->
  store_ok st /\ In (k, row) (signalEvents st).
Proof.
intros Hok Hto Hin. induction 1 as [|st a c now _ [IH1 IH2]|st a b env _ [IH1 IH2] Hid Hdl].
- now split.
- split; [now apply store_ok_GET|now apply GET_keeps_broadcast].
- split; [now apply store_ok_POST|now apply POST_keeps_unexpired].
Qed.

Lemma POST_accepts_broadcast st a b env userId :
  Signal.authenticate a = Some userId ->
  truthy (Signal.pb_type b) = true ->
  truthy (Signal.pb_payload b) = true ->
  truthy (Signal.pb_chatId b) = true ->
  In (Signal.pb_type b) Signal.validTypes ->
  Db.chatMember_findUnique st (Signal.pb_chatId b) userId <> None ->
  or_null (Signal.pb_toUserId b) = None ->
  Signal.POST st a (Some b) env =
  (Ok (Signal.env_id env),
   Db.signalEvent_deleteMany
     (snd (Db.signalEvent_create st (Signal.env_id env) (Signal.env_createdAt env)
             (Signal.pb_chatId b) userId None (Signal.pb_type b)
             (Signal.pb_payload b)
             (Signal.env_now env + Signal.SIGNAL_TTL_MS)%Z false))
     (Signal.env_cleanup_now env)).
Proof.
intros Hauth Ht Hp Hc Hv Hm Hto. unfold Signal.POST.
rewrite Hauth, Ht, Hp, Hc. cbn [negb orb].
assert (Hex : existsb (String.eqb (Signal.pb_type b)) Signal.validTypes = true).
{ apply existsb_exists. exists (Signal.pb_type b). split; [exact Hv|apply String.eqb_refl]. }
rewrite Hex. cbn [negb].
destruct (Db.chatMember_findUnique st (Signal.pb_chatId b) userId); [|congruence].
rewrite Hto. reflexivity.
Qed.


Lemma POST_Ok_table st a body env r :
  fst (Signal.POST st a body env) = Ok r ->
  exists event,
    let m := JsMap.set (signalEvents st) (Signal.env_id env) event in
    signalEvents (snd (Signal.POST st a body env)) = sweep (Signal.env_cleanup_now env) m m.
Proof.
unfold Signal.POST.
destruct (Signal.authenticate a) as [userId|]; [|discriminate].
destruct body as [b|]; [|discriminate].
destruct (_ || _ || _); [discriminate|].
destruct (negb (existsb _ _)); [discriminate|].
destruct (Db.chatMember_findUnique st (Signal.pb_chatId b) userId); [|discriminate].
destruct (negb _); [discriminate|].
intros _. eexists. reflexivity.
Qed.

(** Every signal in a response is addressed to the authenticated caller. *)
Lemma GET_dtos_addressed st a chatIdParam now dtos st' :
  Signal.GET st a chatIdParam now = (Ok dtos, st') ->
  forall d, In d dtos ->
  exists u, Signal.authenticate a = Some u /\ Signal.dto_toUserId d = Some u.
Proof.
unfold Signal.GET.
destruct (Signal.authenticate a) as [u|]; [|intros [=]].
destruct (or_null chatIdParam) as [c|]; [|intros [=]].
destruct (Db.chatMember_findUnique st c u); [|intros [=]].
destruct (Signal.fetch_signals st c u now) as [sigs st1] eqn:E.
intros HG d Hd. inversion HG; subst.
apply in_map_iff in Hd as [e [<- He]].
assert (He' : In e (fst (Signal.fetch_signals st c u now))) by now rewrite E.
apply fetched_is_addressed in He'. exists u. simpl. auto.
Qed.

(** C10.  A signal posted without a target user is accepted and stored with
    [toUserId = null].  No poll of any user, on any store, returns such a row,
    since the query matches [toUserId] against the polling user.  The row stays
    in the table, unchanged, through every poll and through every post whose
    cleanup runs before the row's expiry; an accepted post whose cleanup runs
    after the expiry removes it. *)
Theorem broadcast_signal_never_fetched st a b env userId :
  store_ok st ->
  Signal.authenticate a = Some userId ->
  truthy (Signal.pb_type b) = true ->
  truthy (Signal.pb_payload b) = true ->
  truthy (Signal.pb_chatId b) = true ->
  In (Signal.pb_type b) Signal.validTypes ->
  Db.chatMember_findUnique st (Signal.pb_chatId b) userId <> None ->
  or_null (Signal.pb_toUserId b) = None ->
  (Signal.env_cleanup_now env <= Signal.env_now env + Signal.SIGNAL_TTL_MS)%Z ->
  let row := mkSignalEvent (Signal.env_id env) (Signal.pb_chatId b) userId None
               (Signal.pb_type b) (Signal.pb_payload b) (Signal.env_createdAt env)
               false (Signal.env_now env + Signal.SIGNAL_TTL_MS)%Z in
  let st1 := snd (Signal.POST st a (Some b) env) in
  fst (Signal.POST st a (Some b) env) = Ok (Signal.env_id env) /\
  JsMap.get (signalEvents st1) (Signal.env_id env) = Some row /\
  (forall st2 chatId u now,
      ~ In row (fst (Signal.fetch_signals st2 chatId u now))) /\
  (forall st2 a' chatIdParam now dtos st3,
      Signal.GET st2 a' chatIdParam now = (Ok dtos, st3) ->
      forall d, In d dtos -> Signal.dto_toUserId d <> None) /\
  (forall st2, before_cleanup (Signal.env_id env) (se_expiresAt row) st1 st2 ->
      JsMap.get (signalEvents st2) (Signal.env_id env) = Some row) /\
  (forall st2 a' b' env' r,
      before_cleanup (Signal.env_id env) (se_expiresAt row) st1 st2 ->
      fst (Signal.POST st2 a' b' env') = Ok r ->
      Signal.env_id env' <> Signal.env_id env ->
      (se_expiresAt row < Signal.env_cleanup_now env')%Z ->
      JsMap.get (signalEvents (snd (Signal.POST st2 a' b' env'))) (Signal.env_id env)
      = None).
Proof.
intros Hok Hauth Ht Hp Hc Hv Hm Hto Hclean row st1.
assert (HP := POST_accepts_broadcast st a b env userId Hauth Ht Hp Hc Hv Hm Hto).
assert (Hok1 : store_ok st1) by (apply store_ok_POST; exact Hok).
assert (Hin1 : In (Signal.env_id env, row) (signalEvents st1)).
{ unfold st1. rewrite HP. cbn [snd]. rewrite deleteMany_spec.
  cbn [Db.signalEvent_create snd signalEvents with_signalEvents].
  fold row. apply sweep_keeps; [|apply In_set_same].
  intros [k' e'] Hx Hx' Hk. simpl in Hk. subst k'.
  assert (Hwf1 := wf_set _ (Signal.env_id env) row (proj1 Hok)).
  apply (In_get _ _ _ Hwf1) in Hx.
  rewrite (In_get _ _ _ Hwf1 (In_set_same _ _ _)) in Hx.
  injection Hx as <-. unfold expired in Hx'. simpl in Hx'.
  apply Z.ltb_lt in Hx'. lia. }
assert (Hkeep : forall st2,
  before_cleanup (Signal.env_id env) (se_expiresAt row) st1 st2 ->
  store_ok st2 /\ In (Signal.env_id env, row) (signalEvents st2)).
{ intros st2 H. eapply before_cleanup_keeps; eauto. }
split; [now rewrite HP|].
split; [apply In_get; [apply Hok1|exact Hin1]|].
split.
{ intros st2 chatId u now Hin. apply fetched_is_addressed in Hin. discriminate. }
split.
{ intros st2 a' chatIdParam now dtos st3 HG d Hd.
  destruct (GET_dtos_addressed _ _ _ _ _ _ HG d Hd) as [u [_ Hu]]. congruence. }
split.
{ intros st2 H. destruct (Hkeep st2 H) as [[Hwf2 _] Hin2]. now apply In_get. }
intros st2 a' b' env' r H HOk Hid Hexp.
destruct (Hkeep st2 H) as [[Hwf2 _] Hin2].
destruct (POST_Ok_table _ _ _ _ _ HOk) as [event Htab]. cbv zeta in Htab.
destruct (JsMap.get _ (Signal.env_id env)) as [v|] eqn:G; [exfalso|reflexivity].
apply get_In in G. rewrite Htab in G. revert G. apply sweep_removes.
exists (Signal.env_id env, row). split; [|split].
- apply In_set_other; auto.
- unfold expired. simpl. apply Z.ltb_lt. exact Hexp.
- reflexivity.
Qed.

End SignalFacts.

(** ** Storing a delete request *)
Module DeleteFacts.

Definition is_ok {A} (r : Response A) : bool :=
  match r with Ok _ => true | Err _ _ => false end.

(** The message once tombstoned. *)
Definition tombstone (m : Message) : Message :=
  mkMessage (msg_id m) (msg_chatId m) (msg_senderId m) "" "" "deleted"
            (msg_createdAt m).

(** A rejected request leaves the store as it was. *)
Lemma POST_rejected_no_change st session body env status error st' :
  Delete.POST st session body env = (Err status error, st') -> st' = st.
Proof.
unfold Delete.POST.
destruct session as [sess|]; [|now intros [= _ _ <-]].
destruct body as [b|]; [|now intros [= _ _ <-]].
destruct (_ || _ || _); [now intros [= _ _ <-]|].
destruct (sess_user sess) as [userId|]; [|now intros [= _ _ <-]].
destruct (Db.chatMember_findUnique st (Delete.pb_chatId b) userId);
  [|now intros [= _ _ <-]].
destruct (Db.message_findUnique st (Delete.pb_messageId b)) as [message|];
  [|now intros [= _ _ <-]].
destruct (negb _); [now intros [= _ _ <-]|].
destruct (Db.deleteEvent_create _ _ _ _ _ _ _ _ _) as [ev st1].
destruct (Db.message_update _ _ _ _ _) as [o st2].
discriminate.
Qed.

(** What an accepted request has passed, and what it wrote. *)
Lemma POST_accepted st session body env dto st' :
  Delete.POST st session body env = (Ok dto, st') ->
  exists sess b userId message,
    session = Some sess /\ body = Some b /\ sess_user sess = Some userId /\
    truthy (Delete.pb_messageId b) = true /\ truthy (Delete.pb_chatId b) = true /\
    truthy (Delete.pb_signature b) = true /\
    Db.chatMember_findUnique st (Delete.pb_chatId b) userId <> None /\
    Db.message_findUnique st (Delete.pb_messageId b) = Some message /\
    msg_senderId message = userId /\
    let event := mkDeleteEvent (Delete.env_id env) (Delete.pb_messageId b)
                   (Delete.pb_chatId b) userId (Delete.pb_signature b)
                   (Delete.timestamp_or_now (Delete.pb_timestamp b) (Delete.env_now env))
                   (Delete.env_createdAt env) false in
    dto = Delete.to_dto event /\
    deleteEvents st' = JsMap.set (deleteEvents st) (Delete.env_id env) event /\
    messages st' = JsMap.set (messages st) (Delete.pb_messageId b) (tombstone message) /\
    users st' = users st /\ chatMembers st' = chatMembers st /\
    signalEvents st' = signalEvents st.
Proof.
unfold Delete.POST.
destruct session as [sess|]; [|intros [=]].
destruct body as [b|]; [|intros [=]].
destruct (truthy (Delete.pb_messageId b)) eqn:E1; [|intros [=]].
destruct (truthy (Delete.pb_chatId b)) eqn:E2; [|intros [=]].
destruct (truthy (Delete.pb_signature b)) eqn:E3; [|intros [=]].
cbn [negb orb].
destruct (sess_user sess) as [userId|] eqn:Eu; [|intros [=]].
destruct (Db.chatMember_findUnique st (Delete.pb_chatId b) userId) eqn:Em;
  [|intros [=]].
destruct (Db.message_findUnique st (Delete.pb_messageId b)) as [message|] eqn:Eg;
  [|intros [=]].
destruct (String.eqb (msg_senderId message) userId) eqn:Es; [|intros [=]].
cbn [negb Db.deleteEvent_create].
unfold Db.message_update. cbn [messages with_deleteEvents].
unfold Db.message_findUnique in Eg. rewrite Eg.
intros H. inversion H; subst; clear H.
apply String.eqb_eq in Es.
exists sess, b, userId, message.
repeat split; try assumption; try reflexivity; congruence.
Qed.

Lemma POST_signature_irrelevant st sess b env signature' :
  truthy (Delete.pb_signature b) = true -> truthy signature' = true ->
  let b' := Delete.mkPostBody (Delete.pb_messageId b) (Delete.pb_chatId b) signature'
                              (Delete.pb_timestamp b) in
  is_ok (fst (Delete.POST st sess (Some b) env)) =
  is_ok (fst (Delete.POST st sess (Some b') env)).
Proof.
intros H1 H2 b'. unfold Delete.POST.
destruct sess as [sess|]; [|reflexivity].
cbn [Delete.pb_messageId Delete.pb_chatId Delete.pb_signature Delete.pb_timestamp b'].
rewrite H1, H2.
destruct (_ || _ || _); [reflexivity|].
destruct (sess_user sess) as [userId|]; [|reflexivity].
destruct (Db.chatMember_findUnique st (Delete.pb_chatId b) userId); [|reflexivity].
destruct (Db.message_findUnique st (Delete.pb_messageId b)) as [message|] eqn:Eg;
  [|reflexivity].
destruct (negb _); [reflexivity|].
cbn [Db.deleteEvent_create]. unfold Db.message_update. cbn [messages with_deleteEvents].
unfold Db.message_findUnique in Eg. rewrite Eg. reflexivity.
Qed.

(** C4.  A delete request with all its fields present, whatever its signature
    (a valid one included), sent by a user who is not the sender of the target
    message, is answered 403; no delete event is stored and the message, like
    the rest of the store, is left as it was. *)
Theorem delete_by_non_sender_rejected st sess userId b env message :
  sess_user sess = Some userId ->
  truthy (Delete.pb_messageId b) = true ->
  truthy (Delete.pb_chatId b) = true ->
  truthy (Delete.pb_signature b) = true ->
  Db.message_findUnique st (Delete.pb_messageId b) = Some message ->
  msg_senderId message <> userId ->
  exists error, Delete.POST st (Some sess) (Some b) env = (Err 403 error, st).
Proof.
intros Hu H1 H2 H3 Hm Hs. unfold Delete.POST.
rewrite H1, H2, H3, Hu. cbn [negb orb].
destruct (Db.chatMember_findUnique st (Delete.pb_chatId b) userId); [|eauto].
rewrite Hm. apply String.eqb_neq in Hs. rewrite Hs. cbn [negb]. eauto.
Qed.


(** The checks of [POST /api/delete].  It stores the delete event and
    tombstones the message only if the requester is a member of the chat, the
    message exists and its sender is the requester.  The signature only has
    to be present: the route calls no verification, and the outcome is the
    same for every non-empty signature.  A request that fails one of these
    checks changes nothing. *)
Theorem delete_request_server_checks st session body env :
  (forall dto st',
      Delete.POST st session body env = (Ok dto, st') ->
      exists sess b userId message,
        session = Some sess /\ body = Some b /\ sess_user sess = Some userId /\
        truthy (Delete.pb_messageId b) = true /\ truthy (Delete.pb_chatId b) = true /\
        truthy (Delete.pb_signature b) = true /\
        Db.chatMember_findUnique st (Delete.pb_chatId b) userId <> None /\
        Db.message_findUnique st (Delete.pb_messageId b) = Some message /\
        msg_senderId message = userId /\
        let event := mkDeleteEvent (Delete.env_id env) (Delete.pb_messageId b)
                       (Delete.pb_chatId b) userId (Delete.pb_signature b)
                       (Delete.timestamp_or_now (Delete.pb_timestamp b)
                                                (Delete.env_now env))
                       (Delete.env_createdAt env) false in
        dto = Delete.to_dto event /\
        deleteEvents st' = JsMap.set (deleteEvents st) (Delete.env_id env) event /\
        messages st' =
          JsMap.set (messages st) (Delete.pb_messageId b) (tombstone message) /\
        users st' = users st /\ chatMembers st' = chatMembers st /\
        signalEvents st' = signalEvents st) /\
  (forall status error st',
      Delete.POST st session body env = (Err status error, st') -> st' = st) /\
  (forall b signature',
      body = Some b ->
      truthy (Delete.pb_signature b) = true -> truthy signature' = true ->
      is_ok (fst (Delete.POST st session body env)) =
      is_ok (fst (Delete.POST st session
                    (Some (Delete.mkPostBody (Delete.pb_messageId b)
                             (Delete.pb_chatId b) signature'
                             (Delete.pb_timestamp b))) env))).
Proof.
split; [|split].
- intros dto st'. apply POST_accepted.
- intros status error st'. apply POST_rejected_no_change.
- intros b signature' -> H1 H2. now apply POST_signature_irrelevant.
Qed.

End DeleteFacts.

(** ** The relay of delete events *)
Module MessagesFacts.
Import JsMapFacts.

Definition store_ok (st : Storage) : Prop :=
  wf (deleteEvents st) /\
  Forall (fun kv => fst kv = de_id (snd kv)) (deleteEvents st).

(** The rows of a chat that no [GET /api/messages] has returned yet. *)
Definition undelivered (chatId : string) (e : DeleteEvent) : Prop :=
  de_chatId e = chatId /\ de_delivered e = false.

Lemma delete_matches_undelivered chatId e :
  Db.delete_matches chatId (Some false) None e = true <-> undelivered chatId e.
Proof.
unfold Db.delete_matches, undelivered.
rewrite !andb_true_iff, String.eqb_eq.
destruct (de_delivered e); simpl; intuition congruence.
Qed.

Lemma fetch_deleteEvents_store st chatId :
  wf (deleteEvents st) ->
  deleteEvents (snd (Messages.fetch_deleteEvents st chatId)) =
  update_in (map de_id (fst (Messages.fetch_deleteEvents st chatId)))
            (fun e => Db.set_delivered e true) (deleteEvents st).
Proof.
intros Hwf. unfold Messages.fetch_deleteEvents. cbn [fst snd].
destruct (Db.deleteEvent_findMany st chatId (Some false) None false) as [|e l] eqn:E.
- cbn. unfold update_in. cbn. now rewrite map_id.
- change (0 <? List.length (e :: l))%nat with true. cbv iota.
  unfold Db.deleteEvent_updateMany. cbn [deleteEvents with_deleteEvents].
  now apply (updateMany_update_in _ (fun e => Db.set_delivered e true)).
Qed.

Lemma fetch_deleteEvents_other_tables st chatId :
  let st' := snd (Messages.fetch_deleteEvents st chatId) in
  users st' = users st /\ chatMembers st' = chatMembers st /\
  messages st' = messages st /\ signalEvents st' = signalEvents st.
Proof.
unfold Messages.fetch_deleteEvents. cbn [snd].
destruct (0 <? _)%nat; cbn; auto.
Qed.

Lemma In_fetch_deleteEvents st chatId e :
  In e (fst (Messages.fetch_deleteEvents st chatId)) <->
  In e (JsMap.values (deleteEvents st)) /\ undelivered chatId e.
Proof.
unfold Messages.fetch_deleteEvents, Db.deleteEvent_findMany. cbn [fst].
now rewrite filter_In, delete_matches_undelivered.
Qed.

(** Once a poll has run, the chat has no undelivered row left. *)
Lemma fetch_deleteEvents_again st chatId :
  store_ok st ->
  Messages.fetch_deleteEvents (snd (Messages.fetch_deleteEvents st chatId)) chatId =
  ([], snd (Messages.fetch_deleteEvents st chatId)).
Proof.
intros [Hwf Hk].
set (st' := snd (Messages.fetch_deleteEvents st chatId)).
assert (Hnil : Db.deleteEvent_findMany st' chatId (Some false) None false = []).
{ unfold Db.deleteEvent_findMany. apply filter_nil. intros e Hin.
  destruct (Db.delete_matches chatId (Some false) None e) eqn:E; [exfalso|reflexivity].
  apply delete_matches_undelivered in E. destruct E as [Hc Hd].
  unfold st' in Hin. rewrite fetch_deleteEvents_store in Hin by exact Hwf.
  unfold JsMap.values, update_in in Hin. rewrite map_map in Hin.
  apply in_map_iff in Hin as [[k e0] [He Hin]]. cbn [fst snd] in He.
  destruct (existsb (String.eqb k) _) eqn:Ex; cbn [snd] in He; subst e.
  - simpl in Hd. discriminate.
  - assert (In k (map de_id (fst (Messages.fetch_deleteEvents st chatId)))).
    { rewrite Forall_forall in Hk. specialize (Hk _ Hin). cbn [fst snd] in Hk.
      rewrite Hk. apply in_map. apply In_fetch_deleteEvents. split; [|now split].
      unfold JsMap.values. apply in_map_iff. exists (k, e0). auto. }
    apply existsb_eqb_In in H. congruence. }
unfold Messages.fetch_deleteEvents at 1. rewrite Hnil. reflexivity.
Qed.

Lemma with_sender_key_delivered st st' e d :
  users st' = users st ->
  Delete.with_sender_key st' (Db.set_delivered e d) = Delete.with_sender_key st e.
Proof. intros H. unfold Delete.with_sender_key. now rewrite H. Qed.

(** C7, as the code has it.  A delete event carries one [delivered] flag for
    the whole record.  A [GET /api/messages] by a member returns the
    undelivered events of the chat and sets the flag on exactly those rows;
    from then on that route returns them to no participant, the caller
    included.  The rows themselves stay in the table, and [GET /api/delete],
    which does not look at the flag, still lists each of them to every
    member. *)
Theorem delete_events_delivered_once st sess1 u1 chatId :
  store_ok st ->
  sess_user sess1 = Some u1 ->
  truthy chatId = true ->
  Db.chatMember_findUnique st chatId u1 <> None ->
  exists events st',
    Messages.GET st (Some sess1) (Some chatId) = (Ok events, st') /\
    (forall e, In e events <->
               In e (JsMap.values (deleteEvents st)) /\ undelivered chatId e) /\
    deleteEvents st' =
      update_in (map de_id events) (fun e => Db.set_delivered e true) (deleteEvents st) /\
    (forall sess2 u2,
        sess_user sess2 = Some u2 ->
        Db.chatMember_findUnique st chatId u2 <> None ->
        Messages.GET st' (Some sess2) (Some chatId) = (Ok [], st')) /\
    (forall sess2 u2,
        sess_user sess2 = Some u2 ->
        Db.chatMember_findUnique st chatId u2 <> None ->
        exists listed,
          Delete.GET st' (Some sess2) (Some chatId) None = Ok listed /\
          forall e, In e events -> In (Delete.with_sender_key st e) listed).
Proof.
intros Hok Hu Hc Hm.
exists (fst (Messages.fetch_deleteEvents st chatId)),
       (snd (Messages.fetch_deleteEvents st chatId)).
destruct (fetch_deleteEvents_other_tables st chatId) as (Hus & Hcm & _).
assert (Hmem : forall u, Db.chatMember_findUnique
                 (snd (Messages.fetch_deleteEvents st chatId)) chatId u =
               Db.chatMember_findUnique st chatId u).
{ intros u. unfold Db.chatMember_findUnique. now rewrite Hcm. }
split; [|split; [|split; [|split]]].
- unfold Messages.GET. cbn [or_null]. rewrite Hc, Hu.
  destruct (Db.chatMember_findUnique st chatId u1); [|congruence].
  now destruct (Messages.fetch_deleteEvents st chatId).
- intros e. apply In_fetch_deleteEvents.
- apply fetch_deleteEvents_store. apply Hok.
- intros sess2 u2 Hu2 Hm2. unfold Messages.GET. cbn [or_null]. rewrite Hc, Hu2, Hmem.
  destruct (Db.chatMember_findUnique st chatId u2); [|congruence].
  now rewrite fetch_deleteEvents_again.
- intros sess2 u2 Hu2 Hm2. unfold Delete.GET. cbn [or_null]. rewrite Hc, Hu2, Hmem.
  destruct (Db.chatMember_findUnique st chatId u2); [|congruence].
  eexists. split; [reflexivity|].
  intros e He.
  rewrite <- (with_sender_key_delivered st _ e true Hus).
  apply in_map. unfold Db.deleteEvent_findMany. apply In_sort_with, filter_In.
  apply In_fetch_deleteEvents in He as [Hin [Hch Hd]].
  split.
  + rewrite fetch_deleteEvents_store by apply Hok.
    unfold JsMap.values in *. apply in_map_iff in Hin as [[k e0] [He0 Hin]].
    cbn [snd] in He0. subst e0.
    apply in_map_iff. exists (k, Db.set_delivered e true). split; [reflexivity|].
    unfold update_in. apply in_map_iff. exists (k, e). split; [|exact Hin].
    cbn [fst snd].
    assert (Hex : existsb (String.eqb k)
                    (map de_id (fst (Messages.fetch_deleteEvents st chatId))) = true).
    { apply existsb_eqb_In. destruct Hok as [_ Hk]. rewrite Forall_forall in Hk.
      specialize (Hk _ Hin). cbn [fst snd] in Hk. rewrite Hk. apply in_map.
      apply In_fetch_deleteEvents. split; [|now split].
      apply in_map_iff. exists (k, e). auto. }
    now rewrite Hex.
  + unfold Db.delete_matches. cbn. rewrite Hch, String.eqb_refl. reflexivity.
Qed.

End MessagesFacts.

(** ** Base64: [atob] undoes [btoa] *)
Module Base64Facts.
Local Open Scope Z_scope.
Import Base64.

Lemma list_ind3 {A} (P : list A -> Prop) :
  P [] -> (forall x, P [x]) -> (forall x y, P [x; y]) ->
  (forall x y z l, P l -> P (x :: y :: z :: l)) ->
  forall l, P l.
Proof.
intros H0 H1 H2 H3.
assert (H : forall l, P l /\ (forall x, P (x :: l)) /\ (forall x y, P (x :: y :: l))).
{ induction l as [|a l (IH0 & IH1 & IH2)]; repeat split; auto. }
intros l. apply H.
Qed.

Definition is_sextet (i : Z) : Prop := 0 <= i < 64.

Ltac case_tests :=
  repeat match goal with
         | |- context [?a <? ?b] => destruct (Z.ltb_spec a b)
         | |- context [?a <=? ?b] => destruct (Z.leb_spec a b)
         | |- context [?a =? ?b] => destruct (Z.eqb_spec a b)
         end; cbn [andb orb negb].

Lemma b64_index_char i : is_sextet i -> b64_index (b64_char i) = Some i.
Proof.
unfold is_sextet, b64_char. intros H.
case_tests; unfold b64_index; case_tests; try lia; f_equal; lia.
Qed.

Lemma b64_char_not_pad i : is_sextet i -> b64_char i <> 61.
Proof. unfold is_sextet, b64_char. intros H. case_tests; lia. Qed.

Lemma b64_char_not_space i :
  is_sextet i -> is_ascii_whitespace (b64_char i) = false.
Proof.
unfold is_sextet, b64_char. intros H.
case_tests; unfold is_ascii_whitespace; case_tests; try reflexivity; exfalso; lia.
Qed.

Lemma sextets_range bs : Forall is_byte bs -> Forall is_sextet (sextets bs).
Proof.
unfold is_byte, is_sextet.
induction bs as [|x|x y|x y z l IH] using list_ind3; intros H; cbn [sextets];
  repeat match goal with
         | H : Forall _ (_ :: _) |- _ => inversion H; subst; clear H
         end;
  repeat constructor; auto;
  try (apply Z.div_pos; lia); try (apply Z.div_lt_upper_bound; lia);
  Z.div_mod_to_equations; lia.
Qed.

Lemma unsextets_sextets bs : Forall is_byte bs -> unsextets (sextets bs) = bs.
Proof.
unfold is_byte.
induction bs as [|x|x y|x y z l IH] using list_ind3; intros H;
  repeat match goal with
         | H : Forall _ (_ :: _) |- _ => inversion H; subst; clear H
         end.
- reflexivity.
- cbn. f_equal. Z.div_mod_to_equations; lia.
- cbn. f_equal; [|f_equal]; Z.div_mod_to_equations; lia.
- cbn [sextets unsextets]. rewrite IH by assumption.
  f_equal; [|f_equal; [|f_equal]]; Z.div_mod_to_equations; lia.
Qed.

Lemma indices_chars l : Forall is_sextet l -> indices (map b64_char l) = Some l.
Proof.
induction 1 as [|i l Hi _ IH]; cbn; [reflexivity|].
now rewrite b64_index_char, IH.
Qed.

Lemma sextets_length bs :
  (List.length (sextets bs) mod 4 <> 1)%nat /\
  ((List.length (sextets bs) + List.length (padding (List.length bs))) mod 4 = 0)%nat.
Proof.
induction bs as [|x|x y|x y z l [IH1 IH2]] using list_ind3;
  try (cbn; split; [discriminate|reflexivity]).
cbn [sextets List.length].
replace (padding (S (S (S (List.length l))))) with (padding (List.length l)).
2:{ unfold padding.
    replace (S (S (S (List.length l)))) with (List.length l + 1 * 3)%nat by lia.
    now rewrite Nat.Div0.mod_add. }
replace (S (S (S (S (List.length (sextets l)))))) with
  (List.length (sextets l) + 1 * 4)%nat by lia.
split.
- now rewrite Nat.Div0.mod_add.
- replace (List.length (sextets l) + 1 * 4 + List.length (padding (List.length l)))%nat
    with (List.length (sextets l) + List.length (padding (List.length l)) + 1 * 4)%nat
    by lia.
  now rewrite Nat.Div0.mod_add.
Qed.

Lemma padding_cases n :
  padding n = [] \/ padding n = [61] \/ padding n = [61; 61].
Proof.
unfold padding. destruct (n mod 3)%nat as [|[|[|k]]]; auto.
Qed.

Lemma padding_nonempty_sextets bs :
  padding (List.length bs) <> [] -> sextets bs <> [].
Proof.
destruct bs as [|x [|y [|z l]]]; cbn; try discriminate. intros H. congruence.
Qed.

Lemma strip_padding_btoa bs :
  Forall is_byte bs ->
  strip_padding (map b64_char (sextets bs) ++ padding (List.length bs)) =
  map b64_char (sextets bs).
Proof.
intros Hb. unfold strip_padding.
rewrite length_app, length_map.
destruct (sextets_length bs) as [_ ->]. cbn [Nat.eqb].
assert (Hs := sextets_range bs Hb).
assert (Hlast : forall c r, rev (map b64_char (sextets bs)) = c :: r -> (c =? 61) = false).
{ intros c r Hr. apply Z.eqb_neq.
  assert (Hin : In c (map b64_char (sextets bs))).
  { apply in_rev. rewrite Hr. now left. }
  apply in_map_iff in Hin as [i [<- Hi]]. apply b64_char_not_pad.
  rewrite Forall_forall in Hs. auto. }
rewrite rev_app_distr.
destruct (padding_cases (List.length bs)) as [E|[E|E]]; rewrite E in *; cbn [rev app].
- rewrite app_nil_r.
  destruct (rev (map b64_char (sextets bs))) as [|a [|b r]] eqn:Er.
  + reflexivity.
  + now rewrite (Hlast a [] eq_refl).
  + now rewrite (Hlast a (b :: r) eq_refl).
- assert (Hne : sextets bs <> []) by (apply padding_nonempty_sextets; rewrite E; discriminate).
  destruct (rev (map b64_char (sextets bs))) as [|b r] eqn:Er.
  + exfalso. apply (f_equal (@rev Z)) in Er. rewrite rev_involutive in Er.
    destruct (sextets bs); [congruence|discriminate].
  + cbn [app]. rewrite Z.eqb_refl, (Hlast b r eq_refl).
    change (rev r ++ [b]) with (rev (b :: r)).
    rewrite <- Er. apply rev_involutive.
- cbn [app]. rewrite !Z.eqb_refl. apply rev_involutive.
Qed.

Lemma btoa_no_space bs :
  Forall is_byte bs ->
  filter (fun c => negb (is_ascii_whitespace c))
         (map b64_char (sextets bs) ++ padding (List.length bs)) =
  map b64_char (sextets bs) ++ padding (List.length bs).
Proof.
intros Hb. apply forallb_filter_id. apply forallb_forall.
intros c Hin. apply in_app_or in Hin as [Hin|Hin].
- apply in_map_iff in Hin as [i [<- Hi]]. rewrite b64_char_not_space; [reflexivity|].
  assert (Hs := sextets_range bs Hb). rewrite Forall_forall in Hs. auto.
- destruct (padding_cases (List.length bs)) as [E|[E|E]]; rewrite E in Hin;
    cbn in Hin; intuition (subst; reflexivity).
Qed.

Lemma forallb_bytes bs :
  Forall is_byte bs -> forallb (fun c => (0 <=? c) && (c <=? 255)) bs = true.
Proof.
intros H. apply forallb_forall. rewrite Forall_forall in H.
intros c Hc. specialize (H c Hc). unfold is_byte in H.
apply andb_true_iff. split; apply Z.leb_le; lia.
Qed.

Lemma btoa_bytes bs :
  Forall is_byte bs ->
  btoa bs = Return (map b64_char (sextets bs) ++ padding (List.length bs)).
Proof. intros H. unfold btoa. now rewrite forallb_bytes. Qed.

(** [atob(btoa(s)) = s] for every string of code units below 256. *)
Lemma atob_btoa bs :
  Forall is_byte bs -> bind (btoa bs) atob = Return bs.
Proof.
intros Hb. rewrite btoa_bytes by assumption. cbn [bind]. unfold atob.
rewrite btoa_no_space, strip_padding_btoa by assumption.
rewrite length_map.
destruct (sextets_length bs) as [Hlen _].
apply Nat.eqb_neq in Hlen. rewrite Hlen.
rewrite indices_chars by now apply sextets_range.
now rewrite unsextets_sextets.
Qed.

Lemma fromCharCode_bytes bs : Forall is_byte bs -> fromCharCode bs = bs.
Proof.
intros H. unfold fromCharCode. rewrite <- (map_id bs) at 2.
apply map_ext_in. rewrite Forall_forall in H. intros c Hc.
specialize (H c Hc). unfold is_byte in H. apply Z.mod_small. lia.
Qed.

Lemma charCodes_bytes bs : Forall is_byte bs -> charCodes bs = bs.
Proof.
intros H. unfold charCodes. rewrite <- (map_id bs) at 2.
apply map_ext_in. rewrite Forall_forall in H. intros c Hc.
specialize (H c Hc). unfold is_byte in H. apply Z.mod_small. lia.
Qed.

(** The round trip of a byte array through
    [btoa(String.fromCharCode(...bytes))] and
    [Uint8Array.from(atob(s), c => c.charCodeAt(0))]. *)
Lemma bytes_round_trip bs :
  Forall is_byte bs ->
  exists s, btoa (fromCharCode bs) = Return s /\
            exists b, atob s = Return b /\ charCodes b = bs.
Proof.
intros H. rewrite fromCharCode_bytes by assumption.
assert (Hr := atob_btoa bs H). rewrite btoa_bytes in * by assumption.
eexists. split; [reflexivity|]. cbn [bind] in Hr.
exists bs. split; [exact Hr|now apply charCodes_bytes].
Qed.

End Base64Facts.

(** ** [TextDecoder] after [TextEncoder] *)
Module TextFacts.
Local Open Scope Z_scope.
Import Text.

(** A Unicode scalar value. *)
Definition is_scalar (cp : Z) : Prop :=
  0 <= cp < 0x110000 /\ ~ (0xD800 <= cp <= 0xDFFF).

Ltac case_tests :=
  repeat match goal with
         | |- context [?a <? ?b] => destruct (Z.ltb_spec a b)
         | |- context [?a <=? ?b] => destruct (Z.leb_spec a b)
         | |- context [?a =? ?b] => destruct (Z.eqb_spec a b)
         end; cbn [andb orb negb].

Ltac arith := try reflexivity; try (exfalso; Z.div_mod_to_equations; lia);
              try (Z.div_mod_to_equations; lia).

Lemma decode_lead b rest :
  utf8_decode_from None (b :: rest) =
  match utf8_lead b with
  | Emit cp => cp :: utf8_decode_from None rest
  | More cp needed lower upper =>
      utf8_decode_from (Some (cp, needed, lower, upper)) rest
  | Invalid => 0xFFFD :: utf8_decode_from None rest
  end.
Proof. reflexivity. Qed.

Lemma decode_continuation cp needed lower upper b rest :
  lower <= b <= upper ->
  utf8_decode_from (Some (cp, needed, lower, upper)) (b :: rest) =
  match needed with
  | S (S n) => utf8_decode_from (Some (cp * 64 + b mod 64, S n, 0x80, 0xBF)) rest
  | _ => (cp * 64 + b mod 64) :: utf8_decode_from None rest
  end.
Proof.
intros [H1 H2]. cbn [utf8_decode_from].
apply Z.leb_le in H1, H2. rewrite H1, H2. reflexivity.
Qed.

Lemma lead1 cp : 0 <= cp < 0x80 -> utf8_lead cp = Emit cp.
Proof. intros H. unfold utf8_lead. case_tests; arith. Qed.

Lemma lead2 cp :
  0x80 <= cp < 0x800 -> utf8_lead (0xC0 + cp / 64) = More (cp / 64) 1 0x80 0xBF.
Proof.
intros H. unfold utf8_lead. case_tests; arith.
f_equal. Z.div_mod_to_equations; lia.
Qed.

Lemma lead3 cp :
  0x800 <= cp < 0x10000 ->
  utf8_lead (0xE0 + cp / 4096) =
  More (cp / 4096) 2 (if cp / 4096 =? 0 then 0xA0 else 0x80)
                     (if cp / 4096 =? 13 then 0x9F else 0xBF).
Proof.
intros H. unfold utf8_lead.
assert (H0 : 0 <= cp / 4096 < 16) by (Z.div_mod_to_equations; lia).
replace ((0xE0 + cp / 4096) mod 16) with (cp / 4096)
  by (Z.div_mod_to_equations; lia).
replace (0xE0 + cp / 4096 =? 0xE0) with (cp / 4096 =? 0)
  by (destruct (Z.eqb_spec (cp / 4096) 0), (Z.eqb_spec (0xE0 + cp / 4096) 0xE0);
      try reflexivity; lia).
replace (0xE0 + cp / 4096 =? 0xED) with (cp / 4096 =? 13)
  by (destruct (Z.eqb_spec (cp / 4096) 13), (Z.eqb_spec (0xE0 + cp / 4096) 0xED);
      try reflexivity; lia).
generalize dependent (cp / 4096). intros q Hq.
destruct (Z.leb_spec (0xE0 + q) 0x7F); [lia|].
destruct (Z.leb_spec 0xC2 (0xE0 + q)); [|lia].
destruct (Z.leb_spec (0xE0 + q) 0xDF); [lia|].
destruct (Z.leb_spec 0xE0 (0xE0 + q)); [|lia].
destruct (Z.leb_spec (0xE0 + q) 0xEF); [|lia].
reflexivity.
Qed.

Lemma lead4 cp :
  0x10000 <= cp < 0x110000 ->
  utf8_lead (0xF0 + cp / 262144) =
  More (cp / 262144) 3 (if cp / 262144 =? 0 then 0x90 else 0x80)
                       (if cp / 262144 =? 4 then 0x8F else 0xBF).
Proof.
intros H. unfold utf8_lead.
assert (H0 : 0 <= cp / 262144 < 5) by (Z.div_mod_to_equations; lia).
replace ((0xF0 + cp / 262144) mod 8) with (cp / 262144)
  by (Z.div_mod_to_equations; lia).
replace (0xF0 + cp / 262144 =? 0xF0) with (cp / 262144 =? 0)
  by (destruct (Z.eqb_spec (cp / 262144) 0), (Z.eqb_spec (0xF0 + cp / 262144) 0xF0);
      try reflexivity; lia).
replace (0xF0 + cp / 262144 =? 0xF4) with (cp / 262144 =? 4)
  by (destruct (Z.eqb_spec (cp / 262144) 4), (Z.eqb_spec (0xF0 + cp / 262144) 0xF4);
      try reflexivity; lia).
generalize dependent (cp / 262144). intros q Hq.
destruct (Z.leb_spec (0xF0 + q) 0x7F); [lia|].
destruct (Z.leb_spec 0xC2 (0xF0 + q)); [|lia].
destruct (Z.leb_spec (0xF0 + q) 0xDF); [lia|].
destruct (Z.leb_spec 0xE0 (0xF0 + q)); [|lia].
destruct (Z.leb_spec (0xF0 + q) 0xEF); [lia|].
destruct (Z.leb_spec 0xF0 (0xF0 + q)); [|lia].
destruct (Z.leb_spec (0xF0 + q) 0xF4); [|lia].
reflexivity.
Qed.

(** The decoder reads back one encoded scalar value. *)
Lemma decode_encode_one cp rest :
  is_scalar cp ->
  utf8_decode_from None (utf8_encode_one cp ++ rest) =
  cp :: utf8_decode_from None rest.
Proof.
intros [Hr Hs]. unfold utf8_encode_one.
destruct (Z.ltb_spec cp 0x80); [|destruct (Z.ltb_spec cp 0x800);
  [|destruct (Z.ltb_spec cp 0x10000)]]; cbn [app].
- rewrite decode_lead, lead1 by lia. reflexivity.
- rewrite decode_lead, lead2 by lia.
  rewrite decode_continuation by (Z.div_mod_to_equations; lia).
  f_equal. Z.div_mod_to_equations; lia.
- rewrite decode_lead, lead3 by lia.
  rewrite decode_continuation.
  2:{ destruct (Z.eqb_spec (cp / 4096) 0), (Z.eqb_spec (cp / 4096) 13);
        Z.div_mod_to_equations; lia. }
  rewrite decode_continuation by (Z.div_mod_to_equations; lia).
  f_equal. Z.div_mod_to_equations; lia.
- rewrite decode_lead, lead4 by lia.
  rewrite decode_continuation.
  2:{ destruct (Z.eqb_spec (cp / 262144) 0), (Z.eqb_spec (cp / 262144) 4);
        Z.div_mod_to_equations; lia. }
  rewrite decode_continuation by (Z.div_mod_to_equations; lia).
  rewrite decode_continuation by (Z.div_mod_to_equations; lia).
  f_equal. Z.div_mod_to_equations; lia.
Qed.

Lemma utf8_decode_encode cps :
  Forall is_scalar cps -> utf8_decode (flat_map utf8_encode_one cps) = cps.
Proof.
unfold utf8_decode. induction 1 as [|cp cps H _ IH]; [reflexivity|].
cbn [flat_map]. rewrite decode_encode_one by assumption. now rewrite IH.
Qed.


Lemma list_ind2 {A} (P : list A -> Prop) :
  P [] -> (forall x, P [x]) ->
  (forall x y l, P l -> P (y :: l) -> P (x :: y :: l)) ->
  forall l, P l.
Proof.
intros H0 H1 H2.
assert (H : forall l, P l /\ forall x, P (x :: l)).
{ induction l as [|a l [IH0 IH1]]; split; auto. }
intros l. apply H.
Qed.

Lemma high_spec c : is_high_surrogate c = true <-> 0xD800 <= c <= 0xDBFF.
Proof. unfold is_high_surrogate. rewrite andb_true_iff, !Z.leb_le. tauto. Qed.

Lemma low_spec c : is_low_surrogate c = true <-> 0xDC00 <= c <= 0xDFFF.
Proof. unfold is_low_surrogate. rewrite andb_true_iff, !Z.leb_le. tauto. Qed.

Lemma high_false c : is_high_surrogate c = false <-> ~ (0xD800 <= c <= 0xDBFF).
Proof. rewrite <- high_spec. now destruct (is_high_surrogate c). Qed.

Lemma low_false c : is_low_surrogate c = false <-> ~ (0xDC00 <= c <= 0xDFFF).
Proof. rewrite <- low_spec. now destruct (is_low_surrogate c). Qed.

Ltac surrogate_cases :=
  repeat match goal with
         | H : is_high_surrogate _ = true |- _ => apply high_spec in H
         | H : is_low_surrogate _ = true |- _ => apply low_spec in H
         | H : is_high_surrogate _ = false |- _ => apply high_false in H
         | H : is_low_surrogate _ = false |- _ => apply low_false in H
         end.

Lemma scalar_values_cons2 c d rest :
  scalar_values (c :: d :: rest) =
  if is_high_surrogate c then
    if is_low_surrogate d
    then (0x10000 + (c - 0xD800) * 0x400 + (d - 0xDC00)) :: scalar_values rest
    else 0xFFFD :: scalar_values (d :: rest)
  else if is_low_surrogate c then 0xFFFD :: scalar_values (d :: rest)
  else c :: scalar_values (d :: rest).
Proof. reflexivity. Qed.

Lemma well_formed_cons2 c d rest :
  well_formed (c :: d :: rest) =
  (0 <=? c) && (c <? 65536) &&
  if is_high_surrogate c then is_low_surrogate d && well_formed rest
  else negb (is_low_surrogate c) && well_formed (d :: rest).
Proof. reflexivity. Qed.

Lemma scalar_values_scalar s :
  Forall is_code_unit s -> Forall is_scalar (scalar_values s).
Proof.
unfold is_code_unit, is_scalar.
induction s as [|c|c d rest IH0 IH1] using list_ind2; intros H.
- constructor.
- inversion H; subst. cbn.
  destruct (is_high_surrogate c) eqn:Eh; [|destruct (is_low_surrogate c) eqn:El];
    surrogate_cases; repeat constructor; cbv beta; lia.
- inversion H as [|? ? Hc H']; subst. inversion H' as [|? ? Hd H'']; subst.
  rewrite scalar_values_cons2.
  destruct (is_high_surrogate c) eqn:Eh.
  + destruct (is_low_surrogate d) eqn:El; surrogate_cases.
    * constructor; [cbv beta; lia|now apply IH0].
    * constructor; [cbv beta; lia|now apply IH1].
  + destruct (is_low_surrogate c) eqn:El; surrogate_cases;
      (constructor; [cbv beta; lia|now apply IH1]).
Qed.

Lemma utf16_of_scalar_values s :
  well_formed s = true -> flat_map utf16_encode_one (scalar_values s) = s.
Proof.
induction s as [|c|c d rest IH0 IH1] using list_ind2; intros H.
- reflexivity.
- cbn in H. cbn.
  destruct (is_high_surrogate c) eqn:Eh.
  + rewrite andb_false_r in H. discriminate.
  + apply andb_true_iff in H as [Hr H]. apply andb_true_iff in H as [Hl _].
    apply negb_true_iff in Hl. rewrite Hl. cbn. unfold utf16_encode_one.
    apply andb_true_iff in Hr as [_ Hr]. now rewrite Hr.
- rewrite well_formed_cons2 in H. rewrite scalar_values_cons2.
  apply andb_true_iff in H as [Hr H]. apply andb_true_iff in Hr as [Hr0 Hr1].
  apply Z.leb_le in Hr0. apply Z.ltb_lt in Hr1.
  destruct (is_high_surrogate c) eqn:Eh.
  + apply andb_true_iff in H as [Hl Hw]. rewrite Hl. cbn [flat_map].
    rewrite IH0 by assumption. surrogate_cases.
    unfold utf16_encode_one.
    destruct (Z.ltb_spec (0x10000 + (c - 0xD800) * 0x400 + (d - 0xDC00)) 0x10000);
      [lia|].
    cbn [app]. f_equal; [|f_equal]; Z.div_mod_to_equations; lia.
  + apply andb_true_iff in H as [Hl Hw]. apply negb_true_iff in Hl. rewrite Hl.
    cbn [flat_map]. rewrite IH1 by assumption.
    unfold utf16_encode_one. apply Z.ltb_lt in Hr1. now rewrite Hr1.
Qed.

Lemma well_formed_code_units s : well_formed s = true -> Forall is_code_unit s.
Proof.
unfold is_code_unit.
induction s as [|c|c d rest IH0 IH1] using list_ind2; intros H.
- constructor.
- cbn in H. apply andb_true_iff in H as [Hr _].
  apply andb_true_iff in Hr as [Hr0 Hr1].
  apply Z.leb_le in Hr0. apply Z.ltb_lt in Hr1. repeat constructor; lia.
- rewrite well_formed_cons2 in H.
  apply andb_true_iff in H as [Hr H]. apply andb_true_iff in Hr as [Hr0 Hr1].
  apply Z.leb_le in Hr0. apply Z.ltb_lt in Hr1.
  constructor; [lia|].
  destruct (is_high_surrogate c).
  + apply andb_true_iff in H as [Hl Hw]. apply low_spec in Hl.
    constructor; [lia|auto].
  + apply andb_true_iff in H as [_ Hw]. auto.
Qed.

(** Whether the string begins with U+FEFF. *)
Definition starts_with_bom (s : jsstring) : bool :=
  match s with
  | c :: _ => c =? 0xFEFF
  | [] => false
  end.

Definition without_bom (s : jsstring) : jsstring :=
  if starts_with_bom s then tl s else s.

Lemma strip_bom_scalar_values s :
  strip_bom (scalar_values s) = scalar_values (without_bom s).
Proof.
unfold without_bom. destruct s as [|c rest]; [reflexivity|].
cbn [starts_with_bom tl].
destruct (Z.eqb_spec c 0xFEFF) as [->|Hne].
- reflexivity.
- cbn [scalar_values].
  destruct (is_high_surrogate c) eqn:Eh.
  + destruct rest as [|d rest']; [reflexivity|].
    destruct (is_low_surrogate d) eqn:El; [|reflexivity].
    surrogate_cases. cbn [strip_bom].
    destruct (Z.eqb_spec (0x10000 + (c - 0xD800) * 0x400 + (d - 0xDC00)) 0xFEFF);
      [lia|reflexivity].
  + destruct (is_low_surrogate c); [reflexivity|].
    cbn [strip_bom]. apply Z.eqb_neq in Hne. now rewrite Hne.
Qed.

Lemma well_formed_without_bom s :
  well_formed s = true -> well_formed (without_bom s) = true.
Proof.
unfold without_bom. destruct s as [|c rest]; [reflexivity|].
cbn [starts_with_bom tl]. destruct (Z.eqb_spec c 0xFEFF) as [->|]; [|auto].
cbn. auto.
Qed.

Lemma encode_bytes s : Forall is_code_unit s -> Forall is_byte (encode s).
Proof.
intros H. unfold encode. apply Forall_flat_map.
eapply Forall_impl; [|apply scalar_values_scalar; exact H].
intros cp [Hr Hs]. unfold utf8_encode_one, is_byte.
destruct (Z.ltb_spec cp 0x80); [|destruct (Z.ltb_spec cp 0x800);
  [|destruct (Z.ltb_spec cp 0x10000)]];
  repeat constructor; Z.div_mod_to_equations; lia.
Qed.

(** What [TextDecoder] returns for the bytes of [TextEncoder]: the string
    with its unpaired surrogates replaced, less a leading U+FEFF. *)
Lemma decode_encode s :
  Forall is_code_unit s ->
  decode (encode s) = flat_map utf16_encode_one (scalar_values (without_bom s)).
Proof.
intros H. unfold decode, encode.
rewrite utf8_decode_encode by now apply scalar_values_scalar.
now rewrite strip_bom_scalar_values.
Qed.

Lemma decode_encode_well_formed s :
  well_formed s = true -> decode (encode s) = without_bom s.
Proof.
intros H. rewrite decode_encode by now apply well_formed_code_units.
apply utf16_of_scalar_values. now apply well_formed_without_bom.
Qed.

(** The encoder is injective on well-formed strings. *)
Lemma encode_injective s1 s2 :
  well_formed s1 = true -> well_formed s2 = true ->
  encode s1 = encode s2 -> s1 = s2.
Proof.
intros H1 H2 E.
assert (E' : scalar_values s1 = scalar_values s2).
{ rewrite <- (utf8_decode_encode (scalar_values s1)),
          <- (utf8_decode_encode (scalar_values s2))
    by (apply scalar_values_scalar; now apply well_formed_code_units).
  unfold encode in E. now rewrite E. }
rewrite <- (utf16_of_scalar_values s1 H1), <- (utf16_of_scalar_values s2 H2).
now rewrite E'.
Qed.

End TextFacts.

(** ** The message cipher *)
Module CryptoFacts.
Import Base64Facts TextFacts.

Lemma getRandomValues_bytes rng n : Forall is_byte (fst (getRandomValues rng n)).
Proof.
unfold getRandomValues. cbn [fst]. apply Forall_map, Forall_forall.
intros i _. unfold is_byte. apply Z.mod_pos_bound. lia.
Qed.

Lemma getRandomValues_length rng n : List.length (fst (getRandomValues rng n)) = n.
Proof. unfold getRandomValues. cbn [fst]. now rewrite length_map, length_seq. Qed.

Lemma getRandomValues_pos rng n :
  rng_pos (snd (getRandomValues rng n)) = (rng_pos rng + n)%nat /\
  rng_source (snd (getRandomValues rng n)) = rng_source rng.
Proof. split; reflexivity. Qed.

(** The base64 text of a byte array. *)
Definition base64 (bs : Uint8Array) : jsstring :=
  map Base64.b64_char (Base64.sextets bs) ++ Base64.padding (List.length bs).

Lemma btoa_fromCharCode bs :
  Forall is_byte bs -> Base64.btoa (Base64.fromCharCode bs) = Return (base64 bs).
Proof.
intros H. rewrite fromCharCode_bytes by assumption. now apply btoa_bytes.
Qed.

Lemma atob_base64 bs :
  Forall is_byte bs -> Base64.atob (base64 bs) = Return bs.
Proof.
intros H. assert (Hr := atob_btoa bs H).
rewrite btoa_bytes in Hr by assumption. exact Hr.
Qed.


Section WithPlatform.
Context {W : WebCrypto} {Eng : Engine}.

Local Open Scope Z_scope.

(** The bytes that [encryptMessage] spreads: the encryption of the message
    under the twelve bytes read from the generator. *)
Definition encrypted (plaintext : jsstring) (key : AesKey) (rng : Rng) : Uint8Array :=
  aes_gcm_encrypt key (fst (getRandomValues rng 12)) (Text.encode plaintext).

Lemma spread_fits bytes :
  Z.of_nat (List.length bytes) <= max_arguments ->
  Base64.fromCharCode_spread bytes = Return (Base64.fromCharCode bytes).
Proof.
intros H. unfold Base64.fromCharCode_spread.
destruct (Z.leb_spec (Z.of_nat (List.length bytes)) max_arguments); [reflexivity|lia].
Qed.

Lemma spread_too_long bytes :
  max_arguments < Z.of_nat (List.length bytes) ->
  Base64.fromCharCode_spread bytes = Throw RangeError.
Proof.
intros H. unfold Base64.fromCharCode_spread.
destruct (Z.leb_spec (Z.of_nat (List.length bytes)) max_arguments); [lia|reflexivity].
Qed.


(** What [encryptMessage] returns when the engine accepts the ciphertext as
    arguments: the base64 texts of the encryption under the twelve bytes
    read from the generator, and of these bytes. *)
Lemma encryptMessage_spec {A : AeadCorrect W} plaintext key rng :
  Forall is_code_unit plaintext ->
  Z.of_nat (List.length (encrypted plaintext key rng)) <= max_arguments ->
  let nonce := fst (getRandomValues rng 12) in
  Crypto.encryptMessage plaintext key rng =
  (Return (Crypto.mkEncrypted
             (base64 (aes_gcm_encrypt key nonce (Text.encode plaintext)))
             (base64 nonce)),
   snd (getRandomValues rng 12)).
Proof.
intros Hp Hfit nonce. unfold Crypto.encryptMessage, encrypted in *.
destruct (getRandomValues rng 12) as [iv rng'] eqn:Er.
assert (Hiv : Forall is_byte iv)
  by (change iv with (fst (iv, rng')); rewrite <- Er; apply getRandomValues_bytes).
subst nonce. cbn [fst snd] in *.
rewrite spread_fits by exact Hfit. cbn [bind].
rewrite !btoa_fromCharCode; auto.
apply encrypt_bytes; [assumption|now apply encode_bytes].
Qed.

(** Beyond that, the spread throws. *)
Lemma encryptMessage_too_long plaintext key rng :
  max_arguments < Z.of_nat (List.length (encrypted plaintext key rng)) ->
  Crypto.encryptMessage plaintext key rng =
  (Throw RangeError, snd (getRandomValues rng 12)).
Proof.
intros Hlong. unfold Crypto.encryptMessage, encrypted in *.
destruct (getRandomValues rng 12) as [iv rng']. cbn [fst snd] in *.
now rewrite spread_too_long by exact Hlong.
Qed.


(** Decryption of the base64 texts of a ciphertext and of its nonce. *)
Lemma decrypt_base64 {A : AeadCorrect W} plaintext key rng :
  Forall is_code_unit plaintext ->
  Crypto.decryptMessage (base64 (encrypted plaintext key rng))
                        (base64 (fst (getRandomValues rng 12))) key =
  Return (Text.decode (Text.encode plaintext)).
Proof.
intros Hp. unfold Crypto.decryptMessage, encrypted.
assert (Hiv := getRandomValues_bytes rng 12).
assert (Hlen := getRandomValues_length rng 12).
assert (Hd := encode_bytes plaintext Hp).
rewrite !atob_base64 by (auto; apply encrypt_bytes; auto). cbn [bind].
rewrite !charCodes_bytes by (auto; apply encrypt_bytes; auto).
now rewrite decrypt_encrypt.
Qed.

(** Decryption of what [encryptMessage] returned, for any string of code
    units: the plaintext as [TextDecoder] gives it back. *)
Lemma decrypt_encrypt_text {A : AeadCorrect W} plaintext key rng :
  Forall is_code_unit plaintext ->
  Z.of_nat (List.length (encrypted plaintext key rng)) <= max_arguments ->
  exists e,
    fst (Crypto.encryptMessage plaintext key rng) = Return e /\
    Crypto.decryptMessage (Crypto.ciphertext e) (Crypto.iv e) key =
    Return (Text.decode (Text.encode plaintext)).
Proof.
intros Hp Hfit. rewrite encryptMessage_spec by assumption. cbn [fst].
eexists. split; [reflexivity|].
cbn [Crypto.ciphertext Crypto.iv]. unfold Crypto.decryptMessage.
assert (Hiv := getRandomValues_bytes rng 12).
assert (Hlen := getRandomValues_length rng 12).
assert (Hd := encode_bytes plaintext Hp).
rewrite !atob_base64 by (auto; apply encrypt_bytes; auto). cbn [bind].
rewrite !charCodes_bytes by (auto; apply encrypt_bytes; auto).
now rewrite decrypt_encrypt.
Qed.

Lemma decrypt_encrypt_without_bom {A : AeadCorrect W} plaintext key rng :
  Text.well_formed plaintext = true ->
  Z.of_nat (List.length (encrypted plaintext key rng)) <= max_arguments ->
  exists e,
    fst (Crypto.encryptMessage plaintext key rng) = Return e /\
    Crypto.decryptMessage (Crypto.ciphertext e) (Crypto.iv e) key =
      Return (without_bom plaintext).
Proof.
intros Hw Hfit.
destruct (decrypt_encrypt_text plaintext key rng) as [e [He Hd]];
  [now apply well_formed_code_units|exact Hfit|].
exists e. now rewrite Hd, decode_encode_well_formed.
Qed.

(** C1, as the code has it.  For every key and every well-formed plaintext
    (no unpaired surrogate) whose ciphertext the engine accepts as the
    arguments of one call, [decryptMessage] applied to the ciphertext and iv
    that [encryptMessage] produced returns the plaintext without a leading
    U+FEFF: exactly the plaintext when it does not begin with U+FEFF, which
    covers the empty string, ASCII and other Unicode text. *)
Theorem decrypt_encrypt_round_trip {A : AeadCorrect W} plaintext key rng :
  Text.well_formed plaintext = true ->
  Z.of_nat
    (List.length
       (aes_gcm_encrypt key (fst (getRandomValues rng 12)) (Text.encode plaintext)))
  <= max_arguments ->
  exists e,
    fst (Crypto.encryptMessage plaintext key rng) = Return e /\
    Crypto.decryptMessage (Crypto.ciphertext e) (Crypto.iv e) key =
      Return (without_bom plaintext) /\
    (starts_with_bom plaintext = false ->
     Crypto.decryptMessage (Crypto.ciphertext e) (Crypto.iv e) key =
       Return plaintext).
Proof.
intros Hw Hfit.
destruct (decrypt_encrypt_without_bom plaintext key rng Hw Hfit) as [e [He Hd]].
exists e. split; [exact He|]. split; [exact Hd|].
rewrite Hd. unfold without_bom. now intros ->.
Qed.

(** A plaintext that begins with U+FEFF comes back without it. *)
Lemma bom_is_lost {A : AeadCorrect W} rest key rng :
  Text.well_formed rest = true ->
  Z.of_nat (List.length (encrypted (0xFEFF%Z :: rest) key rng)) <= max_arguments ->
  exists e,
    fst (Crypto.encryptMessage (0xFEFF%Z :: rest) key rng) = Return e /\
    Crypto.decryptMessage (Crypto.ciphertext e) (Crypto.iv e) key = Return rest.
Proof.
intros Hw Hfit. apply (decrypt_encrypt_without_bom (0xFEFF%Z :: rest)); assumption.
Qed.

(** An unpaired surrogate comes back as U+FFFD. *)
Lemma lone_surrogate_is_replaced {A : AeadCorrect W} key rng :
  Z.of_nat (List.length (encrypted [0xD800%Z] key rng)) <= max_arguments ->
  exists e,
    fst (Crypto.encryptMessage [0xD800%Z] key rng) = Return e /\
    Crypto.decryptMessage (Crypto.ciphertext e) (Crypto.iv e) key =
    Return [0xFFFD%Z].
Proof.
intros Hfit.
destruct (decrypt_encrypt_text [0xD800%Z] key rng) as [e [He Hd]].
- repeat constructor; unfold is_code_unit; lia.
- exact Hfit.
- exists e. split; [exact He|]. rewrite Hd. reflexivity.
Qed.

(** *** Nonces *)


End WithPlatform.
End CryptoFacts.

(** ** Key reset *)
Module KeyStoreFacts.
Import CryptoFacts.
Section WithPlatform.
Context {W : WebCrypto}.

(** The key set a reset builds from the keys the platform generates. *)
Definition generated (env : KeyStore.Env) : KeyStore.StoredKeyPair :=
  KeyStore.mkStoredKeyPair (KeyStore.newEncKey env) (KeyStore.newSignPublic env)
    (KeyStore.newSignPrivate env) (base64 (export_spki (KeyStore.newSignPublic env))).

(** Whether a step of [initializeKeys] fails on an empty store. *)
Definition initialize_fails (env : KeyStore.Env) : bool :=
  KeyStore.load_open_fails env || KeyStore.get_fails env
  || KeyStore.generate_fails env
  || KeyStore.save_open_fails env || KeyStore.put_fails env.

Lemma clearKeys_fails db hook env :
  KeyStore.clear_open_fails env || KeyStore.clear_fails env = true ->
  KeyStore.clearKeys db hook env = (Throw UnknownError, db, hook).
Proof.
unfold KeyStore.clearKeys.
destruct (KeyStore.clear_open_fails env), (KeyStore.clear_fails env);
  cbn; intros; congruence.
Qed.

Lemma clearKeys_succeeds db hook env :
  KeyStore.clear_open_fails env || KeyStore.clear_fails env = false ->
  KeyStore.clearKeys db hook env =
  (Return tt, None, KeyStore.mkHook false None None None).
Proof.
unfold KeyStore.clearKeys.
destruct (KeyStore.clear_open_fails env), (KeyStore.clear_fails env);
  cbn; intros; congruence.
Qed.

Lemma initializeKeys_empty_fails hook env :
  initialize_fails env = true ->
  KeyStore.initializeKeys None hook env =
  (None, None, KeyStore.set_isReady hook false).
Proof.
unfold initialize_fails, KeyStore.initializeKeys, KeyStore.initializeKeys_try,
  KeyStore.loadKeys, KeyStore.saveKeys, KeyStore.failing.
destruct (KeyStore.load_open_fails env); [reflexivity|].
destruct (KeyStore.get_fails env); [reflexivity|].
destruct (KeyStore.generate_fails env); [reflexivity|]. cbn [bind orb].
destruct (Base64.btoa _); [|reflexivity].
destruct (KeyStore.save_open_fails env); [reflexivity|].
destruct (KeyStore.put_fails env); [reflexivity|]. discriminate.
Qed.

Lemma initializeKeys_empty_succeeds {S : SignatureCorrect W} hook env :
  initialize_fails env = false ->
  KeyStore.initializeKeys None hook env =
  (Some (KeyStore.exportedPublicKey (generated env)), Some (generated env),
   KeyStore.loaded (generated env)).
Proof.
unfold initialize_fails, KeyStore.initializeKeys, KeyStore.initializeKeys_try,
  KeyStore.loadKeys, KeyStore.saveKeys, KeyStore.failing.
destruct (KeyStore.load_open_fails env); [discriminate|].
destruct (KeyStore.get_fails env); [discriminate|].
destruct (KeyStore.generate_fails env); [discriminate|]. cbn [bind orb].
rewrite btoa_fromCharCode by apply export_bytes.
destruct (KeyStore.save_open_fails env); [discriminate|].
destruct (KeyStore.put_fails env); [discriminate|]. reflexivity.
Qed.

(** C8, as the code has it.  [handleReset] first clears the object store and
    only then generates and saves new keys.  When the clearing itself fails,
    the exception escapes and the previous key set is still stored.  Once the
    store is cleared, either every later step succeeds and the new key set is
    stored and loaded, or one of them fails (reading, generating, saving) and
    the store is left empty with the hook not ready: the previous key set is
    gone in both cases. *)
Theorem reset_outcomes {S : SignatureCorrect W} old hook env :
  let '(r, db', hook') := KeyStore.handleReset (Some old) hook env in
  (KeyStore.clear_open_fails env || KeyStore.clear_fails env = true ->
   r = Throw UnknownError /\ db' = Some old /\ hook' = hook) /\
  (KeyStore.clear_open_fails env || KeyStore.clear_fails env = false ->
   initialize_fails env = false ->
   r = Return (Some (KeyStore.exportedPublicKey (generated env))) /\
   db' = Some (generated env) /\ hook' = KeyStore.loaded (generated env)) /\
  (KeyStore.clear_open_fails env || KeyStore.clear_fails env = false ->
   initialize_fails env = true ->
   r = Return None /\ db' = None /\ KeyStore.isReady hook' = false /\
   KeyStore.hook_encryptionKey hook' = None).
Proof.
unfold KeyStore.handleReset.
destruct (KeyStore.clear_open_fails env || KeyStore.clear_fails env) eqn:Ec.
- rewrite clearKeys_fails by assumption. repeat split; discriminate.
- rewrite clearKeys_succeeds by assumption.
  destruct (initialize_fails env) eqn:Ei.
  + rewrite initializeKeys_empty_fails by assumption.
    repeat split; discriminate.
  + rewrite initializeKeys_empty_succeeds by assumption.
    repeat split; discriminate.
Qed.

End WithPlatform.
End KeyStoreFacts.

(** ** Applying delete events on the client *)
Module ClientDeleteFacts.
Section WithPlatform.
Context {W : WebCrypto}.
Import DeleteMessage.

Lemma jsstring_eqb_eq a b : jsstring_eqb a b = true <-> a = b.
Proof.
unfold jsstring_eqb. destruct (list_eq_dec Z.eq_dec a b); split;
  auto; discriminate.
Qed.

Lemma jsstring_eqb_refl a : jsstring_eqb a a = true.
Proof. now apply jsstring_eqb_eq. Qed.

Lemma store_has_delete {V} (m : LocalStore V) k :
  store_has (store_delete m k) k = false.
Proof.
unfold store_has, store_delete. induction m as [|[k' v] m IH]; [reflexivity|].
cbn [filter fst]. destruct (jsstring_eqb k' k) eqn:E; cbn [negb]; [exact IH|].
cbn [existsb fst]. now rewrite E, IH.
Qed.

Lemma store_has_delete_mono {V} (m : LocalStore V) k k' :
  store_has m k = false -> store_has (store_delete m k') k = false.
Proof.
unfold store_has, store_delete. induction m as [|[k0 v] m IH]; [reflexivity|].
cbn [existsb filter fst]. intros H. apply orb_false_iff in H as [H1 H2].
destruct (negb (jsstring_eqb k0 k')); [|auto].
cbn [existsb fst]. now rewrite H1, IH.
Qed.

(** Whether the loop goes as far as looking the message up: the event has a
    key and its signature verifies under it. *)
Definition effective (e : DeleteEventWithKey) : bool :=
  match senderPublicKey e with
  | Some key => negb (jsstring_eqb key []) && verifyDeleteEvent (event e) key
  | None => false
  end.

Lemma process_one_cases {V} (st : LocalStore V) ids e :
  process_one (st, ids) e =
  if effective e && store_has st (messageId (event e))
  then (store_delete st (messageId (event e)), ids ++ [messageId (event e)])
  else (st, ids).
Proof.
unfold process_one, effective.
destruct (senderPublicKey e) as [key|]; [|reflexivity].
destruct (jsstring_eqb key []); [reflexivity|].
destruct (verifyDeleteEvent (event e) key); [|reflexivity].
cbn [negb andb]. now destruct (store_has st (messageId (event e))).
Qed.

(** Events whose message is not in the store change nothing. *)
Lemma process_absent {V} events (st : LocalStore V) ids :
  (forall e, In e events -> effective e = true ->
             store_has st (messageId (event e)) = false) ->
  fold_left process_one events (st, ids) = (st, ids).
Proof.
induction events as [|e events IH]; intros H; [reflexivity|].
cbn [fold_left]. rewrite process_one_cases.
destruct (effective e) eqn:E.
- rewrite (H e) by (auto; now left). cbn [andb].
  apply IH. intros e' Hin. apply H. now right.
- cbn [andb]. apply IH. intros e' Hin. apply H. now right.
Qed.

Lemma process_shrinks {V} events (st : LocalStore V) ids k :
  store_has st k = false ->
  store_has (fst (fold_left process_one events (st, ids))) k = false.
Proof.
revert st ids. induction events as [|e events IH]; intros st ids H; [exact H|].
cbn [fold_left]. rewrite process_one_cases.
destruct (effective e && store_has st (messageId (event e))).
- apply IH. now apply store_has_delete_mono.
- now apply IH.
Qed.

(** After the loop, the store holds no message that an effective event of
    the list names. *)
Lemma processed_are_absent {V} events (st : LocalStore V) ids e :
  In e events -> effective e = true ->
  store_has (fst (fold_left process_one events (st, ids))) (messageId (event e))
  = false.
Proof.
revert st ids. induction events as [|e0 events IH]; intros st ids Hin He;
  [destruct Hin|].
cbn [fold_left]. rewrite process_one_cases.
destruct Hin as [->|Hin].
- rewrite He. cbn [andb].
  destruct (store_has st (messageId (event e))) eqn:Eh.
  + apply process_shrinks, store_has_delete.
  + now apply process_shrinks.
- destruct (effective e0 && store_has st (messageId (event e0))); now apply IH.
Qed.

Import ChatRoom.

Lemma set_has_eq s x : set_has s x = true <-> In x s.
Proof.
unfold set_has. rewrite existsb_exists. split.
- intros [y [Hy E]]. apply jsstring_eqb_eq in E. now subst.
- intros H. exists x. split; [exact H|apply jsstring_eqb_refl].
Qed.

Lemma set_has_add s x y : set_has s y = true -> set_has (set_add s x) y = true.
Proof.
unfold set_add. destruct (set_has s x); [auto|].
rewrite !set_has_eq. intros H. apply in_or_app. now left.
Qed.

Lemma set_has_add_same s x : set_has (set_add s x) x = true.
Proof.
unfold set_add. destruct (set_has s x) eqn:E; [exact E|].
apply set_has_eq, in_or_app. right. now left.
Qed.

(** Whether the component takes the event as a reason to hide the message. *)
Definition accepted (e : DeleteEventView) : bool :=
  match senderPublicKey e with
  | Some key =>
      if jsstring_eqb key [] then true
      else match verify_view e key with
           | Return true => true
           | _ => false
           end
  | None => true
  end.

Lemma view_process_one_cases s e :
  ChatRoom.process_one s e =
  if accepted e then set_add s (messageId e) else s.
Proof.
unfold ChatRoom.process_one, accepted, set_add.
destruct (set_has s (messageId e)) eqn:Eh.
- now destruct (senderPublicKey e) as [key|]; [destruct (jsstring_eqb key []);
    [|destruct (verify_view e key) as [[|]|]]|].
- destruct (senderPublicKey e) as [key|]; [|reflexivity].
  destruct (jsstring_eqb key []); [reflexivity|].
  now destruct (verify_view e key) as [[|]|].
Qed.

Lemma view_process_known events s :
  (forall e, In e events -> accepted e = true -> set_has s (messageId e) = true) ->
  processDeletes s events = s.
Proof.
unfold processDeletes. induction events as [|e events IH]; intros H; [reflexivity|].
cbn [fold_left]. rewrite view_process_one_cases.
assert (Hs : (if accepted e then set_add s (messageId e) else s) = s).
{ destruct (accepted e) eqn:E; [|reflexivity].
  unfold set_add. now rewrite (H e) by (auto; now left). }
rewrite Hs. apply IH. intros e' Hin. apply H. now right.
Qed.

Lemma view_process_grows events s x :
  set_has s x = true -> set_has (processDeletes s events) x = true.
Proof.
unfold processDeletes. revert s. induction events as [|e events IH]; intros s H;
  [exact H|].
cbn [fold_left]. apply IH. rewrite view_process_one_cases.
destruct (accepted e); [now apply set_has_add|exact H].
Qed.

Lemma view_processed_are_known events s e :
  In e events -> accepted e = true ->
  set_has (processDeletes s events) (messageId e) = true.
Proof.
unfold processDeletes. revert s. induction events as [|e0 events IH];
  intros s Hin He; [destruct Hin|].
cbn [fold_left]. destruct Hin as [->|Hin].
- apply view_process_grows. rewrite view_process_one_cases, He.
  apply set_has_add_same.
- now apply IH.
Qed.

(** C5.  Applying delete events whose message is already deleted changes
    nothing and raises nothing.  For [processDeleteEvents]: if the local store
    no longer holds the messages, the store is returned as it is and no id is
    reported deleted; in particular a second application of any list of
    events, after the first, is such a no-op.  For [processDeletes] of the chat
    room: events whose message id is already in the set of deleted ids leave
    the set as it is, and so does a second application of any list. *)
Theorem delete_is_idempotent :
  (forall V (events : list DeleteEventWithKey) (store : LocalStore V),
      (forall e, In e events ->
                 store_has store (DeleteMessage.messageId (event e)) = false) ->
      processDeleteEvents events store = (store, [])) /\
  (forall V (events : list DeleteEventWithKey) (store : LocalStore V),
      processDeleteEvents events (fst (processDeleteEvents events store)) =
      (fst (processDeleteEvents events store), [])) /\
  (forall (events : list DeleteEventView) (deleted : list jsstring),
      (forall e, In e events -> set_has deleted (messageId e) = true) ->
      processDeletes deleted events = deleted) /\
  (forall (events : list DeleteEventView) (deleted : list jsstring),
      processDeletes (processDeletes deleted events) events =
      processDeletes deleted events).
Proof.
split; [|split; [|split]].
- intros V events store H. apply process_absent. auto.
- intros V events store. apply process_absent.
  intros e Hin He. now apply processed_are_absent.
- intros events deleted H. apply view_process_known. auto.
- intros events deleted. apply view_process_known.
  intros e Hin He. now apply view_processed_are_known.
Qed.

End WithPlatform.
End ClientDeleteFacts.

(** ** [JSON.stringify] can be read back *)
Module JsonFacts.
Local Open Scope Z_scope.
Import Json TextFacts.

Definition hex_value (h : Z) : Z := if h <? 58 then h - 48 else h - 87.

Definition unescape (e : Z) : Z :=
  if e =? 98 then 8
  else if e =? 116 then 9
  else if e =? 110 then 10
  else if e =? 102 then 12
  else if e =? 114 then 13
  else e.

(** Reads the inside of a quoted string up to its closing quote; returns the
    string and what follows the quote. *)
Fixpoint unquote (l : jsstring) : option (jsstring * jsstring) :=
  match l with
  | [] => None
  | c :: rest =>
      if c =? 34 then Some ([], rest)
      else if c =? 92 then
        match rest with
        | [] => None
        | e :: rest1 =>
            if e =? 117 then
              match rest1 with
              | h1 :: h2 :: h3 :: h4 :: rest2 =>
                  match unquote rest2 with
                  | Some (s, r) =>
                      Some (((hex_value h1 * 16 + hex_value h2) * 16
                             + hex_value h3) * 16 + hex_value h4 :: s, r)
                  | None => None
                  end
              | _ => None
              end
            else
              match unquote rest1 with
              | Some (s, r) => Some (unescape e :: s, r)
              | None => None
              end
        end
      else
        match unquote rest with
        | Some (s, r) => Some (c :: s, r)
        | None => None
        end
  end.

Lemma unquote_literal c rest :
  c <> 34 -> c <> 92 ->
  unquote (c :: rest) =
  match unquote rest with Some (s, r) => Some (c :: s, r) | None => None end.
Proof.
intros H1 H2. cbn [unquote].
apply Z.eqb_neq in H1, H2. now rewrite H1, H2.
Qed.

Lemma unquote_short e rest :
  e <> 117 ->
  unquote (92 :: e :: rest) =
  match unquote rest with Some (s, r) => Some (unescape e :: s, r) | None => None end.
Proof.
intros H. cbn [unquote]. apply Z.eqb_neq in H.
change (92 =? 34) with false. change (92 =? 92) with true. cbv iota.
now rewrite H.
Qed.

Lemma unquote_unicode h1 h2 h3 h4 rest :
  unquote (92 :: 117 :: h1 :: h2 :: h3 :: h4 :: rest) =
  match unquote rest with
  | Some (s, r) =>
      Some (((hex_value h1 * 16 + hex_value h2) * 16 + hex_value h3) * 16
            + hex_value h4 :: s, r)
  | None => None
  end.
Proof. reflexivity. Qed.

Lemma hex_value_digit d : 0 <= d < 16 -> hex_value (hex_digit d) = d.
Proof.
intros H. unfold hex_digit.
destruct (Z.ltb_spec d 10); unfold hex_value;
  match goal with |- context [?a <? ?b] => destruct (Z.ltb_spec a b) end; lia.
Qed.

Lemma unquote_unicode_escape c rest :
  0 <= c < 65536 ->
  unquote (unicode_escape c ++ rest) =
  match unquote rest with Some (s, r) => Some (c :: s, r) | None => None end.
Proof.
intros H. unfold unicode_escape. cbn [app]. rewrite unquote_unicode.
rewrite !hex_value_digit by (Z.div_mod_to_equations; lia).
replace (((c / 4096 * 16 + c / 256 mod 16) * 16 + c / 16 mod 16) * 16 + c mod 16)
  with c by (Z.div_mod_to_equations; lia).
reflexivity.
Qed.

Lemma unquote_escape_unit c rest :
  0 <= c < 65536 ->
  unquote (escape_unit c ++ rest) =
  match unquote rest with Some (s, r) => Some (c :: s, r) | None => None end.
Proof.
intros H. unfold escape_unit.
destruct (Z.eqb_spec c 8) as [->|]; [reflexivity|].
destruct (Z.eqb_spec c 9) as [->|]; [reflexivity|].
destruct (Z.eqb_spec c 10) as [->|]; [reflexivity|].
destruct (Z.eqb_spec c 12) as [->|]; [reflexivity|].
destruct (Z.eqb_spec c 13) as [->|]; [reflexivity|].
destruct (Z.eqb_spec c 34) as [->|]; [reflexivity|].
destruct (Z.eqb_spec c 92) as [->|]; [reflexivity|].
destruct (Z.ltb_spec c 32).
- now apply unquote_unicode_escape.
- cbn [app]. now apply unquote_literal.
Qed.

(** The closing quote ends exactly the string that was quoted. *)
Lemma unquote_quote_body s rest :
  Forall is_code_unit s -> unquote (quote_body s ++ 34 :: rest) = Some (s, rest).
Proof.
unfold is_code_unit.
induction s as [|c|c d s IH0 IH1] using list_ind2; intros H.
- reflexivity.
- inversion H as [|? ? Hc _]; subst. cbn [quote_body].
  destruct (Text.is_high_surrogate c); [|destruct (Text.is_low_surrogate c)].
  + now rewrite unquote_unicode_escape.
  + rewrite <- app_assoc. now rewrite unquote_unicode_escape.
  + rewrite <- app_assoc. now rewrite unquote_escape_unit.
- inversion H as [|? ? Hc H']; subst. inversion H' as [|? ? Hd H'']; subst.
  change (quote_body (c :: d :: s)) with
    (if Text.is_high_surrogate c then
       if Text.is_low_surrogate d then c :: d :: quote_body s
       else unicode_escape c ++ quote_body (d :: s)
     else if Text.is_low_surrogate c then unicode_escape c ++ quote_body (d :: s)
     else escape_unit c ++ quote_body (d :: s)).
  destruct (Text.is_high_surrogate c) eqn:Eh.
  + destruct (Text.is_low_surrogate d) eqn:El; surrogate_cases.
    * cbn [app]. rewrite !unquote_literal by lia. now rewrite IH0.
    * rewrite <- app_assoc, unquote_unicode_escape by lia. now rewrite IH1.
  + destruct (Text.is_low_surrogate c) eqn:El.
    * rewrite <- app_assoc, unquote_unicode_escape by lia. now rewrite IH1.
    * rewrite <- app_assoc, unquote_escape_unit by lia. now rewrite IH1.
Qed.

Lemma quote_body_injective s1 s2 r1 r2 :
  Forall is_code_unit s1 -> Forall is_code_unit s2 ->
  quote_body s1 ++ 34 :: r1 = quote_body s2 ++ 34 :: r2 -> s1 = s2 /\ r1 = r2.
Proof.
intros H1 H2 E.
assert (E1 := unquote_quote_body s1 r1 H1). rewrite E in E1.
rewrite unquote_quote_body in E1 by assumption.
injection E1 as -> ->. auto.
Qed.


(** *** Numbers *)

Lemma map_injective {A B} (f : A -> B) l1 l2 :
  (forall a b, f a = f b -> a = b) -> map f l1 = map f l2 -> l1 = l2.
Proof.
intros Hf. revert l2. induction l1 as [|a l1 IH]; intros [|b l2]; cbn;
  try discriminate; [reflexivity|].
intros [= E1 E2]. f_equal; auto.
Qed.

Lemma code_units_injective s1 s2 : code_units s1 = code_units s2 -> s1 = s2.
Proof.
unfold code_units. intros E. apply map_injective in E.
- rewrite <- (string_of_list_ascii_of_string s1),
          <- (string_of_list_ascii_of_string s2). now rewrite E.
- intros a b H. apply N2Z.inj in H.
  rewrite <- (ascii_N_embedding a), <- (ascii_N_embedding b). now rewrite H.
Qed.

Lemma to_int_not_nil n : Z.to_int n <> Decimal.Pos Decimal.Nil /\
                         Z.to_int n <> Decimal.Neg Decimal.Nil.
Proof.
destruct n as [|p|p]; cbn; split; try discriminate;
  intros [= H]; now apply DecimalPos.Unsigned.to_uint_nonnil in H.
Qed.

Lemma number_injective n1 n2 : number n1 = number n2 -> n1 = n2.
Proof.
unfold number. intros E. apply code_units_injective in E.
assert (H : Some (Z.to_int n1) = Some (Z.to_int n2)).
{ destruct (to_int_not_nil n1), (to_int_not_nil n2).
  rewrite <- (NilZero.isi (Z.to_int n1)), <- (NilZero.isi (Z.to_int n2)) by assumption.
  now rewrite E. }
injection H as H.
rewrite <- (DecimalZ.of_to n1), <- (DecimalZ.of_to n2). now rewrite H.
Qed.

(** *** The signed object *)

Definition open_messageId : jsstring :=
  Eval cbv in 123 :: 34 :: code_units "messageId" ++ [34; 58; 34].
Definition open_chatId : jsstring :=
  Eval cbv in 44 :: 34 :: code_units "chatId" ++ [34; 58; 34].
Definition open_senderId : jsstring :=
  Eval cbv in 44 :: 34 :: code_units "senderId" ++ [34; 58; 34].
Definition open_timestamp : jsstring :=
  Eval cbv in 44 :: 34 :: code_units "timestamp" ++ [34; 58].

Lemma object4_shape m c s n :
  object [("messageId", quote m); ("chatId", quote c); ("senderId", quote s);
          ("timestamp", number n)] =
  open_messageId ++ quote_body m ++ 34 ::
  open_chatId ++ quote_body c ++ 34 ::
  open_senderId ++ quote_body s ++ 34 ::
  open_timestamp ++ number n ++ [125].
Proof.
unfold object, properties, property, quote.
change (code_units "messageId") with [109; 101; 115; 115; 97; 103; 101; 73; 100].
change (code_units "chatId") with [99; 104; 97; 116; 73; 100].
change (code_units "senderId") with [115; 101; 110; 100; 101; 114; 73; 100].
change (code_units "timestamp") with [116; 105; 109; 101; 115; 116; 97; 109; 112].
unfold open_messageId, open_chatId, open_senderId, open_timestamp.
cbn [app]. repeat (rewrite <- app_assoc; cbn [app]). reflexivity.
Qed.

(** The serialization determines the four values. *)
Lemma object4_injective m c s n m' c' s' n' :
  Forall is_code_unit m -> Forall is_code_unit c -> Forall is_code_unit s ->
  Forall is_code_unit m' -> Forall is_code_unit c' -> Forall is_code_unit s' ->
  object [("messageId", quote m); ("chatId", quote c); ("senderId", quote s);
          ("timestamp", number n)] =
  object [("messageId", quote m'); ("chatId", quote c'); ("senderId", quote s');
          ("timestamp", number n')] ->
  m = m' /\ c = c' /\ s = s' /\ n = n'.
Proof.
intros Hm Hc Hs Hm' Hc' Hs'. rewrite !object4_shape. intros E.
apply app_inv_head in E.
apply quote_body_injective in E as [-> E]; [|assumption..].
apply app_inv_head in E.
apply quote_body_injective in E as [-> E]; [|assumption..].
apply app_inv_head in E.
apply quote_body_injective in E as [-> E]; [|assumption..].
apply app_inv_head in E. apply app_inv_tail in E.
apply number_injective in E. auto.
Qed.

(** *** The serialization is a well-formed string *)

Definition is_plain (c : Z) : Prop := 0 <= c < 0xD800.

Lemma well_formed_plain l : Forall is_plain l -> Text.well_formed l = true.
Proof.
unfold is_plain. induction 1 as [|c l Hc _ IH]; [reflexivity|].
cbn [Text.well_formed]. unfold Text.is_high_surrogate, Text.is_low_surrogate.
repeat match goal with
       | |- context [?a <? ?b] => destruct (Z.ltb_spec a b)
       | |- context [?a <=? ?b] => destruct (Z.leb_spec a b)
       end; cbn [andb negb]; try lia; exact IH.
Qed.

Lemma well_formed_app a b :
  Text.well_formed a = true -> Text.well_formed b = true ->
  Text.well_formed (a ++ b) = true.
Proof.
induction a as [|c|c d a IH0 IH1] using list_ind2; intros Ha Hb.
- exact Hb.
- cbn [Text.well_formed] in Ha.
  destruct (Text.is_high_surrogate c) eqn:Eh.
  + rewrite andb_false_r in Ha. discriminate.
  + cbn [app Text.well_formed]. rewrite Eh.
    destruct ((0 <=? c) && (c <? 65536)); [|discriminate].
    destruct (negb (Text.is_low_surrogate c)); [|discriminate]. exact Hb.
- rewrite well_formed_cons2 in Ha.
  change ((c :: d :: a) ++ b) with (c :: d :: (a ++ b)).
  rewrite well_formed_cons2.
  destruct ((0 <=? c) && (c <? 65536)); [|discriminate]. cbn [andb] in *.
  destruct (Text.is_high_surrogate c).
  + apply andb_true_iff in Ha as [Hl Ha]. rewrite Hl. cbn [andb]. auto.
  + apply andb_true_iff in Ha as [Hl Ha]. rewrite Hl. cbn [andb].
    change (d :: a ++ b) with ((d :: a) ++ b). auto.
Qed.

Lemma hex_digit_plain d : 0 <= d < 16 -> is_plain (hex_digit d).
Proof. unfold hex_digit, is_plain. intros H. destruct (d <? 10); lia. Qed.

Lemma unicode_escape_plain c : 0 <= c < 65536 -> Forall is_plain (unicode_escape c).
Proof.
intros H. unfold unicode_escape.
repeat constructor; try (unfold is_plain; lia);
  apply hex_digit_plain; Z.div_mod_to_equations; lia.
Qed.

Lemma escape_unit_plain c :
  0 <= c < 65536 -> ~ (0xD800 <= c <= 0xDFFF) -> Forall is_plain (escape_unit c) \/
  (escape_unit c = [c] /\ 0xE000 <= c).
Proof.
intros H Hs. unfold escape_unit.
repeat match goal with
       | |- context [?a =? ?b] => destruct (Z.eqb_spec a b)
       end; try (left; repeat constructor; unfold is_plain; lia).
destruct (Z.ltb_spec c 32).
- left. now apply unicode_escape_plain.
- destruct (Z.ltb_spec c 0xD800).
  + left. constructor; [unfold is_plain; lia|constructor].
  + right. split; [reflexivity|lia].
Qed.

Lemma well_formed_escape_unit c :
  0 <= c < 65536 -> ~ (0xD800 <= c <= 0xDFFF) ->
  Text.well_formed (escape_unit c) = true.
Proof.
intros H Hs. destruct (escape_unit_plain c H Hs) as [Hp|[-> Hc]].
- now apply well_formed_plain.
- cbn [Text.well_formed]. unfold Text.is_high_surrogate, Text.is_low_surrogate.
  repeat match goal with
         | |- context [?a <? ?b] => destruct (Z.ltb_spec a b)
         | |- context [?a <=? ?b] => destruct (Z.leb_spec a b)
         end; cbn [andb negb]; try lia; reflexivity.
Qed.

Lemma well_formed_quote_body s :
  Forall is_code_unit s -> Text.well_formed (quote_body s) = true.
Proof.
unfold is_code_unit.
induction s as [|c|c d s IH0 IH1] using list_ind2; intros H.
- reflexivity.
- inversion H as [|? ? Hc _]; subst. cbn [quote_body].
  destruct (Text.is_high_surrogate c) eqn:Eh;
    [|destruct (Text.is_low_surrogate c) eqn:El].
  + now apply well_formed_plain, unicode_escape_plain.
  + rewrite app_nil_r. now apply well_formed_plain, unicode_escape_plain.
  + rewrite app_nil_r. surrogate_cases. apply well_formed_escape_unit; lia.
- inversion H as [|? ? Hc H']; subst. inversion H' as [|? ? Hd H'']; subst.
  change (quote_body (c :: d :: s)) with
    (if Text.is_high_surrogate c then
       if Text.is_low_surrogate d then c :: d :: quote_body s
       else unicode_escape c ++ quote_body (d :: s)
     else if Text.is_low_surrogate c then unicode_escape c ++ quote_body (d :: s)
     else escape_unit c ++ quote_body (d :: s)).
  destruct (Text.is_high_surrogate c) eqn:Eh.
  + destruct (Text.is_low_surrogate d) eqn:El.
    * rewrite well_formed_cons2, Eh, El, IH0 by assumption.
      destruct (Z.leb_spec 0 c), (Z.ltb_spec c 65536); try lia; reflexivity.
    * apply well_formed_app; [|auto].
      now apply well_formed_plain, unicode_escape_plain.
  + destruct (Text.is_low_surrogate c) eqn:El.
    * apply well_formed_app; [|auto].
      now apply well_formed_plain, unicode_escape_plain.
    * surrogate_cases. apply well_formed_app; [|auto].
      apply well_formed_escape_unit; lia.
Qed.

Lemma code_units_plain str : Forall is_plain (code_units str).
Proof.
unfold code_units. apply Forall_map, Forall_forall. intros a _.
unfold is_plain. pose proof (N_ascii_bounded a). lia.
Qed.

Lemma well_formed_object4 m c s n :
  Forall is_code_unit m -> Forall is_code_unit c -> Forall is_code_unit s ->
  Text.well_formed
    (object [("messageId", quote m); ("chatId", quote c); ("senderId", quote s);
             ("timestamp", number n)]) = true.
Proof.
intros Hm Hc Hs. rewrite object4_shape.
assert (Hq : forall x rest, Forall is_code_unit x -> Text.well_formed rest = true ->
                            Text.well_formed (quote_body x ++ 34 :: rest) = true).
{ intros x rest Hx Hr. apply well_formed_app; [now apply well_formed_quote_body|].
  change (34 :: rest) with ([34] ++ rest). now apply well_formed_app. }
apply well_formed_app; [reflexivity|]. apply Hq; [assumption|].
apply well_formed_app; [reflexivity|]. apply Hq; [assumption|].
apply well_formed_app; [reflexivity|]. apply Hq; [assumption|].
apply well_formed_app; [reflexivity|].
apply well_formed_app; [|reflexivity].
apply well_formed_plain, code_units_plain.
Qed.

End JsonFacts.

(** ** Signed delete events *)
Module SignatureFacts.
Import Base64Facts TextFacts CryptoFacts JsonFacts.
Section WithPlatform.
Context {W : WebCrypto}.
Import DeleteMessage.

Lemma signed_data_code_units m c s n :
  Forall is_code_unit m -> Forall is_code_unit c -> Forall is_code_unit s ->
  Text.well_formed (signed_data m c s n) = true.
Proof. apply well_formed_object4. Qed.

Lemma signed_data_bytes m c s n :
  Forall is_code_unit m -> Forall is_code_unit c -> Forall is_code_unit s ->
  Forall is_byte (Text.encode (signed_data m c s n)).
Proof.
intros. apply encode_bytes, well_formed_code_units.
now apply signed_data_code_units.
Qed.

(** Different fields give different bytes to sign. *)
Lemma signed_bytes_injective m c s n m' c' s' n' :
  Forall is_code_unit m -> Forall is_code_unit c -> Forall is_code_unit s ->
  Forall is_code_unit m' -> Forall is_code_unit c' -> Forall is_code_unit s' ->
  Text.encode (signed_data m c s n) = Text.encode (signed_data m' c' s' n') ->
  (m, c, s, n) = (m', c', s', n').
Proof.
intros Hm Hc Hs Hm' Hc' Hs' E.
apply encode_injective in E; try now apply signed_data_code_units.
apply object4_injective in E as (-> & -> & -> & ->); auto.
Qed.

Lemma importPublicKey_exported {SC : SignatureCorrect W} pk :
  Crypto.importPublicKey (base64 (export_spki pk)) = Return pk.
Proof.
unfold Crypto.importPublicKey.
rewrite atob_base64 by apply export_bytes. cbn [bind].
rewrite charCodes_bytes by apply export_bytes.
now rewrite import_export.
Qed.

Lemma verifySignature_base64 data signature pk :
  Forall is_byte signature ->
  Crypto.verifySignature data (base64 signature) pk =
  Return (ecdsa_verify pk signature (Text.encode data)).
Proof.
intros H. unfold Crypto.verifySignature.
rewrite atob_base64 by assumption. cbn [bind].
now rewrite charCodes_bytes.
Qed.

Lemma createDeleteEvent_spec {SC : SignatureCorrect W} m c s sk now k :
  Forall is_code_unit m -> Forall is_code_unit c -> Forall is_code_unit s ->
  createDeleteEvent m c s sk now k =
  Return (mkDeleteControlMessage m c s
            (base64 (ecdsa_sign sk k (Text.encode (signed_data m c s now)))) now).
Proof.
intros Hm Hc Hs. unfold createDeleteEvent, Crypto.signData.
rewrite btoa_fromCharCode; [reflexivity|].
apply sign_bytes. now apply signed_data_bytes.
Qed.

(** With the sender's exported key, verification is the platform's check of
    the decoded signature against the bytes of the serialized fields. *)
Lemma verifyDeleteEvent_exported {SC : SignatureCorrect W} ev pk :
  verifyDeleteEvent ev (base64 (export_spki pk)) =
  match Base64.atob (signature ev) with
  | Return b =>
      ecdsa_verify pk (Base64.charCodes b)
        (Text.encode (signed_data (messageId ev) (chatId ev) (senderId ev)
                                  (timestamp ev)))
  | Throw _ => false
  end.
Proof.
unfold verifyDeleteEvent, verifyDeleteEvent_try.
rewrite importPublicKey_exported. cbn [bind]. unfold Crypto.verifySignature.
now destruct (Base64.atob (signature ev)).
Qed.

Lemma verifyDeleteEvent_throws ev key e :
  verifyDeleteEvent_try ev key = Throw e -> verifyDeleteEvent ev key = false.
Proof. unfold verifyDeleteEvent. now intros ->. Qed.

(** What [verifyDeleteEvent] returns, on every record and key string: the
    platform's verdict on the decoded signature, under the imported key, over
    the bytes of the serialized fields of the record. *)
Lemma verifyDeleteEvent_true ev key :
  verifyDeleteEvent ev key = true <->
  exists pk b,
    Crypto.importPublicKey key = Return pk /\
    Base64.atob (signature ev) = Return b /\
    ecdsa_verify pk (Base64.charCodes b)
      (Text.encode (signed_data (messageId ev) (chatId ev) (senderId ev)
                                (timestamp ev))) = true.
Proof.
unfold verifyDeleteEvent, verifyDeleteEvent_try, Crypto.verifySignature.
destruct (Crypto.importPublicKey key) as [pk|e]; cbn [bind].
- destruct (Base64.atob (signature ev)) as [b|e]; cbn [bind].
  + split.
    * intros H. exists pk, b. auto.
    * intros (pk' & b' & [= <-] & [= <-] & H). exact H.
  + split; [discriminate|]. intros (pk' & b' & _ & [=] & _).
- split; [discriminate|]. intros (pk' & b' & [=] & _).
Qed.

Lemma verifyDeleteEvent_imported ev key pk :
  Crypto.importPublicKey key = Return pk ->
  verifyDeleteEvent ev key =
  match Base64.atob (signature ev) with
  | Return b =>
      ecdsa_verify pk (Base64.charCodes b)
        (Text.encode (signed_data (messageId ev) (chatId ev) (senderId ev)
                                  (timestamp ev)))
  | Throw _ => false
  end.
Proof.
intros H. unfold verifyDeleteEvent, verifyDeleteEvent_try.
rewrite H. cbn [bind]. unfold Crypto.verifySignature.
now destruct (Base64.atob (signature ev)).
Qed.

(** C6, as the code has it.  A record made by [createDeleteEvent] verifies
    under the exported public key of the signing pair.  On every other input
    [verifyDeleteEvent] returns the verdict of the platform's ECDSA check and
    never throws: with a field changed, the signature is checked against the
    bytes of the changed fields, which differ from the bytes that were
    signed; with another key string, it is checked under the key that string
    imports to, and the result is [false] when the string does not import;
    with another signature string, the decoded bytes are checked, and the
    result is [false] when the string is not base64.  Whatever is thrown
    while importing the key or decoding the signature gives [false]. *)
Theorem delete_signature_soundness {SC : SignatureCorrect W} m c s sk now k :
  Forall is_code_unit m -> Forall is_code_unit c -> Forall is_code_unit s ->
  let data := Text.encode (signed_data m c s now) in
  let signed := ecdsa_sign sk k data in
  let key := base64 (export_spki (public_of sk)) in
  exists r,
    createDeleteEvent m c s sk now k = Return r /\
    (messageId r, chatId r, senderId r, timestamp r) = (m, c, s, now) /\
    Base64.atob (signature r) = Return signed /\
    verifyDeleteEvent r key = true /\
    (forall m' c' s' now',
        Forall is_code_unit m' -> Forall is_code_unit c' -> Forall is_code_unit s' ->
        (m', c', s', now') <> (m, c, s, now) ->
        Text.encode (signed_data m' c' s' now') <> data /\
        verifyDeleteEvent (mkDeleteControlMessage m' c' s' (signature r) now') key =
        ecdsa_verify (public_of sk) signed
                     (Text.encode (signed_data m' c' s' now'))) /\
    (forall pk',
        verifyDeleteEvent r (base64 (export_spki pk')) =
        ecdsa_verify pk' signed data) /\
    (forall key' pk',
        Crypto.importPublicKey key' = Return pk' ->
        verifyDeleteEvent r key' = ecdsa_verify pk' signed data) /\
    (forall key' e,
        Crypto.importPublicKey key' = Throw e ->
        verifyDeleteEvent r key' = false) /\
    (forall signature',
        verifyDeleteEvent (mkDeleteControlMessage m c s signature' now) key =
        match Base64.atob signature' with
        | Return b => ecdsa_verify (public_of sk) (Base64.charCodes b) data
        | Throw _ => false
        end) /\
    (forall ev key',
        verifyDeleteEvent ev key' = true <->
        exists pk b,
          Crypto.importPublicKey key' = Return pk /\
          Base64.atob (signature ev) = Return b /\
          ecdsa_verify pk (Base64.charCodes b)
            (Text.encode (signed_data (messageId ev) (chatId ev) (senderId ev)
                                      (timestamp ev))) = true) /\
    (forall ev key' e,
        verifyDeleteEvent_try ev key' = Throw e -> verifyDeleteEvent ev key' = false).
Proof.
intros Hm Hc Hs data signed key.
assert (Hd : Forall is_byte data) by now apply signed_data_bytes.
assert (Hsig : Forall is_byte signed) by now apply sign_bytes.
rewrite createDeleteEvent_spec by assumption. fold data. fold signed.
eexists. split; [reflexivity|]. split; [reflexivity|].
cbn [signature messageId chatId senderId timestamp].
assert (Himp : forall key' pk',
  Crypto.importPublicKey key' = Return pk' ->
  verifyDeleteEvent (mkDeleteControlMessage m c s (base64 signed) now) key' =
  ecdsa_verify pk' signed data).
{ intros key' pk' Hk. rewrite (verifyDeleteEvent_imported _ _ _ Hk).
  cbn [signature messageId chatId senderId timestamp].
  now rewrite atob_base64, charCodes_bytes by assumption. }
split; [|split; [|split; [|split; [|split; [|split; [|split; [|split]]]]]]].
- now apply atob_base64.
- unfold key. rewrite (Himp _ _ (importPublicKey_exported _)).
  now apply verify_sign.
- intros m' c' s' now' Hm' Hc' Hs' Hne. split.
  + intros E. apply Hne. now apply signed_bytes_injective.
  + unfold key. rewrite verifyDeleteEvent_exported.
    cbn [signature messageId chatId senderId timestamp].
    now rewrite atob_base64, charCodes_bytes by assumption.
- intros pk'. apply Himp, importPublicKey_exported.
- exact Himp.
- intros key' e Hk. unfold verifyDeleteEvent, verifyDeleteEvent_try.
  now rewrite Hk.
- intros signature'. unfold key. rewrite verifyDeleteEvent_exported.
  reflexivity.
- apply verifyDeleteEvent_true.
- apply verifyDeleteEvent_throws.
Qed.

(** Signing the same fields a second time gives a second signature that
    verifies as well. *)
Lemma resigned_record_verifies {SC : SignatureCorrect W} m c s sk now k' :
  Forall is_code_unit m -> Forall is_code_unit c -> Forall is_code_unit s ->
  verifyDeleteEvent
    (mkDeleteControlMessage m c s
       (base64 (ecdsa_sign sk k' (Text.encode (signed_data m c s now)))) now)
    (base64 (export_spki (public_of sk))) = true.
Proof.
intros Hm Hc Hs. rewrite verifyDeleteEvent_exported.
cbn [signature messageId chatId senderId timestamp].
assert (Hd : Forall is_byte (Text.encode (signed_data m c s now)))
  by now apply signed_data_bytes.
rewrite atob_base64, charCodes_bytes by now apply sign_bytes.
now apply verify_sign.
Qed.

End WithPlatform.
End SignatureFacts.

(** ** The small platform satisfies the laws *)
Module ReferenceFacts.
Local Open Scope Z_scope.
Import Reference.

Lemma bytes_eqb_eq a b : bytes_eqb a b = true <-> a = b.
Proof.
unfold bytes_eqb. destruct (list_eq_dec Z.eq_dec a b); split; auto; discriminate.
Qed.

Lemma firstn_skipn_app {A} (a b : list A) :
  firstn (List.length a) (a ++ b) = a /\ skipn (List.length a) (a ++ b) = b.
Proof.
induction a as [|x a [IH1 IH2]]; cbn; [auto|]. now rewrite IH1, IH2.
Qed.

Lemma key_byte_injective a b : key_byte a = key_byte b -> a = b.
Proof. now destruct a, b. Qed.

Lemma reference_aead : AeadCorrect platform.
Proof.
constructor; cbn; unfold encrypt, decrypt.
- intros key iv data Hiv Hd. constructor.
  + unfold is_byte. apply Z.mod_pos_bound. lia.
  + apply Forall_app. auto.
- intros key iv data _ _ _. rewrite Z.eqb_refl.
  destruct (firstn_skipn_app iv data) as [-> ->].
  now rewrite (proj2 (bytes_eqb_eq iv iv) eq_refl).
Qed.


Lemma reference_signature : SignatureCorrect platform.
Proof.
constructor; cbn; unfold sign, verify, export, import.
- intros sk k data Hd. constructor; [destruct sk; unfold is_byte; cbn; lia|].
  constructor; [unfold is_byte; apply Z.mod_pos_bound; lia|assumption].
- intros sk k data _. rewrite Z.eqb_refl, Z.mod_mod, Z.eqb_refl by lia.
  now rewrite (proj2 (bytes_eqb_eq data data) eq_refl).
- intros pk. constructor; [destruct pk; unfold is_byte; cbn; lia|constructor].
- now intros [|].
Qed.

Lemma reference_ideal : SignatureIdeal platform.
Proof.
constructor; cbn; unfold sign, verify.
- intros pk sk k data data' H.
  apply andb_true_iff in H as [H Hm]. apply andb_true_iff in H as [Hk _].
  apply Z.eqb_eq, key_byte_injective in Hk. apply bytes_eqb_eq in Hm. auto.
- intros pk [|a [|b m]] data H; try discriminate.
  apply andb_true_iff in H as [H Hm]. apply andb_true_iff in H as [Hk Hb].
  apply Z.eqb_eq in Hk, Hb. apply bytes_eqb_eq in Hm.
  exists pk, b. split; [reflexivity|]. congruence.
Qed.

Lemma code_units_are_code_units str : Forall is_code_unit (code_units str).
Proof.
unfold code_units. apply Forall_map, Forall_forall. intros a _.
unfold is_code_unit. pose proof (N_ascii_bounded a). lia.
Qed.

End ReferenceFacts.

(** ** Closed instances: the cipher, signatures and key reset *)
Module ClientInstances.
Local Open Scope Z_scope.
Import Reference ReferenceFacts Scenario CryptoFacts.

(** The round trip of ["hello"] under the key 7. *)
Lemma decrypt_encrypt_round_trip_witness :
  exists e,
    fst (Crypto.encryptMessage (W := platform) hello 7 counting_rng) = Return e /\
    Crypto.decryptMessage (Crypto.ciphertext e) (Crypto.iv e) 7 =
      Return (TextFacts.without_bom hello) /\
    (TextFacts.starts_with_bom hello = false ->
     Crypto.decryptMessage (Crypto.ciphertext e) (Crypto.iv e) 7 = Return hello).
Proof.
apply (@decrypt_encrypt_round_trip platform engine reference_aead hello 7 counting_rng).
- reflexivity.
- vm_compute. discriminate.
Defined.

(** C1 as stated fails, also among the plaintexts whose ciphertext the
    engine accepts as the arguments of one call: the plaintext U+FEFF
    ["hi"] decrypts to ["hi"]. *)
Lemma round_trip_loses_bom :
  ~ (forall (W : WebCrypto) (Eng : Engine) (A : AeadCorrect W) plaintext key rng,
        Forall is_code_unit plaintext ->
        (Z.of_nat
           (List.length
              (aes_gcm_encrypt key (fst (getRandomValues rng 12))
                               (Text.encode plaintext)))
         <= max_arguments)%Z ->
        exists e,
          fst (Crypto.encryptMessage plaintext key rng) = Return e /\
          Crypto.decryptMessage (Crypto.ciphertext e) (Crypto.iv e) key =
          Return plaintext).
Proof.
intros H.
destruct (H platform engine reference_aead bom_hi 7 counting_rng) as [e [He Hd]].
- repeat constructor; unfold is_code_unit; lia.
- vm_compute. discriminate.
- destruct (bom_is_lost (W := platform) (A := reference_aead)
                        [104; 105] 7 counting_rng eq_refl) as [e' [He' Hd']].
  + vm_compute. discriminate.
  + unfold bom_hi in He. rewrite He in He'. injection He' as <-.
    rewrite Hd in Hd'. discriminate.
Qed.


(** A record signed by Alice's key of the small platform. *)
Lemma delete_signature_soundness_witness :
  let m := code_units "m1" in
  let c := code_units "chat-1" in
  let s := code_units "alice" in
  let data := Text.encode (DeleteMessage.signed_data m c s 5000) in
  let signed := ecdsa_sign (WebCrypto := platform) true 7 data in
  let key := base64 (export_spki (public_of (WebCrypto := platform) true)) in
  exists r,
    DeleteMessage.createDeleteEvent (W := platform) m c s true 5000 7 = Return r /\
    (DeleteMessage.messageId r, DeleteMessage.chatId r, DeleteMessage.senderId r,
     DeleteMessage.timestamp r) = (m, c, s, 5000) /\
    Base64.atob (DeleteMessage.signature r) = Return signed /\
    DeleteMessage.verifyDeleteEvent r key = true /\
    (forall m' c' s' now',
        Forall is_code_unit m' -> Forall is_code_unit c' -> Forall is_code_unit s' ->
        (m', c', s', now') <> (m, c, s, 5000) ->
        Text.encode (DeleteMessage.signed_data m' c' s' now') <> data /\
        DeleteMessage.verifyDeleteEvent
          (DeleteMessage.mkDeleteControlMessage m' c' s'
             (DeleteMessage.signature r) now') key =
        ecdsa_verify (public_of (WebCrypto := platform) true) signed
                     (Text.encode (DeleteMessage.signed_data m' c' s' now'))) /\
    (forall pk',
        DeleteMessage.verifyDeleteEvent r (base64 (export_spki pk')) =
        ecdsa_verify pk' signed data) /\
    (forall key' pk',
        Crypto.importPublicKey key' = Return pk' ->
        DeleteMessage.verifyDeleteEvent r key' = ecdsa_verify pk' signed data) /\
    (forall key' e,
        Crypto.importPublicKey (W := platform) key' = Throw e ->
        DeleteMessage.verifyDeleteEvent r key' = false) /\
    (forall signature',
        DeleteMessage.verifyDeleteEvent
          (DeleteMessage.mkDeleteControlMessage m c s signature' 5000) key =
        match Base64.atob signature' with
        | Return b =>
            ecdsa_verify (public_of (WebCrypto := platform) true)
                         (Base64.charCodes b) data
        | Throw _ => false
        end) /\
    (forall ev key',
        DeleteMessage.verifyDeleteEvent (W := platform) ev key' = true <->
        exists pk b,
          Crypto.importPublicKey key' = Return pk /\
          Base64.atob (DeleteMessage.signature ev) = Return b /\
          ecdsa_verify pk (Base64.charCodes b)
            (Text.encode
               (DeleteMessage.signed_data
                  (DeleteMessage.messageId ev) (DeleteMessage.chatId ev)
                  (DeleteMessage.senderId ev) (DeleteMessage.timestamp ev)))
          = true) /\
    (forall ev key' e,
        DeleteMessage.verifyDeleteEvent_try (W := platform) ev key' = Throw e ->
        DeleteMessage.verifyDeleteEvent ev key' = false).
Proof.
apply (@SignatureFacts.delete_signature_soundness platform reference_signature
         (code_units "m1") (code_units "chat-1") (code_units "alice") true 5000 7);
  apply code_units_are_code_units.
Defined.

(** C6 as stated fails where it speaks of altered signature bytes: ECDSA
    draws a number for every signature, so a second signing of the same
    fields gives other bytes, and these verify as well. *)
Lemma other_signature_verifies :
  ~ (forall (W : WebCrypto) (SC : SignatureCorrect W)
            m c s sk now k r signature',
        Forall is_code_unit m -> Forall is_code_unit c -> Forall is_code_unit s ->
        DeleteMessage.createDeleteEvent m c s sk now k = Return r ->
        Base64.atob signature' <> Base64.atob (DeleteMessage.signature r) ->
        DeleteMessage.verifyDeleteEvent
          (DeleteMessage.mkDeleteControlMessage m c s signature' now)
          (base64 (export_spki (public_of sk))) = false).
Proof.
intros H.
pose (m := code_units "m1"). pose (c := code_units "chat-1").
pose (s := code_units "alice").
assert (Hm : Forall is_code_unit m) by apply code_units_are_code_units.
assert (Hc : Forall is_code_unit c) by apply code_units_are_code_units.
assert (Hs : Forall is_code_unit s) by apply code_units_are_code_units.
assert (Hv := SignatureFacts.resigned_record_verifies
                (W := platform) (SC := reference_signature)
                m c s true 5000 8 Hm Hc Hs).
rewrite (H platform reference_signature m c s true 5000 7 _ _
           Hm Hc Hs eq_refl) in Hv; [discriminate|].
vm_compute. discriminate.
Qed.

(** A reset of the small platform's key store. *)
Lemma reset_outcomes_witness :
  let '(r, db', hook') :=
    KeyStore.handleReset (W := platform) (Some old_keys) old_hook (reset_env false) in
  (KeyStore.clear_open_fails (reset_env false)
   || KeyStore.clear_fails (reset_env false) = true ->
   r = Throw UnknownError /\ db' = Some old_keys /\ hook' = old_hook) /\
  (KeyStore.clear_open_fails (reset_env false)
   || KeyStore.clear_fails (reset_env false) = false ->
   KeyStoreFacts.initialize_fails (reset_env false) = false ->
   r = Return (Some (KeyStore.exportedPublicKey
                       (KeyStoreFacts.generated (reset_env false)))) /\
   db' = Some (KeyStoreFacts.generated (reset_env false)) /\
   hook' = KeyStore.loaded (KeyStoreFacts.generated (reset_env false))) /\
  (KeyStore.clear_open_fails (reset_env false)
   || KeyStore.clear_fails (reset_env false) = false ->
   KeyStoreFacts.initialize_fails (reset_env false) = true ->
   r = Return None /\ db' = None /\ KeyStore.isReady hook' = false /\
   KeyStore.hook_encryptionKey hook' = None).
Proof.
exact (@KeyStoreFacts.reset_outcomes platform reference_signature
         old_keys old_hook (reset_env false)).
Defined.

(** C8 as stated fails: when saving the new key set fails, the store is
    empty and the previous key set is gone. *)
Lemma failed_save_loses_old_keys :
  ~ (forall (W : WebCrypto) (SC : SignatureCorrect W)
            (old : KeyStore.StoredKeyPair) hook env,
        KeyStore.put_fails env = true ->
        snd (fst (KeyStore.handleReset (Some old) hook env)) = Some old).
Proof.
intros H.
specialize (H platform reference_signature old_keys old_hook (reset_env true) eq_refl).
discriminate H.
Qed.

End ClientInstances.

(** ** Closed instances: the server routes *)
Module ServerInstances.
Local Open Scope Z_scope.
Import Reference ReferenceFacts Scenario JsMapFacts.

Ltac distinct_keys :=
  unfold wf; cbn; repeat constructor; cbn; intuition discriminate.

Lemma signal_store_ok : SignalFacts.store_ok signal_store.
Proof. split; [distinct_keys|repeat constructor]. Qed.

Lemma store_ok : SignalFacts.store_ok store.
Proof. split; [distinct_keys|repeat constructor]. Qed.

Lemma delete_store_ok : MessagesFacts.store_ok delete_store.
Proof. split; [distinct_keys|repeat constructor]. Qed.

(** Bob polls at time 30500: the offer and the answer, in this order; the
    signal that expired at 30010 is not among them. *)
Lemma fetch_signals_exactly_once_witness :
  exists signals st',
    Signal.GET signal_store as_bob (Some "chat-1"%string) 30500 =
      (Ok (map (fun e => Signal.mkSignalDTO (se_type e) (se_payload e)
                           (se_fromUserId e) (se_toUserId e) (se_chatId e))
               signals),
       st') /\
    (forall e, In e signals <->
               In e (JsMap.values (signalEvents signal_store)) /\
               SignalFacts.pending "chat-1" "bob" 30500 e) /\
    NoDup (map se_id signals) /\
    StronglySorted (key_le se_createdAt) signals /\
    signalEvents st' =
      SignalFacts.mark (map se_id signals) true (signalEvents signal_store) /\
    (forall now', 30500 <= now' ->
                  Signal.GET st' as_bob (Some "chat-1"%string) now' = (Ok [], st')) /\
    (forall st'', SignalFacts.later (map se_id signals) st' st'' ->
       forall c u t e, In e (fst (Signal.fetch_signals st'' c u t)) ->
                       ~ In (se_id e) (map se_id signals)).
Proof.
apply (SignalFacts.fetch_signals_exactly_once signal_store as_bob "chat-1" "bob" 30500).
- exact signal_store_ok.
- reflexivity.
- reflexivity.
- discriminate.
Defined.

(** Alice posts an offer without target at time 40000. *)
Lemma broadcast_signal_never_fetched_witness :
  let row := mkSignalEvent "sig-3" "chat-1" "alice" None "offer" "sdp-3" 40001
                           false (40000 + Signal.SIGNAL_TTL_MS) in
  let st1 := snd (Signal.POST store as_alice (Some broadcast) broadcast_env) in
  fst (Signal.POST store as_alice (Some broadcast) broadcast_env) = Ok "sig-3"%string /\
  JsMap.get (signalEvents st1) "sig-3" = Some row /\
  (forall st2 chatId u now,
      ~ In row (fst (Signal.fetch_signals st2 chatId u now))) /\
  (forall st2 a' chatIdParam now dtos st3,
      Signal.GET st2 a' chatIdParam now = (Ok dtos, st3) ->
      forall d, In d dtos -> Signal.dto_toUserId d <> None) /\
  (forall st2, SignalFacts.before_cleanup "sig-3" (se_expiresAt row) st1 st2 ->
      JsMap.get (signalEvents st2) "sig-3" = Some row) /\
  (forall st2 a' b' env' r,
      SignalFacts.before_cleanup "sig-3" (se_expiresAt row) st1 st2 ->
      fst (Signal.POST st2 a' b' env') = Ok r ->
      Signal.env_id env' <> "sig-3"%string ->
      se_expiresAt row < Signal.env_cleanup_now env' ->
      JsMap.get (signalEvents (snd (Signal.POST st2 a' b' env'))) "sig-3" = None).
Proof.
apply (SignalFacts.broadcast_signal_never_fetched store as_alice broadcast
         broadcast_env "alice").
- exact store_ok.
- reflexivity.
- reflexivity.
- reflexivity.
- reflexivity.
- cbn. auto.
- discriminate.
- reflexivity.
- cbn. lia.
Defined.

(** Bob's request to delete Alice's message carries a signature that
    verifies under Bob's published key, and is answered 403. *)
Lemma delete_by_non_sender_rejected_witness :
  DeleteMessage.verifyDeleteEvent (W := platform)
    (DeleteMessage.mkDeleteControlMessage
       (code_units (Delete.pb_messageId bob_request))
       (code_units (Delete.pb_chatId bob_request)) (code_units "bob")
       (code_units (Delete.pb_signature bob_request)) 5000)
    (code_units "AA==") = true /\
  exists error,
    Delete.POST store (Some bob_session) (Some bob_request) delete_env =
    (Err 403 error, store).
Proof.
split; [vm_compute; reflexivity|].
apply (DeleteFacts.delete_by_non_sender_rejected store bob_session "bob" bob_request
         delete_env m1); try reflexivity.
discriminate.
Defined.

(** C3.  Alice's request to delete her message ["m1"] carries the signature
    ["x"].  That is not base64, so [verifyDeleteEvent] rejects it for every
    record, under every key, on every platform.  The server answers with
    the event all the same, stores it and tombstones the message. *)
Lemma unverified_request_accepted :
  (forall (W : WebCrypto) messageId chatId senderId timestamp key,
      DeleteMessage.verifyDeleteEvent
        (DeleteMessage.mkDeleteControlMessage
           messageId chatId senderId (code_units "x") timestamp) key = false) /\
  exists st',
    Delete.POST store (Some alice_session) (Some unsigned_request) delete_env =
      (Ok (Delete.mkDeleteEventDTO "del-1" "m1" "chat-1" "alice" "x" (date 5000)),
       st') /\
    JsMap.get (deleteEvents st') "del-1" =
      Some (mkDeleteEvent "del-1" "m1" "chat-1" "alice" "x" (date 5000) 5002 false) /\
    Db.message_findUnique store "m1" = Some m1 /\
    Db.message_findUnique st' "m1" =
      Some (mkMessage "m1" "chat-1" "alice" "" "" "deleted" 1000).
Proof.
split.
- intros W messageId chatId senderId timestamp key.
  unfold DeleteMessage.verifyDeleteEvent, DeleteMessage.verifyDeleteEvent_try.
  destruct (Crypto.importPublicKey key) as [publicKey|e]; [|reflexivity].
  reflexivity.
- eexists. repeat split; reflexivity.
Qed.

(** Alice polls the messages of the chat after her delete event was stored. *)
Lemma delete_events_delivered_once_witness :
  exists events st',
    Messages.GET delete_store (Some alice_session) (Some "chat-1"%string) =
      (Ok events, st') /\
    (forall e, In e events <->
               In e (JsMap.values (deleteEvents delete_store)) /\
               MessagesFacts.undelivered "chat-1" e) /\
    deleteEvents st' =
      update_in (map de_id events) (fun e => Db.set_delivered e true)
                (deleteEvents delete_store) /\
    (forall sess2 u2,
        sess_user sess2 = Some u2 ->
        Db.chatMember_findUnique delete_store "chat-1" u2 <> None ->
        Messages.GET st' (Some sess2) (Some "chat-1"%string) = (Ok [], st')) /\
    (forall sess2 u2,
        sess_user sess2 = Some u2 ->
        Db.chatMember_findUnique delete_store "chat-1" u2 <> None ->
        exists listed,
          Delete.GET st' (Some sess2) (Some "chat-1"%string) None = Ok listed /\
          forall e, In e events -> In (Delete.with_sender_key delete_store e) listed).
Proof.
apply (MessagesFacts.delete_events_delivered_once delete_store alice_session
         "alice" "chat-1").
- exact delete_store_ok.
- reflexivity.
- reflexivity.
- discriminate.
Defined.

(** C7 as stated fails: once Alice's poll has been handed the delete event,
    Bob's poll of the same route is handed nothing. *)
Lemma first_poll_takes_the_event :
  ~ (forall st sess1 u1 sess2 u2 chatId events st',
        MessagesFacts.store_ok st ->
        sess_user sess1 = Some u1 -> sess_user sess2 = Some u2 -> u1 <> u2 ->
        Db.chatMember_findUnique st chatId u1 <> None ->
        Db.chatMember_findUnique st chatId u2 <> None ->
        Messages.GET st (Some sess1) (Some chatId) = (Ok events, st') ->
        forall e, In e events ->
        exists events2 st'',
          Messages.GET st' (Some sess2) (Some chatId) = (Ok events2, st'') /\
          In (de_id e) (map de_id events2)).
Proof.
intros H.
pose (r := Messages.GET delete_store (Some alice_session) (Some "chat-1"%string)).
assert (Hr : exists events st', r = (Ok events, st') /\ events <> []).
{ vm_compute. eexists _, _. split; [reflexivity|discriminate]. }
destruct Hr as (events & st' & Hr & Hne).
destruct events as [|e events]; [congruence|].
destruct (H delete_store alice_session "alice"%string bob_session "bob"%string
            "chat-1"%string (e :: events) st' delete_store_ok eq_refl eq_refl)
  with (e := e) as (events2 & st'' & HG & Hin);
  try discriminate; try exact Hr; try (now left).
vm_compute in Hr. injection Hr as <- _ <-.
vm_compute in HG. injection HG as <- _. destruct Hin.
Qed.

End ServerInstances.

(** ** More about the store *)
Module StoreFacts.
Import JsMapFacts.
Section Facts.
Context {V : Type}.
Implicit Types m : JsMap.t V.

Lemma get_set_same m k v : JsMap.get (JsMap.set m k v) k = Some v.
Proof.
induction m as [|[k' v'] m IH]; simpl.
- now rewrite String.eqb_refl.
- destruct (String.eqb k' k) eqn:E; simpl; rewrite E; auto.
Qed.

Lemma get_set_other m k v k' :
  k' <> k -> JsMap.get (JsMap.set m k v) k' = JsMap.get m k'.
Proof.
intros Hne. induction m as [|[k0 v0] m IH]; simpl.
- apply String.eqb_neq in Hne. rewrite String.eqb_sym. now rewrite Hne.
- destruct (String.eqb k0 k) eqn:E; simpl.
  + apply String.eqb_eq in E. subst k0.
    assert (E' : String.eqb k k' = false) by (apply String.eqb_neq; congruence).
    now rewrite E'.
  + now rewrite IH.
Qed.

Lemma set_set_same m k v v' : JsMap.set (JsMap.set m k v) k v' = JsMap.set m k v'.
Proof.
induction m as [|[k0 v0] m IH]; simpl.
- now rewrite String.eqb_refl.
- destruct (String.eqb k0 k) eqn:E; simpl; rewrite E; [reflexivity|now rewrite IH].
Qed.

Lemma In_values m v : In v (JsMap.values m) <-> exists k, In (k, v) m.
Proof.
unfold JsMap.values. rewrite in_map_iff. split.
- intros [[k v'] [<- Hin]]. now exists k.
- intros [k Hin]. now exists (k, v).
Qed.

(** With one entry per key, the entry of a key is determined. *)
Lemma wf_unique m k v v' : wf m -> In (k, v) m -> In (k, v') m -> v = v'.
Proof.
intros Hwf H1 H2. apply In_get in H1; auto. apply In_get in H2; auto. congruence.
Qed.

(** A loop that deletes, from [m], the keys of the entries of [l] that
    satisfy [p]. *)
Lemma delete_loop_filter (p : string * V -> bool) l m :
  fold_left (fun m kv => if p kv then JsMap.delete m (fst kv) else m) l m =
  filter (fun kv => negb (existsb (fun x => p x && String.eqb (fst x) (fst kv)) l)) m.
Proof.
revert m. induction l as [|x l IH]; intros m; simpl.
- induction m as [|kv m IHm]; simpl; congruence.
- rewrite IH. destruct (p x); simpl.
  + unfold JsMap.delete. induction m as [|kv m IHm]; simpl; [reflexivity|].
    rewrite (String.eqb_sym (fst kv) (fst x)).
    destruct (String.eqb (fst x) (fst kv)); simpl; [exact IHm|].
    destruct (negb (existsb _ l)); simpl; now rewrite IHm.
  + reflexivity.
Qed.

Lemma delete_loop_self (p : string * V -> bool) m :
  wf m ->
  fold_left (fun m kv => if p kv then JsMap.delete m (fst kv) else m) m m =
  filter (fun kv => negb (p kv)) m.
Proof.
intros Hwf. rewrite delete_loop_filter. apply filter_ext_in. intros [k v] Hin.
f_equal. simpl. destruct (p (k, v)) eqn:Ep.
- apply existsb_exists. exists (k, v). simpl. now rewrite Ep, String.eqb_refl.
- destruct (existsb _ m) eqn:Ex; [|reflexivity].
  apply existsb_exists in Ex as [[k' v'] [Hin' Hx]]. simpl in Hx.
  apply andb_prop in Hx as [Hp Hk]. apply String.eqb_eq in Hk. subst k'.
  rewrite (wf_unique m k v' v Hwf Hin' Hin) in Hp. congruence.
Qed.

End Facts.
End StoreFacts.

(** ** The signaling routes: what is accepted, what is delivered *)
Module SignalRouteFacts.
Import JsMapFacts StoreFacts SignalFacts.
Local Open Scope Z_scope.

Definition accepted {A} (r : Response A) : bool :=
  match r with Ok _ => true | Err _ _ => false end.

(** The row an accepted [POST] of [userId] creates. *)
Definition posted (userId : string) (b : Signal.PostBody) (env : Signal.PostEnv)
  : SignalEvent :=
  mkSignalEvent (Signal.env_id env) (Signal.pb_chatId b) userId
                (or_null (Signal.pb_toUserId b)) (Signal.pb_type b)
                (Signal.pb_payload b) (Signal.env_createdAt env) false
                (Signal.env_now env + Signal.SIGNAL_TTL_MS).

(** What [POST] asks of a request. *)
Definition admissible (st : Storage) (userId : string) (b : Signal.PostBody) : Prop :=
  truthy (Signal.pb_type b) = true /\ truthy (Signal.pb_payload b) = true /\
  truthy (Signal.pb_chatId b) = true /\
  In (Signal.pb_type b) Signal.validTypes /\
  Db.chatMember_findUnique st (Signal.pb_chatId b) userId <> None /\
  (forall t, or_null (Signal.pb_toUserId b) = Some t ->
             Db.chatMember_findUnique st (Signal.pb_chatId b) t <> None).

Lemma validTypes_includes t :
  existsb (String.eqb t) Signal.validTypes = true <-> In t Signal.validTypes.
Proof. apply existsb_eqb_In. Qed.

Lemma POST_admissible st a b env userId :
  Signal.authenticate a = Some userId -> admissible st userId b ->
  Signal.POST st a (Some b) env =
  (Ok (Signal.env_id env),
   Db.signalEvent_deleteMany
     (with_signalEvents st
        (JsMap.set (signalEvents st) (Signal.env_id env) (posted userId b env)))
     (Signal.env_cleanup_now env)).
Proof.
intros Ha (H1 & H2 & H3 & H4 & H5 & H6). unfold Signal.POST, posted.
rewrite Ha, H1, H2, H3. cbn [negb orb].
apply validTypes_includes in H4. rewrite H4. cbn [negb].
destruct (Db.chatMember_findUnique st (Signal.pb_chatId b) userId); [|congruence].
destruct (or_null (Signal.pb_toUserId b)) as [t|] eqn:Et.
- specialize (H6 t eq_refl).
  destruct (Db.chatMember_findUnique st (Signal.pb_chatId b) t); [|congruence].
  reflexivity.
- reflexivity.
Qed.

Lemma POST_accepted_admissible st a b env :
  accepted (fst (Signal.POST st a (Some b) env)) = true ->
  exists userId, Signal.authenticate a = Some userId /\ admissible st userId b.
Proof.
unfold Signal.POST.
destruct (Signal.authenticate a) as [userId|]; [|discriminate].
destruct (truthy (Signal.pb_type b)) eqn:H1; [|discriminate].
destruct (truthy (Signal.pb_payload b)) eqn:H2; [|discriminate].
destruct (truthy (Signal.pb_chatId b)) eqn:H3; [|discriminate].
cbn [negb orb].
destruct (existsb _ Signal.validTypes) eqn:H4; [|discriminate]. cbn [negb].
destruct (Db.chatMember_findUnique st (Signal.pb_chatId b) userId) eqn:H5;
  [|discriminate].
intros H. exists userId. split; [reflexivity|].
repeat (split; [first [reflexivity | now apply validTypes_includes | congruence]|]).
intros t Et. rewrite Et in H.
destruct (Db.chatMember_findUnique st (Signal.pb_chatId b) t); [discriminate|].
discriminate H.
Qed.

Lemma POST_rejected st a body env status error :
  fst (Signal.POST st a body env) = Err status error ->
  snd (Signal.POST st a body env) = st /\
  (status = 401 <-> Signal.authenticate a = None) /\
  (status = 500 <-> Signal.authenticate a <> None /\ body = None) /\
  (status = 401 \/ status = 400 \/ status = 403 \/ status = 500).
Proof.
unfold Signal.POST.
destruct (Signal.authenticate a) as [userId|];
  [|intros [= <- _]; simpl; intuition (discriminate || congruence)].
destruct body as [b|];
  [|intros [= <- _]; simpl; intuition (discriminate || congruence)].
destruct (_ || _ || _);
  [intros [= <- _]; simpl; intuition (discriminate || congruence)|].
destruct (negb (existsb _ _));
  [intros [= <- _]; simpl; intuition (discriminate || congruence)|].
destruct (Db.chatMember_findUnique st (Signal.pb_chatId b) userId);
  [|intros [= <- _]; simpl; intuition (discriminate || congruence)].
destruct (negb _); [intros [= <- _]; simpl; intuition (discriminate || congruence)|].
discriminate.
Qed.

Lemma POST_accepted_body st a body env :
  accepted (fst (Signal.POST st a body env)) = true -> exists b, body = Some b.
Proof.
unfold Signal.POST.
destruct (Signal.authenticate a); [|discriminate].
destruct body as [b|]; [now exists b|discriminate].
Qed.

(** X1.  [POST /api/signal] accepts a request exactly when the caller is
    authenticated, the body is a JSON value other than [null], type, payload
    and chat id are present, the type is one of offer, answer and
    ice-candidate, the caller is a member of the chat and the target user,
    if one is given, is a member too.  An accepted request is answered with
    the id of the new row.  A rejected one leaves the store as it was and is
    answered 401 exactly when the caller is not authenticated, 500 exactly
    when the caller is authenticated and the body is not JSON or is [null],
    and 400 or 403 otherwise. *)
Theorem signal_post_decision st a body env :
  (accepted (fst (Signal.POST st a body env)) = true <->
   exists userId b,
     Signal.authenticate a = Some userId /\ body = Some b /\ admissible st userId b) /\
  (forall signalId,
      fst (Signal.POST st a body env) = Ok signalId -> signalId = Signal.env_id env) /\
  (forall status error,
      fst (Signal.POST st a body env) = Err status error ->
      snd (Signal.POST st a body env) = st /\
      (status = 401 <-> Signal.authenticate a = None) /\
      (status = 500 <-> Signal.authenticate a <> None /\ body = None) /\
      (status = 401 \/ status = 400 \/ status = 403 \/ status = 500)).
Proof.
split; [split|split].
- intros Hacc. destruct (POST_accepted_body st a body env Hacc) as [b ->].
  destruct (POST_accepted_admissible st a b env Hacc) as [userId [Ha Hadm]].
  now exists userId, b.
- intros (userId & b & Ha & -> & Hadm). now rewrite (POST_admissible st a b env userId).
- intros signalId H.
  destruct (POST_accepted_body st a body env) as [b ->]; [now rewrite H|].
  destruct (POST_accepted_admissible st a b env) as [userId [Ha Hadm]];
    [now rewrite H|].
  rewrite (POST_admissible st a b env userId) in H by assumption.
  now inversion H.
- apply POST_rejected.
Qed.

Lemma posted_survives st userId b env :
  wf (signalEvents st) ->
  Signal.env_cleanup_now env <= Signal.env_now env + Signal.SIGNAL_TTL_MS ->
  let m := JsMap.set (signalEvents st) (Signal.env_id env) (posted userId b env) in
  In (Signal.env_id env, posted userId b env)
     (sweep (Signal.env_cleanup_now env) m m).
Proof.
intros Hwf Hle m. apply sweep_keeps; [|apply In_set_same].
intros [k row] Hin Hexp Hk. simpl in Hk. subst k.
assert (Hrow : row = posted userId b env).
{ eapply wf_unique; [apply wf_set; exact Hwf|exact Hin|apply In_set_same]. }
subst row. unfold expired in Hexp. simpl in Hexp. apply Z.ltb_lt in Hexp. lia.
Qed.

(** X2.  A signal accepted for a target user is handed to that user by the
    user's next poll of the chat, with the authenticated sender as
    [fromUserId], provided the poll comes before the signal expires (30
    seconds after the post) and the post's own cleanup ran before that. *)
Theorem signal_reaches_target st a b env sender target a' now :
  wf (signalEvents st) ->
  Signal.authenticate a = Some sender ->
  or_null (Signal.pb_toUserId b) = Some target ->
  accepted (fst (Signal.POST st a (Some b) env)) = true ->
  Signal.authenticate a' = Some target ->
  Signal.env_cleanup_now env <= Signal.env_now env + Signal.SIGNAL_TTL_MS ->
  now < Signal.env_now env + Signal.SIGNAL_TTL_MS ->
  exists dtos st2,
    Signal.GET (snd (Signal.POST st a (Some b) env)) a' (Some (Signal.pb_chatId b)) now =
      (Ok dtos, st2) /\
    In (Signal.mkSignalDTO (Signal.pb_type b) (Signal.pb_payload b) sender
                           (Some target) (Signal.pb_chatId b)) dtos.
Proof.
intros Hwf Ha Ht Hacc Ha' Hclean Hnow.
destruct (POST_accepted_admissible st a b env Hacc) as [u [Hu Hadm]].
assert (u = sender) by congruence. subst u.
rewrite (POST_admissible st a b env sender Ha Hadm). cbn [snd].
unfold posted. rewrite Ht.
destruct Hadm as (_ & _ & Hc & _ & _ & Htarget).
specialize (Htarget target Ht).
set (st1 := Db.signalEvent_deleteMany _ _).
assert (Hmem : Db.chatMember_findUnique st1 (Signal.pb_chatId b) target <> None)
  by exact Htarget.
unfold Signal.GET. rewrite Ha'. cbn [or_null]. rewrite Hc.
destruct (Db.chatMember_findUnique st1 (Signal.pb_chatId b) target); [|congruence].
destruct (Signal.fetch_signals st1 (Signal.pb_chatId b) target now)
  as [signals st2] eqn:E.
exists (map Signal.to_dto signals), st2. split; [reflexivity|].
change (Signal.mkSignalDTO (Signal.pb_type b) (Signal.pb_payload b) sender
          (Some target) (Signal.pb_chatId b))
  with (Signal.to_dto (mkSignalEvent (Signal.env_id env) (Signal.pb_chatId b) sender
          (Some target) (Signal.pb_type b) (Signal.pb_payload b)
          (Signal.env_createdAt env) false
          (Signal.env_now env + Signal.SIGNAL_TTL_MS))).
apply in_map.
assert (Hs : signals = fst (Signal.fetch_signals st1 (Signal.pb_chatId b) target now))
  by now rewrite E.
rewrite Hs. unfold Signal.fetch_signals. cbn [fst]. apply In_findMany. split.
- apply In_values. exists (Signal.env_id env).
  pose proof (posted_survives st sender b env Hwf Hclean) as Hin.
  unfold posted in Hin. rewrite Ht in Hin. exact Hin.
- unfold pending. simpl. repeat split; auto.
Qed.

(** X3.  After an accepted [POST /api/signal] the table holds the rows it
    held before, with the new row put under its id, without those that had
    expired when the cleanup ran; the order of the rows is kept. *)
Theorem signal_post_cleanup st a b env :
  wf (signalEvents st) ->
  accepted (fst (Signal.POST st a (Some b) env)) = true ->
  exists userId,
    Signal.authenticate a = Some userId /\
    signalEvents (snd (Signal.POST st a (Some b) env)) =
    filter (fun kv => negb (se_expiresAt (snd kv) <? Signal.env_cleanup_now env))
           (JsMap.set (signalEvents st) (Signal.env_id env) (posted userId b env)) /\
    (forall k row, In (k, row) (signalEvents (snd (Signal.POST st a (Some b) env))) ->
                   Signal.env_cleanup_now env <= se_expiresAt row).
Proof.
intros Hwf Hacc.
destruct (POST_accepted_admissible st a b env Hacc) as [u [Hu Hadm]].
exists u. split; [exact Hu|].
rewrite (POST_admissible st a b env u Hu Hadm). cbn [snd].
assert (E : signalEvents
              (Db.signalEvent_deleteMany
                 (with_signalEvents st
                    (JsMap.set (signalEvents st) (Signal.env_id env) (posted u b env)))
                 (Signal.env_cleanup_now env)) =
            filter (fun kv => negb (se_expiresAt (snd kv) <? Signal.env_cleanup_now env))
              (JsMap.set (signalEvents st) (Signal.env_id env) (posted u b env))).
{ unfold Db.signalEvent_deleteMany. cbn [signalEvents with_signalEvents].
  apply (delete_loop_self
           (fun kv => se_expiresAt (snd kv) <? Signal.env_cleanup_now env)).
  now apply wf_set. }
split; [exact E|].
intros k row Hin. rewrite E in Hin. apply filter_In in Hin as [_ Hp].
simpl in Hp. apply negb_true_iff, Z.ltb_ge in Hp. exact Hp.
Qed.

Lemma signal_GET_member st a chatId userId now :
  Signal.authenticate a = Some userId -> truthy chatId = true ->
  Db.chatMember_findUnique st chatId userId <> None ->
  Signal.GET st a (Some chatId) now =
  (Ok (map Signal.to_dto (fst (Signal.fetch_signals st chatId userId now))),
   snd (Signal.fetch_signals st chatId userId now)).
Proof.
intros Ha Hc Hm. unfold Signal.GET. rewrite Ha. cbn [or_null]. rewrite Hc.
destruct (Db.chatMember_findUnique st chatId userId); [|congruence].
now destruct (Signal.fetch_signals st chatId userId now).
Qed.

(** [GET /api/signal] answers with signals exactly when the caller is
    authenticated, names a chat and is a member of it; otherwise it answers
    401, 400 or 403 and changes nothing.  Whatever the answer, a poll adds
    no row and removes none: it only sets [consumed] on rows, and leaves
    the other tables alone. *)
Theorem signal_get_decision st a chatIdParam now :
  (accepted (fst (Signal.GET st a chatIdParam now)) = true <->
   exists userId chatId,
     Signal.authenticate a = Some userId /\ or_null chatIdParam = Some chatId /\
     Db.chatMember_findUnique st chatId userId <> None) /\
  (forall status error,
      fst (Signal.GET st a chatIdParam now) = Err status error ->
      snd (Signal.GET st a chatIdParam now) = st /\
      (status = 401 \/ status = 400 \/ status = 403)) /\
  (wf (signalEvents st) ->
   exists ids,
     signalEvents (snd (Signal.GET st a chatIdParam now)) =
     mark ids true (signalEvents st)) /\
  users (snd (Signal.GET st a chatIdParam now)) = users st /\
  chatMembers (snd (Signal.GET st a chatIdParam now)) = chatMembers st /\
  messages (snd (Signal.GET st a chatIdParam now)) = messages st /\
  deleteEvents (snd (Signal.GET st a chatIdParam now)) = deleteEvents st.
Proof.
unfold Signal.GET.
destruct (Signal.authenticate a) as [userId|].
2:{ cbn [fst snd accepted]. split; [|split; [|split]].
    - split; [discriminate|]. intros (u & c & H & _). discriminate.
    - intros status error [= <- _]. auto.
    - intros _. exists []. now rewrite mark_nil.
    - auto. }
destruct (or_null chatIdParam) as [chatId|].
2:{ cbn [fst snd accepted]. split; [|split; [|split]].
    - split; [discriminate|]. intros (u & c & _ & H & _). discriminate.
    - intros status error [= <- _]. auto.
    - intros _. exists []. now rewrite mark_nil.
    - auto. }
destruct (Db.chatMember_findUnique st chatId userId) eqn:Hm.
2:{ cbn [fst snd accepted]. split; [|split; [|split]].
    - split; [discriminate|]. intros (u & c & [= <-] & [= <-] & H). congruence.
    - intros status error [= <- _]. auto.
    - intros _. exists []. now rewrite mark_nil.
    - auto. }
pose proof (fetch_signals_store st chatId userId now) as Hst.
pose proof (fetch_signals_other_tables st chatId userId now) as Hot.
destruct (Signal.fetch_signals st chatId userId now) as [signals st'].
cbn [fst snd accepted] in *. split; [|split; [|split]].
- split; [|reflexivity]. intros _. exists userId, chatId. rewrite Hm.
  repeat split; congruence.
- discriminate.
- intros Hwf. eexists. apply Hst, Hwf.
- cbv zeta in Hot. tauto.
Qed.

End SignalRouteFacts.

(** ** The delete routes: listing, and what a stored event is filed under *)
Module DeleteRouteFacts.
Import JsMapFacts StoreFacts.
Local Open Scope Z_scope.

Definition accepted {A} (r : Response A) : bool :=
  match r with Ok _ => true | Err _ _ => false end.

(** The events [GET /api/delete] lists for a chat: with [since], those whose
    timestamp is not at or before it, among them every event whose timestamp
    is the Invalid Date. *)
Definition listed_since (chatId : string) (since : option Z) (e : DeleteEvent) : Prop :=
  de_chatId e = chatId /\
  (forall t x, since = Some t -> de_timestamp e = date x -> t < x).

Lemma delete_matches_listed chatId since e :
  Db.delete_matches chatId None since e = true <-> listed_since chatId since e.
Proof.
unfold Db.delete_matches, listed_since, date_le.
rewrite !andb_true_iff, String.eqb_eq.
destruct since as [t|].
- rewrite negb_true_iff. destruct (de_timestamp e) as [x|]; cbn [getTime].
  + rewrite Z.leb_gt. split.
    * intros [[H _] Ht]. split; [exact H|]. now intros t' x' [= <-] [= <-].
    * intros [H Ht]. split; [auto|]. now apply (Ht t x).
  + split; [intros [[H _] _]; split; [exact H|discriminate]|intros [H _]; auto].
- split; [intros [[H _] _]; split; [exact H|discriminate]|intros [H _]; auto].
Qed.

(** The time value of an event's timestamp, when it is a valid date. *)
Definition time (e : DeleteEvent) : Z :=
  match de_timestamp e with
  | date t => t
  | Invalid_Date => 0
  end.

Lemma sort_valid (l : list DeleteEvent) :
  Forall (fun e => de_timestamp e <> Invalid_Date) l ->
  sort_with (fun a b => time_difference (de_timestamp a) (de_timestamp b)) l =
  sort_by time l.
Proof.
intros Hv. apply sort_with_by. intros x y Hx Hy.
rewrite Forall_forall in Hv. pose proof (Hv x Hx) as Vx. pose proof (Hv y Hy) as Vy.
unfold time_difference, time.
destruct (de_timestamp x), (de_timestamp y); cbn [getTime]; congruence.
Qed.

(** The key a user has published, if any. *)
Definition published_key (st : Storage) (userId : string) : option string :=
  match JsMap.get (users st) userId with
  | Some u => usr_publicKey u
  | None => None
  end.

Lemma delete_GET_member st sess userId chatId since :
  sess_user sess = Some userId -> truthy chatId = true ->
  Db.chatMember_findUnique st chatId userId <> None ->
  Delete.GET st (Some sess) (Some chatId) since =
  Ok (map (Delete.with_sender_key st)
          (Db.deleteEvent_findMany st chatId None since true)).
Proof.
intros Hu Hc Hm. unfold Delete.GET. cbn [or_null]. rewrite Hc, Hu.
now destruct (Db.chatMember_findUnique st chatId userId).
Qed.

(** X4.  [GET /api/delete] answers a member of the chat with the delete
    events of that chat, whether delivered or not, each once, with its
    fields as stored and with the key its sender has published; with
    [since], the events whose timestamp is at or before it are left out,
    and an event whose timestamp is the Invalid Date never is.  When the
    timestamps of the events listed are all valid dates, the events are in
    ascending order of timestamp, those of equal timestamp in the order in
    which they are stored.  It answers with events only to a session whose
    user is a member. *)
Theorem delete_get_lists st sess userId chatId since :
  sess_user sess = Some userId ->
  truthy chatId = true ->
  Db.chatMember_findUnique st chatId userId <> None ->
  exists events,
    Delete.GET st (Some sess) (Some chatId) since =
      Ok (map (fun e => Delete.mkDeleteEventWithKey
                          (Delete.mkDeleteEventDTO
                             (de_id e) (de_messageId e) (de_chatId e)
                             (de_senderId e) (de_signature e) (de_timestamp e))
                          (published_key st (de_senderId e)))
              events) /\
    (forall e, In e events <->
               In e (JsMap.values (deleteEvents st)) /\ listed_since chatId since e) /\
    Permutation events
      (filter (Db.delete_matches chatId None since) (JsMap.values (deleteEvents st))) /\
    (Forall (fun e => de_timestamp e <> Invalid_Date) events ->
     StronglySorted (key_le time) events /\
     forall t, filter (fun e => time e =? t) events =
               filter (fun e => time e =? t)
                 (filter (Db.delete_matches chatId None since)
                         (JsMap.values (deleteEvents st)))) /\
    (forall session' chatIdParam since',
        accepted (Delete.GET st session' chatIdParam since') = true ->
        exists sess' u c,
          session' = Some sess' /\ sess_user sess' = Some u /\
          or_null chatIdParam = Some c /\
          Db.chatMember_findUnique st c u <> None).
Proof.
intros Hu Hc Hm.
exists (Db.deleteEvent_findMany st chatId None since true).
split; [|split; [|split; [|split]]].
- now apply (delete_GET_member st sess userId).
- intros e. unfold Db.deleteEvent_findMany. rewrite In_sort_with, filter_In.
  now rewrite delete_matches_listed.
- apply sort_with_perm.
- unfold Db.deleteEvent_findMany. intros Hv.
  assert (Hv' : Forall (fun e => de_timestamp e <> Invalid_Date)
                  (filter (Db.delete_matches chatId None since)
                          (JsMap.values (deleteEvents st)))).
  { eapply Permutation_Forall; [apply sort_with_perm|exact Hv]. }
  rewrite (sort_valid _ Hv'). split.
  + apply sort_by_sorted.
  + intros t. apply sort_by_stable.
    intros x y Hx Hy. apply Z.eqb_eq in Hx, Hy. congruence.
- intros session' chatIdParam since'. unfold Delete.GET.
  destruct session' as [sess'|]; [|discriminate].
  destruct (or_null chatIdParam) as [c|]; [|discriminate].
  destruct (sess_user sess') as [u|] eqn:Eu; [|discriminate].
  destruct (Db.chatMember_findUnique st c u) eqn:Em; [|discriminate].
  intros _. exists sess', u, c. repeat split; congruence.
Qed.

(** The event an accepted [POST /api/delete] of [userId] stores. *)
Definition stored (userId : string) (b : Delete.PostBody) (env : Delete.PostEnv)
  : DeleteEvent :=
  mkDeleteEvent (Delete.env_id env) (Delete.pb_messageId b) (Delete.pb_chatId b)
                userId (Delete.pb_signature b)
                (Delete.timestamp_or_now (Delete.pb_timestamp b) (Delete.env_now env))
                (Delete.env_createdAt env) false.

Lemma POST_by_sender st sess userId b env message :
  sess_user sess = Some userId ->
  truthy (Delete.pb_messageId b) = true ->
  truthy (Delete.pb_chatId b) = true ->
  truthy (Delete.pb_signature b) = true ->
  Db.chatMember_findUnique st (Delete.pb_chatId b) userId <> None ->
  Db.message_findUnique st (Delete.pb_messageId b) = Some message ->
  msg_senderId message = userId ->
  Delete.POST st (Some sess) (Some b) env =
  (Ok (Delete.to_dto (stored userId b env)),
   mkStorage (users st) (chatMembers st)
     (JsMap.set (messages st) (Delete.pb_messageId b) (DeleteFacts.tombstone message))
     (JsMap.set (deleteEvents st) (Delete.env_id env) (stored userId b env))
     (signalEvents st)).
Proof.
intros Hu H1 H2 H3 Hm Hg Hs. unfold Delete.POST.
rewrite H1, H2, H3, Hu. cbn [negb orb].
destruct (Db.chatMember_findUnique st (Delete.pb_chatId b) userId); [|congruence].
rewrite Hg. apply String.eqb_eq in Hs. rewrite Hs. cbn [negb].
cbn [Db.deleteEvent_create]. unfold Db.message_update.
cbn [messages with_deleteEvents]. unfold Db.message_findUnique in Hg. rewrite Hg.
reflexivity.
Qed.

Lemma POST_accepted_by_sender st session body env dto st' :
  Delete.POST st session body env = (Ok dto, st') ->
  exists sess b userId message,
    session = Some sess /\ body = Some b /\ sess_user sess = Some userId /\
    truthy (Delete.pb_messageId b) = true /\ truthy (Delete.pb_chatId b) = true /\
    truthy (Delete.pb_signature b) = true /\
    Db.chatMember_findUnique st (Delete.pb_chatId b) userId <> None /\
    Db.message_findUnique st (Delete.pb_messageId b) = Some message /\
    msg_senderId message = userId.
Proof.
unfold Delete.POST.
destruct session as [sess|]; [|discriminate].
destruct body as [b|]; [|discriminate].
destruct (truthy (Delete.pb_messageId b)) eqn:H1; [|discriminate].
destruct (truthy (Delete.pb_chatId b)) eqn:H2; [|discriminate].
destruct (truthy (Delete.pb_signature b)) eqn:H3; [|discriminate].
cbn [negb orb].
destruct (sess_user sess) as [userId|] eqn:Hu; [|discriminate].
destruct (Db.chatMember_findUnique st (Delete.pb_chatId b) userId) eqn:Hm;
  [|discriminate].
destruct (Db.message_findUnique st (Delete.pb_messageId b)) as [message|] eqn:Hg;
  [|discriminate].
destruct (String.eqb (msg_senderId message) userId) eqn:Hs; [|discriminate].
intros _. exists sess, b, userId, message. apply String.eqb_eq in Hs.
repeat split; congruence.
Qed.

(** X5.  Once [POST /api/delete] has accepted a request, [GET /api/delete]
    lists the stored event, with the key the requester has published, to
    every member of the chat the request named, unless [since] is at or
    after the event's timestamp. *)
Theorem delete_event_listed st sess b env dto st' sess2 u2 since :
  Delete.POST st (Some sess) (Some b) env = (Ok dto, st') ->
  sess_user sess2 = Some u2 ->
  Db.chatMember_findUnique st (Delete.pb_chatId b) u2 <> None ->
  (forall t x, since = Some t -> Delete.dto_timestamp dto = date x -> t < x) ->
  exists userId listed,
    sess_user sess = Some userId /\
    Delete.dto_senderId dto = userId /\
    Delete.GET st' (Some sess2) (Some (Delete.pb_chatId b)) since = Ok listed /\
    In (Delete.mkDeleteEventWithKey dto (published_key st userId)) listed.
Proof.
intros HP Hu2 Hm2 Hsince.
destruct (POST_accepted_by_sender _ _ _ _ _ _ HP)
  as (sess0 & b0 & userId & message & [= <-] & [= <-] & Hu & H1 & H2 & H3 & Hm & Hg & Hs).
rewrite (POST_by_sender st sess userId b env message) in HP by assumption.
injection HP as <- <-.
exists userId. eexists. split; [exact Hu|]. split; [reflexivity|].
split; [apply (delete_GET_member _ sess2 u2); auto|].
change (Delete.mkDeleteEventWithKey (Delete.to_dto (stored userId b env))
          (published_key st userId))
  with (Delete.with_sender_key
          (mkStorage (users st) (chatMembers st)
             (JsMap.set (messages st) (Delete.pb_messageId b)
                (DeleteFacts.tombstone message))
             (JsMap.set (deleteEvents st) (Delete.env_id env) (stored userId b env))
             (signalEvents st))
          (stored userId b env)).
apply in_map. unfold Db.deleteEvent_findMany. apply In_sort_with, filter_In.
cbn [deleteEvents]. split.
- apply In_values. exists (Delete.env_id env). apply In_set_same.
- apply delete_matches_listed. split; [reflexivity|exact Hsince].
Qed.

Lemma tombstone_twice m :
  DeleteFacts.tombstone (DeleteFacts.tombstone m) = DeleteFacts.tombstone m.
Proof. reflexivity. Qed.

(** X6.  The server keeps no memory of a deletion beyond the tombstone: a
    request of the sender for a message that is already deleted is accepted
    like the first one.  It stores one more delete event and leaves the
    tombstone as it is. *)
Theorem delete_again_accepted st sess b env dto st1 env' :
  Delete.POST st (Some sess) (Some b) env = (Ok dto, st1) ->
  exists userId dto2 st2,
    sess_user sess = Some userId /\
    Delete.POST st1 (Some sess) (Some b) env' = (Ok dto2, st2) /\
    Delete.dto_id dto2 = Delete.env_id env' /\
    messages st2 = messages st1 /\
    JsMap.get (deleteEvents st2) (Delete.env_id env') = Some (stored userId b env') /\
    (Delete.env_id env' <> Delete.env_id env ->
     JsMap.get (deleteEvents st2) (Delete.env_id env) = Some (stored userId b env)).
Proof.
intros HP.
destruct (POST_accepted_by_sender _ _ _ _ _ _ HP)
  as (sess0 & b0 & userId & message & [= <-] & [= <-] & Hu & H1 & H2 & H3 & Hm & Hg & Hs).
rewrite (POST_by_sender st sess userId b env message) in HP by assumption.
injection HP as <- <-.
set (st1 := mkStorage _ _ _ _ _).
assert (Hg1 : Db.message_findUnique st1 (Delete.pb_messageId b) =
              Some (DeleteFacts.tombstone message)).
{ unfold Db.message_findUnique, st1. cbn [messages]. apply get_set_same. }
exists userId. eexists _, _. split; [exact Hu|]. split.
{ apply (POST_by_sender st1 sess userId b env' (DeleteFacts.tombstone message));
    auto. }
cbn [messages deleteEvents st1]. split; [reflexivity|].
split; [|split].
- now rewrite set_set_same.
- apply get_set_same.
- intros Hne. rewrite get_set_other by congruence. apply get_set_same.
Qed.

(** X7.  [POST /api/delete] files the delete event under the chat id of the
    request and does not compare it with the chat of the message.  A sender
    who names another chat they belong to has the request accepted: the
    message is tombstoned, and no query for the message's own chat, on
    either route, returns the event. *)
Theorem delete_event_filed_under_request_chat st sess userId b env message :
  MessagesFacts.store_ok st ->
  sess_user sess = Some userId ->
  truthy (Delete.pb_messageId b) = true ->
  truthy (Delete.pb_chatId b) = true ->
  truthy (Delete.pb_signature b) = true ->
  Db.chatMember_findUnique st (Delete.pb_chatId b) userId <> None ->
  Db.message_findUnique st (Delete.pb_messageId b) = Some message ->
  msg_senderId message = userId ->
  msg_chatId message <> Delete.pb_chatId b ->
  exists dto st',
    Delete.POST st (Some sess) (Some b) env = (Ok dto, st') /\
    Delete.dto_chatId dto = Delete.pb_chatId b /\
    Db.message_findUnique st' (Delete.pb_messageId b) =
      Some (DeleteFacts.tombstone message) /\
    (forall session2 events st'',
        Messages.GET st' session2 (Some (msg_chatId message)) = (Ok events, st'') ->
        ~ In (Delete.env_id env) (map de_id events)) /\
    (forall session2 since listed,
        Delete.GET st' session2 (Some (msg_chatId message)) since = Ok listed ->
        ~ In (Delete.env_id env)
             (map (fun d => Delete.dto_id (Delete.dk_event d)) listed)).
Proof.
intros [Hwf Hkeyed] Hu H1 H2 H3 Hm Hg Hs Hne.
rewrite (POST_by_sender st sess userId b env message) by assumption.
eexists _, _. split; [reflexivity|].
set (st' := mkStorage _ _ _ _ _).
assert (Hown : forall e, In e (JsMap.values (deleteEvents st')) ->
                         de_id e = Delete.env_id env ->
                         de_chatId e = Delete.pb_chatId b).
{ intros e Hin Hid. apply In_values in Hin as [k Hin].
  unfold st' in Hin. cbn [deleteEvents] in Hin.
  assert (Hk : k = de_id e).
  { apply In_set in Hin as [Hin|[= -> ->]]; [|reflexivity].
    rewrite Forall_forall in Hkeyed. apply (Hkeyed _ Hin). }
  subst k. rewrite Hid in Hin.
  assert (e = stored userId b env).
  { eapply wf_unique; [apply wf_set; exact Hwf|exact Hin|apply In_set_same]. }
  now subst e. }
split; [reflexivity|]. split; [|split].
- unfold Db.message_findUnique, st'. cbn [messages]. apply get_set_same.
- intros session2 events st'' HG Hin.
  apply in_map_iff in Hin as [e [Hid Hin]].
  unfold Messages.GET in HG.
  destruct session2 as [sess2|]; [|discriminate].
  destruct (or_null (Some (msg_chatId message))) as [c|] eqn:Ec; [|discriminate].
  assert (c = msg_chatId message).
  { cbn [or_null] in Ec. destruct (truthy (msg_chatId message)); congruence. }
  subst c.
  destruct (sess_user sess2) as [u2|]; [|discriminate].
  destruct (Db.chatMember_findUnique st' (msg_chatId message) u2); [|discriminate].
  destruct (Messages.fetch_deleteEvents st' (msg_chatId message)) as [evs st2] eqn:E.
  injection HG as <- _.
  assert (Hin' : In e (fst (Messages.fetch_deleteEvents st' (msg_chatId message))))
    by now rewrite E.
  apply MessagesFacts.In_fetch_deleteEvents in Hin' as [Hv [Hc _]].
  apply Hne. rewrite <- Hc. now apply Hown.
- intros session2 since listed HG Hin.
  apply in_map_iff in Hin as [d [Hid Hin]].
  unfold Delete.GET in HG.
  destruct session2 as [sess2|]; [|discriminate].
  destruct (or_null (Some (msg_chatId message))) as [c|] eqn:Ec; [|discriminate].
  assert (c = msg_chatId message).
  { cbn [or_null] in Ec. destruct (truthy (msg_chatId message)); congruence. }
  subst c.
  destruct (sess_user sess2) as [u2|]; [|discriminate].
  destruct (Db.chatMember_findUnique st' (msg_chatId message) u2); [|discriminate].
  injection HG as <-.
  apply in_map_iff in Hin as [e [<- Hin]].
  unfold Db.deleteEvent_findMany in Hin. apply In_sort_with, filter_In in Hin.
  destruct Hin as [Hv Hmatch]. apply delete_matches_listed in Hmatch as [Hc _].
  apply Hne. rewrite <- Hc. now apply Hown.
Qed.

End DeleteRouteFacts.

(** ** Arrays: [slice], [findIndex], sorted lists *)
Module ArrayFacts.
Local Open Scope Z_scope.
Import Number.

Lemma slice_from {A} (l : list A) k :
  0 <= k -> slice l k None = skipn (Z.to_nat k) l.
Proof.
intros Hk. unfold slice, relative_index.
destruct (Z.ltb_spec k 0); [lia|].
destruct (Z.le_gt_cases k (Z.of_nat (List.length l))) as [Hle|Hgt].
- rewrite Z.min_l by lia. apply firstn_all2. rewrite length_skipn. lia.
- rewrite Z.min_r by lia. rewrite Nat2Z.id, skipn_all.
  rewrite firstn_nil. symmetry. apply skipn_all2. lia.
Qed.

Lemma slice_first {A} (l : list A) n :
  0 <= n -> slice l 0 (Some n) = firstn (Z.to_nat n) l.
Proof.
intros Hn. unfold slice, relative_index. cbn [Z.ltb Z.compare].
destruct (Z.ltb_spec n 0); [lia|].
rewrite (Z.min_l 0) by lia. cbn [Z.to_nat skipn]. rewrite Z.sub_0_r.
destruct (Z.le_gt_cases n (Z.of_nat (List.length l))) as [Hle|Hgt].
- now rewrite Z.min_l by lia.
- rewrite Z.min_r by lia. rewrite Nat2Z.id, firstn_all.
  symmetry. apply firstn_all2. lia.
Qed.

Lemma slice_drop_last {A} (l : list A) n :
  n < 0 -> slice l 0 (Some n) = firstn (List.length l - Z.to_nat (- n)) l.
Proof.
intros Hn. unfold slice, relative_index. cbn [Z.ltb Z.compare].
destruct (Z.ltb_spec n 0); [|lia].
rewrite (Z.min_l 0) by lia. cbn [Z.to_nat skipn]. rewrite Z.sub_0_r.
f_equal. lia.
Qed.

Lemma findIndex_range {A} (p : A -> bool) l :
  -1 <= findIndex p l < Z.of_nat (List.length l).
Proof.
induction l as [|x l IH]; simpl; [lia|].
destruct (p x); [lia|]. destruct (Z.eqb_spec (findIndex p l) (-1)); lia.
Qed.

Lemma findIndex_none {A} (p : A -> bool) l :
  findIndex p l = -1 <-> forall x, In x l -> p x = false.
Proof.
induction l as [|x l IH]; simpl; [tauto|].
pose proof (findIndex_range p l) as Hr.
destruct (p x) eqn:Ep.
- split; [discriminate|]. intros H. specialize (H x (or_introl eq_refl)). congruence.
- destruct (Z.eqb_spec (findIndex p l) (-1)) as [E|E].
  + split; [|reflexivity]. intros _ y [<-|Hy]; [exact Ep|]. now apply IH.
  + split; [lia|]. intros H. exfalso. apply E, IH. auto.
Qed.

(** The index found is that of the first element that satisfies [p]. *)
Lemma findIndex_first {A} (p : A -> bool) l i x :
  nth_error l i = Some x -> p x = true ->
  (forall j y, (j < i)%nat -> nth_error l j = Some y -> p y = false) ->
  findIndex p l = Z.of_nat i.
Proof.
revert i. induction l as [|a l IH]; intros [|i] Hn Hp Hfirst; simpl in *;
  try discriminate.
- injection Hn as ->. now rewrite Hp.
- rewrite (Hfirst 0%nat a) by (reflexivity || lia).
  rewrite (IH i Hn Hp).
  + destruct (Z.eqb_spec (Z.of_nat i) (-1)); lia.
  + intros j y Hj Hy. apply (Hfirst (S j) y); [lia|exact Hy].
Qed.

Section Sorted.
Context {A : Type} (R : A -> A -> Prop).

Lemma sorted_app l1 l2 :
  StronglySorted R l1 -> StronglySorted R l2 ->
  (forall x y, In x l1 -> In y l2 -> R x y) ->
  StronglySorted R (l1 ++ l2).
Proof.
intros H1 H2 H. induction H1 as [|x l1 Hs IH Hx]; simpl; [exact H2|].
constructor.
- apply IH. intros a b Ha Hb. apply H; simpl; auto.
- apply Forall_app. split; [exact Hx|].
  apply Forall_forall. intros y Hy. apply H; simpl; auto.
Qed.

Lemma sorted_app_inv l1 l2 :
  StronglySorted R (l1 ++ l2) ->
  StronglySorted R l1 /\ StronglySorted R l2 /\
  (forall x y, In x l1 -> In y l2 -> R x y).
Proof.
induction l1 as [|x l1 IH]; simpl; intros H.
- repeat split; [constructor|exact H|intros x y []].
- inversion H as [|? ? Hs Hx]; subst. destruct (IH Hs) as (H1 & H2 & H12).
  apply Forall_app in Hx as [Hx1 Hx2]. repeat split.
  + now constructor.
  + exact H2.
  + intros a b [<-|Ha] Hb; [|now apply H12].
    rewrite Forall_forall in Hx2. now apply Hx2.
Qed.

Lemma sorted_firstn n l : StronglySorted R l -> StronglySorted R (firstn n l).
Proof.
intros H. rewrite <- (firstn_skipn n l) in H. now apply sorted_app_inv in H.
Qed.

Lemma sorted_skipn n l : StronglySorted R l -> StronglySorted R (skipn n l).
Proof.
intros H. rewrite <- (firstn_skipn n l) in H. now apply sorted_app_inv in H.
Qed.

End Sorted.

Lemma sorted_rev {A} (R : A -> A -> Prop) l :
  StronglySorted R l -> StronglySorted (fun a b => R b a) (rev l).
Proof.
induction 1 as [|x l Hs IH Hx]; simpl; [constructor|].
apply sorted_app.
- exact IH.
- repeat constructor.
- intros a b Ha [<-|[]]. apply in_rev in Ha.
  rewrite Forall_forall in Hx. now apply Hx.
Qed.

Lemma NoDup_nth_error_first {A B} (f : A -> B) (l : list A) i x :
  NoDup (map f l) -> nth_error l i = Some x ->
  forall j y, (j < i)%nat -> nth_error l j = Some y -> f y <> f x.
Proof.
intros Hnd Hi j y Hj Hy E.
assert (Hi' : nth_error (map f l) i = Some (f x)) by now rewrite nth_error_map, Hi.
assert (Hj' : nth_error (map f l) j = Some (f x))
  by (rewrite nth_error_map, Hy; simpl; now rewrite E).
assert (Hlt : (j < List.length (map f l))%nat)
  by (apply nth_error_Some; congruence).
pose proof (proj1 (NoDup_nth_error (map f l)) Hnd j i Hlt) as H.
rewrite Hi', Hj' in H. specialize (H eq_refl). lia.
Qed.

End ArrayFacts.

(** ** Pages of messages *)
Module MessagesPageFacts.
Import JsMapFacts StoreFacts ArrayFacts MessagesPage.
Local Open Scope Z_scope.

Lemma In_firstn {A} n (l : list A) x : In x (firstn n l) -> In x l.
Proof. intros H. rewrite <- (firstn_skipn n l). apply in_or_app. now left. Qed.

Lemma In_skipn {A} n (l : list A) x : In x (skipn n l) -> In x l.
Proof. intros H. rewrite <- (firstn_skipn n l). apply in_or_app. now right. Qed.

(** The messages of a chat, newest first, as the query sorts them. *)
Definition newest_first (st : Storage) (chatId : string) : list Message :=
  sort_by (fun m => - msg_createdAt m)
    (filter (fun m => String.eqb (msg_chatId m) chatId) (JsMap.values (messages st))).

Definition attach (st : Storage) (m : Message) : MessageWithSender :=
  mkMessageWithSender m (JsMap.get (users st) (msg_senderId m)).

(** One row per message id, kept under that id. *)
Definition store_ok (st : Storage) : Prop :=
  wf (messages st) /\ Forall (fun kv => fst kv = msg_id (snd kv)) (messages st).

(** The limit the handler works with. *)
Definition limit_of (limitParam : option string) : option Z :=
  Number.parseInt match or_null limitParam with Some l => l | None => "50" end.

Definition after_cursor (d : list Message) (cursor : option string) : list Message :=
  match cursor with
  | Some id =>
      let i := Number.findIndex (fun m => String.eqb (msg_id m) id) d in
      if i =? -1 then d else skipn (Z.to_nat (i + 1)) d
  | None => d
  end.

Definition bounded (limit : option Z) (l : list Message) : list Message :=
  match limit with
  | Some n =>
      if n =? 0 then l
      else if n <? 0 then firstn (List.length l - Z.to_nat (- n)) l
      else firstn (Z.to_nat n) l
  | None => l
  end.

Lemma or_null_idem x : or_null (or_null x) = or_null x.
Proof.
destruct x as [s|]; simpl; [|reflexivity].
destruct (truthy s) eqn:E; simpl; now rewrite ?E.
Qed.

Lemma findMany_messages st chatId limit cursorParam :
  message_findMany st chatId (Some desc) limit (or_null cursorParam)
    match or_null cursorParam with Some _ => Some 1 | None => None end true =
  map (attach st)
      (bounded limit (after_cursor (newest_first st chatId) (or_null cursorParam))).
Proof.
unfold message_findMany. rewrite or_null_idem. fold (newest_first st chatId).
f_equal. unfold bounded, after_cursor.
set (d := newest_first st chatId).
assert (Hcur :
  match or_null cursorParam with
  | Some id =>
      if Number.findIndex (fun m => String.eqb (msg_id m) id) d =? -1 then d
      else Number.slice d
             (Number.findIndex (fun m => String.eqb (msg_id m) id) d +
              or_zero match or_null cursorParam with Some _ => Some 1 | None => None end)
             None
  | None => d
  end =
  match or_null cursorParam with
  | Some id =>
      if Number.findIndex (fun m => String.eqb (msg_id m) id) d =? -1 then d
      else skipn (Z.to_nat (Number.findIndex (fun m => String.eqb (msg_id m) id) d + 1)) d
  | None => d
  end).
{ destruct (or_null cursorParam) as [id|]; [|reflexivity].
  pose proof (findIndex_range (fun m => String.eqb (msg_id m) id) d).
  destruct (Z.eqb_spec (Number.findIndex (fun m => String.eqb (msg_id m) id) d) (-1));
    [reflexivity|].
  cbn [or_zero]. apply slice_from. lia. }
rewrite Hcur. clear Hcur.
destruct limit as [n|]; [|reflexivity].
destruct (Z.eqb_spec n 0); [reflexivity|].
destruct (Z.ltb_spec n 0).
- now apply slice_drop_last.
- apply slice_first. lia.
Qed.

Lemma messages_attached st l : map mws_message (map (attach st) l) = l.
Proof. rewrite map_map. simpl. apply map_id. Qed.

Lemma last_id_attached st l :
  last_id (rev (map (attach st) l)) =
  match l with
  | m :: _ => cursor_id (msg_id m)
  | [] => cursor_undefined
  end.
Proof. unfold last_id. rewrite rev_involutive. now destruct l. Qed.

(** The answer to a member of the chat. *)
Lemma GET_member st sess userId chatId cursorParam limitParam :
  sess_user sess = Some userId -> truthy chatId = true ->
  Db.chatMember_findUnique st chatId userId <> None ->
  let shown := bounded (limit_of limitParam)
                 (after_cursor (newest_first st chatId) (or_null cursorParam)) in
  GET st (Some sess) (Some chatId) cursorParam limitParam =
  (Ok (mkPage (rev (map (attach st) shown))
              (fst (Messages.fetch_deleteEvents st chatId))
              (if length_is shown (limit_of limitParam)
               then match shown with
                    | m :: _ => cursor_id (msg_id m)
                    | [] => cursor_undefined
                    end
               else cursor_null)),
   snd (Messages.fetch_deleteEvents st chatId)).
Proof.
intros Hu Hc Hm shown. unfold GET. cbn [or_null]. rewrite Hc, Hu.
destruct (Db.chatMember_findUnique st chatId userId); [|congruence].
fold (limit_of limitParam). rewrite findMany_messages. fold shown.
destruct (Messages.fetch_deleteEvents st chatId) as [events st'].
cbn [fst snd]. rewrite last_id_attached.
replace (length_is (rev (map (attach st) shown)) (limit_of limitParam))
  with (length_is shown (limit_of limitParam)); [reflexivity|].
unfold length_is. now rewrite length_rev, length_map.
Qed.

Lemma newest_first_sorted st chatId :
  StronglySorted (fun a b => msg_createdAt b <= msg_createdAt a)
                 (newest_first st chatId).
Proof.
unfold newest_first.
pose proof (sort_by_sorted (fun m => - msg_createdAt m)
              (filter (fun m => String.eqb (msg_chatId m) chatId)
                      (JsMap.values (messages st)))) as H.
eapply StronglySorted_ind with (P := StronglySorted _); [constructor| |exact H].
intros a l _ IH Ha. constructor; [exact IH|].
eapply Forall_impl; [|exact Ha]. unfold key_le. simpl. intros; lia.
Qed.

Lemma In_newest_first st chatId m :
  In m (newest_first st chatId) <->
  In m (JsMap.values (messages st)) /\ msg_chatId m = chatId.
Proof.
unfold newest_first. rewrite In_sort_by, filter_In. now rewrite String.eqb_eq.
Qed.

Lemma messages_unchanged st chatId :
  messages (snd (Messages.fetch_deleteEvents st chatId)) = messages st.
Proof. apply MessagesFacts.fetch_deleteEvents_other_tables. Qed.

(** What holds of every window of the sorted messages. *)
Lemma window_facts st chatId j n :
  let d := newest_first st chatId in
  let w := firstn n (skipn j d) in
  (List.length w <= n)%nat /\
  StronglySorted (key_le msg_createdAt) (rev w) /\
  (forall m, In m w -> In m (JsMap.values (messages st)) /\ msg_chatId m = chatId) /\
  (forall m x, In m (skipn (j + n) d) -> In x w ->
               msg_createdAt m <= msg_createdAt x).
Proof.
intros d w. split; [|split; [|split]].
- unfold w. rewrite length_firstn. lia.
- apply (sorted_rev (fun a b => msg_createdAt b <= msg_createdAt a)).
  apply sorted_firstn, sorted_skipn, newest_first_sorted.
- intros m Hin. apply In_newest_first.
  unfold w in Hin. apply In_firstn, In_skipn in Hin; exact Hin.
- intros m x Hm Hx.
  pose proof (newest_first_sorted st chatId) as Hs. fold d in Hs.
  apply (sorted_skipn _ j) in Hs.
  rewrite <- (firstn_skipn n (skipn j d)) in Hs.
  apply sorted_app_inv in Hs as (_ & _ & H).
  apply (H x m); [exact Hx|]. now rewrite skipn_skipn, Nat.add_comm.
Qed.

(** X8.  Without a cursor, [GET /api/messages] answers a member of the chat
    with the newest messages of the chat, at most [limit] of them (50 when
    no limit is given), oldest first, each a stored message of that chat
    with its sender's row attached; every message of the chat that is left
    out is at most as new as each message shown.  The query changes no
    message. *)
Theorem messages_first_page st sess userId chatId limitParam n :
  sess_user sess = Some userId ->
  truthy chatId = true ->
  Db.chatMember_findUnique st chatId userId <> None ->
  limit_of limitParam = Some n ->
  0 < n ->
  exists page st',
    GET st (Some sess) (Some chatId) None limitParam = (Ok page, st') /\
    map mws_message (page_messages page) =
      rev (firstn (Z.to_nat n) (newest_first st chatId)) /\
    (List.length (page_messages page) <= Z.to_nat n)%nat /\
    StronglySorted (key_le msg_createdAt) (map mws_message (page_messages page)) /\
    (forall x, In x (page_messages page) ->
        In (mws_message x) (JsMap.values (messages st)) /\
        msg_chatId (mws_message x) = chatId /\
        mws_sender x = JsMap.get (users st) (msg_senderId (mws_message x))) /\
    (forall m x,
        In m (JsMap.values (messages st)) -> msg_chatId m = chatId ->
        ~ In m (map mws_message (page_messages page)) ->
        In x (page_messages page) ->
        msg_createdAt m <= msg_createdAt (mws_message x)) /\
    messages st' = messages st.
Proof.
intros Hu Hc Hm Hl Hn.
rewrite (GET_member st sess userId chatId None limitParam Hu Hc Hm).
rewrite Hl. cbn [or_null after_cursor bounded].
destruct (Z.eqb_spec n 0); [lia|]. destruct (Z.ltb_spec n 0); [lia|].
set (d := newest_first st chatId).
destruct (window_facts st chatId 0 (Z.to_nat n)) as (Hlen & Hsorted & Hin & Hold).
fold d in Hlen, Hsorted, Hin, Hold. cbn [skipn] in *.
eexists _, _. split; [reflexivity|]. cbn [page_messages].
rewrite map_rev, messages_attached, length_rev, length_map.
split; [reflexivity|]. split; [exact Hlen|]. split; [exact Hsorted|].
split; [|split].
- intros x Hx. apply in_rev, in_map_iff in Hx as [m [<- Hx]]. simpl.
  destruct (Hin m Hx). auto.
- intros m x Hv Hchat Hnot Hx.
  apply in_rev, in_map_iff in Hx as [mx [<- Hx]]. simpl.
  apply (Hold m mx); [|exact Hx].
  assert (Hd : In m d) by (apply In_newest_first; auto).
  rewrite <- (firstn_skipn (Z.to_nat n) d) in Hd.
  apply in_app_or in Hd as [Hd|Hd]; [|exact Hd].
  exfalso. apply Hnot. now apply in_rev in Hd.
- apply messages_unchanged.
Qed.


Lemma newest_first_ids st chatId :
  store_ok st -> NoDup (map msg_id (newest_first st chatId)).
Proof.
intros [Hwf Hk]. unfold newest_first.
eapply Permutation_NoDup.
- apply Permutation_map, Permutation_sym, sort_by_perm.
- apply SignalFacts.NoDup_map_filter.
  replace (map msg_id (JsMap.values (messages st))) with (JsMap.keys (messages st));
    [exact Hwf|].
  unfold JsMap.keys, JsMap.values. rewrite map_map. apply map_ext_in.
  intros kv Hin. rewrite Forall_forall in Hk. now apply Hk.
Qed.

Lemma after_cursor_found st chatId cursor i m :
  store_ok st ->
  nth_error (newest_first st chatId) i = Some m -> msg_id m = cursor ->
  after_cursor (newest_first st chatId) (Some cursor) =
  skipn (S i) (newest_first st chatId).
Proof.
intros Hok Hi Hid. unfold after_cursor.
rewrite (findIndex_first _ _ i m Hi).
- destruct (Z.eqb_spec (Z.of_nat i) (-1)); [lia|]. f_equal. lia.
- subst cursor. apply String.eqb_refl.
- intros j y Hj Hy. apply String.eqb_neq. subst cursor.
  apply (NoDup_nth_error_first msg_id _ i m (newest_first_ids st chatId Hok) Hi j y Hj Hy).
Qed.

Lemma after_cursor_unknown d cursor :
  (forall m, In m d -> msg_id m <> cursor) -> after_cursor d (Some cursor) = d.
Proof.
intros H. unfold after_cursor.
replace (Number.findIndex (fun m => String.eqb (msg_id m) cursor) d) with (-1);
  [reflexivity|].
symmetry. apply findIndex_none. intros m Hm. apply String.eqb_neq. auto.
Qed.

(** X9.  With a cursor that is the id of a message of the chat,
    [GET /api/messages] answers with the messages that come right after it
    in the order newest-first, at most [limit] of them, oldest first: none
    of them is newer than the message of the cursor.  A cursor that is the
    id of no message of the chat is ignored: the answer is the one given
    without cursor. *)
Theorem messages_page_after_cursor st sess userId chatId cursor limitParam n :
  store_ok st ->
  sess_user sess = Some userId ->
  truthy chatId = true ->
  Db.chatMember_findUnique st chatId userId <> None ->
  limit_of limitParam = Some n ->
  0 < n ->
  truthy cursor = true ->
  (forall i m,
      nth_error (newest_first st chatId) i = Some m -> msg_id m = cursor ->
      exists page st',
        GET st (Some sess) (Some chatId) (Some cursor) limitParam = (Ok page, st') /\
        map mws_message (page_messages page) =
          rev (firstn (Z.to_nat n) (skipn (S i) (newest_first st chatId))) /\
        (forall x, In x (page_messages page) ->
                   msg_createdAt (mws_message x) <= msg_createdAt m /\
                   mws_message x <> m)) /\
  ((forall m, In m (newest_first st chatId) -> msg_id m <> cursor) ->
   GET st (Some sess) (Some chatId) (Some cursor) limitParam =
   GET st (Some sess) (Some chatId) None limitParam).
Proof.
intros Hok Hu Hc Hm Hl Hn Hcur. split.
- intros i m Hi Hid.
  rewrite (GET_member st sess userId chatId (Some cursor) limitParam Hu Hc Hm).
  rewrite Hl. cbn [or_null]. rewrite Hcur.
  rewrite (after_cursor_found st chatId cursor i m Hok Hi Hid).
  cbn [bounded]. destruct (Z.eqb_spec n 0); [lia|]. destruct (Z.ltb_spec n 0); [lia|].
  eexists _, _. split; [reflexivity|]. cbn [page_messages].
  rewrite map_rev, messages_attached. split; [reflexivity|].
  intros x Hx. apply in_rev, in_map_iff in Hx as [mx [<- Hx]]. simpl.
  apply In_firstn in Hx.
  pose proof (newest_first_sorted st chatId) as Hs.
  pose proof (newest_first_ids st chatId Hok) as Hnd.
  assert (Hsplit : newest_first st chatId =
                   firstn i (newest_first st chatId) ++ m ::
                   skipn (S i) (newest_first st chatId)).
  { rewrite <- (firstn_skipn i (newest_first st chatId)) at 1. f_equal.
    clear - Hi. revert i Hi.
    induction (newest_first st chatId) as [|a l IH]; intros [|i] Hi; simpl in *;
      try discriminate.
    - now injection Hi as ->.
    - now apply IH. }
  rewrite Hsplit in Hs, Hnd.
  apply sorted_app_inv in Hs as (_ & Hs & _).
  inversion Hs as [|? ? _ Hall]; subst. rewrite Forall_forall in Hall.
  split; [now apply Hall|].
  intros ->. rewrite map_app in Hnd. apply NoDup_remove_2 in Hnd.
  apply Hnd. apply in_or_app. right. now apply in_map.
- intros Hnone.
  rewrite (GET_member st sess userId chatId (Some cursor) limitParam Hu Hc Hm).
  rewrite (GET_member st sess userId chatId None limitParam Hu Hc Hm).
  cbn [or_null]. rewrite Hcur. now rewrite after_cursor_unknown.
Qed.

Lemma same_chat_tables st st' chatId :
  messages st' = messages st -> newest_first st' chatId = newest_first st chatId.
Proof. intros H. unfold newest_first. now rewrite H. Qed.

(** The cursor that stands for the window that starts at position [j]. *)
Definition cursor_at (d : list Message) (j : nat) (cursorParam : option string) : Prop :=
  match j with
  | O => or_null cursorParam = None
  | S i => exists m, nth_error d i = Some m /\ cursorParam = Some (msg_id m)
  end.

Lemma GET_window st sess userId chatId cursorParam limitParam n j :
  store_ok st ->
  (forall m, In m (JsMap.values (messages st)) -> truthy (msg_id m) = true) ->
  sess_user sess = Some userId ->
  truthy chatId = true ->
  Db.chatMember_findUnique st chatId userId <> None ->
  limit_of limitParam = Some n ->
  0 < n ->
  cursor_at (newest_first st chatId) j cursorParam ->
  let w := firstn (Z.to_nat n) (skipn j (newest_first st chatId)) in
  GET st (Some sess) (Some chatId) cursorParam limitParam =
  (Ok (mkPage (rev (map (attach st) w))
              (fst (Messages.fetch_deleteEvents st chatId))
              (if Z.of_nat (List.length w) =? n
               then match w with
                    | m :: _ => cursor_id (msg_id m)
                    | [] => cursor_undefined
                    end
               else cursor_null)),
   snd (Messages.fetch_deleteEvents st chatId)).
Proof.
intros Hok Hids Hu Hc Hm Hl Hn Hcur w.
rewrite (GET_member st sess userId chatId cursorParam limitParam Hu Hc Hm).
rewrite Hl.
assert (Hafter : after_cursor (newest_first st chatId) (or_null cursorParam) =
                 skipn j (newest_first st chatId)).
{ destruct j as [|i]; simpl in Hcur.
  - now rewrite Hcur.
  - destruct Hcur as [m [Hi ->]]. cbn [or_null].
    rewrite Hids.
    + now apply (after_cursor_found st chatId (msg_id m) i m).
    + apply nth_error_In in Hi. now apply In_newest_first in Hi. }
rewrite Hafter. cbn [bounded length_is].
destruct (Z.eqb_spec n 0); [lia|]. destruct (Z.ltb_spec n 0); [lia|].
reflexivity.
Qed.

(** X10.  [nextCursor] is the id of the newest message of the page, the last
    one of [messages], and it is given when the page holds [limit]
    messages.  The page asked for with that cursor starts one message
    further back than the page that gave it: it repeats every message of
    that page but the newest, and shows at most one message more.  A page
    with fewer than [limit] messages has a [null] cursor. *)
Theorem messages_next_cursor st sess userId chatId cursorParam limitParam n j :
  store_ok st ->
  (forall m, In m (JsMap.values (messages st)) -> truthy (msg_id m) = true) ->
  sess_user sess = Some userId ->
  truthy chatId = true ->
  Db.chatMember_findUnique st chatId userId <> None ->
  limit_of limitParam = Some n ->
  0 < n ->
  cursor_at (newest_first st chatId) j cursorParam ->
  exists page st',
    GET st (Some sess) (Some chatId) cursorParam limitParam = (Ok page, st') /\
    map mws_message (page_messages page) =
      rev (firstn (Z.to_nat n) (skipn j (newest_first st chatId))) /\
    ((List.length (skipn j (newest_first st chatId)) < Z.to_nat n)%nat ->
     page_nextCursor page = cursor_null) /\
    ((Z.to_nat n <= List.length (skipn j (newest_first st chatId)))%nat ->
     exists newest page2 st2,
       nth_error (newest_first st chatId) j = Some newest /\
       (exists older, map mws_message (page_messages page) = older ++ [newest]) /\
       page_nextCursor page = cursor_id (msg_id newest) /\
       GET st' (Some sess) (Some chatId) (Some (msg_id newest)) limitParam =
         (Ok page2, st2) /\
       map mws_message (page_messages page2) =
         rev (firstn (Z.to_nat n) (skipn (S j) (newest_first st chatId)))).
Proof.
intros Hok Hids Hu Hc Hm Hl Hn Hcur.
rewrite (GET_window st sess userId chatId cursorParam limitParam n j)
  by assumption.
set (d := newest_first st chatId).
eexists _, _. split; [reflexivity|]. cbn [page_messages page_nextCursor].
rewrite map_rev, messages_attached. split; [reflexivity|]. split.
- intros Hshort. rewrite length_firstn.
  destruct (Z.eqb_spec (Z.of_nat (Nat.min (Z.to_nat n) (List.length (skipn j d)))) n);
    [lia|reflexivity].
- intros Hfull. rewrite length_firstn.
  destruct (Z.eqb_spec (Z.of_nat (Nat.min (Z.to_nat n) (List.length (skipn j d)))) n);
    [|lia].
  destruct (skipn j d) as [|newest rest] eqn:Eskip; [simpl in Hfull; lia|].
  assert (Hj : nth_error d j = Some newest).
  { rewrite <- (firstn_skipn j d), Eskip.
    rewrite nth_error_app2; rewrite length_firstn.
    - replace (j - Nat.min j (List.length d))%nat with 0%nat; [reflexivity|].
      assert (j < List.length d)%nat; [|lia].
      assert (List.length (skipn j d) <> 0)%nat by (rewrite Eskip; discriminate).
      rewrite length_skipn in H. lia.
    - lia. }
  destruct (Z.to_nat n) as [|k] eqn:En; [lia|]. cbn [firstn].
  exists newest.
  set (st' := snd (Messages.fetch_deleteEvents st chatId)).
  assert (Hmsgs : messages st' = messages st) by apply messages_unchanged.
  assert (Hmem' : Db.chatMember_findUnique st' chatId userId <> None).
  { unfold Db.chatMember_findUnique, st'.
    destruct (MessagesFacts.fetch_deleteEvents_other_tables st chatId) as (_ & Hcm & _).
    rewrite Hcm. exact Hm. }
  assert (Hok' : store_ok st') by (unfold store_ok; now rewrite Hmsgs).
  assert (Hids' : forall m, In m (JsMap.values (messages st')) ->
                            truthy (msg_id m) = true) by now rewrite Hmsgs.
  assert (Hd' : newest_first st' chatId = d) by now apply same_chat_tables.
  rewrite (GET_window st' sess userId chatId (Some (msg_id newest)) limitParam n (S j));
    try assumption.
  2:{ simpl. exists newest. now rewrite Hd'. }
  eexists _, _. split; [exact Hj|]. split.
  { simpl. eexists. reflexivity. }
  split; [reflexivity|]. split; [reflexivity|].
  cbn [page_messages]. rewrite map_rev, messages_attached, Hd', En.
  reflexivity.
Qed.

(** X11.  A limit that is zero or does not start with a number puts no bound
    on the page: the whole chat is returned, with a [null] cursor (or none
    at all, when the limit is zero and the chat is empty).  A negative limit
    [-k] returns the chat without its [k] oldest messages. *)
Theorem messages_page_without_bound st sess userId chatId limitParam :
  sess_user sess = Some userId ->
  truthy chatId = true ->
  Db.chatMember_findUnique st chatId userId <> None ->
  exists page st',
    GET st (Some sess) (Some chatId) None limitParam = (Ok page, st') /\
    (limit_of limitParam = None ->
     map mws_message (page_messages page) = rev (newest_first st chatId) /\
     page_nextCursor page = cursor_null) /\
    (limit_of limitParam = Some 0 ->
     map mws_message (page_messages page) = rev (newest_first st chatId) /\
     page_nextCursor page =
       match newest_first st chatId with
       | [] => cursor_undefined
       | _ :: _ => cursor_null
       end) /\
    (forall k, limit_of limitParam = Some (- Z.of_nat (S k)) ->
     map mws_message (page_messages page) =
       rev (firstn (List.length (newest_first st chatId) - S k)
                   (newest_first st chatId)) /\
     page_nextCursor page = cursor_null).
Proof.
intros Hu Hc Hm.
rewrite (GET_member st sess userId chatId None limitParam Hu Hc Hm).
cbn [or_null after_cursor].
eexists _, _. split; [reflexivity|]. cbn [page_messages page_nextCursor].
rewrite map_rev, messages_attached. split; [|split].
- intros ->. cbn [bounded length_is]. auto.
- intros ->. cbn [bounded length_is Z.eqb]. split; [reflexivity|].
  destruct (newest_first st chatId); reflexivity.
- intros k ->. unfold bounded, length_is.
  destruct (Z.eqb_spec (- Z.of_nat (S k)) 0); [lia|].
  destruct (Z.ltb_spec (- Z.of_nat (S k)) 0); [|lia].
  replace (Z.to_nat (- - Z.of_nat (S k))) with (S k) by lia.
  split; [reflexivity|].
  destruct (Z.eqb_spec (Z.of_nat (List.length
              (firstn (List.length (newest_first st chatId) - S k)
                      (newest_first st chatId)))) (- Z.of_nat (S k)));
    [lia|reflexivity].
Qed.

End MessagesPageFacts.

(** ** Sending a message, and what the pages show of it *)
Module MessagesPostFacts.
Import JsMapFacts StoreFacts ArrayFacts MessagesPage MessagesPageFacts.
Local Open Scope Z_scope.

Definition accepted {A} (r : Response A) : bool :=
  match r with Ok _ => true | Err _ _ => false end.

Definition content_type (b : PostBody) : string :=
  match pb_contentType b with Some c => c | None => "text" end.

(** The row an accepted [POST] of [userId] creates. *)
Definition sent (userId : string) (b : PostBody) (env : PostEnv) : Message :=
  mkMessage (env_id env) (pb_chatId b) userId (pb_ciphertext b) (pb_iv b)
            (content_type b) (env_createdAt env).

(** The chat table after an accepted [POST]. *)
Definition touched (chats : JsMap.t Chat) (b : PostBody) (env : PostEnv)
  : JsMap.t Chat :=
  snd (chat_update
         match JsMap.get chats (pb_chatId b) with
         | Some chat => JsMap.set chats (chat_id chat)
                                  (set_updatedAt chat (env_touched env))
         | None => chats
         end
         (pb_chatId b) (env_data_updatedAt env) (env_updated env)).

Lemma POST_by_member st chats sess userId b env :
  sess_user sess = Some userId ->
  truthy (pb_chatId b) = true -> truthy (pb_ciphertext b) = true ->
  truthy (pb_iv b) = true ->
  Db.chatMember_findUnique st (pb_chatId b) userId <> None ->
  POST st chats (Some sess) (Some b) env =
  (Ok (mkMessageWithSender (sent userId b env) (JsMap.get (users st) userId)),
   with_messages st (JsMap.set (messages st) (env_id env) (sent userId b env)),
   touched chats b env).
Proof.
intros Hu H1 H2 H3 Hm. unfold POST. rewrite H1, H2, H3, Hu. cbn [negb orb].
destruct (Db.chatMember_findUnique st (pb_chatId b) userId); [|congruence].
unfold message_create, touched. cbn [users with_messages].
fold (content_type b). fold (sent userId b env).
now destruct (chat_update _ _ _ _).
Qed.

Lemma POST_accepted_member st chats session body env :
  accepted (fst (fst (POST st chats session body env))) = true ->
  exists sess b userId,
    session = Some sess /\ body = Some b /\ sess_user sess = Some userId /\
    truthy (pb_chatId b) = true /\ truthy (pb_ciphertext b) = true /\
    truthy (pb_iv b) = true /\
    Db.chatMember_findUnique st (pb_chatId b) userId <> None.
Proof.
unfold POST.
destruct session as [sess|]; [|discriminate].
destruct body as [b|]; [|discriminate].
destruct (truthy (pb_chatId b)) eqn:H1; [|discriminate].
destruct (truthy (pb_ciphertext b)) eqn:H2; [|discriminate].
destruct (truthy (pb_iv b)) eqn:H3; [|discriminate].
cbn [negb orb].
destruct (sess_user sess) as [userId|] eqn:Hu; [|discriminate].
destruct (Db.chatMember_findUnique st (pb_chatId b) userId) eqn:Hm; [|discriminate].
intros _. exists sess, b, userId. repeat split; congruence.
Qed.

Lemma touched_chat chats b env :
  (forall chat, JsMap.get chats (pb_chatId b) = Some chat ->
                chat_id chat = pb_chatId b ->
                JsMap.get (touched chats b env) (pb_chatId b) =
                Some (set_updatedAt chat (env_updated env))) /\
  (JsMap.get chats (pb_chatId b) = None -> touched chats b env = chats) /\
  (forall k, k <> pb_chatId b ->
             (forall chat, JsMap.get chats (pb_chatId b) = Some chat ->
                           chat_id chat = pb_chatId b) ->
             JsMap.get (touched chats b env) k = JsMap.get chats k).
Proof.
unfold touched, chat_update. split; [|split].
- intros chat Hg Hid. rewrite Hg, Hid, get_set_same. cbn [snd].
  now rewrite get_set_same.
- intros Hg. now rewrite Hg, Hg.
- intros k Hk Hkeyed.
  destruct (JsMap.get chats (pb_chatId b)) as [chat|] eqn:Hg.
  + rewrite (Hkeyed chat eq_refl), get_set_same. cbn [snd].
    now rewrite !get_set_other.
  + now rewrite Hg.
Qed.

(** X12.  [POST /api/messages] accepts a request exactly when the session
    has a user, chat id, ciphertext and iv are present and the user is a
    member of the chat.  It then stores, under a new id, the ciphertext and
    the iv as they were sent, with the session's user as sender and [text]
    as content type when none is given, answers with that row, and sets the
    chat's [updatedAt]; no other table changes.  A rejected request changes
    nothing. *)
Theorem message_post_decision st chats session body env :
  (accepted (fst (fst (POST st chats session body env))) = true <->
   exists sess b userId,
     session = Some sess /\ body = Some b /\ sess_user sess = Some userId /\
     truthy (pb_chatId b) = true /\ truthy (pb_ciphertext b) = true /\
     truthy (pb_iv b) = true /\
     Db.chatMember_findUnique st (pb_chatId b) userId <> None) /\
  (forall sess b userId,
      session = Some sess -> body = Some b -> sess_user sess = Some userId ->
      accepted (fst (fst (POST st chats session body env))) = true ->
      let '(r, st', chats') := POST st chats session body env in
      r = Ok (mkMessageWithSender (sent userId b env) (JsMap.get (users st) userId)) /\
      messages st' = JsMap.set (messages st) (env_id env) (sent userId b env) /\
      users st' = users st /\ chatMembers st' = chatMembers st /\
      deleteEvents st' = deleteEvents st /\ signalEvents st' = signalEvents st /\
      (forall chat, JsMap.get chats (pb_chatId b) = Some chat ->
                    chat_id chat = pb_chatId b ->
                    JsMap.get chats' (pb_chatId b) =
                    Some (set_updatedAt chat (env_updated env))) /\
      (JsMap.get chats (pb_chatId b) = None -> chats' = chats)) /\
  (forall status error st' chats',
      POST st chats session body env = (Err status error, st', chats') ->
      st' = st /\ chats' = chats /\
      (status = 401 \/ status = 400 \/ status = 403 \/ status = 500)).
Proof.
split; [split|split].
- apply POST_accepted_member.
- intros (sess & b & userId & -> & -> & Hu & H1 & H2 & H3 & Hm).
  now rewrite (POST_by_member st chats sess userId b env).
- intros sess b userId -> -> Hu Hacc.
  destruct (POST_accepted_member _ _ _ _ _ Hacc)
    as (sess0 & b0 & u0 & [= <-] & [= <-] & Hu0 & H1 & H2 & H3 & Hm).
  assert (u0 = userId) by congruence. subst u0.
  rewrite (POST_by_member st chats sess userId b env) by assumption.
  cbn [messages users chatMembers deleteEvents signalEvents with_messages].
  destruct (touched_chat chats b env) as (Ht1 & Ht2 & _).
  repeat split; auto.
- intros status error st' chats'. unfold POST.
  destruct session as [sess|]; [|intros [= <- _ <- <-]; auto].
  destruct body as [b|]; [|intros [= <- _ <- <-]; auto 6].
  destruct (_ || _ || _); [intros [= <- _ <- <-]; auto 6|].
  destruct (sess_user sess) as [userId|]; [|intros [= <- _ <- <-]; auto 6].
  destruct (Db.chatMember_findUnique st (pb_chatId b) userId);
    [|intros [= <- _ <- <-]; auto 6].
  destruct (message_create _ _ _ _ _ _ _ _ _ _ _) as [[m st1] chats1].
  destruct (chat_update _ _ _ _). discriminate.
Qed.

Lemma sort_by_newest {A} (key : A -> Z) (l : list A) x :
  (forall y, In y l -> key x < key y) ->
  sort_by key (l ++ [x]) = x :: sort_by key l.
Proof.
intros H. unfold sort_by. rewrite fold_right_app. cbn [fold_right insert_by].
induction l as [|y l IH]; cbn [fold_right]; [reflexivity|].
rewrite IH by (intros z Hz; apply H; now right).
cbn [insert_by]. destruct (Z.leb_spec (key y) (key x)); [|reflexivity].
specialize (H y (or_introl eq_refl)). lia.
Qed.

Lemma values_set_fresh {V} (m : JsMap.t V) k v :
  JsMap.get m k = None -> JsMap.values (JsMap.set m k v) = JsMap.values m ++ [v].
Proof.
unfold JsMap.values.
induction m as [|[k' v'] m IH]; simpl; [reflexivity|].
destruct (String.eqb k' k); [discriminate|]. intros H. simpl.
now rewrite IH.
Qed.

(** X13.  A message that has been accepted is shown by the next page
    without cursor that a member of the chat asks for, as the last and
    newest entry, with the ciphertext and the iv that were sent, when its
    id is new and its creation date is later than that of the messages the
    chat already holds. *)
Theorem message_sent_is_shown st chats sess userId b env sess2 u2 limitParam n :
  accepted (fst (fst (POST st chats (Some sess) (Some b) env))) = true ->
  sess_user sess = Some userId ->
  JsMap.get (messages st) (env_id env) = None ->
  (forall m, In m (JsMap.values (messages st)) -> msg_chatId m = pb_chatId b ->
             msg_createdAt m < env_createdAt env) ->
  sess_user sess2 = Some u2 ->
  Db.chatMember_findUnique st (pb_chatId b) u2 <> None ->
  limit_of limitParam = Some n ->
  0 < n ->
  let st1 := snd (fst (POST st chats (Some sess) (Some b) env)) in
  exists page st2 earlier,
    GET st1 (Some sess2) (Some (pb_chatId b)) None limitParam = (Ok page, st2) /\
    page_messages page =
      earlier ++ [mkMessageWithSender (sent userId b env) (JsMap.get (users st) userId)] /\
    msg_ciphertext (sent userId b env) = pb_ciphertext b /\
    msg_iv (sent userId b env) = pb_iv b /\
    msg_senderId (sent userId b env) = userId.
Proof.
intros Hacc Hu Hfresh Hlater Hu2 Hm2 Hl Hn.
destruct (POST_accepted_member _ _ _ _ _ Hacc)
  as (sess0 & b0 & u0 & [= <-] & [= <-] & Hu0 & H1 & H2 & H3 & Hm).
assert (u0 = userId) by congruence. subst u0.
rewrite (POST_by_member st chats sess userId b env) by assumption.
cbn [fst snd]. set (st1 := with_messages st _).
assert (Hm2' : Db.chatMember_findUnique st1 (pb_chatId b) u2 <> None) by exact Hm2.
rewrite (GET_member st1 sess2 u2 (pb_chatId b) None limitParam Hu2 H1 Hm2').
rewrite Hl. cbn [or_null after_cursor bounded].
destruct (Z.eqb_spec n 0); [lia|]. destruct (Z.ltb_spec n 0); [lia|].
assert (Hd : newest_first st1 (pb_chatId b) =
             sent userId b env :: newest_first st (pb_chatId b)).
{ unfold newest_first, st1. cbn [messages with_messages].
  rewrite values_set_fresh by exact Hfresh. rewrite filter_app. cbn [filter].
  cbn [sent msg_chatId]. rewrite String.eqb_refl.
  apply sort_by_newest. intros y Hy. apply filter_In in Hy as [Hy Hc].
  apply String.eqb_eq in Hc. specialize (Hlater y Hy Hc). simpl. lia. }
rewrite Hd. destruct (Z.to_nat n) as [|k] eqn:En; [lia|]. cbn [firstn map].
eexists _, _, _. split; [reflexivity|]. cbn [page_messages rev].
split; [|auto]. reflexivity.
Qed.

(** X14.  Once [POST /api/delete] has accepted a request, no page of
    messages shows the content of the message again: whoever asks, with
    whatever cursor and limit, an entry with the id of the deleted message
    has an empty ciphertext, an empty iv and the content type [deleted]. *)
Theorem deleted_message_content_is_gone st session body denv dto st' :
  MessagesPageFacts.store_ok st ->
  Delete.POST st session body denv = (Ok dto, st') ->
  forall session2 chatIdParam cursorParam limitParam page st'' x,
    GET st' session2 chatIdParam cursorParam limitParam = (Ok page, st'') ->
    In x (page_messages page) ->
    msg_id (mws_message x) = Delete.dto_messageId dto ->
    msg_ciphertext (mws_message x) = "" /\ msg_iv (mws_message x) = "" /\
    msg_contentType (mws_message x) = "deleted".
Proof.
intros [Hwf Hkeyed] HP session2 chatIdParam cursorParam limitParam page st'' x HG Hx Hid.
apply DeleteFacts.POST_accepted in HP
  as (sess & b & userId & message & -> & -> & Hu & H1 & H2 & H3 & Hm & Hg & Hs
      & -> & _ & Hmsgs & _).
cbn [Delete.to_dto Delete.dto_messageId] in Hid.
assert (Hrow : In (mws_message x) (JsMap.values (messages st'))).
{ unfold GET in HG.
  destruct session2 as [sess2|]; [|discriminate].
  destruct (or_null chatIdParam) as [c|]; [|discriminate].
  destruct (sess_user sess2) as [u2|] eqn:Hu2; [|discriminate].
  destruct (Db.chatMember_findUnique st' c u2) eqn:Hm2; [|discriminate].
  rewrite findMany_messages in HG.
  destruct (Messages.fetch_deleteEvents st' c) as [events st2].
  injection HG as <- _. cbn [page_messages] in Hx.
  apply in_rev, in_map_iff in Hx as [m [<- Hm']]. cbn [attach mws_message].
  assert (Hd : In m (newest_first st' c)).
  { unfold bounded in Hm'.
    assert (Hac : forall y, In y (after_cursor (newest_first st' c) (or_null cursorParam)) ->
                            In y (newest_first st' c)).
    { intros y. unfold after_cursor. destruct (or_null cursorParam); [|auto].
      destruct (_ =? _); [auto|apply In_skipn]. }
    apply Hac.
    destruct (Number.parseInt _) as [k|]; [|exact Hm'].
    destruct (k =? 0); [exact Hm'|].
    destruct (k <? 0); apply In_firstn in Hm'; exact Hm'. }
  now apply In_newest_first in Hd. }
apply In_values in Hrow as [k Hrow]. rewrite Hmsgs in Hrow.
assert (Hk : k = msg_id (mws_message x)).
{ apply In_set in Hrow as [Hin|[= -> Hx']].
  - rewrite Forall_forall in Hkeyed. apply (Hkeyed _ Hin).
  - rewrite Hx'. cbn [DeleteFacts.tombstone msg_id].
    unfold Db.message_findUnique in Hg.
    apply get_In in Hg. rewrite Forall_forall in Hkeyed.
    apply (Hkeyed _ Hg). }
rewrite Hk, Hid in Hrow.
assert (Hx2 : mws_message x = DeleteFacts.tombstone message).
{ eapply wf_unique; [apply wf_set; exact Hwf|exact Hrow|apply In_set_same]. }
rewrite Hx2. auto.
Qed.

End MessagesPostFacts.

(** ** Delete events on the client: what is applied, what is verified *)
Module ClientRelayFacts.
Import Base64Facts TextFacts CryptoFacts JsonFacts SignatureFacts.
Local Open Scope Z_scope.
Section WithPlatform.
Context {W : WebCrypto}.
Import DeleteMessage.

Lemma store_has_delete_other {V} (m : LocalStore V) k k' :
  k <> k' -> store_has (store_delete m k') k = store_has m k.
Proof.
intros Hne. unfold store_has, store_delete.
induction m as [|[k0 v] m IH]; simpl; [reflexivity|].
destruct (jsstring_eqb k0 k') eqn:E; simpl.
- apply ClientDeleteFacts.jsstring_eqb_eq in E. subst k0.
  destruct (jsstring_eqb k' k) eqn:E'; [|exact IH].
  apply ClientDeleteFacts.jsstring_eqb_eq in E'. congruence.
- now rewrite IH.
Qed.

Lemma store_has_delete_inv {V} (m : LocalStore V) k k' :
  store_has (store_delete m k') k = true -> store_has m k = true /\ k <> k'.
Proof.
intros H. destruct (list_eq_dec Z.eq_dec k k') as [->|Hne].
- now rewrite ClientDeleteFacts.store_has_delete in H.
- split; [|exact Hne]. now rewrite store_has_delete_other in H.
Qed.

(** The store without the entries whose key is in [ids]. *)
Definition without {V} (ids : list jsstring) (m : LocalStore V) : LocalStore V :=
  filter (fun kv => negb (existsb (jsstring_eqb (fst kv)) ids)) m.

Lemma without_cons {V} id ids (m : LocalStore V) :
  without ids (store_delete m id) = without (id :: ids) m.
Proof.
unfold without, store_delete. induction m as [|[k v] m IH]; simpl; [reflexivity|].
destruct (jsstring_eqb k id); simpl; [exact IH|].
destruct (existsb (jsstring_eqb k) ids); simpl; now rewrite IH.
Qed.

Lemma without_nil {V} (m : LocalStore V) : without [] m = m.
Proof.
unfold without. apply forallb_filter_id, forallb_forall. reflexivity.
Qed.

Lemma process_result {V} events (st : LocalStore V) acc :
  exists ids,
    fold_left process_one events (st, acc) = (without ids st, acc ++ ids) /\
    NoDup ids /\
    (forall id, In id ids <->
       store_has st id = true /\
       exists e, In e events /\ messageId (event e) = id /\
                 ClientDeleteFacts.effective e = true).
Proof.
revert st acc. induction events as [|e events IH]; intros st acc.
- exists []. rewrite without_nil, app_nil_r. split; [reflexivity|].
  split; [constructor|]. intros id. split; [intros []|intros [_ [e [[] _]]]].
- cbn [fold_left]. rewrite ClientDeleteFacts.process_one_cases.
  destruct (ClientDeleteFacts.effective e && store_has st (messageId (event e)))
    eqn:E.
  + apply andb_prop in E as [Eeff Ehas].
    destruct (IH (store_delete st (messageId (event e)))
                 (acc ++ [messageId (event e)])) as (ids & Hfold & Hnd & Hin).
    exists (messageId (event e) :: ids). rewrite Hfold, without_cons, <- app_assoc.
    split; [reflexivity|]. split.
    * constructor; [|exact Hnd]. intros Hmem. apply Hin in Hmem as [Hhas _].
      now rewrite ClientDeleteFacts.store_has_delete in Hhas.
    * intros id. split.
      -- intros [<-|Hmem].
         ++ split; [exact Ehas|]. exists e. repeat split; auto. now left.
         ++ apply Hin in Hmem as [Hhas (e' & He' & Hid & Heff)].
            apply store_has_delete_inv in Hhas as [Hhas _].
            split; [exact Hhas|]. exists e'. repeat split; auto. now right.
      -- intros [Hhas (e' & He' & Hid & Heff)].
         destruct (list_eq_dec Z.eq_dec (messageId (event e)) id) as [Heq|Hne];
           [now left|right].
         apply Hin. split.
         ++ rewrite store_has_delete_other by congruence. exact Hhas.
         ++ destruct He' as [<-|He']; [congruence|]. exists e'. auto.
  + destruct (IH st acc) as (ids & Hfold & Hnd & Hin).
    exists ids. split; [exact Hfold|]. split; [exact Hnd|].
    intros id. rewrite Hin. split.
    * intros [Hhas (e' & He' & Hid & Heff)]. split; [exact Hhas|].
      exists e'. repeat split; auto. now right.
    * intros [Hhas (e' & [<-|He'] & Hid & Heff)]; split; try exact Hhas.
      -- rewrite Heff, Hid, Hhas in E. discriminate.
      -- exists e'. auto.
Qed.

(** X15.  [processDeleteEvents] removes from the local store exactly the
    messages that are in it and are named by an event that carries a sender
    key under which its signature verifies; it returns their ids, each once.
    Events without key, and events whose signature does not verify, remove
    nothing, and every other entry of the store stays, in its place. *)
Theorem process_delete_events_result V (events : list DeleteEventWithKey)
        (store : LocalStore V) :
  exists ids,
    processDeleteEvents events store = (without ids store, ids) /\
    NoDup ids /\
    (forall id, In id ids <->
       store_has store id = true /\
       exists e key,
         In e events /\ messageId (event e) = id /\
         senderPublicKey e = Some key /\ key <> [] /\
         verifyDeleteEvent (event e) key = true).
Proof.
destruct (process_result events store []) as (ids & Hfold & Hnd & Hin).
exists ids. split; [exact Hfold|]. split; [exact Hnd|].
intros id. rewrite Hin. split.
- intros [Hhas (e & He & Hid & Heff)]. split; [exact Hhas|].
  unfold ClientDeleteFacts.effective in Heff.
  destruct (senderPublicKey e) as [key|] eqn:Ek; [|discriminate].
  apply andb_prop in Heff as [Hk Hv]. exists e, key. repeat split; auto.
  intros ->. discriminate.
- intros [Hhas (e & key & He & Hid & Ek & Hk & Hv)]. split; [exact Hhas|].
  exists e. repeat split; auto. unfold ClientDeleteFacts.effective.
  rewrite Ek, Hv. destruct key; [congruence|reflexivity].
Qed.

Import ChatRoom ChatRoomActions.

Lemma relayed_row_accepted e : ClientDeleteFacts.accepted (view_of_row e) = true.
Proof. reflexivity. Qed.

(** X16.  The delete events in the answer of [GET /api/messages] are the
    stored rows, which carry no sender key, and the chat room applies an
    event without key as it is.  So once [POST /api/delete] has accepted a
    request, whatever its signature, the next poll of a member of the chat
    is handed the event and the member's chat room marks the message
    deleted: on this path no signature is verified. *)
Theorem relayed_delete_is_applied_unverified st sess b env dto st1 sess2 u2 :
  Delete.POST st (Some sess) (Some b) env = (Ok dto, st1) ->
  sess_user sess2 = Some u2 ->
  Db.chatMember_findUnique st (Delete.pb_chatId b) u2 <> None ->
  exists events st2,
    Messages.GET st1 (Some sess2) (Some (Delete.pb_chatId b)) = (Ok events, st2) /\
    (exists e, In e events /\ Delete.to_dto e = dto /\
               de_signature e = Delete.pb_signature b) /\
    forall deleted,
      set_has (processDeletes deleted (map view_of_row events))
              (code_units (Delete.pb_messageId b)) = true /\
      (forall e, In e events ->
                 set_has (processDeletes deleted (map view_of_row events))
                         (code_units (de_messageId e)) = true).
Proof.
intros HP Hu2 Hm2.
apply DeleteFacts.POST_accepted in HP
  as (sess0 & b0 & userId & message & [= <-] & [= <-] & Hu & H1 & H2 & H3 & Hm & Hg
      & Hs & -> & Hdel & _ & _ & Hmem & _).
set (ev := mkDeleteEvent _ _ _ _ _ _ _ _) in *.
assert (Hm2' : Db.chatMember_findUnique st1 (Delete.pb_chatId b) u2 <> None).
{ unfold Db.chatMember_findUnique in *. now rewrite Hmem. }
unfold Messages.GET. cbn [or_null]. rewrite H2, Hu2.
destruct (Db.chatMember_findUnique st1 (Delete.pb_chatId b) u2); [|congruence].
destruct (Messages.fetch_deleteEvents st1 (Delete.pb_chatId b)) as [events st2] eqn:E.
exists events, st2. split; [reflexivity|].
assert (Hin : In ev events).
{ assert (Hev : events = fst (Messages.fetch_deleteEvents st1 (Delete.pb_chatId b)))
    by now rewrite E.
  rewrite Hev. apply MessagesFacts.In_fetch_deleteEvents. split.
  - unfold JsMap.values. apply in_map_iff. exists (Delete.env_id env, ev).
    split; [reflexivity|]. rewrite Hdel. apply JsMapFacts.In_set_same.
  - split; reflexivity. }
split; [exists ev; auto|].
assert (Hall : forall deleted e, In e events ->
          set_has (processDeletes deleted (map view_of_row events))
                  (code_units (de_messageId e)) = true).
{ intros deleted e He.
  apply (ClientDeleteFacts.view_processed_are_known (map view_of_row events) deleted
           (view_of_row e)); [now apply in_map|apply relayed_row_accepted]. }
intros deleted. split; [|now apply Hall].
apply (Hall deleted ev Hin).
Qed.

End WithPlatform.
End ClientRelayFacts.

(** ** The chat room's own delete signatures *)
Module ChatRoomSignatureFacts.
Import Base64Facts TextFacts CryptoFacts JsonFacts SignatureFacts.
Import Json ChatRoom ChatRoomActions.
Local Open Scope Z_scope.

Definition close_object : jsstring := [34; 125].

Lemma delete_data_shape m u :
  delete_data m u =
  open_messageId ++ quote_body m ++ 34 :: open_senderId ++ quote_body u ++ close_object.
Proof.
unfold delete_data, object, properties, property, quote.
change (code_units "messageId") with [109; 101; 115; 115; 97; 103; 101; 73; 100].
change (code_units "senderId") with [115; 101; 110; 100; 101; 114; 73; 100].
unfold open_messageId, open_senderId, close_object.
cbn [app]. repeat (rewrite <- app_assoc; cbn [app]). reflexivity.
Qed.

Lemma well_formed_delete_data m u :
  Forall is_code_unit m -> Forall is_code_unit u ->
  Text.well_formed (delete_data m u) = true.
Proof.
intros Hm Hu. rewrite delete_data_shape.
apply well_formed_app; [reflexivity|].
apply well_formed_app; [now apply well_formed_quote_body|].
change (34 :: open_senderId ++ quote_body u ++ close_object)
  with ((34 :: open_senderId) ++ quote_body u ++ close_object).
apply well_formed_app; [reflexivity|].
apply well_formed_app; [now apply well_formed_quote_body|reflexivity].
Qed.

Lemma delete_data_bytes m u :
  Forall is_code_unit m -> Forall is_code_unit u ->
  Forall is_byte (Text.encode (delete_data m u)).
Proof.
intros Hm Hu. apply encode_bytes, well_formed_code_units.
now apply well_formed_delete_data.
Qed.

(** The two serializations that get signed are never the same string. *)
Lemma delete_data_is_not_signed_data m u m' c' s' n' :
  Forall is_code_unit m -> Forall is_code_unit m' ->
  delete_data m u <> DeleteMessage.signed_data m' c' s' n'.
Proof.
intros Hm Hm' E. unfold DeleteMessage.signed_data in E.
rewrite delete_data_shape, object4_shape in E.
apply app_inv_head in E.
apply quote_body_injective in E as [_ E]; [|assumption|assumption].
discriminate E.
Qed.

Section WithPlatform.
Context {W : WebCrypto}.

Lemma verify_view_exported {SC : SignatureCorrect W} e pk :
  verify_view e (base64 (export_spki pk)) =
  match Base64.atob (signature e) with
  | Return b =>
      Return (ecdsa_verify pk (Base64.charCodes b)
                (Text.encode (delete_data (messageId e) (senderId e))))
  | Throw err => Throw err
  end.
Proof.
unfold verify_view. rewrite importPublicKey_exported. cbn [bind].
unfold Crypto.verifySignature. fold (delete_data (messageId e) (senderId e)).
now destruct (Base64.atob (signature e)).
Qed.

Lemma handleDelete_signs {SC : SignatureCorrect W}
      chatId user messageId sk k now deleted response_ok :
  Forall is_code_unit messageId -> Forall is_code_unit user ->
  let request :=
    mkDeleteRequest messageId chatId
      (base64 (ecdsa_sign sk k (Text.encode (delete_data messageId user)))) now in
  handleDelete chatId user messageId (Some sk) k now deleted response_ok =
  (Some request,
   if response_ok request then set_add deleted messageId else deleted).
Proof.
intros Hm Hu request. unfold handleDelete, Crypto.signData.
rewrite btoa_fromCharCode
  by (apply sign_bytes; now apply delete_data_bytes).
fold request. now destruct (response_ok request).
Qed.

(** X17.  [handleDelete] signs the message id and the user's id with the
    user's private key and sends message id, chat id, signature and the
    current time; the message is marked deleted locally only when the server
    accepts.  The signature verifies in [processDeletes] under the user's
    exported public key, so a chat room that is given the event with that
    key marks the message deleted.  Without signing key nothing is sent. *)
Theorem chat_room_delete_signature_verifies {SC : SignatureCorrect W}
        chatId user messageId sk k now deleted response_ok :
  Forall is_code_unit messageId -> Forall is_code_unit user ->
  exists request,
    handleDelete chatId user messageId (Some sk) k now deleted response_ok =
      (Some request,
       if response_ok request then set_add deleted messageId else deleted) /\
    dr_messageId request = messageId /\ dr_chatId request = chatId /\
    dr_timestamp request = now /\
    (let key := base64 (export_spki (public_of sk)) in
     let received :=
       mkDeleteEventView messageId user (dr_signature request) (Some key) in
     verify_view received key = Return true /\
     forall deleted', set_has (processDeletes deleted' [received]) messageId = true) /\
    handleDelete chatId user messageId None k now deleted response_ok =
      (None, deleted).
Proof.
intros Hm Hu. eexists. split; [now apply handleDelete_signs|].
cbn [dr_messageId dr_chatId dr_timestamp dr_signature].
repeat (split; [reflexivity|]). split; [|reflexivity].
cbv zeta.
assert (Hd : Forall is_byte (Text.encode (delete_data messageId user)))
  by now apply delete_data_bytes.
assert (Hv : verify_view
               (mkDeleteEventView messageId user
                  (base64 (ecdsa_sign sk k (Text.encode (delete_data messageId user))))
                  (Some (base64 (export_spki (public_of sk)))))
               (base64 (export_spki (public_of sk))) = Return true).
{ rewrite verify_view_exported.
  cbn [ChatRoom.signature ChatRoom.messageId ChatRoom.senderId].
  rewrite atob_base64 by now apply sign_bytes.
  rewrite charCodes_bytes by now apply sign_bytes.
  now rewrite verify_sign. }
split; [exact Hv|]. intros deleted'.
apply (ClientDeleteFacts.view_processed_are_known _ deleted'
         (mkDeleteEventView messageId user
            (base64 (ecdsa_sign sk k (Text.encode (delete_data messageId user))))
            (Some (base64 (export_spki (public_of sk)))))); [now left|].
unfold ClientDeleteFacts.accepted. cbn [senderPublicKey].
destruct (DeleteMessage.jsstring_eqb _ []); [reflexivity|]. now rewrite Hv.
Qed.

(** X18.  The chat room and [lib/delete-message.ts] sign different data:
    the first signs message id and sender id, the second message id, chat
    id, sender id and timestamp.  With signatures that verify for nothing
    but the data that was signed, a signature made by [handleDelete] is
    rejected by [verifyDeleteEvent] whatever record carries it, and a
    signature made by [createDeleteEvent] is rejected by the chat room's
    check. *)
Theorem delete_signature_formats_differ
        {SC : SignatureCorrect W} {SI : SignatureIdeal W}
        chatId user messageId sk k now :
  Forall is_code_unit messageId -> Forall is_code_unit chatId ->
  Forall is_code_unit user ->
  (forall deleted response_ok request deleted',
      handleDelete chatId user messageId (Some sk) k now deleted response_ok =
        (Some request, deleted') ->
      forall m' c' s' t' key',
        Forall is_code_unit m' -> Forall is_code_unit c' -> Forall is_code_unit s' ->
        DeleteMessage.verifyDeleteEvent
          (DeleteMessage.mkDeleteControlMessage m' c' s' (dr_signature request) t')
          key' = false) /\
  (forall record,
      DeleteMessage.createDeleteEvent messageId chatId user sk now k = Return record ->
      forall m' s' key',
        Forall is_code_unit m' -> Forall is_code_unit s' ->
        verify_view
          (mkDeleteEventView m' s' (DeleteMessage.signature record) (Some key')) key'
        <> Return true).
Proof.
intros Hm Hc Hu. split.
- intros deleted response_ok request deleted' HD m' c' s' t' key' Hm' Hc' Hs'.
  rewrite (handleDelete_signs chatId user messageId sk k now deleted response_ok)
    in HD by assumption.
  injection HD as <- _. cbn [dr_signature].
  unfold DeleteMessage.verifyDeleteEvent, DeleteMessage.verifyDeleteEvent_try.
  destruct (Crypto.importPublicKey key') as [pk|]; [|reflexivity].
  cbn [bind DeleteMessage.signature DeleteMessage.messageId DeleteMessage.chatId
       DeleteMessage.senderId DeleteMessage.timestamp].
  rewrite verifySignature_base64
    by (apply sign_bytes; now apply delete_data_bytes).
  destruct (ecdsa_verify pk _ _) eqn:Ev; [|reflexivity].
  apply verify_binds in Ev as [_ Ev]. exfalso.
  apply encode_injective in Ev.
  + symmetry in Ev. now apply delete_data_is_not_signed_data in Ev.
  + now apply signed_data_code_units.
  + now apply well_formed_delete_data.
- intros record HC m' s' key' Hm' Hs' Hv.
  rewrite createDeleteEvent_spec in HC by assumption.
  injection HC as <-. cbn [DeleteMessage.signature] in Hv.
  unfold verify_view in Hv.
  destruct (Crypto.importPublicKey key') as [pk|]; [|discriminate].
  cbn [bind ChatRoom.signature ChatRoom.messageId ChatRoom.senderId] in Hv.
  fold (delete_data m' s') in Hv.
  rewrite verifySignature_base64 in Hv
    by (apply sign_bytes; now apply signed_data_bytes).
  injection Hv as Hv. apply verify_binds in Hv as [_ Ev].
  apply encode_injective in Ev.
  + now apply delete_data_is_not_signed_data in Ev.
  + now apply well_formed_delete_data.
  + now apply signed_data_code_units.
Qed.

End WithPlatform.
End ChatRoomSignatureFacts.

(** ** The chat room: what is sent, and what is shown *)
Module ChatRoomFacts.
Import Base64Facts TextFacts CryptoFacts ChatRoomActions.
Local Open Scope Z_scope.

Lemma white_space_cases c :
  is_white_space c = true ->
  In c [0x09; 0x0A; 0x0B; 0x0C; 0x0D; 0x20; 0xA0; 0x1680; 0x2028; 0x2029; 0x202F;
        0x205F; 0x3000; 0xFEFF] \/ 0x2000 <= c <= 0x200A.
Proof.
unfold is_white_space. intros H. apply orb_prop in H as [H|H].
- left. apply existsb_exists in H as [x [Hx E]]. apply Z.eqb_eq in E. now subst x.
- right. apply andb_prop in H as [H1 H2]. apply Z.leb_le in H1, H2. lia.
Qed.

Lemma white_space_plain c :
  is_white_space c = true ->
  Text.is_high_surrogate c = false /\ Text.is_low_surrogate c = false /\
  0 <= c < 65536.
Proof.
intros H. apply white_space_cases in H.
assert (Hc : 0 <= c < 0xD800 \/ c = 0xFEFF).
{ destruct H as [H|H]; [|lia]. simpl in H.
  repeat (destruct H as [<-|H]; [lia|]). destruct H. }
split; [apply high_false; lia|]. split; [apply low_false; lia|lia].
Qed.

Lemma bom_is_white_space : is_white_space 0xFEFF = true.
Proof. reflexivity. Qed.

Lemma trim_end_keep d r :
  is_white_space d = false -> trim_end (d :: r) = d :: trim_end r.
Proof. intros H. cbn [trim_end]. rewrite H. now destruct (trim_end r). Qed.

Lemma trim_end_head c r :
  trim_end (c :: r) = [] \/ trim_end (c :: r) = c :: trim_end r.
Proof.
cbn [trim_end]. destruct (trim_end r); [|now right].
destruct (is_white_space c); auto.
Qed.

Lemma surrogate_not_white_space c :
  Text.is_high_surrogate c = true \/ Text.is_low_surrogate c = true ->
  is_white_space c = false.
Proof.
intros H. destruct (is_white_space c) eqn:E; [|reflexivity].
apply white_space_plain in E as (H1 & H2 & _). destruct H; congruence.
Qed.

Lemma well_formed_tail c rest :
  Text.is_high_surrogate c = false ->
  Text.well_formed (c :: rest) = true -> Text.well_formed rest = true.
Proof.
intros Hh H. cbn [Text.well_formed] in H. rewrite Hh in H.
now apply andb_prop in H as [_ H]; apply andb_prop in H as [_ H].
Qed.

Lemma well_formed_trim_start s :
  Text.well_formed s = true -> Text.well_formed (trim_start s) = true.
Proof.
induction s as [|c rest IH]; intros H; [reflexivity|]. cbn [trim_start].
destruct (is_white_space c) eqn:E; [|exact H].
apply IH. apply (well_formed_tail c); [|exact H].
now apply white_space_plain in E.
Qed.

Lemma well_formed_trim_end s :
  Text.well_formed s = true -> Text.well_formed (trim_end s) = true.
Proof.
induction s as [| x | x y l IH1 IH2] using list_ind2; intros H.
- reflexivity.
- cbn [trim_end]. now destruct (is_white_space x).
- rewrite well_formed_cons2 in H.
  apply andb_prop in H as [Hrange H].
  destruct (Text.is_high_surrogate x) eqn:Hx.
  + apply andb_prop in H as [Hy Hl].
    rewrite trim_end_keep by (apply surrogate_not_white_space; auto).
    rewrite trim_end_keep by (apply surrogate_not_white_space; auto).
    rewrite well_formed_cons2, Hrange, Hx, Hy. cbn [andb]. now apply IH1.
  + apply andb_prop in H as [Hlow Hrest]. specialize (IH2 Hrest).
    destruct (trim_end_head x (y :: l)) as [-> | ->]; [reflexivity|].
    cbn [Text.well_formed]. rewrite Hx. cbn [Text.well_formed] in IH2.
    now rewrite Hrange, Hlow, IH2.
Qed.

Lemma trim_start_head s :
  match trim_start s with
  | c :: _ => is_white_space c = false
  | [] => True
  end.
Proof.
induction s as [|c rest IH]; [exact I|]. cbn [trim_start].
destruct (is_white_space c) eqn:E; [exact IH|exact E].
Qed.

Lemma trim_no_bom s : starts_with_bom (trim s) = false.
Proof.
unfold trim. pose proof (trim_start_head s) as H.
destruct (trim_start s) as [|c rest]; [reflexivity|].
destruct (trim_end_head c rest) as [-> | ->]; [reflexivity|].
cbn [starts_with_bom]. destruct (Z.eqb_spec c 0xFEFF) as [->|]; [|reflexivity].
now rewrite bom_is_white_space in H.
Qed.

Lemma well_formed_trim s :
  Text.well_formed s = true -> Text.well_formed (trim s) = true.
Proof. intros H. now apply well_formed_trim_end, well_formed_trim_start. Qed.

Section WithPlatform.
Context {W : WebCrypto} {Eng : Engine}.

Lemma code_units_trim s : Forall is_code_unit s -> Forall is_code_unit (trim s).
Proof.
intros H. unfold trim.
assert (Hs : Forall is_code_unit (trim_start s)).
{ induction H as [|c rest Hc Hrest IH]; [constructor|]. cbn [trim_start].
  destruct (is_white_space c); [exact IH|now constructor]. }
clear H. induction Hs as [|c rest Hc _ IH]; [constructor|]. cbn [trim_end].
destruct (trim_end rest).
- destruct (is_white_space c); [constructor|].
  constructor; [exact Hc|constructor].
- now constructor.
Qed.

(** What [TextEncoder] and [TextDecoder] make of a trimmed input: the
    input itself when it has no unpaired surrogate. *)
Lemma decode_encode_trim s :
  Text.well_formed s = true -> Text.decode (Text.encode (trim s)) = trim s.
Proof.
intros H. rewrite decode_encode_well_formed by now apply well_formed_trim.
unfold without_bom. now rewrite trim_no_bom.
Qed.

(** X19.  [handleSend] sends nothing while a send is under way, when the
    hook has no key, when the input is blank, or when the ciphertext of the
    trimmed input has more bytes than the engine accepts as the arguments
    of one call: [encryptMessage] then throws, the input stays as it is and
    the send is over.  Otherwise it sends the chat id, the content type
    [text] and the encryption of the trimmed input, and clears the input
    only when the server accepts.  What is sent decrypts under the same key
    to the trimmed input as [TextEncoder] and [TextDecoder] pass it on,
    with U+FFFD for every unpaired surrogate: to exactly the trimmed input
    when the input has none. *)
Theorem handle_send_round_trip {A : AeadCorrect W}
        chatId input key rng response_ok :
  Forall is_code_unit input ->
  nonempty (trim input) = true ->
  (Z.of_nat
     (List.length
        (aes_gcm_encrypt key (fst (getRandomValues rng 12))
                         (Text.encode (trim input))))
   <= max_arguments ->
   exists request,
     handleSend chatId input (Some key) false rng response_ok =
       (Some request, (if response_ok request then [] else input), false,
        snd (getRandomValues rng 12)) /\
     sr_chatId request = chatId /\
     sr_contentType request = code_units "text" /\
     Base64.atob (sr_iv request) = Return (fst (getRandomValues rng 12)) /\
     Crypto.decryptMessage (sr_ciphertext request) (sr_iv request) key =
       Return (Text.decode (Text.encode (trim input))) /\
     (Text.well_formed input = true ->
      Crypto.decryptMessage (sr_ciphertext request) (sr_iv request) key =
        Return (trim input))) /\
  (max_arguments <
   Z.of_nat
     (List.length
        (aes_gcm_encrypt key (fst (getRandomValues rng 12))
                         (Text.encode (trim input)))) ->
   handleSend chatId input (Some key) false rng response_ok =
     (None, input, false, snd (getRandomValues rng 12))) /\
  handleSend chatId input (Some key) true rng response_ok = (None, input, true, rng) /\
  (forall isSending,
      handleSend chatId input None isSending rng response_ok =
      (None, input, isSending, rng)) /\
  (forall blank isSending,
      nonempty (trim blank) = false ->
      handleSend chatId blank (Some key) isSending rng response_ok =
      (None, blank, isSending, rng)).
Proof.
intros Hin Hne.
assert (Hcu : Forall is_code_unit (trim input)) by now apply code_units_trim.
split; [|split; [|split; [|split]]].
- intros Hfit.
  set (request :=
         mkSendRequest chatId
           (base64 (aes_gcm_encrypt key (fst (getRandomValues rng 12))
                      (Text.encode (trim input))))
           (base64 (fst (getRandomValues rng 12))) (code_units "text")).
  exists request. split.
  { unfold handleSend. rewrite Hne. cbn [negb orb].
    rewrite encryptMessage_spec by assumption. cbv zeta.
    cbn [Crypto.ciphertext Crypto.iv]. fold request.
    now destruct (response_ok request). }
  cbn [request sr_chatId sr_contentType sr_iv sr_ciphertext].
  split; [reflexivity|]. split; [reflexivity|].
  split; [apply atob_base64, getRandomValues_bytes|].
  destruct (decrypt_encrypt_text (trim input) key rng Hcu Hfit) as [e [He Hd]].
  rewrite encryptMessage_spec in He by assumption.
  match type of He with fst (?a, _) = _ => change (a = Return e) in He end.
  injection He as <-. split; [exact Hd|].
  intros Hw. rewrite <- (decode_encode_trim input Hw) at 2. exact Hd.
- intros Hlong. unfold handleSend. rewrite Hne. cbn [negb orb].
  now rewrite encryptMessage_too_long by exact Hlong.
- unfold handleSend. now rewrite orb_true_r.
- reflexivity.
- intros blank isSending Hb. unfold handleSend. now rewrite Hb.
Qed.

(** Whether [decryptAll] tries to decrypt a message that has no entry yet. *)
Definition candidate (msg : ShownMessage) : bool :=
  nonempty (sm_ciphertext msg) && nonempty (sm_iv msg)
  && negb (DeleteMessage.jsstring_eqb (sm_contentType msg) (code_units "deleted")).

(** What is shown for a message that is decrypted. *)
Definition shown (key : AesKey) (msg : ShownMessage) : jsstring :=
  match Crypto.decryptMessage (sm_ciphertext msg) (sm_iv msg) key with
  | Return plaintext => plaintext
  | Throw _ => unable_to_decrypt
  end.

Lemma store_get_set_same {V} (m : DeleteMessage.LocalStore V) k v :
  store_get (store_set m k v) k = Some v.
Proof.
induction m as [|[k' v'] m IH]; cbn [store_set store_get].
- now rewrite ClientDeleteFacts.jsstring_eqb_refl.
- destruct (DeleteMessage.jsstring_eqb k' k) eqn:E; cbn [store_get]; now rewrite E.
Qed.

Lemma store_get_set_other {V} (m : DeleteMessage.LocalStore V) k v k' :
  k <> k' -> store_get (store_set m k v) k' = store_get m k'.
Proof.
intros Hne. induction m as [|[k0 v0] m IH]; cbn [store_set store_get].
- destruct (DeleteMessage.jsstring_eqb k k') eqn:E; [|reflexivity].
  apply ClientDeleteFacts.jsstring_eqb_eq in E. congruence.
- destruct (DeleteMessage.jsstring_eqb k0 k) eqn:E; cbn [store_get].
  + apply ClientDeleteFacts.jsstring_eqb_eq in E. subst k0.
    destruct (DeleteMessage.jsstring_eqb k k') eqn:E'; [|reflexivity].
    apply ClientDeleteFacts.jsstring_eqb_eq in E'. congruence.
  + now rewrite IH.
Qed.

Lemma store_has_get {V} (m : DeleteMessage.LocalStore V) k :
  DeleteMessage.store_has m k =
  match store_get m k with Some _ => true | None => false end.
Proof.
unfold DeleteMessage.store_has.
induction m as [|[k' v'] m IH]; cbn [existsb store_get fst]; [reflexivity|].
now destruct (DeleteMessage.jsstring_eqb k' k).
Qed.

Lemma decrypt_one_cases key m msg :
  decrypt_one key m msg =
  match store_get m (sm_id msg) with
  | Some _ => m
  | None => if candidate msg then store_set m (sm_id msg) (shown key msg) else m
  end.
Proof.
unfold decrypt_one, candidate, shown. rewrite store_has_get.
destruct (store_get m (sm_id msg)); [reflexivity|]. cbn [negb andb].
rewrite <- !andb_assoc.
destruct (nonempty (sm_ciphertext msg) && _); [|reflexivity].
now destruct (Crypto.decryptMessage _ _ _).
Qed.

Lemma decrypt_loop key messages m id :
  store_get (fold_left (decrypt_one key) messages m) id =
  match store_get m id with
  | Some v => Some v
  | None =>
      option_map (shown key)
        (find (fun msg => DeleteMessage.jsstring_eqb (sm_id msg) id && candidate msg)
              messages)
  end.
Proof.
revert m. induction messages as [|msg messages IH]; intros m; cbn [fold_left find].
- now destruct (store_get m id).
- rewrite IH, decrypt_one_cases.
  destruct (list_eq_dec Z.eq_dec (sm_id msg) id) as [Heq|Hne].
  + subst id. rewrite ClientDeleteFacts.jsstring_eqb_refl. cbn [andb].
    destruct (store_get m (sm_id msg)) as [v|] eqn:Eg; [now rewrite Eg|].
    destruct (candidate msg); [now rewrite store_get_set_same|now rewrite Eg].
  + assert (E : DeleteMessage.jsstring_eqb (sm_id msg) id = false).
    { destruct (DeleteMessage.jsstring_eqb (sm_id msg) id) eqn:E; [|reflexivity].
      apply ClientDeleteFacts.jsstring_eqb_eq in E. congruence. }
    rewrite E. cbn [andb].
    destruct (store_get m (sm_id msg)); [reflexivity|].
    destruct (candidate msg); [|reflexivity].
    now rewrite store_get_set_other.
Qed.

(** X20.  After [decryptAll], the text shown for a message id is the text
    that was shown before, if there was one: an entry is never replaced.
    Otherwise it is the decryption of the first message of the page with
    that id that has a ciphertext, an iv and a content type other than
    [deleted], or the text [[Unable to decrypt]] when that decryption
    fails; an id without such a message gets no entry.  Nothing is thrown,
    and without key, or without messages, nothing changes. *)
Theorem decrypt_all_shows key decrypted messages :
  (forall id,
      store_get (decryptAll (Some key) decrypted messages) id =
      match store_get decrypted id with
      | Some v => Some v
      | None =>
          option_map (shown key)
            (find (fun msg => DeleteMessage.jsstring_eqb (sm_id msg) id
                              && candidate msg) messages)
      end) /\
  (forall msg,
      In msg messages -> candidate msg = true ->
      DeleteMessage.store_has (decryptAll (Some key) decrypted messages) (sm_id msg)
      = true) /\
  (forall msg plaintext,
      candidate msg = true ->
      Crypto.decryptMessage (sm_ciphertext msg) (sm_iv msg) key = Return plaintext ->
      decryptAll (Some key) [] [msg] = [(sm_id msg, plaintext)]) /\
  (forall msg e,
      candidate msg = true ->
      Crypto.decryptMessage (sm_ciphertext msg) (sm_iv msg) key = Throw e ->
      decryptAll (Some key) [] [msg] = [(sm_id msg, unable_to_decrypt)]) /\
  decryptAll None decrypted messages = decrypted /\
  decryptAll (Some key) decrypted [] = decrypted.
Proof.
assert (Hget : forall id,
  store_get (decryptAll (Some key) decrypted messages) id =
  match store_get decrypted id with
  | Some v => Some v
  | None =>
      option_map (shown key)
        (find (fun msg => DeleteMessage.jsstring_eqb (sm_id msg) id && candidate msg)
              messages)
  end).
{ intros id. unfold decryptAll. destruct messages as [|msg messages].
  - cbn [find option_map]. now destruct (store_get decrypted id).
  - apply decrypt_loop. }
split; [exact Hget|]. split; [|split; [|split; [|split]]].
- intros msg Hin Hc. rewrite store_has_get, Hget.
  destruct (store_get decrypted (sm_id msg)); [reflexivity|].
  destruct (find _ messages) eqn:Ef; [reflexivity|].
  apply (find_none _ _ Ef) in Hin.
  now rewrite ClientDeleteFacts.jsstring_eqb_refl, Hc in Hin.
- intros msg plaintext Hc Hd. unfold decryptAll. cbn [fold_left].
  rewrite decrypt_one_cases. cbn [store_get]. rewrite Hc. unfold shown.
  now rewrite Hd.
- intros msg e Hc Hd. unfold decryptAll. cbn [fold_left].
  rewrite decrypt_one_cases. cbn [store_get]. rewrite Hc. unfold shown.
  now rewrite Hd.
- reflexivity.
- reflexivity.
Qed.

End WithPlatform.
End ChatRoomFacts.

(** ** Signatures and stored keys of the hook *)
Module HookFacts.
Import Base64Facts TextFacts CryptoFacts KeyStoreFacts.
Local Open Scope Z_scope.
Section WithPlatform.
Context {W : WebCrypto}.

Lemma signData_base64 {SC : SignatureCorrect W} data sk k :
  Forall is_code_unit data ->
  Crypto.signData data sk k =
  Return (base64 (ecdsa_sign sk k (Text.encode data))).
Proof.
intros H. unfold Crypto.signData. apply btoa_fromCharCode.
apply sign_bytes. now apply encode_bytes.
Qed.

Lemma verifySignature_of_base64 data signature pk :
  Forall is_byte signature ->
  Crypto.verifySignature data (base64 signature) pk =
  Return (ecdsa_verify pk signature (Text.encode data)).
Proof.
intros H. unfold Crypto.verifySignature.
rewrite atob_base64 by assumption. cbn [bind]. now rewrite charCodes_bytes.
Qed.

(** X22.  A signature that [signData] makes for a string verifies with
    [verifySignature] for that string under the public key of the pair, and
    for every string with the same Unicode scalar values (the encoder turns
    each unpaired surrogate into U+FFFD, so strings that differ in such code
    units only are signed alike).  With signatures that verify for nothing
    but the signed bytes, the signature of a well-formed string verifies for
    no other well-formed string.  A signature that is not base64 makes
    [verifySignature] throw; it does not answer [false]. *)
Theorem sign_verify_round_trip {SC : SignatureCorrect W} data sk k :
  Forall is_code_unit data ->
  exists signature,
    Crypto.signData data sk k = Return signature /\
    Crypto.verifySignature data signature (public_of sk) = Return true /\
    (forall data',
        Text.scalar_values data' = Text.scalar_values data ->
        Crypto.verifySignature data' signature (public_of sk) = Return true) /\
    (forall (SI : SignatureIdeal W) data' pk,
        Text.well_formed data = true -> Text.well_formed data' = true ->
        data' <> data ->
        Crypto.verifySignature data' signature pk = Return false) /\
    (forall text bad pk e,
        Base64.atob bad = Throw e ->
        Crypto.verifySignature text bad pk = Throw e).
Proof.
intros Hd. exists (base64 (ecdsa_sign sk k (Text.encode data))).
assert (Hb : Forall is_byte (Text.encode data)) by now apply encode_bytes.
assert (Hs : Forall is_byte (ecdsa_sign sk k (Text.encode data)))
  by now apply sign_bytes.
split; [now apply signData_base64|]. split; [|split; [|split]].
- rewrite verifySignature_of_base64 by assumption. now rewrite verify_sign.
- intros data' Hsv. rewrite verifySignature_of_base64 by assumption.
  unfold Text.encode. rewrite Hsv. fold (Text.encode data).
  now rewrite verify_sign.
- intros SI data' pk Hw Hw' Hne. rewrite verifySignature_of_base64 by assumption.
  destruct (ecdsa_verify pk _ _) eqn:Ev; [|reflexivity].
  apply verify_binds in Ev as [_ Ev].
  apply encode_injective in Ev; [congruence|assumption|assumption].
- intros text bad pk e Hbad. unfold Crypto.verifySignature. now rewrite Hbad.
Qed.

(** X23.  When the object store holds a key set and can be read,
    [initializeKeys] loads it: it returns the stored public key, makes the
    hook ready with the stored keys, writes nothing and generates nothing,
    so it succeeds even where generating or saving would fail.  Hence a
    second run after a first successful one changes nothing.  When the
    store cannot be read, it returns [null], leaves the store as it is and
    only sets [isReady] to false. *)
Theorem initialize_keys_loads_stored {SC : SignatureCorrect W} stored hook env :
  (KeyStore.load_open_fails env || KeyStore.get_fails env = false ->
   KeyStore.initializeKeys (Some stored) hook env =
   (Some (KeyStore.exportedPublicKey stored), Some stored, KeyStore.loaded stored)) /\
  (KeyStore.load_open_fails env || KeyStore.get_fails env = true ->
   forall db,
   KeyStore.initializeKeys db hook env = (None, db, KeyStore.set_isReady hook false)) /\
  (forall env0 hook0,
      initialize_fails env0 = false ->
      KeyStore.load_open_fails env || KeyStore.get_fails env = false ->
      let '(r, db, h) := KeyStore.initializeKeys None hook0 env0 in
      KeyStore.initializeKeys db h env = (r, db, h)).
Proof.
split; [|split].
- unfold KeyStore.initializeKeys, KeyStore.initializeKeys_try, KeyStore.loadKeys,
    KeyStore.failing.
  destruct (KeyStore.load_open_fails env); [discriminate|].
  destruct (KeyStore.get_fails env); [discriminate|]. reflexivity.
- intros Hf db.
  unfold KeyStore.initializeKeys, KeyStore.initializeKeys_try, KeyStore.loadKeys,
    KeyStore.failing.
  destruct (KeyStore.load_open_fails env); [reflexivity|].
  destruct (KeyStore.get_fails env); [reflexivity|discriminate].
- intros env0 hook0 H0 Hl.
  rewrite initializeKeys_empty_succeeds by assumption.
  unfold KeyStore.initializeKeys, KeyStore.initializeKeys_try, KeyStore.loadKeys,
    KeyStore.failing.
  destruct (KeyStore.load_open_fails env); [discriminate|].
  destruct (KeyStore.get_fails env); [discriminate|]. reflexivity.
Qed.

(** X24.  The public key that a first successful [initializeKeys] returns
    for publication imports, with [importPublicKey], to the public key the
    hook holds; when the platform generated it as a pair with the private
    key, every signature the hook makes with [signData] verifies under the
    imported key. *)
Theorem published_key_verifies_own_signatures {SC : SignatureCorrect W} hook env :
  initialize_fails env = false ->
  KeyStore.newSignPublic env = public_of (KeyStore.newSignPrivate env) ->
  let '(r, _, h) := KeyStore.initializeKeys None hook env in
  exists exported publicKey privateKey,
    r = Some exported /\
    KeyStore.publicKeyExport h = Some exported /\
    KeyStore.hook_signingKeyPair h = Some (publicKey, privateKey) /\
    Crypto.importPublicKey exported = Return publicKey /\
    forall data k,
      Forall is_code_unit data ->
      exists signature,
        Crypto.signData data privateKey k = Return signature /\
        Crypto.verifySignature data signature publicKey = Return true.
Proof.
intros Hf Hpair. rewrite initializeKeys_empty_succeeds by assumption.
exists (base64 (export_spki (KeyStore.newSignPublic env))),
       (KeyStore.newSignPublic env), (KeyStore.newSignPrivate env).
split; [reflexivity|]. split; [reflexivity|]. split; [reflexivity|]. split.
- apply SignatureFacts.importPublicKey_exported.
- intros data k Hd. eexists. split; [now apply signData_base64|].
  rewrite verifySignature_of_base64
    by (apply sign_bytes; now apply encode_bytes).
  rewrite Hpair. rewrite verify_sign by now apply encode_bytes. reflexivity.
Qed.

End WithPlatform.
End HookFacts.

(** ** [lib/crypto-utils.ts] *)
Module CryptoUtilsFacts.
Import Base64Facts TextFacts CryptoFacts CryptoUtils.
Local Open Scope Z_scope.

Lemma append_loop (l acc : list Z) (f : Z -> Z) :
  fold_left (fun binary b => binary ++ [f b]) l acc = acc ++ map f l.
Proof.
revert acc. induction l as [|b l IH]; intros acc; cbn [fold_left map].
- now rewrite app_nil_r.
- rewrite IH, <- app_assoc. reflexivity.
Qed.

Lemma arrayBufferToBase64_loop buffer :
  arrayBufferToBase64 buffer = Base64.btoa (Base64.fromCharCode buffer).
Proof.
unfold arrayBufferToBase64. f_equal.
change (fun binary b => binary ++ Base64.fromCharCode [b])
  with (fun binary b => binary ++ [(fun c => c mod 65536) b]).
now rewrite append_loop.
Qed.

Lemma set_index_app done_ rest v :
  set_index (done_ ++ 0 :: rest) (List.length done_) v = done_ ++ v mod 256 :: rest.
Proof. induction done_ as [|d l IH]; cbn [app List.length set_index]; congruence. Qed.

(** The loop of [base64ToArrayBuffer] after [i] turns. *)
Lemma fill_loop binary filled todo :
  binary = filled ++ todo ->
  fold_left (fun bytes i => set_index bytes i (nth i binary 0))
            (seq (List.length filled) (List.length todo))
            (map (fun c => c mod 256) filled ++ repeat 0 (List.length todo)) =
  map (fun c => c mod 256) binary.
Proof.
revert filled. induction todo as [|c todo IH]; intros filled E.
- cbn [List.length seq fold_left repeat]. subst binary. now rewrite !app_nil_r.
- cbn [List.length seq fold_left repeat].
  replace (List.length filled) with
    (List.length (map (fun c => c mod 256) filled)) at 2 by apply length_map.
  rewrite set_index_app.
  replace (nth (List.length filled) binary 0) with c
    by (subst binary; now rewrite nth_middle).
  specialize (IH (filled ++ [c])).
  rewrite length_app, Nat.add_1_r, map_app in IH. cbn [map] in IH.
  rewrite <- !app_assoc in IH. cbn [app] in IH. apply IH. exact E.
Qed.

Lemma base64ToArrayBuffer_from base64 :
  base64ToArrayBuffer base64 =
  binary <- Base64.atob base64 ;; Return (Base64.charCodes binary).
Proof.
unfold base64ToArrayBuffer. destruct (Base64.atob base64) as [binary|]; [|reflexivity].
cbn [bind]. f_equal. apply (fill_loop binary [] binary). reflexivity.
Qed.

(** X25.  [base64ToArrayBuffer] undoes [arrayBufferToBase64]: every byte
    array has a base64 text, and that text decodes to the same bytes.  A
    text that [atob] refuses makes [base64ToArrayBuffer] throw. *)
Theorem array_buffer_base64_round_trip bytes :
  Forall is_byte bytes ->
  exists text,
    arrayBufferToBase64 bytes = Return text /\
    base64ToArrayBuffer text = Return bytes /\
    (forall bad e, Base64.atob bad = Throw e -> base64ToArrayBuffer bad = Throw e).
Proof.
intros Hb. exists (base64 bytes). split; [|split].
- rewrite arrayBufferToBase64_loop. now apply btoa_fromCharCode.
- rewrite base64ToArrayBuffer_from, atob_base64 by assumption. cbn [bind].
  now rewrite charCodes_bytes.
- intros bad e Hbad. now rewrite base64ToArrayBuffer_from, Hbad.
Qed.

Section WithPlatform.
Context {W : WebCrypto} {Eng : Engine}.

(** X26.  The functions of [lib/crypto-utils.ts] beside those of the same
    name in [hooks/use-crypto.ts].  [decryptMessage], [signData] and
    [verifySignature] return the same on every input.  The two
    [encryptMessage] read the same twelve bytes from the generator and
    return the same whenever the ciphertext has no more bytes than the
    engine accepts as the arguments of one call.  Beyond that they differ:
    the hook, which spreads the ciphertext into [String.fromCharCode],
    throws a [RangeError], whereas [lib/crypto-utils.ts], which builds the
    string in a loop, returns a ciphertext that decrypts to the message as
    [TextDecoder] gives it back. *)
Theorem crypto_utils_mirror_the_hook :
  (forall message key rng,
      snd (CryptoUtils.encryptMessage message key rng) =
      snd (Crypto.encryptMessage message key rng)) /\
  (forall message key rng,
      Z.of_nat
        (List.length
           (aes_gcm_encrypt key (fst (getRandomValues rng 12)) (Text.encode message)))
      <= max_arguments ->
      CryptoUtils.encryptMessage message key rng =
      Crypto.encryptMessage message key rng) /\
  (forall (A : AeadCorrect W) message key rng,
      Forall is_code_unit message ->
      max_arguments <
      Z.of_nat
        (List.length
           (aes_gcm_encrypt key (fst (getRandomValues rng 12)) (Text.encode message))) ->
      fst (Crypto.encryptMessage message key rng) = Throw RangeError /\
      exists e,
        fst (CryptoUtils.encryptMessage message key rng) = Return e /\
        CryptoUtils.decryptMessage (Crypto.ciphertext e) (Crypto.iv e) key =
          Return (Text.decode (Text.encode message))) /\
  (forall ciphertext iv key,
      CryptoUtils.decryptMessage ciphertext iv key =
      Crypto.decryptMessage ciphertext iv key) /\
  (forall data privateKey k,
      CryptoUtils.signData data privateKey k = Crypto.signData data privateKey k) /\
  (forall data signature publicKey,
      CryptoUtils.verifySignature data signature publicKey =
      Crypto.verifySignature data signature publicKey).
Proof.
assert (Hdec : forall ciphertext iv key,
           CryptoUtils.decryptMessage ciphertext iv key =
           Crypto.decryptMessage ciphertext iv key).
{ intros ciphertext iv key. unfold CryptoUtils.decryptMessage, Crypto.decryptMessage.
  rewrite !base64ToArrayBuffer_from.
  destruct (Base64.atob ciphertext); [|reflexivity]. cbn [bind].
  destruct (Base64.atob iv); reflexivity. }
split; [|split; [|split; [|split; [|split]]]].
- intros message key rng. unfold CryptoUtils.encryptMessage, Crypto.encryptMessage.
  now destruct (getRandomValues rng 12).
- intros message key rng Hfit.
  unfold CryptoUtils.encryptMessage, Crypto.encryptMessage.
  destruct (getRandomValues rng 12) as [iv rng']. cbn [fst] in Hfit.
  rewrite !arrayBufferToBase64_loop. now rewrite spread_fits by exact Hfit.
- intros A message key rng Hm Hlong. split.
  + now rewrite encryptMessage_too_long by exact Hlong.
  + exists (Crypto.mkEncrypted (base64 (encrypted message key rng))
                               (base64 (fst (getRandomValues rng 12)))).
    split.
    * unfold CryptoUtils.encryptMessage, encrypted.
      pose proof (getRandomValues_bytes rng 12) as Hiv.
      destruct (getRandomValues rng 12) as [iv rng']. cbn [fst] in *.
      rewrite !arrayBufferToBase64_loop.
      rewrite !btoa_fromCharCode; auto.
      apply encrypt_bytes; [assumption|now apply encode_bytes].
    * cbn [Crypto.ciphertext Crypto.iv]. rewrite Hdec. now apply decrypt_base64.
- exact Hdec.
- intros data privateKey k. unfold CryptoUtils.signData, Crypto.signData.
  apply arrayBufferToBase64_loop.
- intros data signature publicKey.
  unfold CryptoUtils.verifySignature, Crypto.verifySignature.
  rewrite base64ToArrayBuffer_from.
  destruct (Base64.atob signature); reflexivity.
Qed.

End WithPlatform.
End CryptoUtilsFacts.

(** ** Tokens, magic links and sessions *)
Module AuthFacts.
Import JsMapFacts StoreFacts Auth.
Local Open Scope Z_scope.

Definition is_hex_char (c : ascii) : Prop :=
  let n := Z.of_N (N_of_ascii c) in 48 <= n <= 57 \/ 97 <= n <= 102.

(** The two digits of a byte. *)
Definition two_hex (byte : Z) : string :=
  String (hex_char (byte / 16)) (String (hex_char (byte mod 16)) EmptyString).

Lemma hex_char_code d :
  0 <= d < 16 ->
  Z.of_N (N_of_ascii (hex_char d)) = if d <? 10 then 48 + d else 87 + d.
Proof.
intros H. unfold hex_char. rewrite N_ascii_embedding.
- rewrite Z2N.id; [reflexivity|]. destruct (d <? 10); lia.
- destruct (Z.ltb_spec d 10); lia.
Qed.

Lemma hex_char_injective d1 d2 :
  0 <= d1 < 16 -> 0 <= d2 < 16 -> hex_char d1 = hex_char d2 -> d1 = d2.
Proof.
intros H1 H2 E. apply (f_equal (fun c => Z.of_N (N_of_ascii c))) in E.
rewrite !hex_char_code in E by assumption.
destruct (Z.ltb_spec d1 10), (Z.ltb_spec d2 10); lia.
Qed.

Lemma hex_char_is_hex d : 0 <= d < 16 -> is_hex_char (hex_char d).
Proof.
intros H. unfold is_hex_char. cbv zeta. rewrite hex_char_code by assumption.
destruct (Z.ltb_spec d 10); lia.
Qed.

Lemma padded_byte byte :
  is_byte byte -> padStart 2 "0"%char (toString16 byte) = two_hex byte.
Proof.
intros [H0 H1]. unfold padStart, toString16, two_hex.
destruct (Z.ltb_spec byte 16).
- cbn. rewrite Z.div_small, Z.mod_small by lia. reflexivity.
- reflexivity.
Qed.

Lemma two_hex_injective b1 b2 :
  is_byte b1 -> is_byte b2 -> two_hex b1 = two_hex b2 -> b1 = b2.
Proof.
intros [H1 H1'] [H2 H2'] E. unfold two_hex in E. injection E as Eh El.
apply hex_char_injective in Eh; [|Z.div_mod_to_equations; lia..].
apply hex_char_injective in El; [|Z.div_mod_to_equations; lia..].
Z.div_mod_to_equations. lia.
Qed.

Lemma concat_cons (x : string) xs :
  String.concat EmptyString (x :: xs) = (x ++ String.concat EmptyString xs)%string.
Proof.
destruct xs as [|y ys]; cbn [String.concat].
- clear. induction x as [|c x IH]; cbn; congruence.
- reflexivity.
Qed.

(** The token of a byte array. *)
Definition hex_of (bytes : list Z) : string :=
  String.concat EmptyString (map (fun byte => padStart 2 "0"%char (toString16 byte)) bytes).

Lemma hex_of_cons b bytes :
  is_byte b ->
  hex_of (b :: bytes) =
  String (hex_char (b / 16)) (String (hex_char (b mod 16)) (hex_of bytes)).
Proof.
intros Hb. unfold hex_of. cbn [map]. rewrite concat_cons, padded_byte by assumption.
reflexivity.
Qed.

Lemma hex_of_length bytes :
  Forall is_byte bytes -> String.length (hex_of bytes) = (2 * List.length bytes)%nat.
Proof.
induction 1 as [|b bytes Hb _ IH]; [reflexivity|].
rewrite hex_of_cons by assumption. cbn [String.length List.length]. lia.
Qed.

Lemma hex_of_chars bytes c :
  Forall is_byte bytes -> In c (list_ascii_of_string (hex_of bytes)) -> is_hex_char c.
Proof.
induction 1 as [|b bytes Hb _ IH]; [intros []|].
rewrite hex_of_cons by assumption. cbn [list_ascii_of_string].
destruct Hb as [H0 H1].
intros [<-|[<-|Hin]]; [| |now apply IH];
  apply hex_char_is_hex; Z.div_mod_to_equations; lia.
Qed.

Lemma hex_of_injective bytes1 bytes2 :
  Forall is_byte bytes1 -> Forall is_byte bytes2 ->
  hex_of bytes1 = hex_of bytes2 -> bytes1 = bytes2.
Proof.
intros H1. revert bytes2. induction H1 as [|b1 l1 Hb1 _ IH]; intros bytes2 H2 E.
- destruct H2 as [|b2 l2 Hb2 _]; [reflexivity|].
  rewrite hex_of_cons in E by assumption. discriminate.
- destruct H2 as [|b2 l2 Hb2 Hl2].
  + rewrite hex_of_cons in E by assumption. discriminate.
  + rewrite !hex_of_cons in E by assumption. injection E as Eh El Erest.
    f_equal; [|now apply IH].
    apply two_hex_injective; try assumption. unfold two_hex. congruence.
Qed.

Lemma token_length n rng :
  String.length (fst (generateSecureToken n rng)) = (2 * n)%nat.
Proof.
unfold generateSecureToken.
pose proof (CryptoFacts.getRandomValues_bytes rng n) as Hb.
pose proof (CryptoFacts.getRandomValues_length rng n) as Hl.
destruct (getRandomValues rng n) as [bytes rng']. cbn [fst] in *.
fold (hex_of bytes). rewrite hex_of_length by assumption. now rewrite Hl.
Qed.

(** X27.  [generateSecureToken(n)] draws [n] bytes and returns their
    [2 n] lower-case hexadecimal digits, two for each byte; tokens made from
    different bytes are different. *)
Theorem secure_token_is_hex n rng :
  let token := fst (generateSecureToken n rng) in
  String.length token = (2 * n)%nat /\
  (forall c, In c (list_ascii_of_string token) -> is_hex_char c) /\
  rng_pos (snd (generateSecureToken n rng)) = (rng_pos rng + n)%nat /\
  (forall rng2,
      fst (generateSecureToken n rng2) = token ->
      fst (getRandomValues rng2 n) = fst (getRandomValues rng n)).
Proof.
assert (Hshape : forall r, generateSecureToken n r =
                           (hex_of (fst (getRandomValues r n)), snd (getRandomValues r n))).
{ intros r. unfold generateSecureToken.
  now destruct (getRandomValues r n). }
cbv zeta. rewrite Hshape. cbn [fst snd].
pose proof (CryptoFacts.getRandomValues_bytes rng n) as Hb.
split; [|split; [|split]].
- rewrite hex_of_length by assumption.
  now rewrite CryptoFacts.getRandomValues_length.
- intros c. now apply hex_of_chars.
- apply CryptoFacts.getRandomValues_pos.
- intros rng2 E. rewrite Hshape in E. cbn [fst] in E.
  apply hex_of_injective in E; [exact E| |exact Hb].
  apply CryptoFacts.getRandomValues_bytes.
Qed.

(** One row per id, kept under that id. *)
Definition links_ok (st : AuthStorage) : Prop :=
  wf (au_magicLinks st) /\
  Forall (fun kv => fst kv = ml_id (snd kv)) (au_magicLinks st).

Lemma find_map {A} (p : A -> bool) (f : A -> A) l :
  (forall x, p (f x) = p x) -> find p (map f l) = option_map f (find p l).
Proof.
intros H. induction l as [|x l IH]; cbn [map find option_map]; [reflexivity|].
rewrite H. now destruct (p x).
Qed.

Lemma find_In_values {V} (p : V -> bool) (m : JsMap.t V) v :
  find p (JsMap.values m) = Some v -> exists k, In (k, v) m /\ p v = true.
Proof.
intros H. apply find_some in H as [Hin Hp]. apply In_values in Hin as [k Hin].
now exists k.
Qed.

(** What [verifyMagicLink] does with a link that is neither used nor
    expired. *)
Lemma verifyMagicLink_valid st token now link :
  links_ok st ->
  find (fun l => String.eqb (ml_token l) token) (JsMap.values (au_magicLinks st))
    = Some link ->
  ml_used link = false -> now <= ml_expiresAt link ->
  let st1 := mkAuthStorage (au_users st) (au_sessions st)
               (JsMap.set (au_magicLinks st) (ml_id link) (set_used link true)) in
  verifyMagicLink st token now = (JsMap.get (au_users st) (ml_userId link), st1) /\
  JsMap.get (au_magicLinks st) (ml_id link) = Some link /\
  forall now', verifyMagicLink st1 token now' = (None, st1).
Proof.
intros [Hwf Hkeyed] Ef Eu Hexp st1.
apply find_In_values in Ef as Hin. destruct Hin as [k [Hin Htok]].
apply String.eqb_eq in Htok.
assert (k = ml_id link).
{ rewrite Forall_forall in Hkeyed. apply (Hkeyed _ Hin). }
subst k.
assert (Hget : JsMap.get (au_magicLinks st) (ml_id link) = Some link)
  by now apply In_get.
split; [|split; [exact Hget|]].
- unfold verifyMagicLink, magicLink_findUnique. rewrite Ef, Eu. cbn [orb].
  destruct (Z.ltb_spec (ml_expiresAt link) now) as [|_]; [lia|].
  unfold magicLink_update. rewrite Hget. reflexivity.
- intros now'. unfold verifyMagicLink, magicLink_findUnique, st1.
  cbn [au_magicLinks].
  rewrite (set_known (au_magicLinks st) (ml_id link) link
             (fun l => set_used l true) Hwf Hget).
  unfold JsMap.values. rewrite map_map.
  replace (map (fun x => snd (if String.eqb (fst x) (ml_id link)
                              then (fst x, set_used (snd x) true) else x))
               (au_magicLinks st))
    with (map (fun l => if String.eqb (ml_id l) (ml_id link)
                        then set_used l true else l)
              (JsMap.values (au_magicLinks st))).
  2:{ unfold JsMap.values. rewrite map_map. apply map_ext_in.
      intros kv Hkv. rewrite Forall_forall in Hkeyed.
      rewrite <- (Hkeyed _ Hkv). now destruct (String.eqb (fst kv) (ml_id link)). }
  rewrite find_map.
  2:{ intros x. now destruct (String.eqb (ml_id x) (ml_id link)). }
  rewrite Ef. cbn [option_map]. rewrite String.eqb_refl. reflexivity.
Qed.

(** X28.  A magic link works once.  When the first link with the given token
    is neither used nor expired (the date of its expiry included),
    [verifyMagicLink] returns the user the link names ([null] when that user
    is missing) and marks the link used, leaving every other row as it was;
    any later call with the same token returns [null] and changes nothing.
    A user is returned in no other case: a token that is unknown, used or
    expired gives [null] and changes nothing. *)
Theorem magic_link_works_once st token now :
  links_ok st ->
  (forall link,
      find (fun l => String.eqb (ml_token l) token) (JsMap.values (au_magicLinks st))
        = Some link ->
      ml_used link = false -> now <= ml_expiresAt link ->
      exists st1,
        verifyMagicLink st token now =
          (JsMap.get (au_users st) (ml_userId link), st1) /\
        JsMap.get (au_magicLinks st1) (ml_id link) = Some (set_used link true) /\
        (forall id, id <> ml_id link ->
           JsMap.get (au_magicLinks st1) id = JsMap.get (au_magicLinks st) id) /\
        au_users st1 = au_users st /\ au_sessions st1 = au_sessions st /\
        forall now', verifyMagicLink st1 token now' = (None, st1)) /\
  (forall user st1,
      verifyMagicLink st token now = (Some user, st1) ->
      (exists link,
          In link (JsMap.values (au_magicLinks st)) /\ ml_token link = token /\
          ml_used link = false /\ now <= ml_expiresAt link /\
          JsMap.get (au_users st) (ml_userId link) = Some user /\
          JsMap.get (au_magicLinks st1) (ml_id link) = Some (set_used link true)) /\
      au_users st1 = au_users st /\ au_sessions st1 = au_sessions st /\
      forall now', verifyMagicLink st1 token now' = (None, st1)) /\
  (forall link,
      find (fun l => String.eqb (ml_token l) token) (JsMap.values (au_magicLinks st))
        = Some link ->
      ml_used link = true \/ ml_expiresAt link < now ->
      verifyMagicLink st token now = (None, st)) /\
  ((forall link, In link (JsMap.values (au_magicLinks st)) -> ml_token link <> token) ->
   verifyMagicLink st token now = (None, st)).
Proof.
intros Hok. split; [|split; [|split]].
- intros link Ef Eu Hexp.
  destruct (verifyMagicLink_valid st token now link Hok Ef Eu Hexp)
    as (Hv & Hget & Hlater).
  eexists. split; [exact Hv|]. cbn [au_magicLinks au_users au_sessions].
  split; [apply get_set_same|]. split; [|split; [reflexivity|split; [reflexivity|]]].
  + intros id Hid. now apply get_set_other.
  + exact Hlater.
- intros user st1 Hres.
  destruct (find (fun l => String.eqb (ml_token l) token)
                 (JsMap.values (au_magicLinks st))) as [link|] eqn:Ef.
  2:{ unfold verifyMagicLink, magicLink_findUnique in Hres. rewrite Ef in Hres.
      discriminate. }
  destruct (ml_used link) eqn:Eu.
  { unfold verifyMagicLink, magicLink_findUnique in Hres.
    rewrite Ef, Eu in Hres. discriminate. }
  destruct (Z.ltb_spec (ml_expiresAt link) now) as [Hlt|Hexp].
  { unfold verifyMagicLink, magicLink_findUnique in Hres.
    rewrite Ef, Eu in Hres. cbn [orb] in Hres.
    apply Z.ltb_lt in Hlt. rewrite Hlt in Hres. discriminate. }
  destruct (verifyMagicLink_valid st token now link Hok Ef Eu Hexp)
    as (Hv & Hget & Hlater).
  rewrite Hv in Hres. injection Hres as Huser <-.
  cbn [au_magicLinks au_users au_sessions].
  split; [|split; [reflexivity|split; [reflexivity|exact Hlater]]].
  apply find_In_values in Ef as Hin. destruct Hin as [k [Hin Htok]].
  apply String.eqb_eq in Htok.
  exists link. repeat split; auto.
  + apply In_values. now exists k.
  + apply get_set_same.
- intros link Ef Hbad. unfold verifyMagicLink, magicLink_findUnique. rewrite Ef.
  destruct Hbad as [-> | Hexp]; [reflexivity|].
  destruct (Z.ltb_spec (ml_expiresAt link) now); [|lia].
  now rewrite orb_true_r.
- intros Hnone. unfold verifyMagicLink, magicLink_findUnique.
  destruct (find _ _) as [link|] eqn:Ef; [|reflexivity].
  apply find_some in Ef as [Hin Htok]. apply String.eqb_eq in Htok.
  now apply Hnone in Hin.
Qed.

Section WithJose.
Variable verifyJWT : string -> option TokenPayload.

Lemma get_delete_same {V} (m : JsMap.t V) k : JsMap.get (JsMap.delete m k) k = None.
Proof.
unfold JsMap.delete. induction m as [|[k' v] m IH]; cbn [filter JsMap.get fst];
  [reflexivity|].
destruct (String.eqb k' k) eqn:E; cbn [negb JsMap.get]; [exact IH|].
now rewrite E.
Qed.

Lemma get_delete_other {V} (m : JsMap.t V) k k' :
  k' <> k -> JsMap.get (JsMap.delete m k) k' = JsMap.get m k'.
Proof.
intros Hne. unfold JsMap.delete.
induction m as [|[k0 v] m IH]; cbn [filter JsMap.get fst]; [reflexivity|].
destruct (String.eqb k0 k) eqn:E; cbn [negb JsMap.get].
- apply String.eqb_eq in E. subst k0.
  assert (E' : String.eqb k k' = false) by (apply String.eqb_neq; congruence).
  now rewrite E'.
- now rewrite IH.
Qed.

(** X29.  [getSession] returns a session exactly when the cookie holds a
    token that verifies, the session the token names is stored, and its
    expiry is not in the past (a session is still valid at the very date of
    its expiry).  Logging out deletes that session: from then on no token
    that names it gives a session, at any time, whereas every other session
    is left as it is; and a route that relies on [getSession], such as
    [POST /api/delete], answers 401. *)
Theorem session_ends_at_logout st cookie now :
  (forall session user,
      getSession verifyJWT st cookie now = Some (session, user) <->
      exists token payload,
        or_null cookie = Some token /\ verifyJWT token = Some payload /\
        truthy (tp_sessionId payload) = true /\
        JsMap.get (au_sessions st) (tp_sessionId payload) = Some session /\
        now <= sn_expiresAt session /\
        user = JsMap.get (au_users st) (sn_userId session)) /\
  (forall token payload,
      or_null cookie = Some token -> verifyJWT token = Some payload ->
      let st' := fst (logout verifyJWT st cookie) in
      (forall cookie' token' payload' now',
          or_null cookie' = Some token' -> verifyJWT token' = Some payload' ->
          tp_sessionId payload' = tp_sessionId payload ->
          getSession verifyJWT st' cookie' now' = None /\
          forall store body env,
            Delete.POST store
              (route_session (getSession verifyJWT st' cookie' now')) body env =
            (Err 401 "Unauthorized", store)) /\
      (forall id, id <> tp_sessionId payload ->
                  JsMap.get (au_sessions st') id = JsMap.get (au_sessions st) id) /\
      au_users st' = au_users st /\ au_magicLinks st' = au_magicLinks st) /\
  ((or_null cookie = None \/
    exists token, or_null cookie = Some token /\ verifyJWT token = None) ->
   logout verifyJWT st cookie = (st, None)).
Proof.
split; [|split].
- intros session user. unfold getSession, session_findUnique. split.
  + destruct (or_null cookie) as [token|] eqn:Ec; [|discriminate].
    destruct (verifyJWT token) as [payload|] eqn:Ev; [|discriminate].
    destruct (truthy (tp_sessionId payload)) eqn:Et; [|discriminate].
    destruct (JsMap.get (au_sessions st) (tp_sessionId payload)) as [s|] eqn:Eg;
      [|discriminate].
    destruct (Z.ltb_spec (sn_expiresAt s) now); [discriminate|].
    intros [= <- <-]. exists token, payload. repeat split; auto.
  + intros (token & payload & -> & -> & -> & -> & Hle & ->).
    destruct (Z.ltb_spec (sn_expiresAt session) now); [lia|reflexivity].
- intros token payload Hc Hv st'.
  assert (Hst' : st' = invalidateSession st (tp_sessionId payload)).
  { unfold st', logout. now rewrite Hc, Hv. }
  rewrite Hst'. split; [|split; [|split]]; try reflexivity.
  + intros cookie' token' payload' now' Hc' Hv' Hid.
    assert (Hnone : getSession verifyJWT (invalidateSession st (tp_sessionId payload))
                               cookie' now' = None).
    { unfold getSession, session_findUnique. rewrite Hc', Hv', Hid.
      cbn [invalidateSession session_delete au_sessions].
      rewrite get_delete_same. now destruct (truthy (tp_sessionId payload)). }
    split; [exact Hnone|]. intros store body env. now rewrite Hnone.
  + intros id Hne. cbn [invalidateSession session_delete au_sessions].
    now apply get_delete_other.
- intros [Hc|[token [Hc Hv]]]; unfold logout; rewrite Hc; [reflexivity|].
  now rewrite Hv.
Qed.

(** A session made by [createSession] is stored under its id with a
    token of 64 hexadecimal digits and an expiry thirty days ahead; until
    that date, [getSession] returns it, with the user's row, for a cookie
    whose token names it, and after that date it returns [null]. *)
Theorem created_session_lasts_thirty_days st userId deviceInfo env token payload :
  truthy token = true ->
  verifyJWT token = Some payload ->
  tp_sessionId payload = Auth.env_id env ->
  truthy (Auth.env_id env) = true ->
  let session := fst (createSession st userId deviceInfo env) in
  let st1 := snd (createSession st userId deviceInfo env) in
  sn_id session = Auth.env_id env /\ sn_userId session = userId /\
  sn_expiresAt session = Auth.env_now env + 30 * 24 * 60 * 60 * 1000 /\
  String.length (sn_token session) = 64%nat /\
  JsMap.get (au_sessions st1) (Auth.env_id env) = Some session /\
  (forall now, now <= sn_expiresAt session ->
               getSession verifyJWT st1 (Some token) now =
               Some (session, JsMap.get (au_users st) userId)) /\
  (forall now, sn_expiresAt session < now ->
               getSession verifyJWT st1 (Some token) now = None).
Proof.
intros Ht Hv Hid Henv. cbv zeta.
assert (Hshape : createSession st userId deviceInfo env =
  session_create st (Auth.env_id env) (Auth.env_createdAt env) userId
    (fst (generateSecureToken 32 (Auth.env_rng env))) (or_null deviceInfo)
    (Auth.env_now env + THIRTY_DAYS)).
{ unfold createSession. now destruct (generateSecureToken 32 (Auth.env_rng env)). }
rewrite Hshape. unfold session_create. cbn [fst snd sn_id sn_userId sn_expiresAt sn_token].
split; [reflexivity|]. split; [reflexivity|]. split; [reflexivity|]. split.
{ apply (token_length 32). }
cbn [au_sessions]. split; [apply get_set_same|]. split.
- intros now Hle. unfold getSession, session_findUnique. cbn [or_null].
  rewrite Ht, Hv, Hid, Henv. cbn [au_sessions au_users].
  rewrite get_set_same. cbn [sn_expiresAt sn_userId].
  destruct (Z.ltb_spec (Auth.env_now env + THIRTY_DAYS) now); [lia|reflexivity].
- intros now Hlt. unfold getSession, session_findUnique. cbn [or_null].
  rewrite Ht, Hv, Hid, Henv. cbn [au_sessions au_users].
  rewrite get_set_same. cbn [sn_expiresAt sn_userId].
  destruct (Z.ltb_spec (Auth.env_now env + THIRTY_DAYS) now); [reflexivity|lia].
Qed.

Lemma substring_all s : String.substring 0 (String.length s) s = s.
Proof. induction s as [|c s IH]; cbn; congruence. Qed.

(** X30.  [/api/signal] accepts a bearer token on the strength of the token
    alone: when the [authorization] header holds a token that verifies, the
    request is authenticated as the user of its payload whatever the session
    table holds, so also after that user has logged out, when the same token
    presented as a cookie gives no session any more. *)
Theorem bearer_token_outlives_logout st token payload now :
  verifyJWT token = Some payload ->
  truthy (tp_userId payload) = true ->
  truthy token = true ->
  (forall st' cookie now',
      Signal.authenticate
        (signal_auth verifyJWT st' (Some ("Bearer " ++ token)%string) cookie now') =
      Some (tp_userId payload)) /\
  Signal.authenticate
    (signal_auth verifyJWT (fst (logout verifyJWT st (Some token))) None (Some token) now)
  = None.
Proof.
intros Hv Hu Ht. split.
- intros st' cookie now'. unfold signal_auth, Signal.authenticate.
  cbn [Signal.bearer Signal.session].
  change (String.prefix "Bearer " ("Bearer " ++ token)%string)
    with (String.prefix "" token).
  replace (String.prefix "" token) with true by now destruct token.
  replace (String.substring 7 (String.length ("Bearer " ++ token)%string - 7)
                            ("Bearer " ++ token)%string)
    with token.
  + rewrite Hv. cbn [or_null]. now rewrite Hu.
  + cbn [append String.length substring Nat.sub]. rewrite Nat.sub_0_r.
    symmetry. apply substring_all.
- unfold signal_auth, Signal.authenticate. cbn [Signal.bearer Signal.session or_null].
  unfold logout, getSession, session_findUnique. cbn [or_null].
  rewrite Ht, Hv. cbn [fst invalidateSession session_delete au_sessions].
  rewrite get_delete_same. now destruct (truthy (tp_sessionId payload)).
Qed.

End WithJose.
End AuthFacts.

(** ** From the sender's input to the reader's screen *)
Module EndToEndFacts.
Import JsMapFacts StoreFacts ArrayFacts Base64Facts TextFacts CryptoFacts JsonFacts.
Import MessagesPage MessagesPageFacts MessagesPostFacts ChatRoomActions ChatRoomFacts.
Local Open Scope Z_scope.
Section WithPlatform.
Context {W : WebCrypto} {Eng : Engine}.







End WithPlatform.
End EndToEndFacts.

(** ** Closed instances: the routes on a longer conversation *)
Module RouteInstances.
Local Open Scope Z_scope.
Import Scenario Conversation.

(** Alice's offer to Bob is in Bob's next poll. *)
Lemma signal_reaches_target_witness :
  exists dtos st2,
    Signal.GET (snd (Signal.POST Scenario.store as_alice (Some offer_to_bob) broadcast_env))
               as_bob (Some "chat-1") 41000 = (Ok dtos, st2) /\
    In (Signal.mkSignalDTO "offer" "sdp-4" "alice" (Some "bob") "chat-1") dtos.
Proof.
apply (SignalRouteFacts.signal_reaches_target
         Scenario.store as_alice offer_to_bob broadcast_env "alice" "bob" as_bob 41000);
  try reflexivity.
- constructor.
- vm_compute. discriminate.
Defined.

(** Alice's post at 40002 sweeps the three signals that have expired. *)
Lemma signal_post_cleanup_witness :
  exists userId,
    Signal.authenticate as_alice = Some userId /\
    signalEvents (snd (Signal.POST signal_store as_alice (Some broadcast) broadcast_env)) =
    filter (fun kv => negb (se_expiresAt (snd kv) <? 40002))
           (JsMap.set (signalEvents signal_store) "sig-3"
                      (SignalRouteFacts.posted userId broadcast broadcast_env)) /\
    (forall k row,
        In (k, row)
           (signalEvents (snd (Signal.POST signal_store as_alice (Some broadcast) broadcast_env))) ->
        40002 <= se_expiresAt row).
Proof.
apply (SignalRouteFacts.signal_post_cleanup signal_store as_alice broadcast broadcast_env).
- apply ServerInstances.signal_store_ok.
- reflexivity.
Defined.

(** What Alice's accepted request to delete ["m1"] returns and leaves. *)
Lemma delete_posted :
  exists dto st',
    Delete.POST Scenario.store (Some alice_session) (Some unsigned_request) delete_env =
    (Ok dto, st').
Proof. vm_compute. eauto. Defined.

Lemma conversation_ok : MessagesPageFacts.store_ok Conversation.store.
Proof. split; [ServerInstances.distinct_keys|repeat constructor]. Qed.

Lemma conversation_ids m :
  In m (JsMap.values (messages Conversation.store)) -> truthy (msg_id m) = true.
Proof. intros Hin. repeat destruct Hin as [<-|Hin]; try reflexivity. contradiction. Qed.

(** Alice lists the delete events of ["chat-1"]. *)
Lemma delete_get_lists_witness :
  exists events,
    Delete.GET delete_store (Some alice_session) (Some "chat-1") None =
      Ok (map (fun e => Delete.mkDeleteEventWithKey
                          (Delete.mkDeleteEventDTO
                             (de_id e) (de_messageId e) (de_chatId e)
                             (de_senderId e) (de_signature e) (de_timestamp e))
                          (DeleteRouteFacts.published_key delete_store (de_senderId e)))
              events) /\
    (forall e, In e events <->
               In e (JsMap.values (deleteEvents delete_store)) /\
               DeleteRouteFacts.listed_since "chat-1" None e) /\
    StronglySorted (key_le DeleteRouteFacts.time) events.
Proof.
destruct (DeleteRouteFacts.delete_get_lists
            delete_store alice_session "alice" "chat-1" None)
  as (events & Hget & Hin & _ & Hsorted & _);
  [reflexivity|reflexivity|vm_compute; discriminate|].
exists events. split; [exact Hget|]. split; [exact Hin|].
apply Hsorted. apply Forall_forall. intros e He.
apply Hin in He as [[<-|[]] _]. discriminate.
Defined.

(** Bob, who asks for the events after 4000, is given Alice's event with
    her key. *)
Lemma delete_event_listed_witness :
  exists dto listed,
    fst (Delete.POST Scenario.store (Some alice_session) (Some unsigned_request)
                     delete_env) = Ok dto /\
    Delete.GET (snd (Delete.POST Scenario.store (Some alice_session)
                                 (Some unsigned_request) delete_env))
               (Some bob_session) (Some "chat-1") (Some 4000) = Ok listed /\
    In (Delete.mkDeleteEventWithKey dto (Some "AQ==")) listed.
Proof.
destruct delete_posted as (dto & st' & Hpost).
destruct (DeleteRouteFacts.delete_event_listed
            Scenario.store alice_session unsigned_request delete_env dto st'
            bob_session "bob" (Some 4000) Hpost)
  as (userId & listed & Huser & _ & Hget & Hin).
- reflexivity.
- vm_compute. discriminate.
- intros t x [= <-]. injection Hpost as <- _. intros [= <-]. reflexivity.
- injection Huser as <-. exists dto, listed. rewrite Hpost. auto.
Defined.

(** The same request once more, with the next id. *)
Lemma delete_again_accepted_witness :
  exists dto2 st2,
    Delete.POST (snd (Delete.POST Scenario.store (Some alice_session)
                                  (Some unsigned_request) delete_env))
                (Some alice_session) (Some unsigned_request)
                (Delete.mkPostEnv 6001 "del-2" 6002) = (Ok dto2, st2) /\
    Delete.dto_id dto2 = "del-2" /\
    JsMap.get (deleteEvents st2) "del-1" =
      Some (DeleteRouteFacts.stored "alice" unsigned_request delete_env).
Proof.
destruct delete_posted as (dto & st' & Hpost).
destruct (DeleteRouteFacts.delete_again_accepted
            Scenario.store alice_session unsigned_request delete_env dto st'
            (Delete.mkPostEnv 6001 "del-2" 6002) Hpost)
  as (userId & dto2 & st2 & Huser & Hpost2 & Hid & _ & _ & Hkept).
injection Huser as <-. exists dto2, st2. rewrite Hpost.
split; [exact Hpost2|]. split; [exact Hid|]. apply Hkept. discriminate.
Defined.

(** Alice's request that names ["chat-2"] for a message of ["chat-1"]. *)
Lemma delete_event_filed_under_request_chat_witness :
  exists dto st',
    Delete.POST Conversation.store (Some alice_session) (Some misfiled_request)
                delete_env = (Ok dto, st') /\
    Delete.dto_chatId dto = "chat-2" /\
    Db.message_findUnique st' "m1" = Some (DeleteFacts.tombstone m1) /\
    (forall session2 events st'',
        Messages.GET st' session2 (Some "chat-1") = (Ok events, st'') ->
        ~ In "del-1" (map de_id events)) /\
    (forall session2 since listed,
        Delete.GET st' session2 (Some "chat-1") since = Ok listed ->
        ~ In "del-1" (map (fun d => Delete.dto_id (Delete.dk_event d)) listed)).
Proof.
apply (DeleteRouteFacts.delete_event_filed_under_request_chat
         Conversation.store alice_session "alice" misfiled_request delete_env m1);
  try reflexivity.
- split; constructor.
- vm_compute. discriminate.
- vm_compute. discriminate.
Defined.

(** The first page of ["chat-1"], oldest message first. *)
Lemma messages_first_page_witness :
  exists page st',
    MessagesPage.GET Conversation.store (Some alice_session) (Some "chat-1") None None =
      (Ok page, st') /\
    map MessagesPage.mws_message (MessagesPage.page_messages page) = [m1; m2; m3] /\
    messages st' = messages Conversation.store.
Proof.
destruct (MessagesPageFacts.messages_first_page
            Conversation.store alice_session "alice" "chat-1" None 50)
  as (page & st' & Hget & Hpage & _ & _ & _ & _ & Hsame);
  [reflexivity|reflexivity|vm_compute; discriminate|reflexivity|reflexivity|].
exists page, st'. auto.
Defined.

(** The page of two after the cursor ["m3"]. *)
Lemma messages_page_after_cursor_witness :
  exists page st',
    MessagesPage.GET Conversation.store (Some alice_session) (Some "chat-1")
                     (Some "m3") (Some "2") = (Ok page, st') /\
    map MessagesPage.mws_message (MessagesPage.page_messages page) = [m1; m2].
Proof.
destruct (MessagesPageFacts.messages_page_after_cursor
            Conversation.store alice_session "alice" "chat-1" "m3" (Some "2") 2)
  as [Hfound _];
  [apply conversation_ok|reflexivity|reflexivity|vm_compute; discriminate
  |reflexivity|reflexivity|reflexivity|].
destruct (Hfound 0%nat m3 eq_refl eq_refl) as (page & st' & Hget & Hpage & _).
exists page, st'. auto.
Defined.

(** Pages of two: the first holds ["m2"] and ["m3"] and names ["m3"] as the
    next cursor; the page asked for with that cursor holds ["m1"] and
    ["m2"]. *)
Lemma messages_next_cursor_witness :
  exists page st' page2 st2,
    MessagesPage.GET Conversation.store (Some alice_session) (Some "chat-1")
                     None (Some "2") = (Ok page, st') /\
    map MessagesPage.mws_message (MessagesPage.page_messages page) = [m2; m3] /\
    MessagesPage.page_nextCursor page = MessagesPage.cursor_id "m3" /\
    MessagesPage.GET st' (Some alice_session) (Some "chat-1")
                     (Some "m3") (Some "2") = (Ok page2, st2) /\
    map MessagesPage.mws_message (MessagesPage.page_messages page2) = [m1; m2].
Proof.
destruct (MessagesPageFacts.messages_next_cursor
            Conversation.store alice_session "alice" "chat-1" None (Some "2") 2 0%nat)
  as (page & st' & Hget & Hpage & _ & Hfull);
  [apply conversation_ok|apply conversation_ids|reflexivity|reflexivity
  |vm_compute; discriminate|reflexivity|reflexivity|reflexivity|].
destruct Hfull as (newest & page2 & st2 & Hnewest & _ & Hcursor & Hget2 & Hpage2).
{ vm_compute. auto. }
injection Hnewest as <-.
exists page, st', page2, st2. auto.
Defined.

(** The limit ["0"] puts no bound on the page. *)
Lemma messages_page_without_bound_witness :
  exists page st',
    MessagesPage.GET Conversation.store (Some alice_session) (Some "chat-1")
                     None (Some "0") = (Ok page, st') /\
    map MessagesPage.mws_message (MessagesPage.page_messages page) = [m1; m2; m3] /\
    MessagesPage.page_nextCursor page = MessagesPage.cursor_null.
Proof.
destruct (MessagesPageFacts.messages_page_without_bound
            Conversation.store alice_session "alice" "chat-1" (Some "0"))
  as (page & st' & Hget & _ & Hzero & _);
  [reflexivity|reflexivity|vm_compute; discriminate|].
destruct (Hzero eq_refl) as [Hpage Hcursor].
exists page, st'. auto.
Defined.

(** Alice's message, sent at 9000, closes the page Bob is given. *)
Lemma message_sent_is_shown_witness :
  exists page st2 earlier,
    MessagesPage.GET
      (snd (fst (MessagesPage.POST Conversation.store chats (Some alice_session)
                                   (Some sent_body) send_env)))
      (Some bob_session) (Some "chat-1") None None = (Ok page, st2) /\
    MessagesPage.page_messages page =
      earlier ++
      [MessagesPage.mkMessageWithSender
         (mkMessage "m9" "chat-1" "alice" "BwABAgMEBQYHCAkKC2hp" "AAECAwQFBgcICQoL"
                    "text" 9000)
         (Some alice)].
Proof.
destruct (MessagesPostFacts.message_sent_is_shown
            Conversation.store chats alice_session "alice" sent_body send_env
            bob_session "bob" None 50)
  as (page & st2 & earlier & Hget & Hpage & _);
  [reflexivity|reflexivity|reflexivity| |reflexivity|vm_compute; discriminate
  |reflexivity|reflexivity|].
- intros m Hin _. repeat destruct Hin as [<-|Hin]; try reflexivity. contradiction.
- exists page, st2, earlier. auto.
Defined.

(** Once ["m1"] is deleted, the page that holds it shows no content. *)
Lemma deleted_message_content_is_gone_witness :
  exists page st'',
    MessagesPage.GET
      (snd (Delete.POST Scenario.store (Some alice_session) (Some unsigned_request)
                        delete_env))
      (Some bob_session) (Some "chat-1") None None = (Ok page, st'') /\
    map (fun x => msg_id (MessagesPage.mws_message x)) (MessagesPage.page_messages page)
      = ["m1"] /\
    forall x,
      In x (MessagesPage.page_messages page) ->
      msg_ciphertext (MessagesPage.mws_message x) = "" /\
      msg_iv (MessagesPage.mws_message x) = "" /\
      msg_contentType (MessagesPage.mws_message x) = "deleted".
Proof.
destruct delete_posted as (dto & st' & Hpost). rewrite Hpost. cbn [snd].
assert (Hok : MessagesPageFacts.store_ok Scenario.store)
  by (split; [ServerInstances.distinct_keys|repeat constructor]).
assert (Hget : exists page st'',
           MessagesPage.GET st' (Some bob_session) (Some "chat-1") None None =
             (Ok page, st'') /\
           map (fun x => msg_id (MessagesPage.mws_message x))
               (MessagesPage.page_messages page) = ["m1"]).
{ injection Hpost as _ <-. vm_compute. eauto. }
destruct Hget as (page & st'' & Hget & Hids).
exists page, st''. split; [exact Hget|]. split; [exact Hids|].
intros x Hin.
apply (MessagesPostFacts.deleted_message_content_is_gone
         Scenario.store (Some alice_session) (Some unsigned_request) delete_env dto st'
         Hok Hpost (Some bob_session) (Some "chat-1") None None page st'' x Hget Hin).
assert (Hx : In (msg_id (MessagesPage.mws_message x)) ["m1"]).
{ rewrite <- Hids.
  exact (in_map (fun y => msg_id (MessagesPage.mws_message y)) _ x Hin). }
destruct Hx as [<-|[]]. injection Hpost as <- _. reflexivity.
Defined.

End RouteInstances.

(** ** Closed instances: the chat room, the hook and the sessions *)
Module RoomInstances.
Local Open Scope Z_scope.
Import Reference ReferenceFacts Scenario Conversation.
Import Json ChatRoom ChatRoomActions.

Lemma jsstring_ok str : Forall is_code_unit (code_units str).
Proof. apply code_units_are_code_units. Qed.

(** Bob's poll is handed Alice's event, whose signature ["x"] is no
    signature at all, and the chat room hides the message. *)
Lemma relayed_delete_is_applied_unverified_witness :
  exists events st2,
    Messages.GET (snd (Delete.POST Scenario.store (Some alice_session)
                                   (Some unsigned_request) delete_env))
                 (Some bob_session) (Some "chat-1") = (Ok events, st2) /\
    (exists e, In e events /\ de_signature e = "x") /\
    forall deleted,
      set_has (processDeletes (W := platform) deleted (map view_of_row events)) m1_id
      = true.
Proof.
destruct RouteInstances.delete_posted as (dto & st1 & Hpost).
destruct (ClientRelayFacts.relayed_delete_is_applied_unverified
            (W := platform) Scenario.store alice_session unsigned_request delete_env
            dto st1 bob_session "bob" Hpost)
  as (events & st2 & Hget & (e & Hin & _ & Hsig) & Hall);
  [reflexivity|vm_compute; discriminate|].
exists events, st2. rewrite Hpost. split; [exact Hget|]. split.
- now exists e.
- intros deleted. apply (Hall deleted).
Defined.

(** Alice deletes ["m1"] with her signing key. *)
Lemma chat_room_delete_signature_verifies_witness :
  exists request,
    handleDelete (W := platform) chat1 alice_id m1_id (Some true) 3 5000 []
                 (fun _ => true) = (Some request, [m1_id]) /\
    verify_view
      (mkDeleteEventView m1_id alice_id (dr_signature request)
                         (Some (CryptoFacts.base64 (export_spki (public_of true)))))
      (CryptoFacts.base64 (export_spki (public_of true))) = Return true.
Proof.
destruct (ChatRoomSignatureFacts.chat_room_delete_signature_verifies
            (W := platform) (SC := reference_signature)
            chat1 alice_id m1_id true 3 5000 [] (fun _ => true))
  as (request & Hsend & _ & _ & _ & Hverify & _);
  [apply jsstring_ok|apply jsstring_ok|].
exists request. split; [exact Hsend|]. apply Hverify.
Defined.

(** The signature of the chat room and that of [createDeleteEvent] for the
    same deletion. *)
Lemma delete_signature_formats_differ_witness :
  (forall deleted response_ok request deleted',
      handleDelete (W := platform) chat1 alice_id m1_id (Some true) 3 5000
                   deleted response_ok = (Some request, deleted') ->
      forall m' c' s' t' key',
        Forall is_code_unit m' -> Forall is_code_unit c' -> Forall is_code_unit s' ->
        DeleteMessage.verifyDeleteEvent
          (DeleteMessage.mkDeleteControlMessage m' c' s' (dr_signature request) t')
          key' = false) /\
  (forall record,
      DeleteMessage.createDeleteEvent (W := platform) m1_id chat1 alice_id true 5000 3
        = Return record ->
      forall m' s' key',
        Forall is_code_unit m' -> Forall is_code_unit s' ->
        verify_view
          (mkDeleteEventView m' s' (DeleteMessage.signature record) (Some key')) key'
        <> Return true).
Proof.
apply (ChatRoomSignatureFacts.delete_signature_formats_differ
         (W := platform) (SC := reference_signature) (SI := reference_ideal)
         chat1 alice_id m1_id true 3 5000); apply jsstring_ok.
Defined.

Lemma typed_code_units : Forall is_code_unit typed.
Proof. repeat constructor; unfold is_code_unit; lia. Qed.

(** Alice types [" hi "]: the request holds ["hi"], encrypted. *)
Lemma handle_send_round_trip_witness :
  exists request,
    handleSend (W := platform) chat1 typed (Some 7) false counting_rng (fun _ => true) =
      (Some request, [], false, snd (getRandomValues counting_rng 12)) /\
    Crypto.decryptMessage (sr_ciphertext request) (sr_iv request) 7 =
      Return [104; 105].
Proof.
destruct (ChatRoomFacts.handle_send_round_trip
            (W := platform) (A := reference_aead)
            chat1 typed 7 counting_rng (fun _ => true))
  as [Hshort _]; [exact typed_code_units|reflexivity|].
destruct Hshort as (request & Hsend & _ & _ & _ & _ & Hread).
{ vm_compute. discriminate. }
exists request. split; [exact Hsend|]. apply Hread. reflexivity.
Defined.


(** A message of 70000 letters on an engine that accepts 65536 arguments:
    the hook throws, [lib/crypto-utils.ts] encrypts. *)
Lemma crypto_utils_mirror_the_hook_witness :
  fst (Crypto.encryptMessage (W := platform) (repeat 97 (Z.to_nat 70000)) 7
                             counting_rng) = Throw RangeError /\
  exists e,
    fst (CryptoUtils.encryptMessage (W := platform) (repeat 97 (Z.to_nat 70000)) 7
                                    counting_rng) = Return e /\
    CryptoUtils.decryptMessage (Crypto.ciphertext e) (Crypto.iv e) 7 =
      Return (Text.decode (Text.encode (repeat 97 (Z.to_nat 70000)))).
Proof.
destruct (CryptoUtilsFacts.crypto_utils_mirror_the_hook (W := platform))
  as (_ & _ & Hlong & _).
apply (Hlong reference_aead).
- apply Forall_forall. intros c Hc. apply repeat_spec in Hc. subst c.
  unfold is_code_unit. lia.
- vm_compute. reflexivity.
Defined.

(** A signature for ["hello"]. *)
Lemma sign_verify_round_trip_witness :
  exists signature,
    Crypto.signData (W := platform) hello true 3 = Return signature /\
    Crypto.verifySignature hello signature (public_of true) = Return true.
Proof.
destruct (HookFacts.sign_verify_round_trip
            (W := platform) (SC := reference_signature) hello true 3)
  as (signature & Hsign & Hverify & _); [exact (jsstring_ok "hello")|].
now exists signature.
Defined.

(** A device that holds a key set loads it. *)
Lemma initialize_keys_loads_stored_witness :
  KeyStore.initializeKeys (Some old_keys) old_hook (reset_env false) =
  (Some (KeyStore.exportedPublicKey old_keys), Some old_keys, KeyStore.loaded old_keys).
Proof.
apply (proj1 (HookFacts.initialize_keys_loads_stored
                (W := platform) (SC := reference_signature)
                old_keys old_hook (reset_env false))).
reflexivity.
Defined.

(** A first start on an empty device. *)
Lemma published_key_verifies_own_signatures_witness :
  let '(r, _, h) :=
    KeyStore.initializeKeys (W := platform) None old_hook (reset_env false) in
  exists exported publicKey privateKey,
    r = Some exported /\
    KeyStore.publicKeyExport h = Some exported /\
    KeyStore.hook_signingKeyPair h = Some (publicKey, privateKey) /\
    Crypto.importPublicKey exported = Return publicKey /\
    forall data k,
      Forall is_code_unit data ->
      exists signature,
        Crypto.signData data privateKey k = Return signature /\
        Crypto.verifySignature data signature publicKey = Return true.
Proof.
apply (HookFacts.published_key_verifies_own_signatures
         (W := platform) (SC := reference_signature) old_hook (reset_env false));
  reflexivity.
Defined.

(** Three bytes. *)
Lemma array_buffer_base64_round_trip_witness :
  exists text,
    CryptoUtils.arrayBufferToBase64 [1; 2; 3] = Return text /\
    CryptoUtils.base64ToArrayBuffer text = Return [1; 2; 3].
Proof.
destruct (CryptoUtilsFacts.array_buffer_base64_round_trip [1; 2; 3])
  as (text & Hencode & Hdecode & _).
- repeat constructor; unfold is_byte; lia.
- now exists text.
Defined.

(** Bob's magic link at 8000, the date of its expiry. *)
Lemma magic_link_works_once_witness :
  exists st1,
    Auth.verifyMagicLink auth_store "c0ffee" 8000 = (Some bob, st1) /\
    JsMap.get (Auth.au_magicLinks st1) "link-1" =
      Some (Auth.mkMagicLink "link-1" "bob" "c0ffee" true 8000 2000) /\
    forall now', Auth.verifyMagicLink st1 "c0ffee" now' = (None, st1).
Proof.
destruct (AuthFacts.magic_link_works_once auth_store "c0ffee" 8000) as [Hvalid _].
- split; [ServerInstances.distinct_keys|repeat constructor].
- destruct (Hvalid bob_link) as (st1 & Hres & Hused & _ & _ & _ & Hlater);
    [reflexivity|reflexivity|vm_compute; discriminate|].
  exists st1. split; [exact Hres|]. split; [exact Hused|exact Hlater].
Defined.

(** Alice's token after she has logged out. *)
Lemma bearer_token_outlives_logout_witness :
  (forall st' cookie now',
      Signal.authenticate
        (Auth.signal_auth verify_alice st' (Some "Bearer jwt-alice") cookie now') =
      Some "alice") /\
  Signal.authenticate
    (Auth.signal_auth verify_alice
       (fst (Auth.logout verify_alice auth_store (Some "jwt-alice")))
       None (Some "jwt-alice") 5000) = None.
Proof.
apply (AuthFacts.bearer_token_outlives_logout
         verify_alice auth_store "jwt-alice" alice_payload 5000); reflexivity.
Defined.

End RoomInstances.
